(* ===== verification/_CoqProject ===== *)
-Q . S2P
Prelude.v
Util.v
Threads.v
Lockable.v
Logging.v
EventLoop.v
Base64.v
OrdMap.v
Mime.v
Response.v
Request.v
RequestTypes.v
PluginHost.v
Client.v
FS.v
HttpServer.v
NetServer.v
NetThreads.v
Locks.v
NetLocks.v
Lifecycle.v
Running.v
Process.v
ModuleCache.v
ModuleLocks.v
Preprocessor.v
Fileserv.v
GeoIP.v
Plugins.v
Core.v
Configs.v
LetsEncrypt.v
Shell.v
ShellTimeout.v
Game3CI.v
Ansuz.v
Stack.v
Served.v
Echoed.v
Challenged.v
ChessBoard.v
ChessMatch.v
ChessRules.v
ChessGame.v
ProbChess.v
ChessTables.v
