(* ===== verification/Prelude.v ===== *)
(** * Algiz: a verification development

    Algiz is a web server in C++: HTTP/1.1 and WebSockets over libevent, with
    plugins that are loaded while it runs.  This library models the program
    file by file, as definitions that can be run, and proves what makes the
    parts and some of their compositions correct.

    ** The program

    [main] ([src/main.cpp]) reads the configuration and hands it to [Core]
    ([src/Core.cpp]), which makes up to two pairs of a network server
    ([src/net/Server.cpp], or [src/net/SSLServer.cpp] with TLS) and an HTTP
    server ([src/http/Server.cpp]).  The network server accepts connections in
    worker threads, keeps the tables of descriptors, clients and bufferevents,
    and cuts what arrives into lines.  Each line goes to the client object
    ([src/http/Client.cpp]), which feeds a request ([src/http/Request.cpp]) or,
    after an upgrade, reads WebSocket frames.  A complete request goes to the
    HTTP server, which passes it through the handlers of the plugins
    ([src/PluginHost.cpp], [src/plugins/]); they answer through responses
    ([src/http/Response.cpp]).  Plugins hold their handlers, the server holds
    weak pointers to them.

    ** The files

    - [Prelude.v]: bytes, outcomes, the state monad [M], its weakest
      preconditions [wp] and [twp], decimal numbers, lemmas on lists and strings.
    - [Util.v], [Base64.v], [Mime.v], [OrdMap.v]: the helpers of [src/util/];
      [OrdMap.v] is [std::map] with its order.
    - [Threads.v], [EventLoop.v], [Lockable.v], [Logging.v]: the queue, the thread
      pool, the event loop, a value with its lock and the log, as steps of threads
      under an arbitrary schedule.
    - [Response.v], [Request.v], [Client.v]: the messages and the connection;
      the client is written against the class [ServerOps].  [RequestTypes.v] has
      what every line keeps of a request.
    - [PluginHost.v]: propagation of events, weak lists, the table of plugins.
    - [FS.v]: [std::filesystem::path] and [src/util/FS.cpp] over the class
      [FileSystem].
    - [HttpServer.v]: implements [ServerOps] over the class [NetOps] (with its
      law [NetLog]) and the class [Handlers] of what plugins have registered.
    - [NetServer.v]: the tables of the network server and the reading of lines;
      [Lifecycle.v]: its address, start, end and destructor.  Their threads are in
      files of their own: [NetThreads.v], accepting and removing by their atomic
      sections; [Locks.v], threads that take locks and touch fields, and
      [NetLocks.v], the server as such threads; [Running.v], its start and its end;
      [Process.v], the threads of [main] and of all servers, and [SIGINT].
    - [Stack.v]: the network server is an instance of [NetOps] and [NetLog], so
      that what is proved over the interface holds of the two servers together;
      [Served.v], [Echoed.v] and [Challenged.v] follow a calculation, a file, a
      WebSocket and a challenge from the lines of the client through server and
      plugin to the answer.
    - [Core.v]: from the arguments of the program to servers with plugins;
      [Configs.v]: crawling for configurations and watching them.
    - [ModuleCache.v], [ModuleLocks.v], [Preprocessor.v], [Fileserv.v]: the file
      server plugin with its compiled modules, and the locks of their cache.
    - [GeoIP.v], [Plugins.v]: countries of addresses, and the small plugins, a
      Module for each: calculator, redirections, default page, log, country
      filter, file server (its configuration), WebSocket echo.
    - [LetsEncrypt.v], [Shell.v], [ShellTimeout.v], [Game3CI.v], [Ansuz.v]:
      certificates, commands without and with a time limit, the build plugin, the
      control panel.
    - [ChessBoard.v], [ChessMatch.v], [ProbChess.v]: the board, the matches with
      their dice and programs, and the plugin of probability chess;
      [ChessRules.v], [ChessGame.v] and [ChessTables.v] hold their theorems.

    A definition has the name of the function it models, or of the part of it
    that the comment names.  Objects that the code shares are a state that is
    passed on: a handler runs on its arguments, the client, the HTTP server and
    the network below it; the matches of chess live in a store that two tables
    point into.  An outcome is a value, one of the exceptions the code can throw,
    undefined behaviour (an access out of bounds, an overflow the language leaves
    undefined, a failed assertion, an exception out of a destructor), or fuel that
    has run out.  What the code catches it catches here, by the same types.

    ** The theorems

    - Input: a request is parsed to what its lines spell, a body and a WebSocket
      frame are put together whatever the cuts, frames and responses are read
      back by reference readers ([Request.v], [Client.v], [Response.v]); whatever
      the lines, a request stays well typed ([requests_stay_typed]).
    - Tables: whatever is accepted, read, sent and closed, the tables of the
      network server agree ([reachable_wf]), also when the sections of several
      workers interleave: the tables refine one map of connections at their stages
      ([interleaved_tables], [operations_finish], [connection_leaves_nothing]); a line is
      handed over once and in order ([handleRead_lines]); the destructor of a server
      that has run leaves nothing in them, and then uses what has been freed
      ([destroy_after_run]).
    - From end to end: a bad request, one for a calculation, one for a file, an
      echo over a WebSocket and the challenge of an authority are answered through
      client, servers and plugin ([bad_request_ends], [calculation_served],
      [file_served], [echo_served], [challenge_answered]).
    - Plugins: events propagate as specified ([beforeMulti_propagates],
      [handleGET_dispatch]); cleaning up undoes initialising
      ([cleanup_undoes_postinit]); a start leaves only complete servers, and a
      failed one has its plugins unloaded ([run_all_or_nothing],
      [failed_start_unloads]).
    - Guards: a request reaches only paths below the root and protected files need
      their credentials ([locate_confined], [handleGET_unauthorized]); the control
      panel needs the password, the build hook the authentication code
      ([ansuz_guarded], [hook_authentic]); countries decide connections as the
      database says, cache or not ([filter_decides]); the table of configurations
      is what a crawl would find ([crawl_finds], [watcher_keeps_configs]).
    - Answers: files and ranges are sent byte for byte, calculations are exact,
      templates become the function they are meant to, challenges are answered
      and certificates survive a restart, commands without a time limit are reported
      as they ended.
    - Chess: pieces move by the rules, a move is a round of the rules or changes
      nothing, programs choose legal moves, fair dice end every roll, and the
      plugin's tables agree in every reachable state.
    - Threads: under every schedule the network server takes its locks so that
      nobody waits for ever, and touches what it shares under the lock of it
      ([server_never_deadlocks], [shared_state_guarded]); a server, a process, and a
      command with a time limit come to their ends ([server_stops],
      [interrupt_shuts_down], [timed_command]); each job of the
      pool is in one place, and only join and detach throw one out
      ([pool_accounts_for_jobs]); the operations on a value with its lock and on
      the cache of modules are those of one thread after the other, a module that
      runs is loaded, and lines of the log are whole ([operations_are_atomic],
      [cache_operations_atomic], [modules_stay_loaded], [log_lines_whole]).
    - Where the code does not do what it means to, a theorem or a lemma says what
      it does instead: the last byte of a range, passwords behind a null byte,
      splitting a response with a parameter, a pool of one worker that forgets a
      job, a base that is used after it has been freed, and others.

    ** Fuel

    Loops that the code bounds by data get that bound as fuel, and a theorem says
    that it is enough: the length of the text (parsing, escaping, the
    preprocessor), the number of entries of a table (unloading plugins, removing
    connections), the bytes that are left over the size of a piece (sending
    files), the bytes in a pipe.  The depth of directories is a parameter
    ([crawlConfigs_ends]).  The rolls of the dice need draws without end: the
    theorems ask for fair ones and bound the fuel by where they occur.

    ** Not modelled

    - Libraries are classes or arguments, with what the code relies on as their
      laws: the JSON library, libevent's buffers, OpenSSL and the hashes, the
      template engine, the lexer, the compiler, the dynamic loader, the ACME
      client, the country database, the system.
    - In the sequential files an operation the code protects with a mutex is one
      step; the files named above under Threads have the locks as steps, those of the
      chess plugin and of the challenges among them ([NetLocks.v]).  Between the two,
      [NetThreads.v] has what one lock protects as a step, for closes that a worker
      makes of its own connections; the program makes no others while it runs.
    - Set-up of sockets, events and TLS contexts beyond its result; printing to the
      terminal beyond the lines of the log, the banner.
    - Builds without the country database; the debug output of the chess plugin;
      [fdstream.h], a stream buffer from a book that nothing includes.

    What could come next: the reading of lines among the sections of [NetThreads.v],
    and requests followed to the remaining plugins and back. *)

From Stdlib Require Import ZArith Lia Ascii String.
From stdpp Require Import base tactics option list strings gmap sorting numbers.

#[export] Set Default Goal Selector "!".

(** ** Bytes

    A [std::string] or [std::string_view] is a list of bytes. *)

Abbreviation bytes := (list ascii).

Declare Scope algiz_scope.
Delimit Scope algiz_scope with algiz.
Open Scope algiz_scope.

Definition lit (s : string) : bytes := list_ascii_of_string s.

(** The unsigned value of a byte, and the byte with a given value modulo 256
    (the conversion of any integer type to [char]). *)
Definition code (c : ascii) : Z := Z.of_N (N_of_ascii c).
Definition chr (z : Z) : ascii := ascii_of_N (Z.to_N (z mod 256)).

(** The value of a [char] on the platforms the server is built for, where
    [char] is signed. *)
Definition schar (c : ascii) : Z := if (code c <? 128)%Z then code c else (code c - 256)%Z.

Lemma code_bounds c : (0 <= code c < 256)%Z.
Proof. unfold code. pose proof (N_ascii_bounded c). lia. Qed.

Lemma chr_code c : chr (code c) = c.
Proof.
  unfold chr. rewrite Z.mod_small by apply code_bounds.
  unfold code. rewrite N2Z.id. apply ascii_N_embedding.
Qed.

Lemma code_chr z : code (chr z) = (z mod 256)%Z.
Proof.
  unfold code, chr.
  pose proof (Z.mod_pos_bound z 256 ltac:(lia)).
  rewrite N_ascii_embedding by lia. lia.
Qed.

Lemma code_inj c d : code c = code d -> c = d.
Proof. intros H. rewrite <- (chr_code c), <- (chr_code d), H. reflexivity. Qed.

(** A property of all bytes is checked by running it on the 256 of them. *)
Definition all_bytes : bytes := map (fun n => chr (Z.of_nat n)) (seq 0 256).

Lemma in_all_bytes c : In c all_bytes.
Proof.
  unfold all_bytes. apply in_map_iff. exists (Z.to_nat (code c)).
  pose proof (code_bounds c). split.
  - rewrite Z2Nat.id by lia. apply chr_code.
  - apply in_seq. lia.
Qed.

Lemma byte_forall (P : ascii -> bool) : forallb P all_bytes = true -> forall c, P c = true.
Proof. intros H c. rewrite forallb_forall in H. apply H, in_all_bytes. Qed.

Lemma byte_forall2 (P : ascii -> ascii -> bool) :
  forallb (fun c => forallb (P c) all_bytes) all_bytes = true -> forall c d, P c d = true.
Proof.
  intros H c d. pose proof (byte_forall (fun c => forallb (P c) all_bytes) H c) as Hc.
  exact (byte_forall _ Hc d).
Qed.

(** [byte_check c P] proves a decidable fact about the byte [c] by computation. *)
Ltac byte_check c :=
  let P := fresh "P" in
  pattern c; match goal with |- ?Q c => set (P := Q) end;
  apply (bool_decide_unpack (P c));
  let H := fresh in
  assert (H : forall d, bool_decide (P d) = true)
    by (apply byte_forall; vm_compute; reflexivity);
  rewrite H; exact I.

(** ** Machine integers *)

Definition W64 : Z := 2 ^ 64.
Definition wrap64 (z : Z) : Z := z mod W64.

(** The largest [size_t], which is also [std::string::npos] and [-1uz]. *)
Definition SIZE_MAX : Z := W64 - 1.

Definition INT64_MIN : Z := - 2 ^ 63.
Definition INT64_MAX : Z := 2 ^ 63 - 1.

(** The value a 32-bit [int] takes when [z] is stored in it. *)
Definition wrap_int32 (z : Z) : Z := (z + 2 ^ 31) mod 2 ^ 32 - 2 ^ 31.

Lemma wrap64_small z : (0 <= z < W64)%Z -> wrap64 z = z.
Proof. apply Z.mod_small. Qed.

Lemma wrap64_bounds z : (0 <= wrap64 z < W64)%Z.
Proof. apply Z.mod_pos_bound. reflexivity. Qed.

Create HintDb algiz.
#[export] Hint Resolve code_bounds wrap64_bounds : algiz.

(** ** Searching in strings

    [find_char], [find_sub] and [find_sub_from] are [std::string::find] for a
    character, for a string and for a string from a position; [None] is
    [npos].  [is_prefix] is [starts_with]. *)

Fixpoint find_char (c : ascii) (s : bytes) : option nat :=
  match s with
  | [] => None
  | x :: r => if Ascii.eqb x c then Some 0 else S <$> find_char c r
  end.

Fixpoint is_prefix (p s : bytes) : bool :=
  match p, s with
  | [], _ => true
  | x :: p', y :: s' => Ascii.eqb x y && is_prefix p' s'
  | _ :: _, [] => false
  end.

Fixpoint find_sub (p s : bytes) : option nat :=
  if is_prefix p s then Some 0
  else match s with
       | [] => None
       | _ :: r => S <$> find_sub p r
       end.

Definition find_sub_from (p s : bytes) (pos : nat) : option nat :=
  if pos <=? length s then Nat.add pos <$> find_sub p (drop pos s) else None.

(** [s.substr(pos, n)] for [pos <= s.size()]. *)
Definition substr (s : bytes) (pos n : nat) : bytes := take n (drop pos s).

(** [s.substr(0, i)] for the result [i] of a search: everything for [npos]. *)
Definition substr_to (s : bytes) (i : option nat) : bytes :=
  match i with Some n => take n s | None => s end.

Lemma find_char_Some c s i :
  find_char c s = Some i ->
  s = take i s ++ c :: drop (S i) s /\ (c ∉ take i s) /\ i < length s.
Proof.
  revert i. induction s as [|x r IH]; intros i H; [discriminate|]. simpl in H.
  destruct (Ascii.eqb_spec x c) as [->|Hne].
  - injection H as <-. simpl. rewrite drop_0. split; [done|]. split; [set_solver|lia].
  - destruct (find_char c r) as [j|] eqn:E; [|discriminate]. injection H as <-.
    destruct (IH j eq_refl) as (H1 & H2 & H3). simpl. split; [|split].
    + f_equal. exact H1.
    + rewrite elem_of_cons. intros [Hc|Hc]; [congruence|done].
    + lia.
Qed.

Lemma find_char_None c s : find_char c s = None <-> c ∉ s.
Proof.
  induction s as [|x r IH]; simpl.
  - split; [set_solver|done].
  - rewrite elem_of_cons. destruct (Ascii.eqb_spec x c) as [->|Hne].
    + split; [done|tauto].
    + rewrite fmap_None, IH. split; [|tauto]. intros Hr [Hc|Hc]; [congruence|done].
Qed.

Lemma find_char_app c a b : c ∉ a -> find_char c (a ++ c :: b) = Some (length a).
Proof.
  induction a as [|x a IH]; intros H; simpl.
  - rewrite Ascii.eqb_refl. done.
  - rewrite not_elem_of_cons in H. destruct H as [Hx Ha].
    destruct (Ascii.eqb_spec x c); [congruence|]. rewrite IH by done. done.
Qed.

Lemma is_prefix_spec p s : is_prefix p s = true <-> exists t, s = p ++ t.
Proof.
  revert s. induction p as [|x p IH]; intros s; simpl.
  - split; [eauto|done].
  - destruct s as [|y s]; [split; [done|intros [t Ht]; done]|].
    rewrite andb_true_iff, IH. split.
    + intros [->%Ascii.eqb_eq [t ->]]. eauto.
    + intros [t [= -> ->]]. rewrite Ascii.eqb_refl. eauto.
Qed.

Lemma is_prefix_app p t : is_prefix p (p ++ t) = true.
Proof. apply is_prefix_spec. eauto. Qed.

Lemma find_sub_Some p s i :
  find_sub p s = Some i ->
  s = take i s ++ p ++ drop (i + length p) s /\
  (forall j, j < i -> is_prefix p (drop j s) = false) /\
  i + length p <= length s.
Proof.
  revert i. induction s as [|y r IH]; intros i H; simpl in H.
  - destruct (is_prefix p []) eqn:E; [|done]. injection H as <-.
    destruct p; [|done]. simpl. split; [done|]. split; lia.
  - destruct (is_prefix p (y :: r)) eqn:E.
    + injection H as <-. apply is_prefix_spec in E as [t Ht]. rewrite Ht. simpl.
      rewrite drop_app_length, length_app. split; [done|]. split; lia.
    + destruct (find_sub p r) as [j|] eqn:Ej; [|done]. injection H as <-.
      destruct (IH j eq_refl) as (H1 & H2 & H3). simpl. split; [|split].
      * f_equal. exact H1.
      * intros [|k] Hk; [exact E|]. simpl. apply H2. lia.
      * lia.
Qed.

Lemma find_sub_None p s :
  find_sub p s = None <-> forall j, j <= length s -> is_prefix p (drop j s) = false.
Proof.
  induction s as [|y r IH]; simpl.
  - destruct (is_prefix p []) eqn:E.
    + split; [done|]. intros H. specialize (H 0 ltac:(lia)). simpl in H. congruence.
    + split; [|done]. intros _ j Hj. replace j with 0 by lia. exact E.
  - destruct (is_prefix p (y :: r)) eqn:E.
    + split; [done|]. intros H. specialize (H 0 ltac:(lia)). simpl in H. congruence.
    + rewrite fmap_None, IH. split.
      * intros H [|j] Hj; [exact E|]. simpl. apply H. lia.
      * intros H j Hj. apply (H (S j)). lia.
Qed.

Lemma find_sub_not_infix p s :
  find_sub p s = None -> forall a b, s <> a ++ p ++ b.
Proof.
  intros H a b ->. rewrite find_sub_None in H.
  specialize (H (length a)). rewrite drop_app_length, is_prefix_app in H.
  rewrite length_app in H. discriminate H. lia.
Qed.

Lemma find_sub_from_Some p s pos i :
  find_sub_from p s pos = Some i ->
  pos <= i /\ i + length p <= length s /\ find_sub p (drop pos s) = Some (i - pos).
Proof.
  unfold find_sub_from. destruct (Nat.leb_spec pos (length s)) as [Hle|]; [|done].
  destruct (find_sub p (drop pos s)) as [j|] eqn:E; [|done]. intros [= <-].
  apply find_sub_Some in E as Hs. rewrite length_drop in Hs.
  replace (pos + j - pos) with j by lia. split; [lia|]. split; [lia|done].
Qed.

(** ** Outcomes

    A call returns a value, throws one of the exceptions the code uses, runs
    into undefined behaviour (a read outside a buffer, a value left
    uninitialised, an integer overflow the language leaves undefined), or
    does not return within the fuel it was given. *)

Inductive exn :=
| ParseError (what : bytes)
| UnsupportedMethod (what : bytes)
| ChessError (what : bytes)
| NoKingError
| RuntimeError (what : bytes)
| InvalidArgument (what : bytes)
| OutOfRange
| FilesystemError
| JsonOutOfRange
| JsonError.

#[export] Instance exn_eq_dec : EqDecision exn.
Proof. solve_decision. Defined.

(** The exceptions that derive from [std::runtime_error].  The other ones
    derive from [std::logic_error] or, those of the JSON library, directly
    from [std::exception]. *)
Definition is_runtime_error (e : exn) : bool :=
  match e with InvalidArgument _ | OutOfRange | JsonOutOfRange | JsonError => false | _ => true end.

Inductive outcome (A : Type) :=
| Ret (a : A)
| Throw (e : exn)
| Undef
| Diverge.
Arguments Ret {A} a.
Arguments Throw {A} e.
Arguments Undef {A}.
Arguments Diverge {A}.

#[export] Instance outcome_ret : MRet outcome := @Ret.
#[export] Instance outcome_bind : MBind outcome := fun A B f m =>
  match m with
  | Ret a => f a
  | Throw e => Throw e
  | Undef => Undef
  | Diverge => Diverge
  end.
#[export] Instance outcome_fmap : FMap outcome := fun A B f m =>
  match m with
  | Ret a => Ret (f a)
  | Throw e => Throw e
  | Undef => Undef
  | Diverge => Diverge
  end.

Definition is_Ret {A} (m : outcome A) : Prop := exists a, m = Ret a.

(** Stateful code: the state is kept when an exception leaves the code. *)
Definition M (St A : Type) : Type := St -> outcome A * St.

#[export] Instance M_ret St : MRet (M St) := fun A a s => (Ret a, s).
#[export] Instance M_bind St : MBind (M St) := fun A B f m s =>
  match m s with
  | (Ret a, s') => f a s'
  | (Throw e, s') => (Throw e, s')
  | (Undef, s') => (Undef, s')
  | (Diverge, s') => (Diverge, s')
  end.

Section state_monad.
Context {St : Type}.

Definition get : M St St := fun s => (Ret s, s).
Definition put (s : St) : M St () := fun _ => (Ret tt, s).
Definition modify (f : St -> St) : M St () := fun s => (Ret tt, f s).
Definition throw {A} (e : exn) : M St A := fun s => (Throw e, s).
Definition undefined {A} : M St A := fun s => (Undef, s).
Definition diverge {A} : M St A := fun s => (Diverge, s).
Definition lift {A} (o : outcome A) : M St A := fun s => (o, s).

(** [try { m } catch (e) { h e }]: [h] returns [None] for an exception its
    clauses do not name, which then propagates. *)
Definition catch {A} (m : M St A) (h : exn -> option (M St A)) : M St A := fun s =>
  match m s with
  | (Throw e, s') => match h e with Some k => k s' | None => (Throw e, s') end
  | r => r
  end.
End state_monad.

Definition when {St} (b : bool) (m : M St ()) : M St () := if b then m else mret tt.

Fixpoint for_each {St A} (l : list A) (f : A -> M St ()) : M St () :=
  match l with
  | [] => mret tt
  | x :: r => f x ;; for_each r f
  end.

(** [mrun] runs the monad's operations at the head of the goal. *)
Ltac mrun :=
  cbv beta iota zeta delta [mbind M_bind outcome_bind mret M_ret outcome_ret get put modify
    throw undefined lift catch when].

Lemma for_each_app {St A} (l l' : list A) (f : A -> M St ()) (s : St) :
  for_each (l ++ l') f s = (for_each l f ;; for_each l' f) s.
Proof.
  revert s. induction l as [|x l IH]; intros s; [done|]. cbn [app for_each]. revert IH. mrun. intros IH.
  destruct (f x s) as [[[]|e| |] s']; [apply IH|done..].
Qed.

(** ** Weakest preconditions

    [wp_in D m Q E s]: run from [s], [m] returns with [Q] or throws with [E];
    it never runs into undefined behaviour, and it does not return only if [D].
    So [wp] is partial and [twp] total correctness. *)

Section wp.
Context {St : Type} {D : Prop}.

Definition wp_in {A} (m : M St A) (Q : A -> St -> Prop) (E : exn -> St -> Prop) (s : St) : Prop :=
  match m s with
  | (Ret a, s') => Q a s'
  | (Throw e, s') => E e s'
  | (Undef, _) => False
  | (Diverge, _) => D
  end.

Lemma wp_bind {A B} (m : M St A) (k : A -> M St B) Q E s :
  wp_in m (fun a => wp_in (k a) Q E) E s -> wp_in (mbind k m) Q E s.
Proof. unfold wp_in. mrun. destruct (m s) as [[a|e| |] s']; try done. Qed.

Lemma wp_mono {A} (m : M St A) (Q Q' : A -> St -> Prop) (E E' : exn -> St -> Prop) s :
  wp_in m Q E s -> (forall a s', Q a s' -> Q' a s') -> (forall e s', E e s' -> E' e s') ->
  wp_in m Q' E' s.
Proof. unfold wp_in. intros H HQ HE. destruct (m s) as [[a|e| |] s']; auto. Qed.

Lemma wp_ret {A} (a : A) Q E s : Q a s -> wp_in (mret a) Q E s.
Proof. done. Qed.
Lemma wp_get Q E (s : St) : Q s s -> wp_in get Q E s.
Proof. done. Qed.
Lemma wp_modify f Q E (s : St) : Q tt (f s) -> wp_in (modify f) Q E s.
Proof. done. Qed.
Lemma wp_throw {A} e (Q : A -> St -> Prop) E s : E e s -> wp_in (throw e) Q E s.
Proof. done. Qed.
Lemma wp_when (b : bool) (m : M St ()) Q E s :
  (if b then wp_in m Q E s else Q tt s) -> wp_in (when b m) Q E s.
Proof. by destruct b. Qed.
Lemma wp_lift {A} (a : A) Q E (s : St) : Q a s -> wp_in (lift (Ret a)) Q E s.
Proof. done. Qed.

Lemma wp_for_each {A} (l : list A) (f : A -> M St ()) (I : St -> Prop) E s :
  I s -> (forall x s', x ∈ l -> I s' -> wp_in (f x) (fun _ => I) E s') ->
  wp_in (for_each l f) (fun _ => I) E s.
Proof.
  revert s. induction l as [|x l IH]; intros s Hs Hf; [exact Hs|]. cbn [for_each].
  apply wp_bind. eapply wp_mono; [apply (Hf x s); [left|exact Hs]| |done].
  intros [] s' Hs'. apply IH; [done|]. intros y s'' Hy. apply Hf. by right.
Qed.

Lemma wp_catch {A} (m : M St A) h Q E s :
  wp_in m Q (fun e s' => match h e with Some k => wp_in k Q E s' | None => E e s' end) s ->
  wp_in (catch m h) Q E s.
Proof. unfold wp_in, catch. destruct (m s) as [[a|e| |] s']; try done. by destruct (h e). Qed.
End wp.
Arguments wp_in {St} D {A} m Q E s.
Abbreviation wp := (wp_in True).
Abbreviation twp := (wp_in False).

(** ** Decimal numbers: [std::to_string] *)

Fixpoint dec_digits (fuel : nat) (n : Z) (acc : bytes) : bytes :=
  let acc' := chr (48 + n mod 10) :: acc in
  match fuel with
  | O => acc'
  | S f => if (n <? 10)%Z then acc' else dec_digits f (n / 10) acc'
  end.

Definition to_dec (n : Z) : bytes :=
  if (n <? 0)%Z then "-"%char :: dec_digits (Z.to_nat (Z.log2 (- n))) (- n) []
  else dec_digits (Z.to_nat (Z.log2 n)) n [].

(** The value of a string of decimal digits read from the left. *)
Definition digit (c : ascii) : option Z :=
  let k := code c in if ((48 <=? k) && (k <=? 57))%Z then Some (k - 48)%Z else None.

Fixpoint dec_value (acc : Z) (s : bytes) : option Z :=
  match s with
  | [] => Some acc
  | c :: r => match digit c with Some d => dec_value (acc * 10 + d) r | None => None end
  end.

Lemma digit_chr d : (0 <= d < 10)%Z -> digit (chr (48 + d)) = Some d.
Proof.
  intros H. unfold digit. rewrite code_chr, Z.mod_small by lia.
  replace (48 <=? 48 + d)%Z with true by (symmetry; apply Z.leb_le; lia).
  replace (48 + d <=? 57)%Z with true by (symmetry; apply Z.leb_le; lia).
  simpl. f_equal. lia.
Qed.

Lemma dec_digits_enough f n acc :
  (0 <= n)%Z -> (n < 2 ^ (Z.of_nat f + 1))%Z ->
  exists ds, dec_digits f n acc = ds ++ acc /\ ds <> [] /\
    Forall (fun c => is_Some (digit c)) ds /\
    forall a r, dec_value a (ds ++ r) = dec_value (a * 10 ^ Z.of_nat (length ds) + n) r.
Proof.
  revert n acc. induction f as [|f IH]; intros n acc Hn Hlt; simpl.
  - assert (n < 10)%Z by (change (2 ^ (Z.of_nat 0 + 1))%Z with 2%Z in Hlt; lia).
    exists [chr (48 + n mod 10)]. rewrite Z.mod_small by lia.
    split; [done|]. split; [done|]. split.
    + repeat constructor; by rewrite digit_chr by lia.
    + intros a r. simpl. rewrite digit_chr by lia. done.
  - pose proof (Z.mod_pos_bound n 10 ltac:(lia)) as Hm.
    destruct (Z.ltb_spec n 10).
    + exists [chr (48 + n mod 10)]. rewrite Z.mod_small by lia.
      split; [done|]. split; [done|]. split.
      * repeat constructor; by rewrite digit_chr by lia.
      * intros a r. simpl. rewrite digit_chr by lia. done.
    + destruct (IH (n / 10)%Z (chr (48 + n mod 10) :: acc)) as (ds & H1 & H2 & H3 & H4).
      * apply Z.div_pos; lia.
      * apply Z.div_lt_upper_bound; [lia|].
        replace (Z.of_nat (S f) + 1)%Z with (Z.succ (Z.of_nat f + 1)) in Hlt by lia.
        rewrite Z.pow_succ_r in Hlt by lia. lia.
      * exists (ds ++ [chr (48 + n mod 10)]). rewrite H1, <- app_assoc.
        split; [done|]. split; [by destruct ds|]. split.
        -- apply Forall_app. split; [done|].
           repeat constructor; by rewrite digit_chr by lia.
        -- intros a r. rewrite <- app_assoc, H4. simpl. rewrite digit_chr by lia.
           rewrite length_app, Nat2Z.inj_add, Z.pow_add_r by lia. simpl. f_equal.
           change (10 ^ 1)%Z with 10%Z.
           pose proof (Z.div_mod n 10 ltac:(lia)). nia.
Qed.

Lemma to_dec_spec n :
  (0 <= n)%Z ->
  to_dec n <> [] /\ Forall (fun c => is_Some (digit c)) (to_dec n) /\
  dec_value 0 (to_dec n) = Some n.
Proof.
  intros Hn. unfold to_dec. destruct (Z.ltb_spec n 0); [lia|].
  destruct (dec_digits_enough (Z.to_nat (Z.log2 n)) n []) as (ds & H1 & H2 & H3 & H4).
  - done.
  - pose proof (Z.log2_nonneg n). rewrite Z2Nat.id by done.
    destruct (decide (n = 0%Z)) as [->|]; [done|].
    pose proof (Z.log2_spec n ltac:(lia)). lia.
  - rewrite app_nil_r in H1. rewrite H1. split; [done|]. split; [done|].
    specialize (H4 0%Z []). rewrite app_nil_r in H4. rewrite H4. simpl. done.
Qed.

(** A search for a string whose first byte does not occur before it. *)
Lemma find_sub_first c p a b :
  c ∉ a -> find_sub (c :: p) (a ++ (c :: p) ++ b) = Some (length a).
Proof.
  induction a as [|x a IH]; intros Ha.
  - change ([] ++ (c :: p) ++ b) with ((c :: p) ++ b).
    pose proof (is_prefix_app (c :: p) b) as Hp.
    cbn [app] in *. cbn [find_sub]. by rewrite Hp.
  - rewrite not_elem_of_cons in Ha. destruct Ha as [Hx Ha].
    change ((x :: a) ++ (c :: p) ++ b) with (x :: (a ++ (c :: p) ++ b)).
    cbn [find_sub is_prefix]. destruct (Ascii.eqb_spec c x); [congruence|].
    simpl andb. cbv iota. by rewrite IH.
Qed.

(** ** Lists with one occurrence taken out *)

Fixpoint remove_one {A} `{EqDecision A} (x : A) (s : list A) : list A :=
  match s with
  | [] => []
  | y :: r => if decide (x = y) then r else y :: remove_one x r
  end.

Lemma elem_of_remove_one {A} `{EqDecision A} (x y : A) s : x ∈ remove_one y s -> x ∈ s.
Proof.
  induction s as [|z s IH]; cbn; [done|]. case_decide; [by right|].
  intros [->|Hx]%elem_of_cons; [left|right; auto].
Qed.

Lemma remove_one_submseteq {A} `{EqDecision A} (y : A) s : remove_one y s ⊆+ s.
Proof.
  induction s as [|z s IH]; cbn; [done|]. case_decide; [by constructor|]. by constructor.
Qed.

Lemma remove_one_perm {A} `{EqDecision A} (y : A) s : y ∈ s -> s ≡ₚ y :: remove_one y s.
Proof.
  induction s as [|z s IH]; cbn; [by intros ?%elem_of_nil|].
  case_decide as Hd; [by subst|]. intros [->|Hy]%elem_of_cons; [done|].
  rewrite Permutation_swap. by constructor; apply IH.
Qed.

Lemma length_remove_one {A} `{EqDecision A} (x : A) s :
  x ∈ s -> S (length (remove_one x s)) = length s.
Proof. intros Hx. by rewrite (remove_one_perm x s Hx) at 2. Qed.

(** A sum over a list of which one element has been replaced. *)
Lemma sum_list_with_insert {A} (f : A -> nat) (l : list A) i x y :
  l !! i = Some x -> sum_list_with f (<[i := y]> l) + f x = sum_list_with f l + f y.
Proof.
  revert i. induction l as [|z l IH]; intros [|i] Hi; [done..| |]; cbn in *.
  - injection Hi as ->. lia.
  - rewrite <- !Nat.add_assoc. f_equal. by apply IH.
Qed.
