(* ===== verification/Util.v ===== *)
(** * String utilities

    The functions of [src/util/Util.cpp], the [join] template of
    [include/util/Util.h] and [src/util/StringVector.cpp]: splitting and
    joining, parsing of integers, percent-decoding and the escaping functions.
    The theorems relate each of them to a reference definition or to its
    inverse. *)

From Stdlib Require Import ZArith Lia Ascii String.
From stdpp Require Import base tactics option list strings gmap numbers.
From S2P Require Import Prelude.

(** ** Splitting and joining *)

(** The loop of [split]: [next] is the position of the delimiter found last. *)
Fixpoint split_loop (fuel : nat) (str delimiter : bytes) (condense : bool)
    (next : option nat) (out : list bytes) : outcome (list bytes) :=
  match next with
  | None => Ret out
  | Some last =>
    match fuel with
    | O => Diverge
    | S f =>
      let start := last + length delimiter in
      let next' := find_sub_from delimiter str start in
      let sub := match next' with
                 | Some n => substr str start (n - last - length delimiter)
                 | None => drop start str
                 end in
      split_loop f str delimiter condense next'
        (if negb (bool_decide (sub = [])) || negb condense then out ++ [sub] else out)
    end
  end.

Definition split (str delimiter : bytes) (condense : bool) : outcome (list bytes) :=
  if bool_decide (str = []) then Ret []
  else match find_sub delimiter str with
       | None => Ret [str]
       | Some next =>
         split_loop (S (length str)) str delimiter condense (Some next) [take next str]
       end.

Definition join (container : list bytes) (delimiter : bytes) : bytes :=
  match container with
  | [] => []
  | item :: rest => item ++ concat (map (fun i => delimiter ++ i) rest)
  end.

(** [StringVector::operator==]: a null pointer in the list of expected
    strings accepts anything at that place. *)
Fixpoint sv_matches (self : list bytes) (others : list (option bytes)) : bool :=
  match self, others with
  | [], _ => true
  | s :: self', o :: others' =>
    match o with
    | Some t => if bool_decide (t = s) then sv_matches self' others' else false
    | None => sv_matches self' others'
    end
  | _ :: _, [] => false
  end.

Definition sv_equal (self : list bytes) (others : list (option bytes)) : bool :=
  if negb (length others =? length self) then false else sv_matches self others.

Definition sv_contains (self : list bytes) (needle : bytes) : bool :=
  existsb (fun s => bool_decide (s = needle)) self.

(** ** Numbers

    Every call in the repository leaves the base at its default of 10. *)

Definition dquote : ascii := "034"%char.

Definition not_an_integer (str : bytes) : exn :=
  InvalidArgument (lit "Not an integer: " ++ [dquote] ++ str ++ [dquote]).

(** The longest prefix of decimal digits: its value and its length. *)
Fixpoint digits_prefix (acc : Z) (count : nat) (s : bytes) : Z * nat :=
  match s with
  | c :: r => match digit c with
              | Some d => digits_prefix (acc * 10 + d) (S count) r
              | None => (acc, count)
              end
  | [] => (acc, count)
  end.

Definition isspace (c : ascii) : bool :=
  let k := code c in ((k =? 32) || ((9 <=? k) && (k <=? 13)))%Z.

Fixpoint skip_spaces (count : nat) (s : bytes) : nat * bytes :=
  match s with
  | c :: r => if isspace c then skip_spaces (S count) r else (count, s)
  | [] => (count, [])
  end.

(** The conversion done by [strtol] and [strtoul]: the sign, the magnitude and
    the position of [*end]; without a digit nothing is consumed. *)
Definition strto (s : bytes) : bool * Z * nat :=
  let '(n, s1) := skip_spaces 0 s in
  let '(neg, n1, s2) :=
    match s1 with
    | c :: r => if Ascii.eqb c "-" then (true, S n, r)
                else if Ascii.eqb c "+" then (false, S n, r) else (false, n, s1)
    | [] => (false, n, s1)
    end in
  let '(v, k) := digits_prefix 0 0 s2 in
  if k =? 0 then (false, 0%Z, 0) else (neg, v, n1 + k).

(** [strtol] saturates, and so does [strtoul], which negates modulo 2^64. *)
Definition strtol (s : bytes) : Z * nat :=
  let '(neg, v, stop) := strto s in
  (if neg then Z.max INT64_MIN (- v) else Z.min INT64_MAX v, stop).

Definition strtoul (s : bytes) : Z * nat :=
  let '(neg, v, stop) := strto s in
  (if (SIZE_MAX <? v)%Z then SIZE_MAX else if neg then wrap64 (- v) else v, stop).

Definition parseLong_string (str : bytes) : outcome Z :=
  let '(parsed, stop) := strtol str in
  if negb (stop =? length str) then Throw (not_an_integer str) else Ret parsed.

Definition parseUlong_string (str : bytes) : outcome Z :=
  let '(parsed, stop) := strtoul str in
  if negb (stop =? length str) then Throw (not_an_integer str) else Ret parsed.

(** The overloads for [const char *] see the bytes before the terminator. *)
Definition c_str (s : bytes) : bytes := substr_to s (find_char "000" s).
Definition parseLong_cstr (str : bytes) : outcome Z := parseLong_string (c_str str).
Definition parseUlong_cstr (str : bytes) : outcome Z := parseUlong_string (c_str str).

(** [std::from_chars] for a signed and for an unsigned 64-bit integer. *)
Inductive from_chars_result :=
| FcValue (v : Z)
| FcInvalid
| FcRange.

Definition from_chars_unsigned (s : bytes) : from_chars_result :=
  let '(v, k) := digits_prefix 0 0 s in
  if k =? 0 then FcInvalid else if (SIZE_MAX <? v)%Z then FcRange else FcValue v.

Definition from_chars_signed (s : bytes) : from_chars_result :=
  let '(neg, s1) := match s with
                    | c :: r => if Ascii.eqb c "-" then (true, r) else (false, s)
                    | [] => (false, s)
                    end in
  let '(v, k) := digits_prefix 0 0 s1 in
  let w := if neg then (- v)%Z else v in
  if k =? 0 then FcInvalid
  else if ((w <? INT64_MIN) || (INT64_MAX <? w))%Z then FcRange else FcValue w.

(** The overloads for [std::string_view]: a value out of range leaves [out]
    uninitialised, and it is returned. *)
Definition parseLong_view (view : bytes) : outcome Z :=
  match from_chars_signed view with
  | FcValue v => Ret v
  | FcInvalid => Throw (not_an_integer view)
  | FcRange => Undef
  end.

Definition parseUlong_view (view : bytes) : outcome Z :=
  match from_chars_unsigned view with
  | FcValue v => Ret v
  | FcInvalid => Throw (not_an_integer view)
  | FcRange => Undef
  end.

(** ** Case *)

Definition between (a b : ascii) (c : ascii) : bool :=
  ((schar a <=? schar c) && (schar c <=? schar b))%Z.

Definition to_lower_char (c : ascii) : ascii :=
  if between "A" "Z" c then chr (schar c + (code "a" - code "A")) else c.
Definition to_upper_char (c : ascii) : ascii :=
  if between "a" "z" c then chr (schar c - (code "a" - code "A")) else c.

Definition toLower (view : bytes) : bytes := map to_lower_char view.
Definition toUpper (view : bytes) : bytes := map to_upper_char view.

Definition isNumeric_char (ch : ascii) : bool := between "0" "9" ch.
Definition isNumeric (str : bytes) : bool :=
  if bool_decide (str = []) then false else forallb isNumeric_char str.

(** ** Percent-decoding *)

Definition isxdigit (c : ascii) : bool :=
  between "0" "9" c || between "a" "f" c || between "A" "F" c.

Definition xdigit_value (c : ascii) : Z :=
  if between "a" "f" c then (schar c - schar "a" + 10)%Z
  else if between "A" "F" c then (schar c - schar "A" + 10)%Z
  else (schar c - schar "0")%Z.

Fixpoint unescape_loop (fuel : nat) (path : bytes) (plus_to_space : bool)
    (i : nat) (out : bytes) : outcome bytes :=
  match fuel with
  | O => Diverge
  | S f =>
    match path !! i with
    | None => Ret out
    | Some ch =>
      if plus_to_space && Ascii.eqb ch "+" then
        unescape_loop f path plus_to_space (S i) (out ++ [" "%char])
      else if negb (Ascii.eqb ch "%")
              || (wrap64 (Z.of_nat (length path) - 3) <? Z.of_nat i)%Z then
        unescape_loop f path plus_to_space (S i) (out ++ [ch])
      else
        match path !! (i + 1), path !! (i + 2) with
        | Some next, Some after =>
          if negb (isxdigit next) || negb (isxdigit after) then
            unescape_loop f path plus_to_space (S i) (out ++ [ch])
          else
            let to_add := (Z.shiftl (xdigit_value next) 4 + xdigit_value after)%Z in
            unescape_loop f path plus_to_space (i + 3) (out ++ [chr to_add])
        | _, _ => Undef
        end
    end
  end.

Definition unescape (path : bytes) (plus_to_space : bool) : outcome bytes :=
  if bool_decide (find_char "%" path = None)
     && negb (plus_to_space && negb (bool_decide (find_char "+" path = None)))
  then Ret path
  else unescape_loop (S (length path)) path plus_to_space 0 [].

(** ** Escaping *)

Definition nul : ascii := "000"%char.
Definition bel : ascii := "007"%char.
Definition bs : ascii := "008"%char.
Definition tab : ascii := "009"%char.
Definition lf : ascii := "010"%char.
Definition vt : ascii := "011"%char.
Definition ff : ascii := "012"%char.
Definition cr : ascii := "013"%char.
Definition esc : ascii := "027"%char.
Definition backslash : ascii := "092"%char.

Definition escapeANSI_char (ch : ascii) : bytes :=
  if Ascii.eqb ch esc then [esc] ++ lit "[2m\x1b" ++ [esc] ++ lit "[22m"
  else if Ascii.eqb ch tab then lit "\t"
  else if Ascii.eqb ch cr then lit "\r"
  else if Ascii.eqb ch lf then lit "\n"
  else if Ascii.eqb ch vt then lit "\v"
  else if Ascii.eqb ch bs then lit "\b"
  else if Ascii.eqb ch bel then lit "\a"
  else if Ascii.eqb ch ff then lit "\f"
  else if Ascii.eqb ch nul then lit "\0"
  else if Ascii.eqb ch backslash then lit "\\"
  else [ch].
Definition escapeANSI (view : bytes) : bytes := concat (map escapeANSI_char view).

Definition escapeHTML_char (ch : ascii) : bytes :=
  if Ascii.eqb ch "<" then lit "&lt;"
  else if Ascii.eqb ch ">" then lit "&gt;"
  else if Ascii.eqb ch dquote then lit "&quot;"
  else [ch].
Definition escapeHTML (view : bytes) : bytes := concat (map escapeHTML_char view).

(** A nibble as a lower-case hexadecimal digit. *)
Definition nibble_char (nibble : Z) : ascii :=
  chr (nibble + (if (nibble <? 10)%Z then code "0" else code "a" - 10)).

Definition charHex (ch : ascii) : bytes :=
  map nibble_char [Z.land (Z.shiftr (code ch) 4) 15; Z.land (code ch) 15].

Definition escapeURL_char (ch : ascii) : bytes :=
  if Ascii.eqb ch " " then ["+"%char]
  else if Ascii.eqb ch "." || Ascii.eqb ch "_" then [ch]
  else if ((schar ch <? schar "0")
           || ((schar "9" <? schar ch) && (schar ch <? schar "A"))
           || ((schar "Z" <? schar ch) && (schar ch <? schar "a"))
           || (schar "z" <? schar ch))%Z
  then "%"%char :: charHex ch
  else [ch].
Definition escapeURL (view : bytes) : bytes := concat (map escapeURL_char view).

Definition escapeQuotes_char (ch : ascii) : bytes :=
  if Ascii.eqb ch dquote then [backslash; dquote] else [ch].
Definition escapeQuotes (view : bytes) : bytes := concat (map escapeQuotes_char view).

Definition escape_char (ch : ascii) : bytes :=
  if Ascii.eqb ch tab then lit "\t"
  else if Ascii.eqb ch cr then lit "\r"
  else if Ascii.eqb ch lf then lit "\n"
  else if Ascii.eqb ch vt then lit "\v"
  else if Ascii.eqb ch bs then lit "\b"
  else if Ascii.eqb ch bel then lit "\a"
  else if Ascii.eqb ch ff then lit "\f"
  else if Ascii.eqb ch nul then lit "\0"
  else if Ascii.eqb ch backslash then lit "\\"
  else if Ascii.eqb ch dquote then [backslash; dquote]
  else if Ascii.eqb ch esc then lit "\x1b"
  else [ch].
Definition escape (view : bytes) : bytes := concat (map escape_char view).

(** The lambda [get_char] of [hexString]. *)
Definition hex_get_char (nybble : Z) : ascii :=
  if (nybble <? 10)%Z then chr (code "0" + nybble) else chr (code "a" + (nybble - 10)).

Definition hexString (string : bytes) : bytes :=
  concat (map (fun byte => [hex_get_char (Z.shiftr (code byte) 4);
                            hex_get_char (Z.land (code byte) 15)]) string).

(** ** Last occurrence: [std::find_end] *)

Fixpoint find_end (needle haystack : bytes) : option nat :=
  match haystack with
  | [] => None
  | _ :: r => match find_end needle r with
              | Some j => Some (S j)
              | None => if is_prefix needle haystack then Some 0 else None
              end
  end.

Definition findLast (haystack needle : bytes) : option nat :=
  if bool_decide (needle = []) then Some (length haystack) else find_end needle haystack.

(** ** Theorems: splitting *)

(** [splits d s ps]: [ps] are the pieces of [s] between the occurrences of [d]
    found from left to right. *)
Inductive splits (d : bytes) : bytes -> list bytes -> Prop :=
| splits_last s : find_sub d s = None -> splits d s [s]
| splits_cons s i ps :
    find_sub d s = Some i ->
    splits d (drop (i + length d) s) ps ->
    splits d s (take i s :: ps).

Definition keep (condense : bool) (ps : list bytes) : list bytes :=
  if condense then filter (fun p => p <> []) ps else ps.

Lemma keep_cons condense p ps :
  keep condense (p :: ps)
  = (if negb (bool_decide (p = [])) || negb condense then [p] else []) ++ keep condense ps.
Proof.
  destruct condense; simpl.
  - rewrite filter_cons. rewrite orb_false_r.
    repeat (case_decide || case_bool_decide); naive_solver.
  - by rewrite orb_true_r.
Qed.

Lemma split_loop_spec d str fuel last :
  d <> [] -> last + length d <= length str -> length str - last <= fuel ->
  exists ps, splits d (drop (last + length d) str) ps /\
    forall condense out,
      split_loop fuel str d condense (Some last) out = Ret (out ++ keep condense ps).
Proof.
  intros Hd. assert (1 <= length d) as Hd1 by (destruct d; simpl; [done|lia]).
  revert last. induction fuel as [|f IH]; intros last Hlast Hfuel; [lia|].
  simpl. unfold find_sub_from.
  destruct (Nat.leb_spec (last + length d) (length str)); [|lia].
  set (rest := drop (last + length d) str) in *.
  destruct (find_sub d rest) as [i|] eqn:E; simpl.
  - assert (Hi : i + length d <= length rest)
      by (apply find_sub_Some in E as (_ & _ & ?); lia).
    assert (Hrest : length rest = length str - (last + length d))
      by (unfold rest; rewrite length_drop; lia).
    destruct (IH (last + length d + i)) as (ps & Hps & Hloop); [lia|lia|].
    exists (take i rest :: ps). split.
    + apply splits_cons; [done|]. unfold rest. rewrite drop_drop.
      replace (last + length d + (i + length d)) with (last + length d + i + length d) by lia.
      exact Hps.
    + intros condense out. rewrite Hloop, keep_cons. unfold substr.
      replace (last + length d + i - last - length d) with i by lia.
      fold rest. destruct (_ || _); by rewrite <- ?app_assoc.
  - exists [rest]. split; [by apply splits_last|].
    intros condense out. rewrite keep_cons.
    replace (keep condense []) with (@nil bytes) by (by destruct condense).
    rewrite app_nil_r. destruct f; simpl; destruct (_ || _); by rewrite ?app_nil_r.
Qed.

Lemma split_total str d :
  str <> [] -> d <> [] ->
  exists p ps, splits d str (p :: ps) /\
    forall condense, split str d condense = Ret (p :: keep condense ps).
Proof.
  intros Hs Hd. unfold split. rewrite bool_decide_false by done.
  destruct (find_sub d str) as [i|] eqn:E.
  - apply find_sub_Some in E as Hi. destruct Hi as (_ & _ & Hi).
    destruct (split_loop_spec d str (S (length str)) i Hd Hi) as (ps & Hps & Hloop); [lia|].
    exists (take i str), ps. split; [by apply splits_cons|].
    intros condense. by rewrite Hloop.
  - exists str, []. split; [by apply splits_last|]. by intros [].
Qed.

Lemma splits_join d s ps : splits d s ps -> join ps d = s.
Proof.
  induction 1 as [s H|s i ps H Hs IH]; simpl; [by rewrite app_nil_r|].
  apply find_sub_Some in H as (H & _ & _).
  inversion Hs as [? ? Heq|? j qs ? ? Heq]; subst; simpl in *.
  - rewrite app_nil_r. by rewrite <- H.
  - rewrite <- app_assoc, IH. by rewrite <- H.
Qed.

Lemma find_sub_take d s i :
  d <> [] -> find_sub d s = Some i -> find_sub d (take i s) = None.
Proof.
  intros Hd H. apply find_sub_Some in H as (_ & H & Hlen).
  apply find_sub_None. intros j Hj. rewrite length_take in Hj.
  destruct (is_prefix d (drop j (take i s))) eqn:E; [|done]. exfalso.
  apply is_prefix_spec in E as [t Ht].
  assert (length (drop j (take i s)) = length d + length t) as Hl
    by (rewrite Ht, length_app; done).
  rewrite length_drop, length_take in Hl.
  assert (1 <= length d) by (destruct d; simpl; [done|lia]).
  assert (j < i) as Hji by lia. specialize (H j Hji).
  assert (drop j s = d ++ t ++ drop i s) as Hds.
  { rewrite <- (take_drop i s) at 1. rewrite drop_app_le by (rewrite length_take; lia).
    by rewrite Ht, <- app_assoc. }
  rewrite Hds, is_prefix_app in H. done.
Qed.

Lemma splits_no_delimiter d s ps :
  d <> [] -> splits d s ps -> Forall (fun p => find_sub d p = None) ps.
Proof.
  intros Hd. induction 1 as [s H|s i ps H Hs IH]; [by repeat constructor|].
  constructor; [by apply find_sub_take|done].
Qed.

Lemma splits_unique d s ps qs : splits d s ps -> splits d s qs -> ps = qs.
Proof.
  intros H. revert qs. induction H as [s H|s i ps H Hs IH]; intros qs Hq;
    inversion Hq as [? Hq1|? j ? Hq1 Hq2]; subst; try congruence.
  assert (j = i) as -> by congruence. f_equal. by apply IH.
Qed.

Lemma find_sub_char c s : find_sub [c] s = find_char c s.
Proof.
  induction s as [|x s IH]; [done|]. cbn [find_sub is_prefix find_char].
  rewrite andb_true_r, IH. destruct (Ascii.eqb_spec c x), (Ascii.eqb_spec x c); congruence || done.
Qed.

Lemma splits_join_char c p ps :
  Forall (fun q => c ∉ q) (p :: ps) -> splits [c] (join (p :: ps) [c]) (p :: ps).
Proof.
  revert p. induction ps as [|p2 ps IH]; intros p Hall; apply Forall_cons_1 in Hall as [Hp Hall].
  - unfold join. cbn [map concat]. rewrite app_nil_r. apply splits_last.
    by rewrite find_sub_char, find_char_None.
  - assert (Hj : join (p :: p2 :: ps) [c] = p ++ c :: join (p2 :: ps) [c]) by done.
    rewrite Hj. rewrite <- (take_app_length p (c :: join (p2 :: ps) [c])) at 2.
    apply splits_cons; [by rewrite find_sub_char, find_char_app|].
    change (length [c]) with 1. replace (length p + 1) with (length (p ++ [c]))
      by (by rewrite length_app).
    change (p ++ c :: join (p2 :: ps) [c]) with (p ++ [c] ++ join (p2 :: ps) [c]).
    rewrite app_assoc, drop_app_length. by apply IH.
Qed.

(** Pieces are read back from their concatenation. *)
Lemma split_join_char c parts condense :
  parts <> [] -> Forall (fun q => q <> [] /\ c ∉ q) parts ->
  split (join parts [c]) [c] condense = Ret parts.
Proof.
  intros Hne Hall. destruct parts as [|p ps]; [done|].
  assert (Hs : splits [c] (join (p :: ps) [c]) (p :: ps)).
  { apply splits_join_char. eapply List.Forall_impl; [|exact Hall]. by intros ? []. }
  apply Forall_cons_1 in Hall as [[Hp _] Hall].
  destruct (split_total (join (p :: ps) [c]) [c]) as (q & qs & Hq & Hsplit);
    [by destruct p|done|].
  pose proof (splits_unique _ _ _ _ Hs Hq) as [= <- <-].
  rewrite (Hsplit condense). do 2 f_equal. destruct condense; [|done]. cbn [keep].
  clear -Hall. induction ps as [|x ps IH]; [done|].
  apply Forall_cons_1 in Hall as [[Hx _] Hall]. by rewrite filter_cons_True, IH.
Qed.

(** Splitting without condensing is inverse to joining: on a non-empty
    string and a non-empty delimiter [split] returns pieces that contain no
    delimiter and that [join] puts back together; with [condense] the empty
    pieces after the first one are left out, and the first one is kept even
    when it is empty. *)
Theorem split_join str d :
  str <> [] -> d <> [] ->
  exists p ps,
    split str d false = Ret (p :: ps) /\
    join (p :: ps) d = str /\
    Forall (fun q => find_sub d q = None) (p :: ps) /\
    split str d true = Ret (p :: filter (fun q => q <> []) ps).
Proof.
  intros Hs Hd. destruct (split_total str d Hs Hd) as (p & ps & Hsp & Hsplit).
  exists p, ps. split; [apply (Hsplit false)|]. split; [by apply splits_join|].
  split; [by eapply splits_no_delimiter|apply (Hsplit true)].
Qed.

Lemma split_join_witness :
  exists p ps,
    split (lit "/a//b") (lit "/") false = Ret (p :: ps) /\
    join (p :: ps) (lit "/") = lit "/a//b" /\
    Forall (fun q => find_sub (lit "/") q = None) (p :: ps) /\
    split (lit "/a//b") (lit "/") true = Ret (p :: filter (fun q => q <> []) ps).
Proof. apply (split_join (lit "/a//b") (lit "/")); discriminate. Defined.

Example split_condense_example :
  split (lit "/a//b") (lit "/") true = Ret [[]; lit "a"; lit "b"].
Proof. vm_compute. reflexivity. Qed.

(** With an empty delimiter the loop makes no progress. *)
Lemma split_loop_empty_delimiter fuel str condense last out :
  last <= length str -> split_loop fuel str [] condense (Some last) out = Diverge.
Proof.
  revert out. induction fuel as [|f IH]; intros out Hl; [done|].
  simpl. unfold find_sub_from. rewrite Nat.add_0_r.
  destruct (Nat.leb_spec last (length str)); [|lia].
  destruct (drop last str) eqn:E; simpl; rewrite Nat.add_0_r; by apply IH.
Qed.

(** ** Theorems: numbers *)

Lemma digits_prefix_app ds a k r v :
  dec_value a ds = Some v ->
  digits_prefix a k (ds ++ r) = digits_prefix v (k + length ds) r.
Proof.
  revert a k. induction ds as [|c ds IH]; intros a k H; simpl in *.
  - injection H as ->. by rewrite Nat.add_0_r.
  - destruct (digit c) as [d|]; [|done]. rewrite (IH _ _ H). f_equal. lia.
Qed.

Definition no_digit_first (r : bytes) : bool :=
  match r with [] => true | c :: _ => bool_decide (digit c = None) end.

Lemma digits_prefix_stop a k r : no_digit_first r = true -> digits_prefix a k r = (a, k).
Proof.
  destruct r as [|c r]; simpl; [done|].
  intros H%bool_decide_eq_true. by rewrite H.
Qed.

Lemma digits_prefix_dec n r :
  (0 <= n)%Z -> no_digit_first r = true ->
  digits_prefix 0 0 (to_dec n ++ r) = (n, length (to_dec n)).
Proof.
  intros Hn Hr. destruct (to_dec_spec n Hn) as (_ & _ & Hv).
  rewrite (digits_prefix_app _ _ _ _ _ Hv). by apply digits_prefix_stop.
Qed.

Lemma length_to_dec n : (0 <= n)%Z -> (length (to_dec n) =? 0) = false.
Proof.
  intros Hn. destruct (to_dec_spec n Hn) as (H & _).
  destruct (to_dec n); [done|]. done.
Qed.

(** Parsing an unsigned number from a view accepts the decimal form of
    every number, ignores what follows the digits, and runs into undefined
    behaviour (the uninitialised [out] is returned) exactly for a number that
    does not fit 64 bits. *)
Theorem parseUlong_view_dec n r :
  (0 <= n)%Z -> no_digit_first r = true ->
  parseUlong_view (to_dec n ++ r) = if (n <=? SIZE_MAX)%Z then Ret n else Undef.
Proof.
  intros Hn Hr. unfold parseUlong_view, from_chars_unsigned.
  rewrite digits_prefix_dec by done. rewrite length_to_dec by done.
  rewrite Z.ltb_antisym. by destruct (n <=? SIZE_MAX)%Z.
Qed.

Lemma parseUlong_view_dec_witness :
  parseUlong_view (to_dec 18446744073709551616 ++ lit " ") = Undef.
Proof. apply (parseUlong_view_dec 18446744073709551616 (lit " ")); done. Defined.

Lemma strto_dec n : (0 <= n)%Z -> strto (to_dec n) = (false, n, length (to_dec n)).
Proof.
  intros Hn. pose proof (to_dec_spec n Hn) as (Hne & Hd & _).
  pose proof (digits_prefix_dec n [] Hn eq_refl) as Hp. rewrite app_nil_r in Hp.
  pose proof (length_to_dec n Hn) as Hl.
  destruct (to_dec n) as [|c r]; [done|]. apply Forall_inv in Hd as [d Hc].
  assert (isspace c = false /\ Ascii.eqb c "-" = false /\ Ascii.eqb c "+" = false)
    as (Hsp & Hm & Hpl).
  { assert (H : forall a, bool_decide (digit a = None)
      || (negb (isspace a) && negb (Ascii.eqb a "-") && negb (Ascii.eqb a "+")) = true)
      by (apply byte_forall; vm_compute; reflexivity).
    specialize (H c). rewrite Hc in H. simpl in H.
    by destruct (isspace c), (Ascii.eqb c "-"), (Ascii.eqb c "+"). }
  unfold strto. simpl skip_spaces. rewrite Hsp, Hm, Hpl, Hp, Hl. done.
Qed.

(** The string overload used for the operands of the calculator inverts
    [std::to_string] on the whole range of a 64-bit [long]. *)
Theorem parseLong_string_dec n :
  (INT64_MIN <= n <= INT64_MAX)%Z -> parseLong_string (to_dec n) = Ret n.
Proof.
  intros Hn. unfold parseLong_string, strtol. destruct (Z.ltb_spec n 0) as [Hneg|Hpos].
  - assert (to_dec n = "-"%char :: to_dec (- n)) as ->.
    { unfold to_dec. rewrite (proj2 (Z.ltb_lt n 0)) by lia.
      destruct (Z.ltb_spec (- n) 0); [lia|done]. }
    pose proof (strto_dec (- n) ltac:(lia)) as Hs.
    pose proof (digits_prefix_dec (- n) [] ltac:(lia) eq_refl) as Hp.
    rewrite app_nil_r in Hp. pose proof (length_to_dec (- n) ltac:(lia)) as Hl.
    unfold strto. simpl. rewrite Hp, Hl. simpl. rewrite Nat.eqb_refl. simpl. f_equal. lia.
  - rewrite strto_dec by lia. rewrite Nat.eqb_refl. simpl. f_equal. lia.
Qed.

Lemma parseLong_string_dec_witness :
  parseLong_string (to_dec (-9223372036854775808)) = Ret (-9223372036854775808)%Z.
Proof. apply parseLong_string_dec; unfold INT64_MIN, INT64_MAX; lia. Defined.

(** ** Theorems: percent-decoding *)

(** The decoder the loop is meant to be, by recursion on the string. *)
Fixpoint percent_decode (plus_to_space : bool) (s : bytes) : bytes :=
  match s with
  | [] => []
  | c :: r =>
    if plus_to_space && Ascii.eqb c "+" then " "%char :: percent_decode plus_to_space r
    else if Ascii.eqb c "%" then
      match r with
      | h :: l :: r' =>
        if isxdigit h && isxdigit l
        then chr (16 * xdigit_value h + xdigit_value l) :: percent_decode plus_to_space r'
        else c :: percent_decode plus_to_space r
      | _ => c :: percent_decode plus_to_space r
      end
    else c :: percent_decode plus_to_space r
  end.

Lemma percent_decode_plain plus s :
  "%"%char ∉ s -> (plus = true -> "+"%char ∉ s) -> percent_decode plus s = s.
Proof.
  induction s as [|c r IH]; intros H1 H2; [done|]. simpl.
  rewrite not_elem_of_cons in H1. destruct H1 as [Hc H1].
  assert (plus && Ascii.eqb c "+" = false) as ->.
  { destruct plus; [|done]. specialize (H2 eq_refl). rewrite not_elem_of_cons in H2.
    destruct (Ascii.eqb_spec c "+"); [by subst; tauto|done]. }
  destruct (Ascii.eqb_spec c "%"); [congruence|]. f_equal. apply IH; [done|].
  intros Hp. specialize (H2 Hp). rewrite not_elem_of_cons in H2. tauto.
Qed.

Lemma shiftl4 h l : (Z.shiftl h 4 + l = 16 * h + l)%Z.
Proof. rewrite Z.shiftl_mul_pow2 by lia. lia. Qed.

Lemma percent_decode_cons plus c r :
  (if plus && Ascii.eqb c "+" then true else negb (Ascii.eqb c "%")) = true ->
  percent_decode plus (c :: r)
  = (if plus && Ascii.eqb c "+" then " "%char else c) :: percent_decode plus r.
Proof. simpl. destruct (plus && _); [done|]. by destruct (Ascii.eqb c "%"). Qed.

Lemma percent_decode_hex plus h l r :
  percent_decode plus ("%"%char :: h :: l :: r)
  = if isxdigit h && isxdigit l
    then chr (16 * xdigit_value h + xdigit_value l) :: percent_decode plus r
    else "%"%char :: percent_decode plus (h :: l :: r).
Proof. simpl. by rewrite andb_false_r. Qed.

Lemma percent_decode_short plus r :
  length r < 2 -> percent_decode plus ("%"%char :: r) = "%"%char :: percent_decode plus r.
Proof.
  intros Hr. destruct r as [|a [|b r]]; simpl in *; try lia; by rewrite andb_false_r.
Qed.

#[local] Arguments percent_decode : simpl never.

Lemma unescape_loop_spec plus path fuel i out :
  3 <= length path -> (Z.of_nat (length path) < W64)%Z ->
  i <= length path -> length path < fuel + i ->
  unescape_loop fuel path plus i out = Ret (out ++ percent_decode plus (drop i path)).
Proof.
  intros Hlen HW. revert i out. induction fuel as [|f IH]; intros i out Hi Hfuel; [lia|].
  simpl. destruct (path !! i) as [ch|] eqn:Ech.
  2: { apply lookup_ge_None in Ech. rewrite drop_ge by lia. by rewrite app_nil_r. }
  apply lookup_lt_Some in Ech as Hlt. rewrite (drop_S _ _ _ Ech).
  destruct (plus && Ascii.eqb ch "+") eqn:Eplus.
  { rewrite IH by lia. rewrite percent_decode_cons by (by rewrite Eplus).
    rewrite Eplus. by rewrite <- app_assoc. }
  destruct (Ascii.eqb_spec ch "%") as [->|Hne]; simpl.
  2: { rewrite IH by lia. rewrite percent_decode_cons.
       - rewrite Eplus. by rewrite <- app_assoc.
       - rewrite Eplus. by destruct (Ascii.eqb_spec ch "%"). }
  rewrite wrap64_small by lia.
  destruct (Z.ltb_spec (Z.of_nat (length path) - 3) (Z.of_nat i)).
  { rewrite IH by lia. rewrite percent_decode_short by (rewrite length_drop; lia).
    by rewrite <- app_assoc. }
  destruct (lookup_lt_is_Some_2 path (S i)) as [h Hh]; [lia|].
  destruct (lookup_lt_is_Some_2 path (S (S i))) as [l Hl]; [lia|].
  replace (i + 1) with (S i) by lia. replace (i + 2) with (S (S i)) by lia.
  rewrite Hh, Hl, (drop_S _ _ _ Hh), (drop_S _ _ _ Hl), percent_decode_hex.
  rewrite shiftl4. destruct (isxdigit h && isxdigit l) eqn:Ex.
  - apply andb_true_iff in Ex as [-> ->]. cbn [negb orb]. rewrite IH by lia.
    rewrite (Nat.add_comm i 3), <- app_assoc. done.
  - rewrite <- (drop_S _ _ _ Hl), <- (drop_S _ _ _ Hh).
    assert (negb (isxdigit h) || negb (isxdigit l) = true) as ->
      by (by destruct (isxdigit h), (isxdigit l)).
    rewrite IH by lia. by rewrite <- app_assoc.
Qed.

Lemma unescape_loop_short plus path i out fuel :
  length path < 3 -> i <= length path -> length path < fuel + i ->
  "%"%char ∈ drop i path -> unescape_loop fuel path plus i out = Undef.
Proof.
  intros Hlen. revert i out. induction fuel as [|f IH]; intros i out Hi Hfuel Hin; [lia|].
  simpl. destruct (path !! i) as [ch|] eqn:Ech.
  2: { apply lookup_ge_None in Ech. rewrite drop_ge in Hin by lia. set_solver. }
  apply lookup_lt_Some in Ech as Hlt. rewrite (drop_S _ _ _ Ech) in Hin.
  destruct (Ascii.eqb_spec ch "%") as [->|Hne].
  - replace (plus && Ascii.eqb "%" "+") with false by (by destruct plus). simpl.
    assert (Hw : (3 <= wrap64 (Z.of_nat (length path) - 3))%Z).
    { clear - Hlen. destruct (length path) as [|[|[|n]]]; [..|lia]; by vm_compute. }
    destruct (Z.ltb_spec (wrap64 (Z.of_nat (length path) - 3)) (Z.of_nat i)); [lia|].
    destruct (path !! (i + 1)); [|done].
    destruct (path !! (i + 2)) eqn:E; [|done]. apply lookup_lt_Some in E. lia.
  - assert ("%"%char ∈ drop (S i) path) by (apply elem_of_cons in Hin as [Hin|Hin]; [congruence|done]).
    destruct (plus && Ascii.eqb ch "+"); simpl; apply IH; (done || lia).
Qed.

Lemma unescape_loop_plain plus path fuel i out :
  "%"%char ∉ path -> i <= length path -> length path < fuel + i ->
  unescape_loop fuel path plus i out = Ret (out ++ percent_decode plus (drop i path)).
Proof.
  intros Hp. revert i out. induction fuel as [|f IH]; intros i out Hi Hf; [lia|]. simpl.
  destruct (path !! i) as [ch|] eqn:Ech.
  2: { apply lookup_ge_None in Ech. rewrite drop_ge by lia. by rewrite app_nil_r. }
  apply lookup_lt_Some in Ech as Hlt. rewrite (drop_S _ _ _ Ech).
  assert (Ascii.eqb ch "%" = false) as Hne.
  { apply Ascii.eqb_neq. intros ->. apply Hp, list_elem_of_lookup. eauto. }
  rewrite percent_decode_cons by (rewrite Hne; by destruct (_ && _)).
  rewrite Hne. destruct (plus && Ascii.eqb ch "+"); simpl; rewrite IH by lia;
    by rewrite <- app_assoc.
Qed.

Lemma unescape_decodes path plus :
  (Z.of_nat (length path) < W64)%Z ->
  unescape path plus =
    if bool_decide ("%"%char ∈ path) && (length path <? 3) then Undef
    else Ret (percent_decode plus path).
Proof.
  intros HW. unfold unescape.
  destruct (bool_decide (find_char "%" path = None)) eqn:Ep;
    [apply bool_decide_eq_true, find_char_None in Ep|apply bool_decide_eq_false in Ep;
     rewrite find_char_None in Ep; apply dec_stable in Ep].
  - rewrite (bool_decide_false _ Ep). cbn [andb negb].
    destruct (plus && negb (bool_decide (find_char "+" path = None))) eqn:E; cbn [andb negb].
    + rewrite unescape_loop_plain by (done || lia). done.
    + rewrite percent_decode_plain; [done..|]. intros ->. simpl in E.
      apply negb_false_iff, bool_decide_eq_true in E. by apply find_char_None.
  - rewrite (bool_decide_true _ Ep). cbn [andb negb].
    destruct (Nat.ltb_spec (length path) 3).
    + apply unescape_loop_short; (done || lia).
    + rewrite unescape_loop_spec by lia. done.
Qed.

(** C40: percent-decoding is total except for a short string: on a string of
    fewer than three bytes that contains a percent sign the bound
    [size - 3 < i] wraps around and bytes behind the end are read; on every
    other string the result is that of the reference decoder. *)
Theorem unescape_spec path plus :
  (Z.of_nat (length path) < W64)%Z ->
  unescape path plus =
    if bool_decide ("%"%char ∈ path) && (length path <? 3) then Undef
    else Ret (percent_decode plus path).
Proof. exact (unescape_decodes path plus). Qed.

Lemma unescape_spec_witness : unescape (lit "a%") true = Undef.
Proof. apply (unescape_spec (lit "a%") true); done. Defined.

(** Escaping one byte and decoding it gives the byte back. *)
Definition decodes_to (s : bytes) (ch : ascii) : bool :=
  match s with
  | [c] => (Ascii.eqb c "+" && Ascii.eqb ch " ")
           || (Ascii.eqb c ch && negb (Ascii.eqb c "+") && negb (Ascii.eqb c "%"))
  | [c; h; l] => Ascii.eqb c "%" && isxdigit h && isxdigit l
                 && Ascii.eqb (chr (16 * xdigit_value h + xdigit_value l)) ch
  | _ => false
  end.

Lemma escapeURL_char_decodes ch : decodes_to (escapeURL_char ch) ch = true.
Proof. revert ch. apply byte_forall. vm_compute. reflexivity. Qed.

Lemma percent_decode_app s ch r :
  decodes_to s ch = true -> percent_decode true (s ++ r) = ch :: percent_decode true r.
Proof.
  destruct s as [|c [|h [|l [|? ?]]]]; try done; cbn [decodes_to app].
  - rewrite orb_true_iff, !andb_true_iff, !negb_true_iff.
    intros [[->%Ascii.eqb_eq ->%Ascii.eqb_eq]|[[->%Ascii.eqb_eq Hp] Hc]].
    + done.
    + rewrite percent_decode_cons; simpl; by rewrite Hp, ?Hc.
  - rewrite !andb_true_iff. intros [[[->%Ascii.eqb_eq Hh] Hl] Hc%Ascii.eqb_eq].
    by rewrite percent_decode_hex, Hh, Hl, Hc.
Qed.

Lemma percent_decode_escapeURL s : percent_decode true (escapeURL s) = s.
Proof.
  induction s as [|c s IH]; [done|].
  change (escapeURL (c :: s)) with (escapeURL_char c ++ escapeURL s).
  rewrite (percent_decode_app _ c) by apply escapeURL_char_decodes.
  by rewrite IH.
Qed.

Lemma percent_decode_escapeURL_app s r :
  percent_decode true (escapeURL s ++ r) = s ++ percent_decode true r.
Proof.
  induction s as [|c s IH]; [done|].
  change (escapeURL (c :: s)) with (escapeURL_char c ++ escapeURL s). rewrite <- app_assoc.
  rewrite (percent_decode_app _ c) by apply escapeURL_char_decodes. by rewrite IH.
Qed.

Lemma percent_decode_slash r : percent_decode true ("/"%char :: r) = "/"%char :: percent_decode true r.
Proof. exact (percent_decode_app ["/"%char] "/" r eq_refl). Qed.

(** A path whose names are percent-encoded decodes to the names. *)
Lemma percent_decode_names names :
  percent_decode true (join (map escapeURL names) (lit "/")) = join names (lit "/").
Proof.
  induction names as [|n [|n2 names] IH]; [done| |].
  - change (join (map escapeURL [n]) (lit "/")) with (escapeURL n ++ []).
    rewrite percent_decode_escapeURL_app. done.
  - change (join (map escapeURL (n :: n2 :: names)) (lit "/"))
      with (escapeURL n ++ "/"%char :: join (map escapeURL (n2 :: names)) (lit "/")).
    rewrite percent_decode_escapeURL_app, percent_decode_slash, IH. done.
Qed.

Lemma escapeURL_percent s : "%"%char ∈ escapeURL s -> 3 <= length (escapeURL s).
Proof.
  induction s as [|c s IH]; [set_solver|].
  change (escapeURL (c :: s)) with (escapeURL_char c ++ escapeURL s).
  rewrite elem_of_app, length_app. intros [H|H]; [|apply IH in H; lia].
  assert (Hc : implb (bool_decide ("%"%char ∈ escapeURL_char c))
                     (3 <=? length (escapeURL_char c)) = true).
  { clear. revert c. apply byte_forall. vm_compute. reflexivity. }
  rewrite bool_decide_true in Hc by done. cbn [implb] in Hc. apply Nat.leb_le in Hc. lia.
Qed.

Lemma names_percent names :
  "%"%char ∈ join (map escapeURL names) (lit "/") -> 3 <= length (join (map escapeURL names) (lit "/")).
Proof.
  induction names as [|n [|n2 names] IH]; [by intros ?%elem_of_nil| |].
  - change (join (map escapeURL [n]) (lit "/")) with (escapeURL n ++ []). rewrite app_nil_r. apply escapeURL_percent.
  - change (join (map escapeURL (n :: n2 :: names)) (lit "/"))
      with (escapeURL n ++ "/"%char :: join (map escapeURL (n2 :: names)) (lit "/")).
    rewrite elem_of_app, elem_of_cons, length_app. cbn [length]. intros [H|[H|H]]; [|done|].
    + apply escapeURL_percent in H. lia.
    + apply IH in H. lia.
Qed.

Lemma unescape_names names :
  (Z.of_nat (length (lit "/" ++ join (map escapeURL names) (lit "/"))) < W64)%Z ->
  unescape (lit "/" ++ join (map escapeURL names) (lit "/")) true = Ret (lit "/" ++ join names (lit "/")).
Proof.
  intros HW. rewrite unescape_decodes by done. change (lit "/" ++ ?x) with ("/"%char :: x) in *.
  rewrite percent_decode_slash, percent_decode_names.
  case_bool_decide as H; cbn [andb]; [|done]. apply elem_of_cons in H as [H|H]; [done|].
  apply names_percent in H. rewrite (proj2 (Nat.ltb_ge _ _)); [done|]. cbn [length]. lia.
Qed.

Lemma unescape_of_escapeURL s :
  (Z.of_nat (length (escapeURL s)) < W64)%Z -> unescape (escapeURL s) true = Ret s.
Proof.
  intros HW. rewrite unescape_decodes by done. rewrite percent_decode_escapeURL.
  case_bool_decide as H; simpl; [|done].
  apply escapeURL_percent in H. by rewrite (proj2 (Nat.ltb_ge _ _)).
Qed.

(** Percent-decoding inverts percent-encoding on every string. *)
Theorem unescape_escapeURL s :
  (Z.of_nat (length (escapeURL s)) < W64)%Z -> unescape (escapeURL s) true = Ret s.
Proof. exact (unescape_of_escapeURL s). Qed.

Lemma unescape_escapeURL_witness :
  unescape (escapeURL (lit "a b/c%")) true = Ret (lit "a b/c%").
Proof. apply unescape_escapeURL. vm_compute. reflexivity. Defined.

(** ** Theorems: hexadecimal and HTML *)

Fixpoint hex_decode (s : bytes) : option bytes :=
  match s with
  | [] => Some []
  | h :: l :: r =>
    if isxdigit h && isxdigit l
    then cons (chr (16 * xdigit_value h + xdigit_value l)) <$> hex_decode r
    else None
  | _ => None
  end.

Lemma hex_get_char_spec c :
  let h := hex_get_char (Z.shiftr (code c) 4) in
  let l := hex_get_char (Z.land (code c) 15) in
  isxdigit h && isxdigit l && Ascii.eqb (chr (16 * xdigit_value h + xdigit_value l)) c = true.
Proof. revert c. apply byte_forall. vm_compute. reflexivity. Qed.

Lemma hexString_decode s :
  hex_decode (hexString s) = Some s /\ length (hexString s) = 2 * length s.
Proof.
  induction s as [|c s [IH1 IH2]]; [done|]. unfold hexString in *. simpl.
  pose proof (hex_get_char_spec c) as H. simpl in H.
  rewrite !andb_true_iff in H. destruct H as [[Hh Hl] Hc%Ascii.eqb_eq].
  rewrite Hh, Hl, Hc, IH1. split; [done|]. lia.
Qed.

(** No byte that could open a tag or end an attribute survives. *)
Lemma escapeHTML_safe s c :
  c ∈ escapeHTML s -> c <> "<"%char /\ c <> ">"%char /\ c <> dquote.
Proof.
  unfold escapeHTML. rewrite list_elem_of_In, in_concat. intros (e & He & Hin).
  apply in_map_iff in He as (ch & <- & _).
  assert (H : forall a, forallb (fun x => negb (Ascii.eqb x "<") && negb (Ascii.eqb x ">")
              && negb (Ascii.eqb x dquote)) (escapeHTML_char a) = true)
    by (apply byte_forall; vm_compute; reflexivity).
  specialize (H ch). rewrite forallb_forall in H. specialize (H c Hin).
  rewrite !andb_true_iff, !negb_true_iff, !Ascii.eqb_neq in H. tauto.
Qed.

(** ** Theorems: the last occurrence *)

Lemma find_end_None p s :
  find_end p s = None -> forall j, j < length s -> is_prefix p (drop j s) = false.
Proof.
  induction s as [|d s IH]; intros H j Hj; simpl in *; [lia|].
  destruct (find_end p s); [done|]. destruct (is_prefix p (d :: s)) eqn:Ed; [done|].
  destruct j as [|j]; [done|]. simpl. apply IH; [done|lia].
Qed.

Lemma find_end_Some p s i :
  find_end p s = Some i ->
  i < length s /\ is_prefix p (drop i s) = true /\
  forall j, i < j -> j < length s -> is_prefix p (drop j s) = false.
Proof.
  revert i. induction s as [|c s IH]; intros i H; simpl in H; [done|].
  destruct (find_end p s) as [k|] eqn:E.
  - injection H as <-. destruct (IH k eq_refl) as (H1 & H2 & H3). simpl.
    split; [lia|]. split; [done|]. intros [|j] Hj Hl; [lia|]. simpl. apply H3; lia.
  - destruct (is_prefix p (c :: s)) eqn:Ep; [|done]. injection H as <-.
    split; [simpl; lia|]. split; [done|].
    intros [|j] Hj Hl; [lia|]. simpl in *. apply (find_end_None p s E). lia.
Qed.
