(* ===== verification/Threads.v ===== *)
(** * Threads: the queue and the thread pool

    [include/threading/MTQueue.h], [include/threading/ThreadPool.h] and
    [src/threading/ThreadPool.cpp].  Every access to an atomic, the queue, the
    mutex or the condition variable is one step; a schedule says which thread
    takes the next one.  A job is a number; running it is one step. *)

From Stdlib Require Import ZArith Lia.
From stdpp Require Import base tactics option list.
From S2P Require Import Prelude.

(** ** The queue: its operations, each under the queue's own lock *)

Module MTQueue.
Section queue.
Context {T : Type}.

(** [front], [back], [pop] and [take] on an empty queue are undefined. *)
Definition front : M (list T) T :=
  q ← get; match q with x :: _ => mret x | [] => undefined end.
Definition back : M (list T) T :=
  q ← get; match last q with Some x => mret x | None => undefined end.
Definition pop : M (list T) () :=
  q ← get; match q with _ :: r => put r | [] => undefined end.
Definition take : M (list T) T := x ← front; pop ;; mret x.
Definition tryTake : M (list T) (option T) :=
  q ← get; match q with [] => mret None | x :: r => put r ;; mret (Some x) end.
Definition push (x : T) : M (list T) () := modify (fun q => q ++ [x]).
Definition empty : M (list T) bool := q ← get; mret (match q with [] => true | _ => false end).
Definition clear : M (list T) () := put [].
Definition size : M (list T) nat := q ← get; mret (length q).
Definition steal : M (list T) (list T) := q ← get; put [] ;; mret q.
End queue.
End MTQueue.

(** ** The pool *)

Definition job := Z.

(** Where a worker is: [last] is [last_jobs_done]. *)
Inductive worker :=
| WStart
| WWhile (last : nat)              (* [while (active)] *)
| WLock (last : nat)               (* [std::unique_lock lock(workMutex)], and after waking *)
| WPredicate (last : nat)          (* holds the mutex, about to evaluate the predicate *)
| WBlock (last : nat)              (* holds the mutex; the predicate was false *)
| WAsleep (last : nat)
| WUnlock (last : nat)
| WJoining (last : nat)            (* [if (joining)] *)
| WTake (last : nat)
| WReady (last : nat) (f : job)    (* [newJobReady = false] *)
| WRun (last : nat) (f : job)
| WCount (f : job)                 (* [last_jobs_done = ++jobsDone] *)
| WNotify (last : nat)
| WMiss                            (* [last_jobs_done = jobsDone] *)
| WExit.

(** Where a call of one of the methods is. *)
Inductive call :=
| StartJoining | StartActive | StartSpawn (thread_index : nat)
| JoinActive | JoinJoining | JoinClear | JoinNotify | JoinThread (threads : list nat) | JoinPool
| DetachActive | DetachJoining | DetachClear | DetachNotify | DetachPool
| AddActive (f : job) | AddPush (f : job) | AddReady | AddNotify
| Returned (added : bool)
| Failed.                          (* an assertion: the process ends *)

(** [p_gone] is a history: the jobs that have left the queue, with whether a
    worker took them; [p_finished] those that have run. *)
Record pool := Pool {
  p_size : nat;
  p_queue : list job;
  p_mutex : option nat;
  p_pool : list nat;
  p_active : bool;
  p_joining : bool;
  p_newJobReady : bool;
  p_jobsDone : nat;
  p_workers : list worker;
  p_calls : list call;
  p_pushed : list job;
  p_gone : list (job * bool);
  p_finished : list job;
}.

Definition new_pool (size : nat) : pool :=
  Pool size [] None [] false false false 0 [] [] [] [] [].

Definition set_worker (i : nat) (w : worker) (s : pool) : pool :=
  Pool (p_size s) (p_queue s) (p_mutex s) (p_pool s) (p_active s) (p_joining s) (p_newJobReady s)
    (p_jobsDone s) (<[i := w]> (p_workers s)) (p_calls s) (p_pushed s) (p_gone s) (p_finished s).
Definition set_call (k : nat) (c : call) (s : pool) : pool :=
  Pool (p_size s) (p_queue s) (p_mutex s) (p_pool s) (p_active s) (p_joining s) (p_newJobReady s)
    (p_jobsDone s) (p_workers s) (<[k := c]> (p_calls s)) (p_pushed s) (p_gone s) (p_finished s).
Definition set_mutex (m : option nat) (s : pool) : pool :=
  Pool (p_size s) (p_queue s) m (p_pool s) (p_active s) (p_joining s) (p_newJobReady s)
    (p_jobsDone s) (p_workers s) (p_calls s) (p_pushed s) (p_gone s) (p_finished s).
Definition set_flags (active joining ready : bool) (s : pool) : pool :=
  Pool (p_size s) (p_queue s) (p_mutex s) (p_pool s) active joining ready
    (p_jobsDone s) (p_workers s) (p_calls s) (p_pushed s) (p_gone s) (p_finished s).
Definition set_ready (b : bool) (s : pool) : pool := set_flags (p_active s) (p_joining s) b s.
Definition set_pool (l : list nat) (s : pool) : pool :=
  Pool (p_size s) (p_queue s) (p_mutex s) l (p_active s) (p_joining s) (p_newJobReady s)
    (p_jobsDone s) (p_workers s) (p_calls s) (p_pushed s) (p_gone s) (p_finished s).
Definition push_job (f : job) (s : pool) : pool :=
  Pool (p_size s) (MTQueue.push f (p_queue s)).2 (p_mutex s) (p_pool s) (p_active s) (p_joining s)
    (p_newJobReady s) (p_jobsDone s) (p_workers s) (p_calls s) (p_pushed s ++ [f]) (p_gone s)
    (p_finished s).
(** The first job leaves the queue, to a worker. *)
Definition drop_first (f : job) (q : list job) (s : pool) : pool :=
  Pool (p_size s) q (p_mutex s) (p_pool s) (p_active s) (p_joining s) (p_newJobReady s)
    (p_jobsDone s) (p_workers s) (p_calls s) (p_pushed s) (p_gone s ++ [(f, true)]) (p_finished s).
Definition clear_queue (s : pool) : pool :=
  Pool (p_size s) (MTQueue.clear (p_queue s)).2 (p_mutex s) (p_pool s) (p_active s) (p_joining s)
    (p_newJobReady s) (p_jobsDone s) (p_workers s) (p_calls s) (p_pushed s)
    (p_gone s ++ map (fun f => (f, false)) (p_queue s)) (p_finished s).
Definition count_job (f : job) (s : pool) : pool :=
  Pool (p_size s) (p_queue s) (p_mutex s) (p_pool s) (p_active s) (p_joining s) (p_newJobReady s)
    (S (p_jobsDone s)) (p_workers s) (p_calls s) (p_pushed s) (p_gone s) (p_finished s ++ [f]).
Definition spawn (s : pool) : pool :=
  Pool (p_size s) (p_queue s) (p_mutex s) (p_pool s ++ [length (p_workers s)]) (p_active s)
    (p_joining s) (p_newJobReady s) (p_jobsDone s) (p_workers s ++ [WStart]) (p_calls s)
    (p_pushed s) (p_gone s) (p_finished s).
Definition new_call (c : call) (s : pool) : pool :=
  Pool (p_size s) (p_queue s) (p_mutex s) (p_pool s) (p_active s) (p_joining s) (p_newJobReady s)
    (p_jobsDone s) (p_workers s) (p_calls s ++ [c]) (p_pushed s) (p_gone s) (p_finished s).

(** A sleeping worker is woken: it will lock the mutex again and look at the
    predicate. *)
Definition wake (w : worker) : worker := match w with WAsleep last => WLock last | _ => w end.
Definition is_asleep (w : worker) : bool := match w with WAsleep _ => true | _ => false end.
Definition notify_all (s : pool) : pool :=
  Pool (p_size s) (p_queue s) (p_mutex s) (p_pool s) (p_active s) (p_joining s) (p_newJobReady s)
    (p_jobsDone s) (map wake (p_workers s)) (p_calls s) (p_pushed s) (p_gone s) (p_finished s).

(** [notify_one] wakes the worker [target], which must be asleep; if nobody is
    asleep it does nothing. *)
Definition notify_one (target : nat) (s : pool) : option pool :=
  if existsb is_asleep (p_workers s) then
    match p_workers s !! target with
    | Some (WAsleep last) => Some (set_worker target (WLock last) s)
    | _ => None
    end
  else Some s.

Definition predicate (last : nat) (s : pool) : bool :=
  p_joining s || p_newJobReady s || (last <? p_jobsDone s).

(** ** Steps *)

(** The next step of the worker [i]; [None] when it cannot take one. *)
Definition worker_step (i target : nat) (s : pool) : option pool :=
  w ← p_workers s !! i;
  match w with
  | WStart => Some (set_worker i (WWhile (p_jobsDone s)) s)
  | WWhile last => Some (set_worker i (if p_active s then WLock last else WExit) s)
  | WLock last =>
    match p_mutex s with
    | None => Some (set_mutex (Some i) (set_worker i (WPredicate last) s))
    | Some _ => None
    end
  | WPredicate last =>
    Some (set_worker i (if predicate last s then WUnlock last else WBlock last) s)
  | WBlock last => Some (set_mutex None (set_worker i (WAsleep last) s))
  | WAsleep last => None
  | WUnlock last => Some (set_mutex None (set_worker i (WJoining last) s))
  | WJoining last => Some (set_worker i (if p_joining s then WExit else WTake last) s)
  | WTake last =>
    match MTQueue.tryTake (p_queue s) with
    | (Ret (Some f), q) => Some (drop_first f q (set_worker i (WReady last f) s))
    | (Ret None, _) => Some (set_worker i WMiss s)
    | _ => None
    end
  | WReady last f => Some (set_ready false (set_worker i (WRun last f) s))
  | WRun last f => Some (set_worker i (WCount f) s)
  | WCount f => Some (count_job f (set_worker i (WNotify (S (p_jobsDone s))) s))
  | WNotify last => notify_one target (set_worker i (WWhile last) s)
  | WMiss => Some (set_worker i (WWhile (p_jobsDone s)) s)
  | WExit => None
  end.

(** The next step of the call [k]. *)
Definition call_step (k target : nat) (s : pool) : option pool :=
  c ← p_calls s !! k;
  match c with
  | StartJoining =>
    Some (set_call k (if p_joining s then Returned false else StartActive) s)
  | StartActive =>
    Some (set_call k (if p_active s then Returned false
                      else if bool_decide (p_pool s = []) then StartSpawn 0 else Failed)
            (set_flags true (p_joining s) (p_newJobReady s) s))
  | StartSpawn i =>
    if i <? p_size s then Some (set_call k (StartSpawn (S i)) (spawn s))
    else Some (set_call k (Returned false) s)
  | JoinActive =>
    Some (set_call k (if p_active s then JoinJoining else Returned false)
            (set_flags false (p_joining s) (p_newJobReady s) s))
  | JoinJoining =>
    Some (set_call k (if p_joining s then Returned false else JoinClear)
            (set_flags (p_active s) true (p_newJobReady s) s))
  | JoinClear => Some (set_call k JoinNotify (clear_queue s))
  | JoinNotify => Some (set_call k (JoinThread (p_pool s)) (notify_all s))
  | JoinThread [] => Some (set_call k JoinPool s)
  | JoinThread (t :: rest) =>
    match p_workers s !! t with
    | Some WExit => Some (set_call k (JoinThread rest) s)
    | _ => None
    end
  | JoinPool =>
    Some (set_call k (Returned false)
            (set_pool [] (set_flags (p_active s) false (p_newJobReady s) s)))
  | DetachActive =>
    Some (set_call k (if p_active s then DetachJoining else Returned false)
            (set_flags false (p_joining s) (p_newJobReady s) s))
  | DetachJoining =>
    Some (set_call k (if p_joining s then Returned false else DetachClear)
            (set_flags (p_active s) true (p_newJobReady s) s))
  | DetachClear => Some (set_call k DetachNotify (clear_queue s))
  | DetachNotify => Some (set_call k DetachPool (notify_all s))
  | DetachPool =>
    Some (set_call k (Returned false)
            (set_pool [] (set_flags (p_active s) false (p_newJobReady s) s)))
  | AddActive f => Some (set_call k (if p_active s then AddPush f else Returned false) s)
  | AddPush f => Some (set_call k AddReady (push_job f s))
  | AddReady => Some (set_call k AddNotify (set_ready true s))
  | AddNotify => set_call k (Returned true) <$> notify_one target s
  | Returned _ | Failed => None
  end.

(** What the scheduler may do: a step of a worker or a call (with the worker a
    notification would wake), a spurious wake-up, or a new call. *)
Inductive event := Work (i target : nat) | Go (k target : nat) | Spurious (i : nat) | Call (c : call).

Definition is_new_call (c : call) : bool :=
  match c with StartJoining | JoinActive | DetachActive | AddActive _ => true | _ => false end.

Definition pool_step (e : event) (s : pool) : option pool :=
  match e with
  | Work i target => worker_step i target s
  | Go k target => call_step k target s
  | Spurious i => match p_workers s !! i with
                  | Some (WAsleep last) => Some (set_worker i (WLock last) s)
                  | _ => None
                  end
  | Call c => if is_new_call c then Some (new_call c s) else None
  end.

Fixpoint run (events : list event) (s : pool) : option pool :=
  match events with
  | [] => Some s
  | e :: rest => s' ← pool_step e s; run rest s'
  end.

Definition jobCount (s : pool) : nat := length (p_queue s).

(** ** Theorems: what every schedule keeps *)

(** The job a worker has in hand. *)
Definition in_hand (w : worker) : list job :=
  match w with WReady _ f | WRun _ f | WCount f => [f] | _ => [] end.
Definition holds_mutex (w : worker) : bool :=
  match w with WPredicate _ | WBlock _ | WUnlock _ => true | _ => false end.
Definition taken (s : pool) : list job :=
  map fst (List.filter (fun x : job * bool => x.2) (p_gone s)).
Definition hands (s : pool) : list job := concat (map in_hand (p_workers s)).

Record pool_ok (s : pool) : Prop := {
  ok_fifo : p_pushed s = map fst (p_gone s) ++ p_queue s;
  ok_taken : taken s ≡ₚ p_finished s ++ hands s;
  ok_done : p_jobsDone s = length (p_finished s);
  ok_mutex i : (exists w, p_workers s !! i = Some w /\ holds_mutex w = true) <-> p_mutex s = Some i;
}.

Lemma hands_insert i w w' l :
  l !! i = Some w -> concat (map in_hand (<[i := w']> l)) ++ in_hand w ≡ₚ
  concat (map in_hand l) ++ in_hand w'.
Proof.
  revert i. induction l as [|x l IH]; intros [|i] H; try done; cbn in *.
  - injection H as ->. rewrite <- !app_assoc. rewrite (Permutation_app_comm (in_hand w')).
    rewrite (Permutation_app_comm (in_hand w)). rewrite <- !app_assoc.
    apply Permutation_app_head, Permutation_app_comm.
  - rewrite <- !app_assoc. by apply Permutation_app_head, IH.
Qed.

(** A worker that has the same in hand after a step as before. *)
Lemma hands_same i w w' s :
  p_workers s !! i = Some w -> in_hand w' = in_hand w -> hands (set_worker i w' s) ≡ₚ hands s.
Proof.
  intros Hw Hh. pose proof (hands_insert i w w' (p_workers s) Hw) as H. rewrite Hh in H.
  by apply Permutation_app_inv_r in H.
Qed.

(** The workers that hold the mutex. *)
Definition holder (l : list worker) (i : nat) : Prop :=
  exists w, l !! i = Some w /\ holds_mutex w = true.

Lemma holder_insert i w w' l j :
  l !! i = Some w ->
  holder (<[i := w']> l) j <-> (if decide (j = i) then holds_mutex w' = true else holder l j).
Proof.
  intros Hw. unfold holder. destruct (decide (j = i)) as [->|Hne].
  - rewrite list_lookup_insert_eq by by eapply lookup_lt_Some. split; [|by eauto].
    by intros (? & [= <-] & H).
  - by rewrite list_lookup_insert_ne by done.
Qed.

Lemma holder_same i w w' l j :
  l !! i = Some w -> holds_mutex w' = holds_mutex w -> holder (<[i := w']> l) j <-> holder l j.
Proof.
  intros Hw Hh. rewrite holder_insert by done. destruct (decide (j = i)) as [->|]; [|done].
  rewrite Hh. split; [by exists w|]. intros (w0 & Hw0 & H). congruence.
Qed.

Lemma ok_set_worker i w w' s :
  pool_ok s -> p_workers s !! i = Some w -> in_hand w' = in_hand w -> holds_mutex w' = holds_mutex w ->
  pool_ok (set_worker i w' s).
Proof.
  intros [Hf Ht Hd Hm] Hw Hh Hx. split; [done| |done|].
  - change (taken (set_worker i w' s)) with (taken s). rewrite Ht.
    apply Permutation_app_head. symmetry. by eapply hands_same.
  - intros j. change (holder (<[i := w']> (p_workers s)) j <-> p_mutex s = Some j).
    rewrite holder_same by done. apply Hm.
Qed.

(** Steps that change neither the queue, the workers nor the mutex. *)
Definition same_work (s s' : pool) : Prop :=
  p_queue s' = p_queue s /\ p_mutex s' = p_mutex s /\ p_jobsDone s' = p_jobsDone s /\
  p_workers s' = p_workers s /\ p_pushed s' = p_pushed s /\ p_gone s' = p_gone s /\
  p_finished s' = p_finished s.

Lemma ok_same_work s s' : same_work s s' -> pool_ok s -> pool_ok s'.
Proof.
  intros (H1 & H2 & H3 & H4 & H5 & H6 & H7) [Hf Ht Hd Hm]. unfold taken, hands in Ht.
  split; unfold taken, hands; rewrite ?H1, ?H2, ?H3, ?H4, ?H5, ?H6, ?H7; done.
Qed.

Lemma wake_hand w : in_hand (wake w) = in_hand w.
Proof. by destruct w. Qed.
Lemma wake_holds w : holds_mutex (wake w) = holds_mutex w.
Proof. by destruct w. Qed.

Lemma ok_notify_all s : pool_ok s -> pool_ok (notify_all s).
Proof.
  intros [Hf Ht Hd Hm]. split; [done| |done|].
  - change (taken (notify_all s)) with (taken s). unfold hands. cbn. rewrite map_map.
    rewrite (map_ext _ in_hand) by apply wake_hand. exact Ht.
  - intros i. rewrite <- Hm. unfold notify_all. cbn. split.
    + intros (w & Hw & Hh). apply list_lookup_fmap_Some_1 in Hw as (w0 & -> & Hw0).
      exists w0. split; [done|]. by rewrite wake_holds in Hh.
    + intros (w & Hw & Hh). exists (wake w). rewrite wake_holds. split; [|done].
      change (map wake (p_workers s)) with (wake <$> p_workers s).
      by rewrite list_lookup_fmap, Hw.
Qed.

Lemma ok_notify_one target s s' : pool_ok s -> notify_one target s = Some s' -> pool_ok s'.
Proof.
  intros Hok. unfold notify_one. destruct (existsb _ _); [|by intros [= <-]].
  destruct (p_workers s !! target) as [w|] eqn:Ew; [|done]. destruct w; try done.
  intros [= <-]. by eapply ok_set_worker.
Qed.

Lemma taken_app s l : map fst (List.filter (fun x : job * bool => x.2) (p_gone s ++ l)) =
  taken s ++ map fst (List.filter (fun x : job * bool => x.2) l).
Proof. unfold taken. by rewrite List.filter_app, map_app. Qed.

Lemma ok_push f s : pool_ok s -> pool_ok (push_job f s).
Proof. intros [Hf Ht Hd Hm]. split; cbn; [by rewrite Hf, app_assoc|done|done|done]. Qed.

Lemma ok_clear s : pool_ok s -> pool_ok (clear_queue s).
Proof.
  intros [Hf Ht Hd Hm]. split; [|unfold taken|done|done].
  - cbn. rewrite Hf, map_app, map_map, app_nil_r. cbn. by rewrite map_id.
  - cbn [p_gone clear_queue]. rewrite taken_app.
    replace (List.filter (fun x : job * bool => x.2) (map (fun f => (f, false)) (p_queue s))) with
      (@nil (job * bool)); [by rewrite app_nil_r|].
    clear. induction (p_queue s) as [|f q IH]; [done|exact IH].
Qed.

Lemma ok_spawn s : pool_ok s -> pool_ok (spawn s).
Proof.
  intros [Hf Ht Hd Hm]. split; [done| |done|].
  - change (taken (spawn s)) with (taken s). unfold hands, spawn. cbn [p_workers p_finished].
    rewrite map_app, concat_app. cbn. by rewrite app_nil_r.
  - intros i. rewrite <- Hm. cbn. split; intros (w & Hw & Hh); exists w; (split; [|done]).
    + apply lookup_app_Some in Hw as [|[_ Hw]]; [done|].
      apply list_lookup_singleton_Some in Hw as [_ <-]. done.
    + by apply lookup_app_l_Some.
Qed.

Lemma ok_take i last f q s :
  pool_ok s -> p_workers s !! i = Some (WTake last) -> p_queue s = f :: q ->
  pool_ok (drop_first f q (set_worker i (WReady last f) s)).
Proof.
  intros [Hf Ht Hd Hm] Hw Hq. split; [|unfold taken|done|].
  - cbn. by rewrite Hf, Hq, map_app, <- app_assoc.
  - cbn [p_gone drop_first set_worker]. rewrite taken_app. cbn [List.filter map fst snd].
    rewrite Ht. cbn [p_finished drop_first set_worker].
    rewrite <- app_assoc. apply Permutation_app_head. symmetry.
    pose proof (hands_insert i _ (WReady last f) _ Hw) as H. cbn [in_hand] in H.
    by rewrite app_nil_r in H.
  - intros j. change (holder (<[i := WReady last f]> (p_workers s)) j <-> p_mutex s = Some j).
    rewrite (holder_same i (WTake last)) by done. apply Hm.
Qed.

Lemma ok_count i f last s :
  pool_ok s -> p_workers s !! i = Some (WCount f) ->
  pool_ok (count_job f (set_worker i (WNotify last) s)).
Proof.
  intros [Hf Ht Hd Hm] Hw. split; [done| | |].
  - change (taken (count_job f (set_worker i (WNotify last) s))) with (taken s). rewrite Ht.
    cbn [p_finished count_job set_worker]. rewrite <- app_assoc. apply Permutation_app_head.
    pose proof (hands_insert i _ (WNotify last) _ Hw) as H. cbn [in_hand] in H.
    rewrite app_nil_r in H. unfold hands at 1. rewrite <- H. apply Permutation_app_comm.
  - cbn. rewrite length_app. cbn. lia.
  - intros j. change (holder (<[i := WNotify last]> (p_workers s)) j <-> p_mutex s = Some j).
    rewrite (holder_same i (WCount f)) by done. apply Hm.
Qed.

Lemma ok_lock i w w' s :
  pool_ok s -> p_workers s !! i = Some w -> in_hand w' = in_hand w -> holds_mutex w' = true ->
  p_mutex s = None -> pool_ok (set_mutex (Some i) (set_worker i w' s)).
Proof.
  intros [Hf Ht Hd Hm] Hw Hh Hx Hmu. split; [done| |done|].
  - change (taken s ≡ₚ p_finished s ++ hands (set_worker i w' s)). rewrite Ht.
    apply Permutation_app_head. symmetry. by eapply hands_same.
  - intros j. change (holder (<[i := w']> (p_workers s)) j <-> Some i = Some j).
    rewrite (holder_insert i w) by done. destruct (decide (j = i)) as [->|Hne]; [done|].
    split; [|intros [= ->]; done]. intros H. apply Hm in H. congruence.
Qed.

Lemma ok_unlock i w w' s :
  pool_ok s -> p_workers s !! i = Some w -> in_hand w' = in_hand w -> holds_mutex w = true ->
  holds_mutex w' = false -> pool_ok (set_mutex None (set_worker i w' s)).
Proof.
  intros [Hf Ht Hd Hm] Hw Hh Hx Hx'. split; [done| |done|].
  - change (taken s ≡ₚ p_finished s ++ hands (set_worker i w' s)). rewrite Ht.
    apply Permutation_app_head. symmetry. by eapply hands_same.
  - intros j. change (holder (<[i := w']> (p_workers s)) j <-> None = Some j).
    rewrite (holder_insert i w) by done. assert (Hi : p_mutex s = Some i) by (apply Hm; by exists w).
    destruct (decide (j = i)) as [->|Hne]; [rewrite Hx'; done|].
    split; [|done]. intros H. apply Hm in H. congruence.
Qed.

Lemma ok_worker_step i target s s' : pool_ok s -> worker_step i target s = Some s' -> pool_ok s'.
Proof.
  intros Hok. unfold worker_step. destruct (p_workers s !! i) as [w|] eqn:Ew; [|done]. cbn.
  destruct w as [|last|last|last|last|last|last|last|last|last f|last f|f|last| |].
  - intros [= <-]. by eapply ok_set_worker.
  - intros [= <-]. eapply ok_set_worker; [done|done|by destruct (p_active s)..].
  - destruct (p_mutex s) eqn:Em; [done|]. intros [= <-]. by eapply ok_lock.
  - intros [= <-]. eapply ok_set_worker; [done|done|by destruct (predicate last s)..].
  - intros [= <-]. by eapply ok_unlock.
  - done.
  - intros [= <-]. by eapply ok_unlock.
  - intros [= <-]. eapply ok_set_worker; [done|done|by destruct (p_joining s)..].
  - unfold MTQueue.tryTake. mrun. destruct (p_queue s) as [|f q] eqn:Eq.
    + intros [= <-]. by eapply ok_set_worker.
    + intros [= <-]. by apply ok_take.
  - intros [= <-]. apply (ok_same_work (set_worker i (WRun last f) s)); [done|].
    by eapply ok_set_worker.
  - intros [= <-]. by eapply ok_set_worker.
  - intros [= <-]. by apply ok_count.
  - apply ok_notify_one. by eapply ok_set_worker.
  - intros [= <-]. by eapply ok_set_worker.
  - done.
Qed.

Lemma ok_call_step k target s s' : pool_ok s -> call_step k target s = Some s' -> pool_ok s'.
Proof.
  intros Hok. unfold call_step. destruct (p_calls s !! k) as [c|] eqn:Ec; [|done]. cbn.
  destruct c; try (by intros [= <-]; apply (ok_same_work s)); try done.
  - match goal with |- (if ?b then _ else _) = _ -> _ => destruct b end; intros [= <-]; [|by apply (ok_same_work s)].
    apply (ok_same_work (spawn s)); [done|by apply ok_spawn].
  - intros [= <-]. apply (ok_same_work (clear_queue s)); [done|by apply ok_clear].
  - intros [= <-]. apply (ok_same_work (notify_all s)); [done|by apply ok_notify_all].
  - destruct threads as [|t rest]; [by intros [= <-]; apply (ok_same_work s)|].
    destruct (p_workers s !! t) as [[]|]; try done. intros [= <-]. by apply (ok_same_work s).
  - intros [= <-]. apply (ok_same_work (clear_queue s)); [done|by apply ok_clear].
  - intros [= <-]. apply (ok_same_work (notify_all s)); [done|by apply ok_notify_all].
  - intros [= <-]. apply (ok_same_work (push_job f s)); [done|by apply ok_push].
  - destruct (notify_one target s) as [s1|] eqn:E; [|done]. intros [= <-].
    apply (ok_same_work s1); [done|]. by eapply ok_notify_one.
Qed.

Lemma ok_pool_step e s s' : pool_ok s -> pool_step e s = Some s' -> pool_ok s'.
Proof.
  intros Hok. destruct e as [i t|k t|i|c]; cbn [pool_step].
  - by apply ok_worker_step.
  - by apply ok_call_step.
  - destruct (p_workers s !! i) as [w|] eqn:Ew; [|done]. destruct w; try done.
    intros [= <-]. by eapply ok_set_worker.
  - destruct (is_new_call c); [|done]. intros [= <-]. by apply (ok_same_work s).
Qed.

Lemma run_ok events s s' : pool_ok s -> run events s = Some s' -> pool_ok s'.
Proof.
  revert s. induction events as [|e rest IH]; intros s Hok; cbn; [by intros [= <-]|].
  destruct (pool_step e s) as [s1|] eqn:E; [|done]. cbn. apply IH. by eapply ok_pool_step.
Qed.

Lemma new_pool_ok size : pool_ok (new_pool size).
Proof. split; [done|done|done|]. intros i. cbn. split; [|done]. by intros (w & ? & _). Qed.

(** The jobs that [join] or [detach] threw out of the queue. *)
Definition discarded (s : pool) : list job :=
  map fst (List.filter (fun x : job * bool => negb x.2) (p_gone s)).

(** The calls of [add] that have put their job into the queue, and those that are
    in [join] or [detach]. *)
Definition has_added (c : call) : bool := match c with AddReady | AddNotify | Returned true => true | _ => false end.
Definition stops (c : call) : bool :=
  match c with
  | JoinActive | JoinJoining | JoinClear | JoinNotify | JoinThread _ | JoinPool
  | DetachActive | DetachJoining | DetachClear | DetachNotify | DetachPool => true
  | _ => false
  end.
Definition no_stop (e : event) : bool := match e with Call c => negb (stops c) | _ => true end.
Definition adds (l : list call) : nat := length (List.filter has_added l).

Lemma gone_split (l : list (job * bool)) :
  map fst l ≡ₚ map fst (List.filter (fun x : job * bool => x.2) l) ++ map fst (List.filter (fun x : job * bool => negb x.2) l).
Proof.
  induction l as [|[f []] l IH]; cbn; [done|by constructor|]. rewrite <- Permutation_middle. by constructor.
Qed.

Lemma adds_insert k c c' l : l !! k = Some c ->
  adds (<[k := c']> l) + Nat.b2n (has_added c) = adds l + Nat.b2n (has_added c').
Proof.
  unfold adds. revert k. induction l as [|x l IH]; intros [|k] H; try done; cbn in *.
  - injection H as ->. destruct (has_added c), (has_added c'); cbn; lia.
  - destruct (has_added x); [exact (f_equal S (IH k H))|exact (IH k H)].
Qed.

Lemma notify_one_keeps target s s' : notify_one target s = Some s' ->
  p_calls s' = p_calls s /\ p_pushed s' = p_pushed s /\ p_gone s' = p_gone s.
Proof.
  unfold notify_one. destruct (existsb _ _); [|by intros [= <-]].
  destruct (p_workers s !! target) as [[]|]; try done. by intros [= <-].
Qed.

Lemma worker_step_keeps i target s s' : worker_step i target s = Some s' ->
  p_calls s' = p_calls s /\ p_pushed s' = p_pushed s /\ discarded s' = discarded s.
Proof.
  unfold worker_step. destruct (p_workers s !! i) as [w|]; [|done]. cbn.
  destruct w; try (by intros [= <-]); try done.
  - destruct (p_mutex s); [done|by intros [= <-]].
  - unfold MTQueue.tryTake. mrun. destruct (p_queue s) as [|f q]; [by intros [= <-]|].
    intros [= <-]. do 2 (split; [done|]). unfold discarded. cbn. rewrite List.filter_app, map_app. apply app_nil_r.
  - intros (E1 & E2 & E3)%notify_one_keeps. unfold discarded. by rewrite E1, E2, E3.
Qed.

Lemma call_step_does k target s s' : call_step k target s = Some s' ->
  exists c c', p_calls s !! k = Some c /\ p_calls s' = <[k := c']> (p_calls s) /\
    length (p_pushed s') + Nat.b2n (has_added c) = length (p_pushed s) + Nat.b2n (has_added c') /\
    (stops c = false -> stops c' = false /\ discarded s' = discarded s).
Proof.
  unfold call_step. destruct (p_calls s !! k) as [c|]; [|done]. cbn.
  destruct c; try done; try (intros [= <-]; eexists _, _; do 2 (split; [done|]); by repeat case_match).
  - match goal with |- (if ?b then _ else _) = _ -> _ => destruct b end; intros [= <-]; by eexists _, _.
  - destruct threads as [|t rest]; [intros [= <-]; by eexists _, _|].
    destruct (p_workers s !! t) as [[]|]; try done. intros [= <-]. by eexists _, _.
  - intros [= <-]. eexists _, _. do 2 (split; [done|]). cbn. rewrite length_app. cbn. split; [lia|done].
  - destruct (notify_one target s) as [s1|] eqn:E; [|done]. apply notify_one_keeps in E as (E1 & E2 & E3).
    intros [= <-]. eexists _, _. split; [done|]. unfold discarded. cbn. by rewrite E1, E2, E3.
Qed.

Lemma run_adds events s s' : run events s = Some s' ->
  adds (p_calls s) = length (p_pushed s) -> adds (p_calls s') = length (p_pushed s').
Proof.
  revert s. induction events as [|e rest IH]; intros s; cbn; [by intros [= <-]|].
  destruct (pool_step e s) as [s1|] eqn:E; [|done]. cbn. intros Hr Ha. apply (IH s1 Hr). clear IH Hr.
  destruct e as [i t|k t|i|c]; cbn [pool_step] in E.
  - by apply worker_step_keeps in E as (-> & -> & _).
  - apply call_step_does in E as (c & c' & Hc & -> & Hp & _). pose proof (adds_insert k c c' _ Hc). lia.
  - destruct (p_workers s !! i) as [[]|]; try done. by injection E as <-.
  - destruct (is_new_call c) eqn:Hc; [|done]. injection E as <-. unfold adds. cbn.
    rewrite List.filter_app. by destruct c; cbn; rewrite ?app_nil_r.
Qed.

Lemma run_no_stop events s s' : run events s = Some s' -> forallb no_stop events = true ->
  Forall (fun c => stops c = false) (p_calls s) -> discarded s' = discarded s.
Proof.
  revert s. induction events as [|e rest IH]; intros s; cbn; [by intros [= <-]|].
  destruct (pool_step e s) as [s1|] eqn:E; [|done]. cbn. intros Hr [He Hall]%andb_prop Hc.
  cut (Forall (fun c => stops c = false) (p_calls s1) /\ discarded s1 = discarded s);
    [intros [Hc1 <-]; by apply (IH s1)|]. clear IH Hr Hall.
  destruct e as [i t|k t|i|c]; cbn [pool_step] in E.
  - by apply worker_step_keeps in E as (-> & _ & ->).
  - apply call_step_does in E as (c & c' & Hk & -> & _ & Hs).
    destruct (Hs (Forall_lookup_1 _ _ _ _ Hc Hk)) as [Hs1 ->]. split; [by apply Forall_insert|done].
  - destruct (p_workers s !! i) as [[]|]; try done. by injection E as <-.
  - destruct (is_new_call c); [|done]. injection E as <-. cbn. split; [|done].
    apply Forall_app. split; [done|]. repeat constructor. cbn in He. by destruct (stops c).
Qed.

(** C14: whatever the scheduler does, each job that a call of [add] has put into
    the pool is in exactly one place: it waits in the queue, is in the hands of one
    worker, has run once, or was thrown out by [join] or [detach]; unless one of
    these has been called nothing is thrown out, so that no job is lost.  Jobs leave
    the queue in the order in which they came, the count of jobs done is the number
    of those that have run, and at most one worker holds the mutex. *)
Theorem pool_accounts_for_jobs size events s :
  run events (new_pool size) = Some s ->
  length (p_pushed s) = adds (p_calls s) /\
  p_pushed s ≡ₚ p_queue s ++ hands s ++ p_finished s ++ discarded s /\
  (forallb no_stop events = true -> discarded s = []) /\
  p_pushed s = map fst (p_gone s) ++ p_queue s /\
  p_jobsDone s = length (p_finished s) /\
  forall i j, holder (p_workers s) i -> holder (p_workers s) j -> i = j.
Proof.
  intros Hrun. pose proof (run_ok _ _ _ (new_pool_ok size) Hrun) as [Hf Ht Hd Hm].
  split; [by rewrite (run_adds _ _ _ Hrun)|]. split.
  { rewrite Hf, (gone_split (p_gone s)). fold (taken s) (discarded s). rewrite Ht.
    rewrite (Permutation_app_comm _ (p_queue s)). apply Permutation_app_head.
    rewrite (Permutation_app_comm (p_finished s)), <- app_assoc. done. }
  split; [intros Hn; by apply (run_no_stop _ _ _ Hrun Hn)|]. split; [done|]. split; [done|].
  intros i j Hi Hj. apply Hm in Hi, Hj. congruence.
Qed.

(** ** Theorems: jobs that wait and calls that do not return *)

(** Nobody has anything to do: each worker sleeps, or is on its way to sleep
    again, or has left, and no call is in progress. *)
Definition waits (s : pool) (w : worker) : Prop :=
  match w with
  | WAsleep last | WLock last | WPredicate last | WBlock last => predicate last s = false
  | WExit => True
  | _ => False
  end.
Definition has_returned (c : call) : Prop := match c with Returned _ => True | _ => False end.
Definition stalled (s : pool) : Prop :=
  Forall (waits s) (p_workers s) /\ Forall has_returned (p_calls s).

Definition is_call (e : event) : bool := match e with Call _ => true | _ => false end.

Lemma stalled_worker i w' s : stalled s -> waits s w' -> stalled (set_worker i w' s).
Proof. intros [Hw Hc] Hw'. split; [|exact Hc]. cbn. by apply Forall_insert. Qed.

Lemma stalled_mutex m s : stalled s -> stalled (set_mutex m s).
Proof. done. Qed.

Lemma stalled_step e s s' :
  stalled s -> is_call e = false -> pool_step e s = Some s' ->
  stalled s' /\ p_queue s' = p_queue s /\ p_finished s' = p_finished s.
Proof.
  intros Hs He. pose proof Hs as [Hw Hc]. destruct e as [i t|k t|i|c]; [| | |done]; cbn [pool_step].
  - unfold worker_step. destruct (p_workers s !! i) as [w|] eqn:Ew; [|done]. cbn.
    pose proof (Forall_lookup_1 _ _ _ _ Hw Ew) as Hi. destruct w; try done; cbn in Hi.
    + destruct (p_mutex s); [done|]. intros [= <-]. split; [|done]. by apply stalled_mutex, stalled_worker.
    + rewrite Hi. intros [= <-]. split; [|done]. by apply stalled_worker.
    + intros [= <-]. split; [|done]. by apply stalled_mutex, stalled_worker.
  - unfold call_step. destruct (p_calls s !! k) as [c|] eqn:Ec; [|done]. cbn.
    pose proof (Forall_lookup_1 _ _ _ _ Hc Ec) as Hk. by destruct c.
  - destruct (p_workers s !! i) as [w|] eqn:Ew; [|done].
    pose proof (Forall_lookup_1 _ _ _ _ Hw Ew) as Hi. destruct w; try done.
    intros [= <-]. split; [|done]. by apply stalled_worker.
Qed.

Lemma stalled_run events s s' :
  stalled s -> Forall (fun e => is_call e = false) events -> run events s = Some s' ->
  p_queue s' = p_queue s /\ p_finished s' = p_finished s.
Proof.
  intros Hs Hall. revert s Hs. induction Hall as [|e rest He _ IH]; intros s Hs; cbn; [by intros [= <-]|].
  destruct (pool_step e s) as [s1|] eqn:E; [|done]. cbn. intros Hrun.
  destruct (stalled_step e s s1 Hs He E) as (Hs1 & <- & <-). by apply IH.
Qed.

Definition steps_of (n : nat) (e : event) : list event := repeat e n.

(** In a pool of one worker, as the build plugin has it, a second job that is
    added before the worker has taken the first is not run when the first is done:
    both calls have returned true, and whatever the scheduler does the job stays
    in the queue until another method is called. *)
Theorem second_job_waits f g :
  exists events s, run events (new_pool 1) = Some s /\
    p_calls s = [Returned false; Returned true; Returned true] /\
    p_finished s = [f] /\ p_queue s = [g] /\
    forall more s', Forall (fun e => is_call e = false) more -> run more s = Some s' ->
      p_queue s' = [g] /\ p_finished s' = [f].
Proof.
  exists ([Call StartJoining] ++ steps_of 4 (Go 0 0) ++ [Call (AddActive f)] ++ steps_of 4 (Go 1 0)
          ++ [Call (AddActive g)] ++ steps_of 4 (Go 2 0) ++ steps_of 15 (Work 0 0)).
  eexists. split; [vm_compute; reflexivity|]. split; [reflexivity|]. split; [reflexivity|]. split; [reflexivity|].
  intros more s' Hall Hrun. eapply stalled_run in Hrun; [exact Hrun| |exact Hall].
  split; repeat constructor.
Qed.

(** [join] does not hold the mutex when it sets its flag and notifies, so a
    worker that has just found nothing to do misses the notification: the worker
    sleeps, [join] waits for it, and no thread can take a step (but for a
    spurious wake-up). *)
Theorem join_never_returns :
  exists events s, run events (new_pool 1) = Some s /\
    p_calls s = [Returned false; JoinThread [0]] /\
    p_workers s = [WAsleep 0] /\ predicate 0 s = true /\
    forall e, is_call e = false -> (forall i, e <> Spurious i) -> pool_step e s = None.
Proof.
  exists ([Call StartJoining] ++ steps_of 4 (Go 0 0) ++ steps_of 4 (Work 0 0) ++ [Call JoinActive]
          ++ steps_of 4 (Go 1 0) ++ [Work 0 0]).
  eexists. split; [vm_compute; reflexivity|]. split; [reflexivity|]. split; [reflexivity|]. split; [reflexivity|].
  intros [i t|k t|i|c] He Hsp; [| |by destruct (Hsp i)|done]; cbn.
  - unfold worker_step. by destruct i as [|i].
  - unfold call_step. destruct k as [|[|k]]; done.
Qed.

(** Two jobs are added, the first has run, and the pool is joined. *)
Definition two_jobs : list event :=
  [Call StartJoining] ++ steps_of 4 (Go 0 0) ++ [Call (AddActive 7%Z)] ++ steps_of 4 (Go 1 0)
  ++ [Call (AddActive 8%Z)] ++ steps_of 4 (Go 2 0) ++ steps_of 15 (Work 0 0).

Lemma pool_accounts_for_jobs_witness :
  exists s, run two_jobs (new_pool 1) = Some s /\ p_finished s = [7%Z] /\ p_queue s = [8%Z] /\
    length (p_pushed s) = 2 /\ p_pushed s ≡ₚ [8%Z] ++ hands s ++ [7%Z] /\
    exists s', run (two_jobs ++ [Call JoinActive] ++ steps_of 3 (Go 3 0)) (new_pool 1) = Some s' /\
      discarded s' = [8%Z] /\ p_pushed s' ≡ₚ p_queue s' ++ hands s' ++ p_finished s' ++ [8%Z].
Proof.
  destruct (run two_jobs (new_pool 1)) as [s|] eqn:E; [|vm_compute in E; discriminate E].
  destruct (pool_accounts_for_jobs 1 two_jobs s E) as (H1 & H2 & H3 & _). exists s. split; [reflexivity|].
  specialize (H3 ltac:(vm_compute; reflexivity)). rewrite H3, app_nil_r in H2.
  destruct (run (two_jobs ++ [Call JoinActive] ++ steps_of 3 (Go 3 0)) (new_pool 1)) as [s'|] eqn:E'; [|vm_compute in E'; discriminate E'].
  destruct (pool_accounts_for_jobs 1 _ s' E') as (_ & H4 & _).
  assert (Hd : discarded s' = [8%Z]) by (vm_compute in E'; injection E' as <-; vm_compute; reflexivity).
  rewrite Hd in H4.
  assert (Hs : p_finished s = [7%Z] /\ p_queue s = [8%Z] /\ adds (p_calls s) = 2)
    by (vm_compute in E; injection E as <-; vm_compute; auto).
  destruct Hs as (Hf & Hq & Ha). rewrite Hf, Hq in H2. rewrite Ha in H1.
  split; [exact Hf|]. split; [exact Hq|]. split; [exact H1|]. split; [exact H2|].
  exists s'. split; [reflexivity|]. split; [exact Hd|exact H4].
Defined.
