(* ===== verification/Lockable.v ===== *)
(** * Lockable: values with their mutex

    [include/threading/Lockable.h].  A value is a number of words; an operation
    reads and writes them one at a time, between taking its locks and releasing
    them, and a schedule says which thread takes the next step.  An operation is
    what the member function does: its locks in the order in which they are
    taken, and the steps it makes on words and on its own variables. *)

From Stdlib Require Import Lia.
From stdpp Require Import base tactics option list sets.
From S2P Require Import Prelude.

(** A [std::shared_mutex] is held by any number of readers or by one writer. *)
Inductive mode := Shared | Unique.

#[export] Instance mode_eq_dec : EqDecision mode.
Proof. solve_decision. Defined.

Section lockable.
Context {V : Type}.

(** The words of the objects, and the words of an operation's own variables: its
    argument and what it returns. *)
Definition store : Type := nat -> nat -> V.
Definition words : Type := nat -> V.
Record locals := Locals { value : words; result : words }.

Definition set_word (w : nat) (v : V) (x : words) : words := fun w' => if w' =? w then v else x w'.
Definition set_cell (o w : nat) (v : V) (s : store) : store :=
  fun o' w' => if (o' =? o) && (w' =? w) then v else s o' w'.

(** A step on the word [w] of the object [o]. *)
Inductive micro :=
| Read (o w : nat) (f : V -> locals -> locals)
| Write (o w : nat) (f : locals -> V).

Definition micro_step (m : micro) (x : store * locals) : store * locals :=
  match m with
  | Read o w f => (x.1, f (x.1 o w) x.2)
  | Write o w f => (set_cell o w (f x.2) x.1, x.2)
  end.
Definition exec (body : list micro) (x : store * locals) : store * locals :=
  fold_left (fun x m => micro_step m x) body x.

Record op := Op { op_locks : list (nat * mode); op_start : locals; op_body : list micro }.

(** ** The operations *)

(** The number of words of the type, and a value for variables not set yet. *)
Variable width : nat.
Variable blank : V.
Definition nothing : words := fun _ => blank.

Definition each (f : nat -> micro) : list micro := map f (seq 0 width).
Definition keep (w : nat) (v : V) (l : locals) : locals := Locals (value l) (set_word w v (result l)).

(** [T::operator=] from a variable, from another object, and into the result. *)
Definition assign_from_value (o : nat) : list micro := each (fun w => Write o w (fun l => value l w)).
Definition copy_to_result (o : nat) : list micro := each (fun w => Read o w (keep w)).
Definition assign_from_result (o : nat) : list micro := each (fun w => Write o w (fun l => result l w)).

(** [operator=(const Lockable &)]; assigning an object to itself does nothing. *)
Definition copy_assign (this other : nat) : op :=
  if this =? other then Op [] (Locals nothing nothing) []
  else Op [(this, Unique); (other, Shared)] (Locals nothing nothing)
         (copy_to_result other ++ assign_from_result this).

(** [operator=(Lockable &&)]: [moved] is what the type leaves behind. *)
Definition move_assign (moved : V -> V) (this other : nat) : op :=
  if this =? other then Op [] (Locals nothing nothing) []
  else Op [(this, Unique); (other, Unique)] (Locals nothing nothing)
         (copy_to_result other ++ each (fun w => Write other w (fun l => moved (result l w)))
          ++ assign_from_result this).

(** The templates [operator=(const U &)] and [operator=(U &&)], of a value. *)
Definition assign_value (v : words) (this : nat) : op :=
  Op [(this, Unique)] (Locals v nothing) (assign_from_value this).

(** [operator=(U &&)] with an object that is not const: [U] is deduced to be a
    reference to it, which matches better than [const Lockable &]. *)
Definition assign_lvalue (this other : nat) : op :=
  Op [(this, Unique)] (Locals nothing nothing) (copy_to_result other ++ assign_from_result this).

(** The constructor [Lockable(const Lockable &)], of a new object. *)
Definition copy_construct (this other : nat) : op :=
  Op [] (Locals nothing nothing) (copy_to_result other ++ assign_from_result this).

Definition unsafeSet (v : words) (this : nat) : op :=
  Op [] (Locals v nothing) (assign_from_value this).

(** [withShared] and [withUnique] of a function that reads the words, computes,
    and, in the second, stores what it has computed. *)
Definition compute (f : words -> words) (l : locals) (w : nat) : V := f (result l) w.
Definition withShared (this : nat) : op :=
  Op [(this, Shared)] (Locals nothing nothing) (copy_to_result this).
Definition withUnique (f : words -> words) (this : nat) : op :=
  Op [(this, Unique)] (Locals nothing nothing)
    (copy_to_result this ++ each (fun w => Write this w (fun l => compute f l w))).

(** [withShared] of an object that is not const, with a function that takes a
    reference through which it can write. *)
Definition withShared_mutable (f : words -> words) (this : nat) : op :=
  Op [(this, Shared)] (Locals nothing nothing)
    (copy_to_result this ++ each (fun w => Write this w (fun l => compute f l w))).

Definition copyBase (this : nat) : op :=
  Op [(this, Shared)] (Locals nothing nothing) (copy_to_result this).

(** [std::swap] moves through a temporary, which [value] is then set from. *)
Definition swap (v : words) (this : nat) : op :=
  Op [(this, Unique)] (Locals v nothing) (copy_to_result this ++ assign_from_value this).

(** ** Threads *)

Inductive phase :=
| Locking (taken : nat)
| Body (steps : nat) (l : locals)
| Unlocking (left : nat).
Record thread := Thread { t_ops : list op; t_phase : phase }.

Definition held (t : thread) : list (nat * mode) :=
  match t_ops t with
  | [] => []
  | o :: _ => match t_phase t with
              | Locking n | Unlocking n => take n (op_locks o)
              | Body _ _ => op_locks o
              end
  end.

(** [s_log] is a history: the operations that have been carried out, with what
    they returned. *)
Record state := State {
  s_store : store;
  s_threads : list thread;
  s_log : list (op * locals);
}.

(** Whether the mutex of [o] can be taken, nobody excepted. *)
Definition available (o : nat) (m : mode) (s : state) : bool :=
  forallb (fun t => forallb (fun h => negb (h.1 =? o) ||
    match m, h.2 with Shared, Shared => true | _, _ => false end) (held t)) (s_threads s).

Definition set_thread (i : nat) (t : thread) (s : state) : state :=
  State (s_store s) (<[i := t]> (s_threads s)) (s_log s).

Definition step (i : nat) (s : state) : option state :=
  t ← s_threads s !! i;
  match t_ops t with
  | [] => None
  | o :: rest =>
    let go p := set_thread i (Thread (t_ops t) p) s in
    match t_phase t with
    | Locking n =>
      match op_locks o !! n with
      | Some (x, m) => if available x m s then Some (go (Locking (S n))) else None
      | None => Some (go (Body 0 (op_start o)))
      end
    | Body n l =>
      match op_body o !! n with
      | Some m => let x := micro_step m (s_store s, l) in
                  Some (State x.1 (s_threads (go (Body (S n) x.2))) (s_log s))
      | None => Some (State (s_store s) (s_threads (go (Unlocking (length (op_locks o)))))
                        (s_log s ++ [(o, l)]))
      end
    | Unlocking (S n) => Some (go (Unlocking n))
    | Unlocking O => Some (set_thread i (Thread rest (Locking 0)) s)
    end
  end.

Fixpoint run (schedule : list nat) (s : state) : option state :=
  match schedule with
  | [] => Some s
  | i :: rest => s' ← step i s; run rest s'
  end.

Definition start (st : store) (programs : list (list op)) : state :=
  State st (map (fun ops => Thread ops (Locking 0)) programs) [].

(** ** The specification: operations one after the other *)

Fixpoint replay (st : store) (ops : list op) : store * list locals :=
  match ops with
  | [] => (st, [])
  | o :: rest =>
    let x := exec (op_body o) (st, op_start o) in
    let y := replay x.1 rest in (y.1, x.2 :: y.2)
  end.

(** Whether an operation reads under a lock and writes under a unique one. *)
Definition locked_micro (locks : list (nat * mode)) (m : micro) : bool :=
  match m with
  | Read o _ _ => existsb (fun h => h.1 =? o) locks
  | Write o _ _ => bool_decide ((o, Unique) ∈ locks)
  end.
Definition locked_op (o : op) : bool := forallb (locked_micro (op_locks o)) (op_body o).

(** ** Lemmas *)

Definition locks_of (locks : list (nat * mode)) (o : nat) : Prop := exists m, (o, m) ∈ locks.
Definition agree (P : nat -> Prop) (a b : store) : Prop := forall o w, P o -> a o w = b o w.

Lemma exec_cons m body x : exec (m :: body) x = exec body (micro_step m x).
Proof. done. Qed.

Lemma exec_app b1 b2 x : exec (b1 ++ b2) x = exec b2 (exec b1 x).
Proof. apply fold_left_app. Qed.

(** What a locked body does depends on, and changes, the objects it has locked. *)
Lemma exec_frame locks body a b l :
  forallb (locked_micro locks) body = true -> agree (locks_of locks) a b ->
  agree (locks_of locks) (exec body (a, l)).1 (exec body (b, l)).1 /\
  (exec body (a, l)).2 = (exec body (b, l)).2.
Proof.
  revert a b l. induction body as [|m body IH]; intros a b l Hl Hab; [done|].
  cbn [forallb] in Hl. apply andb_true_iff in Hl as [Hm Hl]. rewrite !exec_cons.
  destruct m as [o w f|o w f]; cbn [micro_step fst snd].
  - assert (a o w = b o w) as ->; [|by apply IH]. apply Hab.
    cbn in Hm. apply existsb_exists in Hm as ([o' m] & Hin & Ho). cbn in Ho. apply Nat.eqb_eq in Ho as ->.
    exists m. by apply list_elem_of_In.
  - apply IH; [done|]. intros o' w' Ho. unfold set_cell. destruct (_ && _); [done|by apply Hab].
Qed.

Lemma exec_untouched locks body x o w :
  forallb (locked_micro locks) body = true -> (o, Unique) ∉ locks -> (exec body x).1 o w = x.1 o w.
Proof.
  intros Hl Ho. revert x. induction body as [|m body IH]; intros x; [done|].
  cbn [forallb] in Hl. apply andb_true_iff in Hl as [Hm Hl]. rewrite exec_cons, IH by done.
  destruct m as [o' w' f|o' w' f]; [done|]. cbn. unfold set_cell.
  cbn in Hm. apply bool_decide_eq_true in Hm. destruct (Nat.eqb_spec o o') as [->|]; [done|]. done.
Qed.

Lemma replay_snoc st ops o :
  replay st (ops ++ [o]) =
    let y := replay st ops in let x := exec (op_body o) (y.1, op_start o) in (x.1, y.2 ++ [x.2]).
Proof.
  revert st. induction ops as [|p ops IH]; intros st; [done|]. cbn. rewrite IH. done.
Qed.

(** ** What every schedule keeps *)

Definition in_body (t : thread) : option (op * nat * locals) :=
  match t_ops t, t_phase t with o :: _, Body n l => Some (o, n, l) | _, _ => None end.
Definition replayed (st0 : store) (s : state) : store * list locals := replay st0 (map fst (s_log s)).

Record atomic (st0 : store) (s : state) : Prop := {
  at_locked i t : s_threads s !! i = Some t -> forallb locked_op (t_ops t) = true;
  at_exclusive i j ti tj o m : i <> j -> s_threads s !! i = Some ti -> s_threads s !! j = Some tj ->
    (o, Unique) ∈ held ti -> (o, m) ∉ held tj;
  at_results : (replayed st0 s).2 = map snd (s_log s);
  at_body i t o n l : s_threads s !! i = Some t -> in_body t = Some (o, n, l) ->
    agree (locks_of (op_locks o)) (exec (take n (op_body o)) ((replayed st0 s).1, op_start o)).1 (s_store s) /\
    (exec (take n (op_body o)) ((replayed st0 s).1, op_start o)).2 = l;
  at_rest x : (forall i t o n l, s_threads s !! i = Some t -> in_body t = Some (o, n, l) ->
      ~ locks_of (op_locks o) x) ->
    forall w, s_store s x w = (replayed st0 s).1 x w;
}.

Lemma in_body_held t o n l : in_body t = Some (o, n, l) -> held t = op_locks o.
Proof. unfold in_body, held. destruct (t_ops t); [done|]. destruct (t_phase t); by intros [= -> <- <-]. Qed.

Lemma available_spec x m s j t m' :
  available x m s = true -> s_threads s !! j = Some t -> (x, m') ∈ held t -> m = Shared /\ m' = Shared.
Proof.
  unfold available. rewrite forallb_forall. intros H Hj Hin.
  specialize (H t ltac:(by apply list_elem_of_In, list_elem_of_lookup; exists j)). rewrite forallb_forall in H.
  specialize (H (x, m') ltac:(by apply list_elem_of_In)). cbn in H. rewrite Nat.eqb_refl in H. cbn in H.
  by destruct m, m'.
Qed.

(** A step of one thread that is not in a body before or after it. *)
Lemma atomic_outside st0 s i t t' :
  atomic st0 s -> s_threads s !! i = Some t -> in_body t = None -> in_body t' = None ->
  forallb locked_op (t_ops t') = true ->
  (forall x m, (x, m) ∈ held t' -> (x, m) ∈ held t \/ available x m s = true) ->
  atomic st0 (set_thread i t' s).
Proof.
  intros [Hl He Hr Hb Hs] Hi Hn Hn' Hl' Hh. assert (Hlen : i < length (s_threads s)) by by eapply lookup_lt_Some.
  assert (Hthread : forall j tj, s_threads (set_thread i t' s) !! j = Some tj ->
    (j = i /\ tj = t') \/ (j <> i /\ s_threads s !! j = Some tj)).
  { intros j tj. cbn. rewrite list_lookup_insert. case_decide as Hd; [destruct Hd as [-> _]; intros [= <-]; by left|].
    right. split; [|done]. intros ->. by apply Hd. }
  split.
  - intros j tj [[-> ->]|[_ Hj]]%Hthread; [done|by eapply Hl].
  - intros j k tj tk x m Hjk [[-> ->]|[Hji Hj]]%Hthread [[-> ->]|[Hki Hk]]%Hthread;
      [done|..|exact (He j k tj tk x m Hjk Hj Hk)].
    + intros Hx Hk'. destruct (Hh _ _ Hx) as [Hx'|Hx']; [by eapply (He i k)|].
      by destruct (available_spec _ _ _ _ _ _ Hx' Hk Hk') as [[=] _].
    + intros Hx Hk'. destruct (Hh _ _ Hk') as [Hx'|Hx']; [by eapply (He j i)|].
      by destruct (available_spec _ _ _ _ _ _ Hx' Hj Hx) as [_ [=]].
  - exact Hr.
  - intros j tj o n l [[-> ->]|[_ Hj]]%Hthread Ho; [congruence|by eapply Hb].
  - intros x Hx. apply Hs. intros j tj o n l Hj Ho. destruct (decide (j = i)) as [->|Hji]; [congruence|].
    eapply (Hx j); [|exact Ho]. cbn. by rewrite list_lookup_insert_ne by done.
Qed.

Lemma locks_of_dec locks x : Decision (locks_of locks x).
Proof.
  destruct (existsb (fun h => h.1 =? x) locks) eqn:E.
  - left. apply existsb_exists in E as ([y m] & Hin & Hy). cbn in Hy. apply Nat.eqb_eq in Hy as ->.
    exists m. by apply list_elem_of_In.
  - right. intros [m Hin]. apply not_true_iff_false in E. apply E, existsb_exists. exists (x, m).
    split; [by apply list_elem_of_In|]. cbn. by rewrite Nat.eqb_refl.
Qed.

(** Where no operation that runs may write, the value is that of the log. *)
Lemma logged_value st0 s x w :
  atomic st0 s ->
  (forall j t o n l, s_threads s !! j = Some t -> in_body t = Some (o, n, l) -> (x, Unique) ∉ op_locks o) ->
  s_store s x w = (replayed st0 s).1 x w.
Proof.
  intros Hat Hx.
  set (P := fun t => match in_body t with Some (o, _, _) => existsb (fun h => h.1 =? x) (op_locks o) | None => false end).
  destruct (list_find (fun t => P t = true) (s_threads s)) as [[j t]|] eqn:E.
  - apply list_find_Some in E as (Hj & HP & _). unfold P in HP.
    destruct (in_body t) as [[[o n] l]|] eqn:Ho; [|done].
    assert (Hlo : locks_of (op_locks o) x).
    { apply existsb_exists in HP as ([y m] & Hin & Hy). cbn in Hy. apply Nat.eqb_eq in Hy as ->.
      exists m. by apply list_elem_of_In. }
    destruct (at_body st0 s Hat j t o n l Hj Ho) as [Ha _]. rewrite <- Ha by done.
    apply (exec_untouched (op_locks o)); [|by eapply Hx].
    pose proof (at_locked st0 s Hat j t Hj) as Hl. unfold in_body in Ho.
    destruct (t_ops t) as [|o' rest]; [done|]. destruct (t_phase t) as [|k l'|]; [done| |done]. injection Ho as -> -> ->.
    cbn [forallb] in Hl. apply andb_true_iff in Hl as [Hl _]. unfold locked_op in Hl.
    rewrite forallb_forall in Hl |- *. intros m Hm. apply Hl. rewrite <- (take_drop n (op_body o)).
    apply in_app_iff. by left.
  - apply list_find_None in E. apply (at_rest st0 s Hat). intros j t o n l Hj Ho [m Hm].
    rewrite Forall_lookup in E. apply (E j t Hj). unfold P. rewrite Ho. apply existsb_exists.
    exists (x, m). split; [by apply list_elem_of_In|]. cbn. by rewrite Nat.eqb_refl.
Qed.

Section in_thread.
Context (st0 : store) (s : state) (i : nat) (t : thread) (o : op) (rest : list op).
Hypothesis Hat : atomic st0 s.
Hypothesis Hi : s_threads s !! i = Some t.
Hypothesis Ho : t_ops t = o :: rest.

Lemma self_locked : forallb (locked_micro (op_locks o)) (op_body o) = true.
Proof. pose proof (at_locked st0 s Hat i t Hi) as Hl. rewrite Ho in Hl. by apply andb_true_iff in Hl as [Hl _]. Qed.

Lemma lookup_set p tj j :
  <[i := Thread (t_ops t) p]> (s_threads s) !! j = Some tj ->
  (j = i /\ tj = Thread (o :: rest) p) \/ (j <> i /\ s_threads s !! j = Some tj).
Proof.
  rewrite list_lookup_insert. case_decide as Hd; [destruct Hd as [-> _]; intros [= <-]; rewrite Ho; by left|].
  right. split; [|done]. intros ->. apply Hd. split; [done|]. by eapply lookup_lt_Some.
Qed.

(** A change of phase that keeps the locks of the operation. *)
Lemma keep_held p st log :
  held t = op_locks o -> held (Thread (o :: rest) p) = op_locks o ->
  let s' := State st (<[i := Thread (t_ops t) p]> (s_threads s)) log in
  (forall j tj, s_threads s' !! j = Some tj -> forallb locked_op (t_ops tj) = true) /\
  (forall j k tj tk x m, j <> k -> s_threads s' !! j = Some tj -> s_threads s' !! k = Some tk ->
    (x, Unique) ∈ held tj -> (x, m) ∉ held tk).
Proof.
  intros H1 H2. split.
  - intros j tj [[-> ->]|[_ Hj]]%lookup_set; [|by eapply at_locked].
    change (forallb locked_op (o :: rest) = true). rewrite <- Ho. by eapply at_locked.
  - intros j k tj tk x m Hjk [[-> ->]|[Hji Hj]]%lookup_set [[-> ->]|[Hki Hk]]%lookup_set; [done|..].
    + rewrite H2, <- H1. by apply (at_exclusive st0 s Hat i k t tk).
    + rewrite H2, <- H1. by apply (at_exclusive st0 s Hat j i tj t).
    + by apply (at_exclusive st0 s Hat j k tj tk).
Qed.

(** What this thread has locked uniquely, no other operation that runs has. *)
Lemma other_locks j tj o' n l x m :
  held t = op_locks o -> j <> i -> s_threads s !! j = Some tj -> in_body tj = Some (o', n, l) ->
  (x, Unique) ∈ op_locks o -> (x, m) ∉ op_locks o'.
Proof.
  intros Hh Hji Hj Hb Hx. rewrite <- (in_body_held tj o' n l Hb). rewrite <- Hh in Hx.
  by apply (at_exclusive st0 s Hat i j t tj).
Qed.

Lemma atomic_enter n :
  t_phase t = Locking n -> op_locks o !! n = None ->
  atomic st0 (set_thread i (Thread (t_ops t) (Body 0 (op_start o))) s).
Proof.
  intros Hp Hn. assert (Hh : held t = op_locks o).
  { unfold held. rewrite Ho, Hp. apply take_ge. by apply lookup_ge_None. }
  destruct (keep_held (Body 0 (op_start o)) (s_store s) (s_log s) Hh eq_refl) as [K1 K2].
  split; [exact K1|exact K2|exact (at_results st0 s Hat)|..].
  - intros j tj o' n' l [[-> ->]|[_ Hj]]%lookup_set Hb; [|exact (at_body st0 s Hat j tj o' n' l Hj Hb)].
    injection Hb as <- <- <-. split; [|done]. intros x w [m Hx]. cbn. symmetry. apply (logged_value st0); [done|].
    intros j tj o' n' l Hj Hb Hu. destruct (decide (j = i)) as [->|Hji].
    { rewrite Hi in Hj. injection Hj as <-. unfold in_body in Hb. by rewrite Ho, Hp in Hb. }
    rewrite <- (in_body_held tj o' n' l Hb) in Hu. rewrite <- Hh in Hx.
    by apply (at_exclusive st0 s Hat j i tj t x m Hji Hj Hi Hu).
  - intros x Hx. apply (at_rest st0 s Hat). intros j tj o' n' l Hj Hb. destruct (decide (j = i)) as [->|Hji].
    { rewrite Hi in Hj. injection Hj as <-. unfold in_body in Hb. by rewrite Ho, Hp in Hb. }
    apply (Hx j tj o' n' l); [|done]. cbn. by rewrite list_lookup_insert_ne by done.
Qed.

Lemma others_body p st log j tj o' n' l :
  s_threads (State st (<[i := Thread (t_ops t) p]> (s_threads s)) log) !! j = Some tj ->
  j <> i -> in_body tj = Some (o', n', l) -> s_threads s !! j = Some tj.
Proof. intros [[-> ->]|[_ Hj]]%lookup_set Hji Hb; done. Qed.

Lemma atomic_micro n l m :
  t_phase t = Body n l -> op_body o !! n = Some m ->
  let x := micro_step m (s_store s, l) in
  atomic st0 (State x.1 (<[i := Thread (t_ops t) (Body (S n) x.2)]> (s_threads s)) (s_log s)).
Proof.
  intros Hp Hm x. assert (Hb : in_body t = Some (o, n, l)) by (unfold in_body; by rewrite Ho, Hp).
  pose proof (in_body_held t o n l Hb) as Hh. pose proof self_locked as Hl.
  assert (Hlm : locked_micro (op_locks o) m = true).
  { rewrite forallb_forall in Hl. apply Hl, list_elem_of_In. by eapply list_elem_of_lookup_2. }
  assert (Hst : forall y w, (y, Unique) ∉ op_locks o -> x.1 y w = s_store s y w).
  { intros y w Hy. pose proof (exec_untouched (op_locks o) [m] (s_store s, l) y w) as He. apply He; [|done].
    cbn. by rewrite Hlm. }
  destruct (keep_held (Body (S n) x.2) x.1 (s_log s) Hh eq_refl) as [K1 K2].
  split; [exact K1|exact K2|exact (at_results st0 s Hat)|..].
  - intros j tj o' n' l' Hj Hb'. destruct (decide (j = i)) as [->|Hji].
    + apply lookup_set in Hj as [[_ ->]|[? _]]; [|done]. injection Hb' as <- <- <-.
      destruct (at_body st0 s Hat i t o n l Hi Hb) as [Ha Hv].
      rewrite (take_S_r _ _ _ Hm), exec_app. destruct (exec (take n (op_body o)) _) as [a l0]. cbn in Ha, Hv.
      subst l0. apply (exec_frame (op_locks o) [m] a (s_store s) l); [cbn; by rewrite Hlm|done].
    + apply lookup_set in Hj as [[? _]|[_ Hj]]; [done|].
      destruct (at_body st0 s Hat j tj o' n' l' Hj Hb') as [Ha Hv]. split; [|done].
      intros y w Hy. etransitivity; [exact (Ha y w Hy)|]. symmetry. apply Hst. intros Hu. destruct Hy as [m' Hy].
      by apply (other_locks j tj o' n' l' y m' Hh Hji Hj Hb' Hu).
  - intros y Hy w. cbn in *. rewrite Hst.
    + change (replayed st0 _) with (replayed st0 s).
      apply (at_rest st0 s Hat). intros j tj o' n' l' Hj Hb' Hy'. destruct (decide (j = i)) as [->|Hji].
      * rewrite Hi in Hj. injection Hj as <-. rewrite Hb in Hb'. injection Hb' as <- <- <-.
        eapply (Hy i); [by rewrite list_lookup_insert_eq by by eapply lookup_lt_Some| |exact Hy'].
        unfold in_body. cbn. by rewrite Ho.
      * eapply (Hy j); [by rewrite list_lookup_insert_ne by done|exact Hb'|exact Hy'].
    + intros Hu. eapply (Hy i); [by rewrite list_lookup_insert_eq by by eapply lookup_lt_Some| |by exists Unique].
      unfold in_body. cbn. by rewrite Ho.
Qed.

(** The end of the body: the operation enters the log. *)
Lemma atomic_log n l :
  t_phase t = Body n l -> op_body o !! n = None ->
  atomic st0 (State (s_store s) (<[i := Thread (t_ops t) (Unlocking (length (op_locks o)))]> (s_threads s))
                (s_log s ++ [(o, l)])).
Proof.
  intros Hp Hm. set (s' := State _ _ _).
  assert (Hb : in_body t = Some (o, n, l)) by (unfold in_body; by rewrite Ho, Hp).
  pose proof (in_body_held t o n l Hb) as Hh. pose proof self_locked as Hl.
  assert (Hh' : held (Thread (o :: rest) (Unlocking (length (op_locks o)))) = op_locks o) by (cbn; by rewrite firstn_all).
  destruct (keep_held _ (s_store s) (s_log s ++ [(o, l)]) Hh Hh') as [K1 K2].
  destruct (at_body st0 s Hat i t o n l Hi Hb) as [Ha Hv].
  rewrite take_ge in Ha, Hv by by apply lookup_ge_None.
  set (x := exec (op_body o) ((replayed st0 s).1, op_start o)) in *.
  assert (Hr : replayed st0 s' = (x.1, map snd (s_log s) ++ [l])).
  { unfold replayed, s'. cbn [s_log]. rewrite map_app. cbn [map fst]. rewrite replay_snoc.
    fold (replayed st0 s). cbv zeta. fold x. by rewrite Hv, (at_results st0 s Hat). }
  assert (Hx : forall y w, (y, Unique) ∉ op_locks o -> x.1 y w = (replayed st0 s).1 y w).
  { intros y w Hy. by apply (exec_untouched (op_locks o)). }
  split; [exact K1|exact K2|..].
  - rewrite Hr. cbn. by rewrite map_app.
  - intros j tj o' n' l' Hj Hb'. apply lookup_set in Hj as [[-> ->]|[Hji Hj]]; [done|].
    rewrite Hr. cbn [fst]. destruct (at_body st0 s Hat j tj o' n' l' Hj Hb') as [Ha' Hv'].
    assert (Hl' : forallb (locked_micro (op_locks o')) (take n' (op_body o')) = true).
    { pose proof (at_locked st0 s Hat j tj Hj) as Hlj. unfold in_body in Hb'.
      destruct (t_ops tj) as [|p ps]; [done|]. destruct (t_phase tj) as [|k l0|]; [done| |done].
      injection Hb' as -> -> ->. apply andb_true_iff in Hlj as [Hlj _]. unfold locked_op in Hlj.
      rewrite <- (take_drop n' (op_body o')), forallb_app in Hlj. by apply andb_true_iff in Hlj as [? _]. }
    assert (Hag : agree (locks_of (op_locks o')) x.1 (replayed st0 s).1).
    { intros y w [m Hy]. apply Hx. intros Hu. by apply (other_locks j tj o' n' l' y m Hh Hji Hj Hb' Hu). }
    destruct (exec_frame _ _ _ _ (op_start o') Hl' Hag) as [H1 H2]. split; [|by rewrite H2].
    intros y w Hy. rewrite (H1 y w Hy). exact (Ha' y w Hy).
  - intros y Hy w. rewrite Hr. cbn [fst s_store s']. destruct (locks_of_dec (op_locks o) y) as [Hyo|Hyo].
    + symmetry. by apply Ha.
    + rewrite Hx by (intros Hu; apply Hyo; by exists Unique). apply (at_rest st0 s Hat).
      intros j tj o' n' l' Hj Hb'. destruct (decide (j = i)) as [->|Hji].
      * rewrite Hi in Hj. injection Hj as <-. rewrite Hb in Hb'. injection Hb' as <- <- <-. done.
      * apply (Hy j tj o' n' l'); [|done]. cbn. by rewrite list_lookup_insert_ne by done.
Qed.
End in_thread.

Lemma atomic_step st0 i s s' : atomic st0 s -> step i s = Some s' -> atomic st0 s'.
Proof.
  intros Hat. unfold step. destruct (s_threads s !! i) as [t|] eqn:Hi; [|done]. cbn.
  destruct (t_ops t) as [|o rest] eqn:Ho; [done|].
  assert (Hl : forallb locked_op (o :: rest) = true) by (rewrite <- Ho; by eapply at_locked).
  assert (Hout : forall p, (forall n l, p <> Body n l) -> in_body (Thread (o :: rest) p) = None).
  { intros p Hp. unfold in_body. cbn. destruct p; [done| |done]. by destruct (Hp steps l). }
  assert (Hin : (forall n l, t_phase t <> Body n l) -> in_body t = None).
  { intros Hp. unfold in_body. rewrite Ho. destruct (t_phase t); [done| |done]. by edestruct Hp. }
  destruct (t_phase t) as [n|n l|n] eqn:Hp.
  - destruct (op_locks o !! n) as [[x m]|] eqn:En.
    + destruct (available x m s) eqn:Ea; [|done]. intros [= <-].
      apply (atomic_outside st0 s i t); [done|done|by apply Hin|by apply Hout|done|].
      intros x' m' Hx'. unfold held in *. cbn in Hx'. rewrite Ho, Hp.
      rewrite (take_S_r _ _ _ En) in Hx'. apply elem_of_app in Hx' as [Hx'|Hx']; [by left|right].
      by apply list_elem_of_singleton in Hx' as [= -> ->].
    + intros [= <-]. rewrite <- Ho. eapply atomic_enter; done.
  - destruct (op_body o !! n) as [m|] eqn:En; intros [= <-]; rewrite <- Ho.
    + eapply (atomic_micro st0 s i t o rest); done.
    + eapply (atomic_log st0 s i t o rest); done.
  - destruct n as [|n]; intros [= <-]; apply (atomic_outside st0 s i t); try done; try (by apply Hin).
    + unfold in_body. cbn. by destruct rest.
    + cbn [t_ops]. by apply andb_true_iff in Hl as [_ Hl].
    + intros x m Hx. left. unfold held in Hx. cbn in Hx. destruct rest; [by apply elem_of_nil in Hx|].
      cbn in Hx. by apply elem_of_nil in Hx.
    + intros x m Hx. left. unfold held in *. cbn in Hx. rewrite Ho, Hp.
      apply elem_of_take in Hx as (k & Hk & Hlt). apply elem_of_take. exists k. split; [done|lia].
Qed.

Lemma atomic_run st0 schedule s s' : atomic st0 s -> run schedule s = Some s' -> atomic st0 s'.
Proof.
  revert s. induction schedule as [|i rest IH]; intros s Hat; cbn; [by intros [= <-]|].
  destruct (step i s) as [s1|] eqn:E; [|done]. cbn. apply IH. by eapply atomic_step.
Qed.

Lemma atomic_start st0 programs :
  Forall (fun ops => forallb locked_op ops = true) programs -> atomic st0 (start st0 programs).
Proof.
  intros Hl. assert (Ht : forall i t, s_threads (start st0 programs) !! i = Some t ->
    exists ops, programs !! i = Some ops /\ t = Thread ops (Locking 0)).
  { intros i t. cbn. rewrite list_lookup_fmap. destruct (programs !! i) as [ops|]; [|done].
    intros [= <-]. by exists ops. }
  split; [..|done| |done].
  - intros i t (ops & Hi & ->)%Ht. rewrite Forall_lookup in Hl. by eapply Hl.
  - intros i j ti tj o m _ (ops & _ & ->)%Ht _. unfold held. cbn. destruct ops; by intros ?%elem_of_nil.
  - intros i t o n l (ops & _ & ->)%Ht. unfold in_body. cbn. by destruct ops.
Qed.

(** The log holds operations of the programs. *)
Definition all_ops (P : op -> Prop) (s : state) : Prop :=
  (forall i t, s_threads s !! i = Some t -> Forall P (t_ops t)) /\ Forall (fun x => P x.1) (s_log s).

Lemma all_ops_step P i s s' : all_ops P s -> step i s = Some s' -> all_ops P s'.
Proof.
  intros [Ht Hl]. unfold step. destruct (s_threads s !! i) as [t|] eqn:Hi; [|done]. cbn.
  pose proof (Ht i t Hi) as Hops. destruct (t_ops t) as [|o rest] eqn:Ho; [done|].
  assert (Hset : forall t', Forall P (t_ops t') -> forall j u, <[i := t']> (s_threads s) !! j = Some u -> Forall P (t_ops u)).
  { intros t' Ht' j u. rewrite list_lookup_insert. case_decide; [by intros [= <-]|apply Ht]. }
  destruct (t_phase t) as [n|n l|[|n]].
  - destruct (op_locks o !! n) as [[x m]|]; [destruct (available x m s); [|done]|]; intros [= <-];
      (split; [by apply Hset|exact Hl]).
  - destruct (op_body o !! n); intros [= <-]; (split; [by apply Hset|]); [exact Hl|].
    apply Forall_app. split; [exact Hl|]. constructor; [by apply Forall_cons_1 in Hops as [? _]|done].
  - intros [= <-]. split; [|exact Hl]. apply Hset. by apply Forall_cons_1 in Hops as [_ ?].
  - intros [= <-]. split; [by apply Hset|exact Hl].
Qed.

Lemma all_ops_run P schedule st0 programs s :
  Forall (Forall P) programs -> run schedule (start st0 programs) = Some s -> Forall (fun x => P x.1) (s_log s).
Proof.
  intros Hp Hr. enough (all_ops P s) as [_ ?] by done.
  assert (Hs : all_ops P (start st0 programs)).
  { split; [|done]. intros i t. cbn. rewrite list_lookup_fmap. destruct (programs !! i) as [ops|] eqn:E; [|done].
    intros [= <-]. rewrite Forall_lookup in Hp. by apply (Hp i). }
  revert Hs Hr. generalize (start st0 programs). induction schedule as [|i rest IH]; intros s0 Hs; cbn; [by intros [= <-]|].
  destruct (step i s0) as [s1|] eqn:E; [|done]. cbn. apply IH. by eapply all_ops_step.
Qed.

(** ** The operations of the class *)

(** An operation of the class under its locks.  [assign_lvalue] and
    [copy_construct] of another object, [unsafeSet], and [withShared] of a function
    that writes, are not. *)
Inductive locked_operation : op -> Prop :=
| is_copy_assign this other : locked_operation (copy_assign this other)
| is_move_assign moved this other : locked_operation (move_assign moved this other)
| is_assign_value v this : locked_operation (assign_value v this)
| is_withShared this : locked_operation (withShared this)
| is_withUnique f this : locked_operation (withUnique f this)
| is_copyBase this : locked_operation (copyBase this)
| is_swap v this : locked_operation (swap v this).

Lemma each_locked locks f :
  (forall w, locked_micro locks (f w) = true) -> forallb (locked_micro locks) (each f) = true.
Proof. intros Hf. apply forallb_forall. intros m Hm. unfold each in Hm. apply in_map_iff in Hm as (w & <- & _). apply Hf. Qed.

Lemma locked_operation_ok o : locked_operation o -> locked_op o = true.
Proof.
  intros Ho. destruct Ho; unfold locked_op, copy_assign, move_assign, assign_value, withShared, withUnique, copyBase, swap,
    copy_to_result, assign_from_result, assign_from_value; try case_match; try done; cbn [op_locks op_body];
    rewrite ?forallb_app, ?andb_true_iff; split_and?; apply each_locked; intros w; cbn;
    rewrite ?Nat.eqb_refl, ?orb_true_r; try done; apply bool_decide_eq_true; set_solver.
Qed.

(** ** Theorems *)

(** C15: the operations of [Lockable] are atomic: under every schedule the results
    that have been returned are those of the operations carried out one after the
    other, whole, in the order of the log, and an object that no running operation
    has locked has the value which that leaves. *)
Theorem operations_are_atomic st0 programs schedule s :
  Forall (Forall locked_operation) programs -> run schedule (start st0 programs) = Some s ->
  map snd (s_log s) = (replay st0 (map fst (s_log s))).2 /\
  forall x w, (forall i t o n l, s_threads s !! i = Some t -> in_body t = Some (o, n, l) ->
      ~ locks_of (op_locks o) x) ->
    s_store s x w = (replay st0 (map fst (s_log s))).1 x w.
Proof.
  intros Hp Hr. assert (Hat : atomic st0 s).
  { eapply atomic_run, Hr. apply atomic_start. eapply Forall_impl; [exact Hp|]. intros ops Hops.
    apply forallb_forall. intros o Ho. rewrite Forall_forall in Hops.
    apply locked_operation_ok, Hops. by apply list_elem_of_In. }
  split; [by rewrite <- (at_results st0 s Hat)|]. intros x w Hx. by apply (at_rest st0 s Hat).
Qed.

End lockable.

(** Two words, 1 and 2 in the object 0, 3 and 4 in the object 1. *)
Definition two_objects : nat -> nat -> nat := fun o w => 2 * o + w + 1.
Definition pair_of (a b : nat) : nat -> nat := fun w => match w with 0 => a | _ => b end.
Definition times (n i : nat) : list nat := repeat i n.

(** Each of two threads assigns the other's object to its own: both wait. *)
Lemma crossed_assignments_deadlock :
  exists s, run [0; 1] (start two_objects [[copy_assign 2 0 0 1]; [copy_assign 2 0 1 0]]) = Some s /\
    forall i, step i s = None.
Proof. eexists. split; [reflexivity|]. by intros [|[|i]]. Qed.

(** The copy constructor, and an assignment from an object that is not const, do
    not lock the other object: they see half of an assignment. *)
Lemma unlocked_copies_tear copy :
  copy = copy_construct 2 0 2 0 \/ copy = assign_lvalue 2 0 2 0 ->
  exists schedule s, run schedule (start two_objects [[assign_value 2 0 (pair_of 7 8) 0]; [copy]]) = Some s /\
    s_store s 0 0 = 7 /\ s_store s 0 1 = 8 /\ s_store s 2 0 = 7 /\ s_store s 2 1 = 2.
Proof.
  intros [->| ->].
  - exists (times 3 0 ++ times 7 1 ++ times 4 0). eexists. split; [vm_compute; reflexivity|]. by vm_compute.
  - exists (times 3 0 ++ times 9 1 ++ times 4 0). eexists. split; [vm_compute; reflexivity|]. by vm_compute.
Qed.

(** Of two increments by writers that share the lock one can get lost. *)
Lemma shared_writers_lose_updates :
  let increment := withShared_mutable 1 0 (fun v w => S (v w)) 0 in
  exists schedule s, run schedule (start two_objects [[increment]; [increment]]) = Some s /\
    s_store s 0 0 = 2 /\ map fst (s_log s) = [increment; increment] /\
    (replay two_objects [increment; increment]).1 0 0 = 3.
Proof.
  exists (times 3 0 ++ times 7 1 ++ times 4 0). eexists. split; [vm_compute; reflexivity|]. by vm_compute.
Qed.

Lemma operations_are_atomic_witness :
  exists s : @state nat, s_store s 0 0 = 7 /\ s_store s 0 1 = 8 /\
    map (fun l => (result l 0, result l 1)) (map snd (s_log s)) = [(1, 2); (7, 8)] /\
    map snd (s_log s) = (replay two_objects (map fst (s_log s))).2.
Proof.
  destruct (run (times 8 0 ++ times 3 1 ++ times 1 0 ++ times 4 1)
    (start two_objects [[swap 2 0 (pair_of 7 8) 0]; [copyBase 2 0 0]])) as [s|] eqn:E;
    [|vm_compute in E; discriminate E].
  exists s. pose proof (operations_are_atomic 2 0 two_objects [[swap 2 0 (pair_of 7 8) 0]; [copyBase 2 0 0]] _ s
    ltac:(repeat constructor) E) as [Hr _].
  vm_compute in E. injection E as <-. split; [reflexivity|]. split; [reflexivity|]. split; [reflexivity|exact Hr].
Defined.
