(* ===== verification/Logging.v ===== *)
(** * The log, and the use of memory

    [include/Log.h], [src/Log.cpp]: the lines that the macros write, and that lines
    of several threads do not mix; [src/util/Usage.cpp]: what is read of the
    process's statistics, on Linux. *)

From Stdlib Require Import ZArith Lia Ascii String.
From stdpp Require Import base tactics option list strings.
From S2P Require Import Prelude Util Lockable.

(** ** Lines of the log *)

Inductive level := INFO | WARN | ERROR | SPAM | SUCCESS.

Definition esc : bytes := [chr 27].

(** What a macro writes, one operator after the other, the time of day and the
    message given. *)
Definition log_pieces (l : level) (timestamp message : bytes) : list bytes :=
  let mark (colour symbol : bytes) :=
    esc ++ lit "[22;2m]" ++ esc ++ lit "[22m (" ++ esc ++ lit "[22;1;" ++ colour ++ lit "m" ++ symbol
    ++ esc ++ lit "[22;39m)" ++ esc ++ lit "[2m ::" in
  let quiet := lit " " in
  let loud := esc ++ lit "[22m " in
  [esc ++ lit "[2m[" ++ esc ++ lit "[1m"; timestamp] ++
  match l with
  | INFO => [mark (lit "34") (lit "i") ++ loud; message]
  | WARN => [mark (lit "33") (lit "!") ++ loud; message]
  | ERROR => [mark (lit "31") (lit "!") ++ loud; message]
  | SPAM => [mark (lit "35") (lit "_") ++ quiet; message; esc ++ lit "[22m"]
  | SUCCESS => [mark (lit "32") (lit "🗸") ++ quiet; message; esc ++ lit "[22m"]
  end ++ [[lf]].

(** A macro takes the mutex of the log and writes piece after piece; the word 0
    of the object 0 is what has been written to [std::cerr]. *)
Definition write_piece (piece : bytes) : list (@micro bytes) :=
  [Read 0 0 (keep 0); Write 0 0 (fun l => result l 0 ++ piece)].
Definition log_op (l : level) (timestamp message : bytes) : op :=
  Op [(0, Unique)] (Locals (nothing []) (nothing [])) (concat (map write_piece (log_pieces l timestamp message))).

(** ** The statistics of the process *)

(** A stream over a text; after a failure nothing more is read. *)
Record istream := Stream { left : bytes; good : bool }.

Fixpoint skip_space (s : bytes) : bytes :=
  match s with
  | c :: r => if isspace c then skip_space r else s
  | [] => []
  end.
Fixpoint token (s : bytes) : bytes * bytes :=
  match s with
  | [] => ([], [])
  | c :: r => if isspace c then ([], s) else let x := token r in (c :: x.1, x.2)
  end.

(** [stream >> skip]. *)
Definition skip_word (s : istream) : istream :=
  if good s then
    match token (skip_space (left s)) with
    | ([], r) => Stream r false
    | (_, r) => Stream r true
    end
  else s.

Fixpoint digits (s : bytes) : bytes * bytes :=
  match s with
  | c :: r => match digit c with Some _ => let x := digits r in (c :: x.1, x.2) | None => ([], s) end
  | [] => ([], [])
  end.

(** [stream >> number]: at the end of the text the variable keeps its value;
    without a digit it becomes 0, too large a number becomes the largest, and a
    negative one wraps around. *)
Definition read_size (v : Z) (s : istream) : Z * istream :=
  if good s then
    match skip_space (left s) with
    | [] => (v, Stream [] false)
    | c :: r =>
      let negative := Ascii.eqb c "-" in
      let '(ds, rest) := digits (if negative || Ascii.eqb c "+" then r else c :: r) in
      match ds, dec_value 0 ds with
      | _ :: _, Some n =>
        if (n <? W64)%Z then (if negative then wrap64 (- n) else n, Stream rest true)
        else (SIZE_MAX, Stream rest false)
      | _, _ => (0%Z, Stream rest false)
      end
    end
  else (v, s).

(** [getMemoryUsage], given the text of [/proc/self/stat] unless it could not be
    opened; no exception has been asked of the stream. *)
Definition getMemoryUsage (stat : option bytes) (virtual resident : Z) : bool * (Z * Z) :=
  let s := match stat with Some text => Stream text true | None => Stream [] false end in
  let s := Nat.iter 22 skip_word s in
  let '(v, s) := read_size virtual s in
  let '(r, s) := read_size resident s in
  (true, (v, r)).

(** ** Theorems *)

(** A message: its level, the time and the text. *)
Definition message : Type := level * bytes * bytes.
Definition line (m : message) : bytes := concat (log_pieces m.1.1 m.1.2 m.2).
Definition to_op (m : message) : @op bytes := log_op m.1.1 m.1.2 m.2.

Lemma write_pieces_exec pieces (st : store) l :
  (exec (concat (map write_piece pieces)) (st, l)).1 0 0 = st 0 0 ++ concat pieces.
Proof.
  revert st l. induction pieces as [|p pieces IH]; intros st l; cbn [map concat]; [by rewrite app_nil_r|].
  rewrite exec_app.
  change (exec (write_piece p) (st, l)) with (set_cell 0 0 (st 0 0 ++ p) st, keep 0 (st 0 0) l).
  rewrite IH. unfold set_cell. cbn. by rewrite <- app_assoc.
Qed.

Lemma replay_lines ms (st : store) :
  (replay st (map to_op ms)).1 0 0 = st 0 0 ++ concat (map line ms).
Proof.
  revert st. induction ms as [|m ms IH]; intros st; cbn [map replay concat fst]; [by rewrite app_nil_r|].
  rewrite IH. unfold to_op at 1. cbn [log_op op_body op_start]. rewrite write_pieces_exec. by rewrite <- app_assoc.
Qed.

Lemma to_op_locked m : locked_op (to_op m) = true.
Proof.
  unfold locked_op, to_op. cbn [log_op op_locks op_body]. generalize (log_pieces m.1.1 m.1.2 m.2).
  induction l as [|p l IH]; [done|]. cbn [map concat]. rewrite forallb_app, IH, andb_true_r. done.
Qed.

(** Lines of the log do not mix: whatever threads log and in whatever order
    they take their steps, when none is in the middle of a line the output is that
    of whole lines, one after the other, each of a message that some thread has
    logged. *)
Theorem log_lines_whole (st0 : store) (messages : list (list message)) schedule s :
  run schedule (start st0 (map (map to_op) messages)) = Some s ->
  (forall i t, s_threads s !! i = Some t -> in_body t = None) ->
  exists ms, map fst (s_log s) = map to_op ms /\ Forall (fun m => exists l, l ∈ messages /\ m ∈ l) ms /\
    s_store s 0 0 = st0 0 0 ++ concat (map line ms).
Proof.
  intros Hr Hout.
  assert (Hat : atomic st0 s).
  { eapply atomic_run, Hr. apply atomic_start. apply Forall_forall. intros ops (l & -> & _)%list_elem_of_fmap.
    apply forallb_forall. intros o Ho. apply in_map_iff in Ho as (m & <- & _). apply to_op_locked. }
  assert (Hlog : Forall (fun x => exists m, x.1 = to_op m /\ exists l, l ∈ messages /\ m ∈ l) (s_log s)).
  { apply (all_ops_run (fun o => exists m, o = to_op m /\ exists l, l ∈ messages /\ m ∈ l) schedule st0
      (map (map to_op) messages)); [|done].
    apply Forall_forall. intros ops (l & -> & Hl)%list_elem_of_fmap.
    apply Forall_forall. intros o (m & -> & Hm)%list_elem_of_fmap. exists m. split; [done|]. by exists l. }
  assert (Hms : exists ms, map fst (s_log s) = map to_op ms /\ Forall (fun m => exists l, l ∈ messages /\ m ∈ l) ms).
  { clear - Hlog. induction Hlog as [|x log (m & E & Hm) _ (ms & E1 & E2)]; [by exists []|].
    exists (m :: ms). split; [cbn; by rewrite E, E1|by constructor]. }
  destruct Hms as (ms & E & Hm). exists ms. split; [done|]. split; [done|].
  rewrite <- replay_lines, <- E. apply (at_rest st0 s Hat). intros i t o n l Hi Ho. by rewrite (Hout i t Hi) in Ho.
Qed.

(** The words of a line, with single spaces. *)
Fixpoint words_line (ws : list bytes) : bytes :=
  match ws with
  | [] => []
  | [w] => w
  | w :: r => w ++ lit " " ++ words_line r
  end.
Definition plain_word (w : bytes) : Prop := w <> [] /\ Forall (fun c => isspace c = false) w.

Lemma skip_space_word w r : plain_word w -> skip_space (w ++ r) = w ++ r.
Proof. intros [Hne Hw]. destruct w as [|c w]; [done|]. apply Forall_cons_1 in Hw as [Hc _]. cbn. by rewrite Hc. Qed.

Lemma token_word w r : Forall (fun c => isspace c = false) w -> token (w ++ lit " " ++ r) = (w, lit " " ++ r).
Proof.
  induction w as [|c w IH]; intros Hw; [done|]. apply Forall_cons_1 in Hw as [Hc Hw].
  cbn [app token]. rewrite Hc, IH by done. done.
Qed.

Lemma skip_word_word p w r : p = [] \/ p = lit " " -> plain_word w ->
  skip_word (Stream (p ++ w ++ lit " " ++ r) true) = Stream (lit " " ++ r) true.
Proof.
  intros Hp Hw. unfold skip_word. cbn [good left].
  assert (skip_space (p ++ w ++ lit " " ++ r) = w ++ lit " " ++ r) as ->.
  { destruct Hp as [->| ->]; [cbn [app]; by apply skip_space_word|].
    change (skip_space (w ++ lit " " ++ r) = w ++ lit " " ++ r). by apply skip_space_word. }
  rewrite token_word by apply Hw. destruct w; [by destruct Hw|done].
Qed.

Lemma skip_words ws p r : p = [] \/ p = lit " " -> Forall plain_word ws -> ws <> [] ->
  Nat.iter (length ws) skip_word (Stream (p ++ words_line ws ++ lit " " ++ r) true) = Stream (lit " " ++ r) true.
Proof.
  revert p. induction ws as [|w ws IH]; intros p Hp Hws Hne; [done|]. apply Forall_cons_1 in Hws as [Hw Hws].
  cbn [length]. rewrite Nat.iter_succ_r. destruct ws as [|w2 ws].
  - cbn [words_line length Nat.iter]. by apply skip_word_word.
  - change (words_line (w :: w2 :: ws)) with (w ++ lit " " ++ words_line (w2 :: ws)).
    rewrite <- !app_assoc. rewrite skip_word_word by done. apply IH; [by right|done|done].
Qed.

Lemma isspace_digit c : is_Some (digit c) -> isspace c = false /\ Ascii.eqb c "-" = false /\ Ascii.eqb c "+" = false.
Proof.
  intros Hd. assert (H : forall c, bool_decide (is_Some (digit c) ->
      isspace c = false /\ Ascii.eqb c "-" = false /\ Ascii.eqb c "+" = false) = true)
    by (apply byte_forall; vm_compute; reflexivity).
  specialize (H c). apply bool_decide_eq_true in H. auto.
Qed.

Lemma digits_all ds r : Forall (fun c => is_Some (digit c)) ds ->
  match r with c :: _ => digit c = None | [] => True end -> digits (ds ++ r) = (ds, r).
Proof.
  induction ds as [|c ds IH]; intros Hd Hr; cbn.
  - destruct r as [|c r]; [done|]. cbn. by rewrite Hr.
  - apply Forall_cons_1 in Hd as [[d ->] Hd]. rewrite IH by done. done.
Qed.

Lemma read_size_dec v n r : (0 <= n < W64)%Z -> match r with c :: _ => digit c = None | [] => True end ->
  read_size v (Stream (lit " " ++ to_dec n ++ r) true) = (n, Stream r true).
Proof.
  intros Hn Hr. destruct (to_dec_spec n ltac:(lia)) as (Hne & Hd & Hv). unfold read_size. cbn [good left].
  destruct (to_dec n) as [|c ds] eqn:E; [done|]. pose proof (proj1 (Forall_cons_1 _ _ _ Hd)) as Hc.
  destruct (isspace_digit c Hc) as (H1 & H2 & H3).
  change (lit " " ++ (c :: ds) ++ r) with (" "%char :: c :: ds ++ r). cbn [skip_space].
  change (isspace " ") with true. cbv iota. rewrite H1, H2, H3. cbn [orb].
  change (c :: ds ++ r) with ((c :: ds) ++ r). rewrite digits_all, Hv by done.
  by rewrite (proj2 (Z.ltb_lt _ _)) by lia.
Qed.

(** The sizes that are reported are the 23rd and the 24th word of the line, as
    long as the words before them have no spaces in them. *)
Theorem getMemoryUsage_words ws virtual resident rest v0 r0 :
  length ws = 22 -> Forall plain_word ws -> (0 <= virtual < W64)%Z -> (0 <= resident < W64)%Z ->
  getMemoryUsage (Some (words_line ws ++ lit " " ++ to_dec virtual ++ lit " " ++ to_dec resident ++ lit " " ++ rest)) v0 r0
    = (true, (virtual, resident)).
Proof.
  intros Hl Hws Hv Hr. unfold getMemoryUsage. rewrite <- Hl.
  pose proof (skip_words ws [] (to_dec virtual ++ lit " " ++ to_dec resident ++ lit " " ++ rest) (or_introl eq_refl) Hws) as E.
  cbn [app] in E. rewrite E by (by intros ->).
  rewrite read_size_dec by done. by rewrite read_size_dec.
Qed.

(** When the file cannot be opened, success is reported all the same. *)
Lemma getMemoryUsage_unopened v0 r0 : getMemoryUsage None v0 r0 = (true, (v0, r0)).
Proof. reflexivity. Qed.

(** The second word is the name of the program in parentheses; a space in it moves
    the words: the time the process has started at is taken for its size. *)
Example getMemoryUsage_space :
  let text name := lit "7 " ++ name ++ lit " S 1 7 7 0 -1 4194304 100 0 0 0 5 2 0 0 20 0 4 0 9000 400000 512 18446744073709551615" in
  getMemoryUsage (Some (text (lit "(algiz)"))) 0 0 = (true, (400000, 512))%Z /\
  getMemoryUsage (Some (text (lit "(a b)"))) 0 0 = (true, (9000, 400000))%Z.
Proof. split; vm_compute; reflexivity. Qed.

(** ** Witnesses *)

Definition two_messages : list (list message) :=
  [[(INFO, lit "10:00:00", lit "one")]; [(ERROR, lit "10:00:01", lit "two")]].

Lemma log_lines_whole_witness :
  exists s : @state bytes, run (repeat 1 14 ++ repeat 0 3 ++ [1] ++ repeat 0 12)
      (start (fun _ _ => []) (map (map to_op) two_messages)) = Some s /\
    s_store s 0 0 = line (ERROR, lit "10:00:01", lit "two") ++ line (INFO, lit "10:00:00", lit "one") /\
    exists ms, map fst (s_log s) = map to_op ms /\ s_store s 0 0 = concat (map line ms).
Proof.
  match goal with |- exists s, ?R = Some s /\ _ => destruct R as [s|] eqn:E; [|vm_compute in E; discriminate E] end.
  exists s. split; [reflexivity|].
  assert (Hs : s_store s 0 0 = line (ERROR, lit "10:00:01", lit "two") ++ line (INFO, lit "10:00:00", lit "one") /\
    forallb (fun t => match in_body t with None => true | Some _ => false end) (s_threads s) = true).
  { vm_compute in E. injection E as <-. split; vm_compute; reflexivity. }
  destruct (log_lines_whole (fun _ _ => []) two_messages _ s E) as (ms & Hm & _ & Ho).
  - intros i t Hi. destruct Hs as [_ Hs]. rewrite forallb_forall in Hs.
    specialize (Hs t ltac:(apply list_elem_of_In, list_elem_of_lookup; by exists i)). by destruct (in_body t).
  - split; [apply Hs|]. exists ms. by split.
Defined.

Lemma getMemoryUsage_words_witness :
  getMemoryUsage (Some (words_line (repeat (lit "1") 22) ++ lit " 400000 512 0")) 0 0 = (true, (400000, 512))%Z.
Proof.
  exact (getMemoryUsage_words (repeat (lit "1") 22) 400000 512 (lit "0") 0 0 eq_refl
    ltac:(refine (bool_decide_unpack _ _); vm_compute; exact I) ltac:(unfold W64; lia) ltac:(unfold W64; lia)).
Defined.
