(* ===== verification/EventLoop.v ===== *)
(** * The event loop

    [src/EventLoop.cpp] and [include/EventLoop.h]: actions ordered by the time
    they are due, and the steps of the thread that runs them.  The clock's
    readings are arguments of the steps. *)

From Stdlib Require Import ZArith Lia Ascii String.
From stdpp Require Import base tactics option list strings sorting.
From S2P Require Import Prelude.

Notation time := Z (only parsing).
Notation action := Z (only parsing).

(** Where the loop's thread is. *)
Inductive place :=
| LWhile                       (* [while (running && !stopping)] *)
| LLock                        (* [std::unique_lock lock{actionsMutex}] *)
| LEmpty                       (* [if (actions.empty())], with the lock *)
| LNew                         (* the predicate of [awaitNewAction] *)
| LAsleep
| LReady                       (* [if (now < iter->first)], with the lock *)
| LNext (point : time)         (* [awaitNextAction], with the lock *)
| LTake                        (* the action leaves the table *)
| LRun (a : action)            (* without the lock *)
| LDone.

Record event_loop := EventLoop {
  el_actions : list (time * action);      (* in the order of the multimap *)
  el_running : bool;
  el_stopping : bool;
  el_locked : bool;                       (* the loop's thread holds [actionsMutex] *)
  el_place : place;
  el_ran : list action;
}.

Definition no_loop : event_loop := EventLoop [] false false false LDone [].

(** [std::multimap::emplace]: behind the elements with the same key. *)
Fixpoint emplace (point : time) (a : action) (l : list (time * action)) : list (time * action) :=
  match l with
  | [] => [(point, a)]
  | x :: rest => if (point <? x.1)%Z then (point, a) :: l else x :: emplace point a rest
  end.

Definition at_place (p : place) (s : event_loop) : event_loop :=
  EventLoop (el_actions s) (el_running s) (el_stopping s) (el_locked s) p (el_ran s).
Definition with_lock (b : bool) (s : event_loop) : event_loop :=
  EventLoop (el_actions s) (el_running s) (el_stopping s) b (el_place s) (el_ran s).

Definition wake_loop (s : event_loop) : event_loop :=
  match el_place s with LAsleep => at_place LNew s | _ => s end.

(** [start], [schedule] and the first half of [stop], whose second half waits
    for the thread. *)
Definition el_start : M event_loop () :=
  s ← get;
  if el_running s then throw (RuntimeError (lit "Event loop already running"))
  else put (EventLoop (el_actions s) true false (el_locked s) LWhile (el_ran s)).

Definition schedule (point : time) (a : action) : M event_loop bool :=
  s ← get;
  if el_stopping s || negb (el_running s) then mret false
  else
    put (wake_loop (EventLoop (emplace point a (el_actions s)) (el_running s) (el_stopping s)
           (el_locked s) (el_place s) (el_ran s))) ;;
    mret true.
Definition delay (now duration : time) (a : action) : M event_loop bool :=
  schedule (now + duration)%Z a.

Definition stop_begin : M event_loop () :=
  s ← get;
  if negb (el_running s) then throw (RuntimeError (lit "Event loop not running"))
  else put (wake_loop (EventLoop (el_actions s) true true (el_locked s) (el_place s) (el_ran s))).
(** [thread.join(); running = false], once the thread is done. *)
Definition stop_end (s : event_loop) : option event_loop :=
  match el_place s with
  | LDone => Some (EventLoop (el_actions s) false (el_stopping s) (el_locked s) LDone (el_ran s))
  | _ => None
  end.

(** A step of the loop's thread; [None] when it sleeps or is done.  The
    predicates that are waited for lock [actionsMutex]: locking it twice in one
    thread is undefined. *)
Definition loop_step (now : time) (s : event_loop) : option (outcome event_loop) :=
  match el_place s with
  | LWhile => Some (Ret (at_place (if el_running s && negb (el_stopping s) then LLock else LDone) s))
  | LLock => Some (if el_locked s then Undef else Ret (with_lock true (at_place LEmpty s)))
  | LEmpty =>
    Some (Ret (match el_actions s with
               | [] => with_lock false (at_place LNew s)
               | _ => at_place LReady s
               end))
  | LNew =>
    Some (if el_locked s then Undef
          else Ret (at_place (if el_stopping s || negb (bool_decide (el_actions s = []))
                              then LWhile else LAsleep) s))
  | LAsleep => None
  | LReady =>
    match el_actions s with
    | (point, _) :: _ => Some (Ret (at_place (if (now <? point)%Z then LNext point else LTake) s))
    | [] => Some Undef
    end
  | LNext point =>
    Some (if el_locked s then Undef
          else Ret (at_place (if el_stopping s then LDone else LTake) s))
  | LTake =>
    match el_actions s with
    | (_, a) :: rest =>
      Some (Ret (EventLoop rest (el_running s) (el_stopping s) false (LRun a) (el_ran s)))
    | [] => Some Undef
    end
  | LRun a => Some (Ret (EventLoop (el_actions s) (el_running s) (el_stopping s) (el_locked s) LWhile
                           (el_ran s ++ [a])))
  | LDone => None
  end.

(** [n] steps of the thread, alone, with the clock at [now]. *)
Fixpoint loop_steps (n : nat) (now : time) (s : event_loop) : outcome event_loop :=
  match n with
  | O => Ret s
  | S n' => match loop_step now s with
            | None => Ret s
            | Some (Ret s') => loop_steps n' now s'
            | Some o => o
            end
  end.

(** ** Theorems *)

Definition in_order (l : list (time * action)) : Prop := StronglySorted (fun x y => (x.1 <= y.1)%Z) l.

Lemma emplace_in_order point a l : in_order l -> in_order (emplace point a l).
Proof.
  induction l as [|x l IH]; intros Hs; cbn [emplace]; [by repeat constructor|].
  apply StronglySorted_inv in Hs as [Hs Hall]. destruct (Z.ltb_spec point x.1) as [Hlt|Hge].
  - constructor; [by constructor|]. constructor; [cbn; lia|].
    eapply List.Forall_impl; [|exact Hall]. intros y Hy. cbn in *. lia.
  - constructor; [by apply IH|]. clear IH Hs. induction l as [|y l IH]; cbn [emplace].
    + by repeat constructor.
    + apply Forall_cons in Hall as [Hy Hall]. destruct (point <? y.1)%Z.
      * constructor; [cbn; lia|by constructor].
      * constructor; [done|by apply IH].
Qed.

(** Actions that are due at [now]. *)
Definition due (now : time) (l : list (time * action)) : Prop := Forall (fun x => (x.1 <= now)%Z) l.

(** From the head of the loop, all due actions run, and the thread sleeps. *)
Lemma due_actions_run now l : forall s,
  el_actions s = l -> due now l -> el_running s = true -> el_stopping s = false ->
  el_locked s = false -> el_place s = LWhile ->
  exists n, loop_steps n now s =
    Ret (EventLoop [] true false false LAsleep (el_ran s ++ map snd l)).
Proof.
  induction l as [|[t a] rest IH]; intros [acts run stop lk p ran] Ha Hdue Hr Hs Hl Hp; cbn in *; subst.
  - exists 4. cbn. by rewrite app_nil_r.
  - apply Forall_cons in Hdue as [Ht Hdue]. cbn in Ht.
    destruct (IH (EventLoop rest true false false LWhile (ran ++ [a]))) as (n & Hn); [done..|].
    exists (6 + n). cbn [Nat.add loop_steps loop_step el_place el_running el_stopping andb negb at_place
      el_actions el_locked el_ran with_lock].
    destruct (Z.ltb_spec now t); [lia|].
    cbn [loop_steps loop_step el_place el_running el_stopping andb negb at_place
      el_actions el_locked el_ran with_lock]. rewrite Hn. cbn. by rewrite <- app_assoc.
Qed.

Lemma emplace_perm point a l : emplace point a l ≡ₚ l ++ [(point, a)].
Proof.
  induction l as [|x l IH]; cbn [emplace]; [done|]. destruct (point <? x.1)%Z.
  - change ((point, a) :: x :: l) with ([(point, a)] ++ x :: l). apply Permutation_app_comm.
  - cbn. by rewrite IH.
Qed.

(** The actions of one time. *)
Definition at_time (t : time) : list (time * action) -> list (time * action) :=
  List.filter (fun x : time * action => (x.1 =? t)%Z).

Lemma at_time_later t l : Forall (fun x : time * action => (t < x.1)%Z) l -> at_time t l = [].
Proof.
  induction 1 as [|x l Hx _ IH]; [done|]. cbn. destruct (Z.eqb_spec x.1 t); [lia|exact IH].
Qed.

Lemma emplace_stable t point a l :
  in_order l -> at_time t (emplace point a l) = at_time t l ++ at_time t [(point, a)].
Proof.
  induction l as [|x l IH]; intros Hs; [done|]. cbn [emplace].
  apply StronglySorted_inv in Hs as [Hs Hall]. destruct (Z.ltb_spec point x.1) as [Hlt|Hge].
  - cbn [at_time List.filter fst]. destruct (Z.eqb_spec point t) as [->|Hne]; [|by rewrite app_nil_r].
    change (if (x.1 =? t)%Z then x :: at_time t l else at_time t l) with (at_time t (x :: l)).
    rewrite at_time_later; [done|]. constructor; [done|].
    eapply List.Forall_impl; [|exact Hall]. intros y Hy. cbn in *. lia.
  - cbn [at_time List.filter]. fold (at_time t (emplace point a l)). fold (at_time t l).
    rewrite IH by done. by destruct (x.1 =? t)%Z.
Qed.

Definition scheduled (points l : list (time * action)) : list (time * action) :=
  fold_left (fun l x => emplace x.1 x.2 l) points l.

Lemma scheduled_spec points l :
  in_order l -> in_order (scheduled points l) /\ scheduled points l ≡ₚ l ++ points /\
  forall t, at_time t (scheduled points l) = at_time t l ++ at_time t points.
Proof.
  revert l. induction points as [|x points IH]; intros l Hl; cbn [scheduled fold_left].
  - split; [done|]. split; [by rewrite app_nil_r|]. intros t. by rewrite app_nil_r.
  - destruct (IH (emplace x.1 x.2 l)) as (H1 & H2 & H3); [by apply emplace_in_order|].
    split; [done|]. split.
    + fold (scheduled points (emplace x.1 x.2 l)). rewrite H2, emplace_perm, <- app_assoc.
      by destruct x.
    + intros t. fold (scheduled points (emplace x.1 x.2 l)). rewrite H3, emplace_stable by done.
      rewrite <- app_assoc. f_equal. destruct x as [p a]. cbn. by destruct (p =? t)%Z.
Qed.

(** The calls of [schedule] for a list of points, while the thread is awake. *)
Definition schedule_all (points : list (time * action)) : M event_loop () :=
  for_each points (fun x => _ ← schedule x.1 x.2; mret tt).

Lemma schedule_all_run points l ran :
  schedule_all points (EventLoop l true false false LWhile ran) =
  (Ret tt, EventLoop (scheduled points l) true false false LWhile ran).
Proof.
  revert l. induction points as [|x points IH]; intros l; [done|].
  unfold schedule_all in *. cbn [for_each]. mrun. unfold schedule. mrun. cbn. by rewrite IH.
Qed.

(** Actions that are due when the loop comes to them all run, in the order of
    their times, and those with equal times in the order in which they were
    scheduled; then the thread sleeps, without the lock. *)
Theorem due_actions_in_order now points ran :
  Forall (fun x : time * action => (x.1 <= now)%Z) points ->
  exists s n order,
    schedule_all points (EventLoop [] true false false LWhile ran) = (Ret tt, s) /\
    loop_steps n now s = Ret (EventLoop [] true false false LAsleep (ran ++ map snd order)) /\
    order ≡ₚ points /\ in_order order /\ forall t, at_time t order = at_time t points.
Proof.
  intros Hdue. destruct (scheduled_spec points []) as (H1 & H2 & H3); [constructor|].
  eexists. assert (Hdue' : due now (scheduled points [])) by (unfold due; by rewrite H2).
  destruct (due_actions_run now (scheduled points []) (EventLoop (scheduled points []) true false
    false LWhile ran)) as (n & Hn); [done..|].
  exists n, (scheduled points []). split; [apply schedule_all_run|]. done.
Qed.

(** An action that is not due yet cannot be waited for: the thread locks the
    mutex of the actions a second time, which is undefined. *)
Theorem future_action_undefined now point a rest s :
  el_actions s = (point, a) :: rest -> (now < point)%Z -> el_running s = true ->
  el_stopping s = false -> el_locked s = false -> el_place s = LWhile ->
  loop_steps 5 now s = Undef.
Proof.
  destruct s as [acts run stop lk p ran]. cbn. intros -> Hlt -> -> -> ->. cbn.
  destruct (Z.ltb_spec now point); [|lia]. done.
Qed.

Lemma due_actions_in_order_witness :
  exists s n order,
    schedule_all [(2, 10); (1, 11); (2, 12)]%Z (EventLoop [] true false false LWhile []) = (Ret tt, s) /\
    loop_steps n 5 s = Ret (EventLoop [] true false false LAsleep ([] ++ map snd order)) /\
    order ≡ₚ [(2, 10); (1, 11); (2, 12)]%Z /\ in_order order /\
    forall t, at_time t order = at_time t [(2, 10); (1, 11); (2, 12)]%Z.
Proof. apply due_actions_in_order. repeat constructor; cbn; lia. Defined.

Lemma future_action_undefined_witness :
  loop_steps 5 0 (EventLoop [(3, 1)]%Z true false false LWhile []) = Undef.
Proof. by apply (future_action_undefined 0 3 1 []). Defined.
