(* ===== verification/Base64.v ===== *)
(** * Base64

    [src/util/Base64.cpp]: the encoder and the decoder, with their 32-bit
    [int] accumulators.  The encoder is proved equal to the definition of
    RFC 4648 by groups of three bytes, the decoder inverts it, and neither
    overflows. *)

From Stdlib Require Import ZArith Lia Ascii String.
From stdpp Require Import base tactics option list strings numbers.
From S2P Require Import Prelude.

Local Open Scope Z_scope.

Definition CHARS : bytes :=
  lit "ABCDEFGHIJKLMNOPQRSTUVWXYZabcdefghijklmnopqrstuvwxyz0123456789+/".

(** The table [t]: the index of a character in [CHARS], or -1. *)
Definition t (c : ascii) : Z :=
  match find_char c CHARS with Some i => Z.of_nat i | None => -1 end.

(** [int] arithmetic: a left shift is taken modulo 2^32, an addition that
    leaves the range of [int] is undefined. *)
Definition int_shl (val n : Z) : Z := wrap_int32 (Z.shiftl val n).
Definition int_add (a b : Z) : outcome Z :=
  if ((- 2 ^ 31 <=? a + b) && (a + b <? 2 ^ 31)) then Ret (a + b) else Undef.

Definition char_at (index : Z) : ascii := default "000"%char (CHARS !! Z.to_nat index).

(** [while (0 <= valb)] of the encoder. *)
Fixpoint encode_while (fuel : nat) (val valb : Z) (out : bytes) : outcome (bytes * Z) :=
  if (0 <=? valb) then
    match fuel with
    | O => Diverge
    | S f => encode_while f val (valb - 6) (out ++ [char_at (Z.land (Z.shiftr val valb) 63)])
    end
  else Ret (out, valb).

(** Two rounds are enough because [valb] is at most 6. *)
Fixpoint encode_for (s : bytes) (val valb : Z) (out : bytes) : outcome (bytes * Z * Z) :=
  match s with
  | [] => Ret (out, val, valb)
  | c :: r =>
    val' ← int_add (int_shl val 8) (code c);
    '(out', valb') ← encode_while 2 val' (valb + 8) out;
    encode_for r val' valb' out'
  end.

(** [while (out.size() % 4 != 0)]: three rounds are enough. *)
Fixpoint encode_pad (fuel : nat) (out : bytes) : outcome bytes :=
  if negb (length out mod 4 =? 0)%nat then
    match fuel with
    | O => Diverge
    | S f => encode_pad f (out ++ ["="%char])
    end
  else Ret out.

(** What follows the loop over the input. *)
Definition encode_finish (out : bytes) (val valb : Z) : outcome bytes :=
  let out' := if (-6 <? valb)
              then out ++ [char_at (Z.land (Z.shiftr (int_shl val 8) (valb + 8)) 63)]
              else out in
  encode_pad 3 out'.

Definition base64Encode (s : bytes) : outcome bytes :=
  '(out, val, valb) ← encode_for s 0 (-6) [];
  encode_finish out val valb.

Fixpoint decode_for (s : bytes) (val valb : Z) (out : bytes) : outcome bytes :=
  match s with
  | [] => Ret out
  | c :: r =>
    if (t c =? -1) then Ret out
    else
      val' ← int_add (int_shl val 6) (t c);
      if (0 <=? valb + 6)
      then decode_for r val' (valb + 6 - 8) (out ++ [chr (Z.land (Z.shiftr val' (valb + 6)) 255)])
      else decode_for r val' (valb + 6) out
  end.

Definition base64Decode (s : bytes) : outcome bytes := decode_for s 0 (-8) [].

(** ** The reference: groups of three bytes become four characters *)

Definition group3 (a b c : Z) : bytes :=
  [char_at (a / 4); char_at ((a mod 4) * 16 + b / 16);
   char_at ((b mod 16) * 4 + c / 64); char_at (c mod 64)].

Fixpoint rfc_encode (s : bytes) : bytes :=
  match s with
  | a :: b :: c :: r => group3 (code a) (code b) (code c) ++ rfc_encode r
  | [a; b] => take 3 (group3 (code a) (code b) 0) ++ ["="%char]
  | [a] => take 2 (group3 (code a) 0 0) ++ ["="%char; "="%char]
  | [] => []
  end.

(** ** Lemmas *)

Lemma land63 z : Z.land z 63 = z mod 64.
Proof. change 63 with (Z.ones 6). by rewrite Z.land_ones. Qed.

Lemma land255 z : Z.land z 255 = z mod 256.
Proof. change 255 with (Z.ones 8). by rewrite Z.land_ones. Qed.

Lemma wrap_int32_range z : - 2 ^ 31 <= wrap_int32 z < 2 ^ 31.
Proof. unfold wrap_int32. pose proof (Z.mod_pos_bound (z + 2 ^ 31) (2 ^ 32)). lia. Qed.

(** Shifting in [k] bits never overflows, and keeps the low bits. *)
Lemma shift_in k val c :
  (k = 6 \/ k = 8) -> 0 <= c < 2 ^ k ->
  exists val', int_add (int_shl val k) c = Ret val' /\
    forall m, 0 <= m -> k + m <= 32 -> val' mod 2 ^ (k + m) = (val mod 2 ^ m) * 2 ^ k + c.
Proof.
  intros Hk Hc. unfold int_add, int_shl. rewrite Z.shiftl_mul_pow2 by lia.
  assert (Hw : exists q, wrap_int32 (val * 2 ^ k) = val * 2 ^ k + q * 2 ^ 32).
  { exists (- ((val * 2 ^ k + 2 ^ 31) / 2 ^ 32)). unfold wrap_int32.
    rewrite Z.mod_eq by lia. lia. }
  destruct Hw as [q Hq]. pose proof (wrap_int32_range (val * 2 ^ k)) as Hr.
  assert (Hb : - 2 ^ 31 <= wrap_int32 (val * 2 ^ k) + c < 2 ^ 31).
  { rewrite Hq in *. destruct Hk as [-> | ->]; lia. }
  exists (wrap_int32 (val * 2 ^ k) + c).
  rewrite (proj2 (andb_true_iff _ _)) by (split; [apply Z.leb_le|apply Z.ltb_lt]; lia).
  split; [done|]. intros m Hm Hkm. rewrite Hq.
  replace (2 ^ 32) with (2 ^ (32 - (k + m)) * 2 ^ (k + m))
    by (rewrite <- Z.pow_add_r by lia; f_equal; lia).
  replace (val * 2 ^ k + q * (2 ^ (32 - (k + m)) * 2 ^ (k + m)) + c)
    with (val * 2 ^ k + c + q * 2 ^ (32 - (k + m)) * 2 ^ (k + m)) by lia.
  rewrite Z.mod_add by lia. rewrite (Z.add_comm k m), Z.pow_add_r by lia.
  rewrite (Z.div_mod val (2 ^ m)) at 1 by lia.
  replace ((2 ^ m * (val / 2 ^ m) + val mod 2 ^ m) * 2 ^ k + c)
    with (val mod 2 ^ m * 2 ^ k + c + val / 2 ^ m * (2 ^ m * 2 ^ k)) by lia.
  rewrite Z.mod_add by lia.
  pose proof (Z.mod_pos_bound val (2 ^ m) ltac:(lia)).
  apply Z.mod_small. nia.
Qed.

Lemma bits_mod v k n w : 0 <= k -> 0 <= w -> k + w <= n -> (v mod 2 ^ n / 2 ^ k) mod 2 ^ w = (v / 2 ^ k) mod 2 ^ w.
Proof.
  intros Hk Hw Hn. rewrite <- !Z.shiftr_div_pow2, <- !Z.land_ones by lia.
  apply Z.bits_inj_iff. intros i. destruct (Z.ltb_spec i 0).
  - by rewrite !Z.testbit_neg_r.
  - rewrite !Z.land_spec, !Z.shiftr_spec, Z.land_spec by lia.
    destruct (Z.ltb_spec i w).
    + rewrite (Z.ones_spec_low n) by lia. by rewrite andb_true_r.
    + rewrite (Z.ones_spec_high w) by lia. by rewrite !andb_false_r.
Qed.

Lemma sextet v k n : 0 <= k -> k + 6 <= n -> Z.land (Z.shiftr v k) 63 = (v mod 2 ^ n / 2 ^ k) mod 64.
Proof.
  intros Hk Hn. rewrite land63, Z.shiftr_div_pow2 by done. change 64 with (2 ^ 6).
  by rewrite bits_mod by lia.
Qed.

Lemma octet v k n : 0 <= k -> k + 8 <= n -> Z.land (Z.shiftr v k) 255 = (v mod 2 ^ n / 2 ^ k) mod 256.
Proof.
  intros Hk Hn. rewrite land255, Z.shiftr_div_pow2 by done. change 256 with (2 ^ 8).
  by rewrite bits_mod by lia.
Qed.

(** ** The encoder *)

Lemma list3_ind {A} (P : list A -> Prop) :
  P [] -> (forall a, P [a]) -> (forall a b, P [a; b]) ->
  (forall a b c r, P r -> P (a :: b :: c :: r)) -> forall l, P l.
Proof.
  intros H0 H1 H2 H3. fix IH 1. intros [|a [|b [|c r]]]; [done..|]. apply H3, IH.
Qed.

(** One byte after [valb = -6], [-4] and [-2]. *)
Lemma encode_step c val r valb out :
  exists val', (forall m, 0 <= m <= 24 -> val' mod 2 ^ (8 + m) = (val mod 2 ^ m) * 2 ^ 8 + code c) /\
    encode_for (c :: r) val valb out =
      ('(out', valb') ← encode_while 2 val' (valb + 8) out; encode_for r val' valb' out').
Proof.
  destruct (shift_in 8 val (code c)) as (val' & Ha & Hm); [lia|apply code_bounds|].
  exists val'. split; [intros m Hm'; apply Hm; lia|]. simpl. by rewrite Ha.
Qed.

Lemma encode_first v a : v mod 2 ^ 8 = a -> 0 <= a < 256 -> Z.land (Z.shiftr v 2) 63 = a / 4.
Proof.
  intros H Ha. rewrite (sextet v 2 8), H by lia. change (2 ^ 2) with 4.
  apply Z.mod_small. split; [apply Z.div_pos; lia|apply Z.div_lt_upper_bound; lia].
Qed.

Lemma encode_second v a b :
  v mod 2 ^ 16 = a * 2 ^ 8 + b -> 0 <= b < 256 ->
  Z.land (Z.shiftr v 4) 63 = (a mod 4) * 16 + b / 16.
Proof.
  intros H Hb. rewrite (sextet v 4 16), H by lia.
  change (2 ^ 8) with 256. change (2 ^ 4) with 16. Z.to_euclidean_division_equations. lia.
Qed.

Lemma encode_third v a b c :
  v mod 2 ^ 24 = (a * 2 ^ 8 + b) * 2 ^ 8 + c -> 0 <= c < 256 ->
  Z.land (Z.shiftr v 6) 63 = (b mod 16) * 4 + c / 64.
Proof.
  intros H Hc. rewrite (sextet v 6 24), H by lia.
  change (2 ^ 8) with 256. change (2 ^ 6) with 64. Z.to_euclidean_division_equations. lia.
Qed.

Lemma encode_fourth v p c : v mod 2 ^ 24 = p * 2 ^ 8 + c -> Z.land (Z.shiftr v 0) 63 = c mod 64.
Proof.
  intros H. rewrite (sextet v 0 24), H by lia. change (2 ^ 8) with 256.
  rewrite Z.div_1_r. Z.to_euclidean_division_equations. lia.
Qed.

Lemma encode_while_2 val out :
  encode_while 2 val (-6 + 8) out = Ret (out ++ [char_at (Z.land (Z.shiftr val 2) 63)], -4).
Proof. done. Qed.

Lemma encode_while_4 val out :
  encode_while 2 val (-4 + 8) out = Ret (out ++ [char_at (Z.land (Z.shiftr val 4) 63)], -2).
Proof. done. Qed.

Lemma encode_while_6 val out :
  encode_while 2 val (-2 + 8) out =
  Ret ((out ++ [char_at (Z.land (Z.shiftr val 6) 63)])
           ++ [char_at (Z.land (Z.shiftr val 0) 63)], -6).
Proof. done. Qed.

Lemma encode_pad_spec n out k :
  (length out mod 4 = k)%nat -> (k <> 1)%nat -> (2 <= n)%nat ->
  encode_pad n out = Ret (out ++ replicate ((4 - k) mod 4)%nat "="%char).
Proof.
  intros Hk Hk1 Hn. pose proof (Nat.mod_upper_bound (length out) 4 ltac:(lia)) as Hlt.
  assert (Hnext : forall o : bytes, (length (o ++ ["="%char]) mod 4 = (length o mod 4 + 1) mod 4)%nat).
  { intros o. rewrite length_app. by rewrite <- Nat.Div0.add_mod_idemp_l. }
  destruct n as [|[|n]]; [lia..|].
  destruct k as [|[|[|[|k]]]]; [..|lia]; [|lia| |].
  - cbn [encode_pad]. rewrite Hk. by rewrite app_nil_r.
  - cbn [encode_pad]. rewrite Hnext, Hk. cbn [negb Nat.eqb].
    destruct n; cbn [encode_pad]; rewrite !Hnext, Hk; by rewrite <- !app_assoc.
  - cbn [encode_pad]. rewrite Hk. cbn [negb Nat.eqb]. by rewrite Hnext, Hk.
Qed.

(** The last character, built from the bits that are left over. *)
Lemma encode_finish_tail out val valb k n :
  (k = 2 \/ k = 4) -> valb = - k ->
  encode_finish out val valb =
    encode_pad 3 (out ++ [char_at (Z.land (Z.shiftr (int_shl val 8) (8 - k)) 63)]) /\
  (0 <= n <= 24 -> int_shl val 8 mod 2 ^ (8 + n) = (val mod 2 ^ n) * 2 ^ 8 + 0).
Proof.
  intros Hk ->. unfold encode_finish. split.
  - rewrite (proj2 (Z.ltb_lt (-6) (- k))) by lia. by rewrite (Z.add_comm (- k) 8).
  - intros Hn. destruct (shift_in 8 val 0) as (v & Hv & H); [lia|lia|].
    unfold int_add in Hv. destruct (_ && _); [injection Hv as Hv|done].
    rewrite Z.add_0_r in Hv. subst v. apply H; lia.
Qed.

Lemma encode_all s val out :
  (length out mod 4 = 0)%nat ->
  ('(out', val', valb') ← encode_for s val (-6) out; encode_finish out' val' valb')
  = Ret (out ++ rfc_encode s).
Proof.
  revert val out. induction s as [|a|a b|a b c r IH] using list3_ind; intros val out Hout.
  - cbn [encode_for mret mbind outcome_bind]. unfold encode_finish. rewrite Z.ltb_irrefl.
    rewrite (encode_pad_spec 3 out 0) by (done || lia). done.
  - pose proof (code_bounds a) as Ba.
    destruct (encode_step a val [] (-6) out) as (v1 & H1 & ->).
    specialize (H1 0 ltac:(lia)). rewrite Z.mod_1_r in H1.
    change (v1 mod 2 ^ 8 = code a) in H1.
    rewrite encode_while_2, (encode_first v1 (code a)) by (done || lia).
    cbn [encode_for mbind outcome_bind].
    destruct (encode_finish_tail (out ++ [char_at (code a / 4)]) v1 (-4) 4 8) as [-> Hv]; [lia..|].
    specialize (Hv ltac:(lia)). rewrite H1 in Hv.
    rewrite (encode_second _ (code a) 0) by (done || lia).
    rewrite (encode_pad_spec 3 _ 2); [by rewrite <- !app_assoc| |lia..].
    rewrite !length_app. simpl length. rewrite <- !Nat.add_assoc.
    by rewrite <- Nat.Div0.add_mod_idemp_l, Hout.
  - pose proof (code_bounds a) as Ba. pose proof (code_bounds b) as Bb.
    destruct (encode_step a val [b] (-6) out) as (v1 & H1 & ->).
    specialize (H1 0 ltac:(lia)). rewrite Z.mod_1_r in H1.
    change (v1 mod 2 ^ 8 = code a) in H1.
    rewrite encode_while_2, (encode_first v1 (code a)) by (done || lia). cbn [mbind outcome_bind].
    destruct (encode_step b v1 [] (-4) (out ++ [char_at (code a / 4)])) as (v2 & H2 & ->).
    specialize (H2 8 ltac:(lia)). rewrite H1 in H2.
    rewrite encode_while_4, (encode_second v2 (code a) (code b)) by (done || lia).
    cbn [encode_for mbind outcome_bind].
    set (o := (out ++ _) ++ _).
    destruct (encode_finish_tail o v2 (-2) 2 16) as [-> Hv]; [lia..|].
    specialize (Hv ltac:(lia)). change (8 + 8) with 16 in H2. rewrite H2 in Hv.
    rewrite (encode_third _ (code a) (code b) 0) by (done || lia).
    unfold o. rewrite (encode_pad_spec 3 _ 3); [by rewrite <- !app_assoc| |lia..].
    rewrite !length_app. simpl length. rewrite <- !Nat.add_assoc.
    by rewrite <- Nat.Div0.add_mod_idemp_l, Hout.
  - pose proof (code_bounds a) as Ba. pose proof (code_bounds b) as Bb.
    pose proof (code_bounds c) as Bc.
    destruct (encode_step a val (b :: c :: r) (-6) out) as (v1 & H1 & ->).
    specialize (H1 0 ltac:(lia)). rewrite Z.mod_1_r in H1.
    change (v1 mod 2 ^ 8 = code a) in H1.
    rewrite encode_while_2, (encode_first v1 (code a)) by (done || lia). cbn [mbind outcome_bind].
    destruct (encode_step b v1 (c :: r) (-4) (out ++ [char_at (code a / 4)])) as (v2 & H2 & ->).
    specialize (H2 8 ltac:(lia)). rewrite H1 in H2.
    rewrite encode_while_4, (encode_second v2 (code a) (code b)) by (done || lia).
    cbn [mbind outcome_bind].
    edestruct (encode_step c v2 r (-2)) as (v3 & H3 & ->).
    specialize (H3 16 ltac:(lia)). change (8 + 8) with 16 in H2. rewrite H2 in H3.
    rewrite encode_while_6, (encode_third v3 (code a) (code b) (code c)) by (done || lia).
    rewrite (encode_fourth v3 (code a * 2 ^ 8 + code b) (code c)) by done.
    cbn [mbind outcome_bind]. rewrite IH.
    + cbn [rfc_encode]. by rewrite <- !app_assoc.
    + rewrite !length_app. simpl length. rewrite <- !Nat.add_assoc.
      by rewrite <- Nat.Div0.add_mod_idemp_l, Hout.
Qed.

Lemma base64Encode_spec s : base64Encode s = Ret (rfc_encode s).
Proof. exact (encode_all s 0 [] eq_refl). Qed.

(** The encoder is the one of RFC 4648: it processes the input by groups of
    three bytes, pads the last group, and its [int] accumulator never
    overflows. *)
Theorem base64Encode_rfc s : base64Encode s = Ret (rfc_encode s).
Proof. exact (base64Encode_spec s). Qed.

(** ** The decoder *)

Lemma t_char_at i : 0 <= i < 64 -> t (char_at i) = i.
Proof.
  intros Hi. rewrite <- (Z2Nat.id i) by lia.
  assert (H : forallb (fun n => t (char_at (Z.of_nat n)) =? Z.of_nat n) (seq 0 64) = true)
    by (vm_compute; reflexivity).
  rewrite forallb_forall in H. apply Z.eqb_eq, H, in_seq. lia.
Qed.

Lemma decode_step i r val valb out :
  0 <= i < 64 ->
  exists val', (forall m, 0 <= m <= 26 -> val' mod 2 ^ (6 + m) = (val mod 2 ^ m) * 2 ^ 6 + i) /\
    decode_for (char_at i :: r) val valb out =
      if (0 <=? valb + 6)
      then decode_for r val' (valb + 6 - 8) (out ++ [chr (Z.land (Z.shiftr val' (valb + 6)) 255)])
      else decode_for r val' (valb + 6) out.
Proof.
  intros Hi. destruct (shift_in 6 val i) as (val' & Ha & Hm); [lia|lia|].
  exists val'. split; [intros m Hm'; apply Hm; lia|].
  cbn [decode_for]. rewrite t_char_at by done.
  rewrite (proj2 (Z.eqb_neq i (-1))) by lia. by rewrite Ha.
Qed.

Lemma decode_byte1 v a i : v mod 2 ^ 12 = (a / 4) * 2 ^ 6 + ((a mod 4) * 16 + i) ->
  0 <= i < 16 -> 0 <= a < 256 -> Z.land (Z.shiftr v 4) 255 = a.
Proof.
  intros H Hi Ha. rewrite (octet v 4 12), H by lia. change (2 ^ 6) with 64.
  change (2 ^ 4) with 16. Z.to_euclidean_division_equations. lia.
Qed.

Lemma decode_byte2 v p b i :
  v mod 2 ^ 18 = (p * 16 + b / 16) * 2 ^ 6 + ((b mod 16) * 4 + i) ->
  0 <= i < 4 -> 0 <= b < 256 -> Z.land (Z.shiftr v 2) 255 = b.
Proof.
  intros H Hi Hb. rewrite (octet v 2 18), H by lia. change (2 ^ 6) with 64.
  change (2 ^ 2) with 4. Z.to_euclidean_division_equations. lia.
Qed.

Lemma decode_byte3 v p c :
  v mod 2 ^ 24 = (p * 4 + c / 64) * 2 ^ 6 + c mod 64 ->
  0 <= c < 256 -> Z.land (Z.shiftr v 0) 255 = c.
Proof.
  intros H Hc. rewrite (octet v 0 24), H by lia. change (2 ^ 6) with 64.
  change (2 ^ 0) with 1. Z.to_euclidean_division_equations. lia.
Qed.

(** The indices of a group are in range. *)
Lemma group_index a b c :
  0 <= a < 256 -> 0 <= b < 256 -> 0 <= c < 256 ->
  0 <= a / 4 < 64 /\ 0 <= (a mod 4) * 16 + b / 16 < 64 /\
  0 <= (b mod 16) * 4 + c / 64 < 64 /\ 0 <= c mod 64 < 64 /\
  0 <= b / 16 < 16 /\ 0 <= c / 64 < 4.
Proof. intros. Z.to_euclidean_division_equations. lia. Qed.

(** The first two characters of a group, and then the third one. *)
Lemma decode_two a b r val out :
  0 <= a < 256 -> 0 <= b < 256 ->
  exists v, v mod 2 ^ 12 = (a / 4) * 2 ^ 6 + ((a mod 4) * 16 + b / 16) /\
    decode_for (char_at (a / 4) :: char_at ((a mod 4) * 16 + b / 16) :: r) val (-8) out
    = decode_for r v (-4) (out ++ [chr a]).
Proof.
  intros Ha Hb. destruct (group_index a b 0 Ha Hb ltac:(lia)) as (I1 & I2 & _ & _ & I3 & _).
  destruct (decode_step _ (char_at ((a mod 4) * 16 + b / 16) :: r) val (-8) out I1)
    as (v1 & H1 & ->).
  specialize (H1 0 ltac:(lia)). rewrite Z.mod_1_r in H1. cbn [Z.add Z.leb].
  change (0 <=? -8 + 6) with false. cbv iota.
  destruct (decode_step _ r v1 (-8 + 6) out I2) as (v2 & H2 & ->).
  specialize (H2 6 ltac:(lia)). change (6 + 0) with 6 in H1. rewrite H1 in H2.
  change (6 + 6) with 12 in H2. exists v2. split; [lia|].
  change (0 <=? -8 + 6 + 6) with true. cbv iota.
  change (-8 + 6 + 6) with 4.
  by rewrite (decode_byte1 v2 a (b / 16)) by (done || lia).
Qed.

Lemma decode_three a b c r v out :
  0 <= a < 256 -> 0 <= b < 256 -> 0 <= c < 256 ->
  v mod 2 ^ 12 = (a / 4) * 2 ^ 6 + ((a mod 4) * 16 + b / 16) ->
  exists v', v' mod 2 ^ 18 = (a * 16 + b / 16) * 2 ^ 6 + ((b mod 16) * 4 + c / 64) /\
    decode_for (char_at ((b mod 16) * 4 + c / 64) :: r) v (-4) out
    = decode_for r v' (-6) (out ++ [chr b]).
Proof.
  intros Ha Hb Hc Hv. destruct (group_index a b c Ha Hb Hc) as (_ & _ & I3 & _ & _ & I6).
  destruct (decode_step _ r v (-4) out I3) as (v' & H & ->).
  specialize (H 12 ltac:(lia)). rewrite Hv in H. change (6 + 12) with 18 in H.
  assert (H' : v' mod 2 ^ 18 = (a * 16 + b / 16) * 2 ^ 6 + ((b mod 16) * 4 + c / 64)).
  { rewrite H. f_equal. f_equal. change (2 ^ 6) with 64.
    clear. Z.to_euclidean_division_equations. lia. }
  exists v'. split; [exact H'|]. change (0 <=? -4 + 6) with true. cbv iota.
  change (-4 + 6) with 2. by rewrite (decode_byte2 v' a b (c / 64)) by (done || lia).
Qed.

Lemma decode_four a b c r v out :
  0 <= a < 256 -> 0 <= b < 256 -> 0 <= c < 256 ->
  v mod 2 ^ 18 = (a * 16 + b / 16) * 2 ^ 6 + ((b mod 16) * 4 + c / 64) ->
  exists v', decode_for (char_at (c mod 64) :: r) v (-6) out
             = decode_for r v' (-8) (out ++ [chr c]).
Proof.
  intros Ha Hb Hc Hv. destruct (group_index a b c Ha Hb Hc) as (_ & _ & _ & I4 & _ & _).
  destruct (decode_step _ r v (-6) out I4) as (v' & H & ->).
  specialize (H 18 ltac:(lia)). rewrite Hv in H. change (6 + 18) with 24 in H.
  exists v'. change (0 <=? -6 + 6) with true. cbv iota. change (-6 + 6) with 0.
  rewrite (decode_byte3 v' (a * 256 + b) c); [done| |done].
  rewrite H. f_equal. f_equal. change (2 ^ 6) with 64.
  clear. Z.to_euclidean_division_equations. lia.
Qed.

Lemma decode_pad r val valb out : decode_for ("="%char :: r) val valb out = Ret out.
Proof. done. Qed.

Lemma decode_all s val out : decode_for (rfc_encode s) val (-8) out = Ret (out ++ s).
Proof.
  revert val out. induction s as [|a|a b|a b c r IH] using list3_ind; intros val out.
  - cbn. by rewrite app_nil_r.
  - pose proof (code_bounds a).
    edestruct (decode_two (code a) 0) as (v & _ & Hd); [done|lia|].
    cbn [rfc_encode group3 take app]. rewrite Hd, decode_pad. by rewrite chr_code.
  - pose proof (code_bounds a). pose proof (code_bounds b).
    edestruct (decode_two (code a) (code b)) as (v & Hv & Hd); [done..|].
    edestruct (decode_three (code a) (code b) 0) as (v' & _ & Hd'); [done|done|lia|done|].
    cbn [rfc_encode group3 take app]. rewrite Hd, Hd', decode_pad.
    by rewrite !chr_code, <- app_assoc.
  - pose proof (code_bounds a). pose proof (code_bounds b). pose proof (code_bounds c).
    edestruct (decode_two (code a) (code b)) as (v & Hv & Hd); [done..|].
    edestruct (decode_three (code a) (code b) (code c)) as (v' & Hv' & Hd'); [done..|].
    edestruct (decode_four (code a) (code b) (code c)) as (v'' & Hd''); [done..|].
    cbn [rfc_encode group3 app]. rewrite Hd, Hd', Hd'', IH.
    by rewrite !chr_code, <- !app_assoc.
Qed.

(** Decoding inverts encoding on every string, and no step of either is
    undefined. *)
Theorem base64_roundtrip s : (base64Encode s ≫= base64Decode) = Ret s.
Proof. rewrite (encode_all s 0 [] eq_refl : base64Encode s = _). exact (decode_all s 0 []). Qed.
