(* ===== verification/OrdMap.v ===== *)
(** * Ordered maps

    [std::map<std::string, T>] is a finite map that is iterated in the order of
    its keys, compared byte by byte.  The map is a [gmap]; [entries] is the
    sequence a [for] loop over it visits. *)

From Stdlib Require Import ZArith Lia Ascii String.
From stdpp Require Import base tactics option list strings gmap numbers sorting.
From S2P Require Import Prelude.

(** [std::string::compare]: bytes are compared as unsigned numbers. *)
Fixpoint bytes_leb (a b : bytes) : bool :=
  match a, b with
  | [], _ => true
  | _ :: _, [] => false
  | x :: a', y :: b' =>
    if (code x <? code y)%Z then true
    else if (code y <? code x)%Z then false
    else bytes_leb a' b'
  end.

Definition bytes_le (a b : bytes) : Prop := bytes_leb a b = true.

#[export] Instance bytes_le_dec : RelDecision bytes_le.
Proof. intros a b. unfold bytes_le. apply _. Defined.

#[export] Instance bytes_le_total : Total bytes_le.
Proof.
  unfold bytes_le. intros a. induction a as [|x a IH]; intros [|y b]; simpl; auto.
  destruct (Z.ltb_spec (code x) (code y)), (Z.ltb_spec (code y) (code x)); auto.
Qed.

#[export] Instance bytes_le_trans : Transitive bytes_le.
Proof.
  unfold bytes_le. intros a. induction a as [|x a IH]; intros [|y b] [|z c]; simpl; try done.
  destruct (Z.ltb_spec (code x) (code y)), (Z.ltb_spec (code y) (code x)),
    (Z.ltb_spec (code y) (code z)), (Z.ltb_spec (code z) (code y)),
    (Z.ltb_spec (code x) (code z)), (Z.ltb_spec (code z) (code x)); try done; try lia.
  apply IH.
Qed.

#[export] Instance bytes_le_antisym : AntiSymm (=) bytes_le.
Proof.
  unfold bytes_le. intros a. induction a as [|x a IH]; intros [|y b]; simpl; try done.
  destruct (Z.ltb_spec (code x) (code y)), (Z.ltb_spec (code y) (code x)); try done; try lia.
  intros H1 H2. f_equal; [apply code_inj; lia|by apply IH].
Qed.

Section entries.
Context {A : Type}.
Implicit Types m : gmap bytes A.

Definition entry_le (p q : bytes * A) : Prop := bytes_le p.1 q.1.

#[export] Instance entry_le_dec : RelDecision entry_le.
Proof. intros p q. unfold entry_le. apply _. Defined.

#[local] Instance entry_le_total : Total entry_le.
Proof. intros p q. unfold entry_le. apply bytes_le_total. Qed.

#[local] Instance entry_le_trans : Transitive entry_le.
Proof. intros p q r. unfold entry_le. apply bytes_le_trans. Qed.

Definition entries (m : gmap bytes A) : list (bytes * A) :=
  merge_sort entry_le (map_to_list m).

Lemma entries_permutation m : entries m ≡ₚ map_to_list m.
Proof. apply merge_sort_Permutation. Qed.

Lemma elem_of_entries m k v : (k, v) ∈ entries m <-> m !! k = Some v.
Proof. rewrite entries_permutation. apply elem_of_map_to_list. Qed.

Lemma NoDup_entries_keys m : NoDup (entries m).*1.
Proof. rewrite entries_permutation. apply NoDup_fst_map_to_list. Qed.

Lemma entries_sorted m : StronglySorted entry_le (entries m).
Proof. apply (StronglySorted_merge_sort entry_le). Qed.

Lemma entries_empty m : entries m = [] <-> m = ∅.
Proof.
  split.
  - intros H. apply map_to_list_empty_iff. apply Permutation_nil_r.
    rewrite <- entries_permutation. by rewrite H.
  - intros ->. unfold entries. by rewrite map_to_list_empty.
Qed.

(** The order of the keys determines the sequence. *)
Lemma sorted_entries_unique (l1 l2 : list (bytes * A)) :
  NoDup l1.*1 -> l1 ≡ₚ l2 -> StronglySorted entry_le l1 -> StronglySorted entry_le l2 -> l1 = l2.
Proof.
  revert l2. induction l1 as [|[k v] l1 IH]; intros l2 Hnd Hp S1 S2.
  - by apply Permutation_nil_l in Hp.
  - destruct l2 as [|[k2 v2] l2]; [by apply Permutation_nil_r in Hp|].
    inversion Hnd as [|? ? Hk Hnd']; subst.
    inversion S1 as [|? ? S1' F1]; subst. inversion S2 as [|? ? S2' F2]; subst.
    assert ((k, v) = (k2, v2)) as Heq.
    { assert (H1 : (k, v) ∈ (k2, v2) :: l2) by (rewrite <- Hp; by left).
      assert (H2 : (k2, v2) ∈ (k, v) :: l1) by (rewrite Hp; by left).
      apply elem_of_cons in H1 as [H1|H1]; [done|].
      apply elem_of_cons in H2 as [H2|H2]; [done|]. exfalso. apply Hk.
      rewrite List.Forall_forall in F1, F2. rewrite list_elem_of_In in H1, H2.
      specialize (F1 _ H2). specialize (F2 _ H1).
      unfold entry_le in F1, F2. simpl in *.
      assert (k = k2) as -> by (by apply (anti_symm bytes_le)).
      rewrite list_elem_of_In. apply in_map_iff. by exists (k2, v2). }
    injection Heq as <- <-. f_equal. apply IH; [done| |done|done].
    by apply (Permutation_cons_inv (a := (k, v))).
Qed.
End entries.
