(* ===== verification/Mime.v ===== *)
(** * MIME types

    [src/util/MIME.cpp]: the table from file extensions to MIME types. *)

From Stdlib Require Import ZArith Lia Ascii String.
From stdpp Require Import base tactics option list strings gmap.
From S2P Require Import Prelude.

Definition mimeTypes_list : list (string * string) :=
  [(".aac", "audio/aac");
   (".abw", "application/x-abiword");
   (".arc", "application/x-freearc");
   (".avif", "image/avif");
   (".avi", "video/x-msvideo");
   (".azw", "application/vnd.amazon.ebook");
   (".bin", "application/octet-stream");
   (".bmp", "image/bmp");
   (".bz", "application/x-bzip");
   (".bz2", "application/x-bzip2");
   (".cda", "application/x-cdf");
   (".csh", "application/x-csh");
   (".css", "text/css");
   (".csv", "text/csv");
   (".doc", "application/msword");
   (".docx", "application/vnd.openxmlformats-officedocument.wordprocessingml.document");
   (".dll", "application/x-dosexec");
   (".dylib", "application/x-mach-binary");
   (".eot", "application/vnd.ms-fontobject");
   (".exe", "application/vnd.microsoft.portable-executable");
   (".epub", "application/epub+zip");
   (".gz", "application/gzip");
   (".gif", "image/gif");
   (".html", "text/html");
   (".htm", "text/html");
   (".ico", "image/vnd.microsoft.icon");
   (".ics", "text/calendar");
   (".jar", "application/java-archive");
   (".jpeg", "image/jpeg");
   (".jpg", "image/jpeg");
   (".js", "text/javascript");
   (".json", "application/json");
   (".jsonld", "application/ld+json");
   (".midi", "audio/midi audio/x-midi");
   (".mid", "audio/midi audio/x-midi");
   (".mjs", "text/javascript");
   (".mp3", "audio/mpeg");
   (".mp4", "video/mp4");
   (".mpeg", "video/mpeg");
   (".mpkg", "application/vnd.apple.installer+xml");
   (".odp", "application/vnd.oasis.opendocument.presentation");
   (".ods", "application/vnd.oasis.opendocument.spreadsheet");
   (".odt", "application/vnd.oasis.opendocument.text");
   (".oga", "audio/ogg");
   (".ogv", "video/ogg");
   (".ogx", "application/ogg");
   (".opus", "audio/opus");
   (".otf", "font/otf");
   (".png", "image/png");
   (".pdf", "application/pdf");
   (".php", "application/x-httpd-php");
   (".ppt", "application/vnd.ms-powerpoint");
   (".pptx", "application/vnd.openxmlformats-officedocument.presentationml.presentation");
   (".rar", "application/vnd.rar");
   (".rtf", "application/rtf");
   (".sh", "application/x-sh");
   (".so", "application/x-sharedlib");
   (".svg", "image/svg+xml");
   (".swf", "application/x-shockwave-flash");
   (".tar", "application/x-tar");
   (".tif", "image/tiff");
   (".tiff", "image/tiff");
   (".ts", "application/typescript");
   (".ttf", "font/ttf");
   (".txt", "text/plain");
   (".vsd", "application/vnd.visio");
   (".wav", "audio/wav");
   (".weba", "audio/webm");
   (".webm", "video/webm");
   (".webp", "image/webp");
   (".woff", "font/woff");
   (".woff2", "font/woff2");
   (".xhtml", "application/xhtml+xml");
   (".xls", "application/vnd.ms-excel");
   (".xlsx", "application/vnd.openxmlformats-officedocument.spreadsheetml.sheet");
   (".xml", "application/xml");
   (".xul", "application/vnd.mozilla.xul+xml");
   (".zip", "application/zip");
   (".3gp", "video/3gpp");
   (".3g2", "video/3gpp2");
   (".7z", "application/x-7z-compressed")]%string.

Definition mimeTypes : gmap bytes bytes :=
  list_to_map (prod_map lit lit <$> mimeTypes_list).

Definition getMIME (extension : bytes) : bytes :=
  if bool_decide (extension = []) then lit "text/plain"
  else match mimeTypes !! extension with
       | Some mime => mime
       | None => lit "application/octet-stream"
       end.

(** No extension is listed twice, so the order of the initialiser is
    irrelevant, and every extension starts with a dot. *)
Lemma mimeTypes_keys_nodup : NoDup (mimeTypes_list.*1).
Proof. refine (bool_decide_unpack _ _). vm_compute. exact I. Qed.

Lemma lit_inj a b : lit a = lit b -> a = b.
Proof.
  unfold lit. intros H. apply (f_equal string_of_list_ascii) in H.
  by rewrite !string_of_list_ascii_of_string in H.
Qed.

Lemma getMIME_listed e m :
  (e, m) ∈ mimeTypes_list -> e <> ""%string -> getMIME (lit e) = lit m.
Proof.
  intros Hin He. unfold getMIME. rewrite bool_decide_false.
  2: { intros H. apply He. by apply lit_inj. }
  assert (mimeTypes !! lit e = Some (lit m)) as ->; [|done].
  apply elem_of_list_to_map_1.
  - rewrite <- list_fmap_compose.
    change (NoDup ((lit ∘ fst) <$> mimeTypes_list)). rewrite list_fmap_compose.
    apply (NoDup_fmap_2_strong lit); [intros; by apply lit_inj|apply mimeTypes_keys_nodup].
  - apply list_elem_of_fmap. by exists (e, m).
Qed.
