(* ===== verification/Response.v ===== *)
(** * HTTP responses

    [src/http/Response.cpp]: the response under construction and its rendering.
    The rendering is proved to be read back by a reference parser of HTTP
    messages. *)

From Stdlib Require Import ZArith Lia Ascii String.
From stdpp Require Import base tactics option list strings gmap.
From S2P Require Import Prelude OrdMap Util.

Definition crlf : bytes := [cr; lf].

Definition codeDescriptions_list : list (Z * string) :=
  [(100%Z, "Continue");
   (101%Z, "Switching Protocols");
   (102%Z, "Processing");
   (103%Z, "Early Hints");
   (200%Z, "OK");
   (201%Z, "Created");
   (202%Z, "Accepted");
   (203%Z, "Non-Authoritative Information");
   (204%Z, "No Content");
   (205%Z, "Reset Content");
   (206%Z, "Partial Content");
   (207%Z, "Multi-Status");
   (208%Z, "Already Reported");
   (226%Z, "IM Used");
   (300%Z, "Multiple Choices");
   (301%Z, "Moved Permanently");
   (302%Z, "Found");
   (303%Z, "See Other");
   (304%Z, "Not Modified");
   (305%Z, "Use Proxy");
   (306%Z, "Switch Proxy");
   (307%Z, "Temporary Redirect");
   (308%Z, "Permanent Redirect");
   (400%Z, "Bad Request");
   (401%Z, "Unauthorized");
   (402%Z, "Payment Required");
   (403%Z, "Forbidden");
   (404%Z, "Not Found");
   (405%Z, "Method Not Allowed");
   (406%Z, "Not Acceptable");
   (407%Z, "Proxy Authentication Required");
   (408%Z, "Request Timeout");
   (409%Z, "Conflict");
   (410%Z, "Gone");
   (411%Z, "Length Required");
   (412%Z, "Precondition Failed");
   (413%Z, "Payload Too Large");
   (414%Z, "URI Too Long");
   (415%Z, "Unsupported Media Type");
   (416%Z, "Range Not Satisfiable");
   (417%Z, "Expectation Failed");
   (418%Z, "I'm a teapot");
   (421%Z, "Misdirected Request");
   (422%Z, "Unprocessable Entity");
   (423%Z, "Locked");
   (424%Z, "Failed Dependency");
   (425%Z, "Too Early");
   (426%Z, "Upgrade Required");
   (428%Z, "Precondition Required");
   (429%Z, "Too Many Requests");
   (431%Z, "Request Header Fields Too Large");
   (451%Z, "Unavailable For Legal Reasons");
   (500%Z, "Internal Server Error");
   (501%Z, "Not Implemented");
   (502%Z, "Bad Gateway");
   (503%Z, "Service Unavailable");
   (504%Z, "Gateway Timeout");
   (505%Z, "HTTP Version Not Supported");
   (506%Z, "Variant Also Negotiates");
   (507%Z, "Insufficient Storage");
   (508%Z, "Loop Detected");
   (510%Z, "Not Extended");
   (511%Z, "Network Authentication Required")]%string.

Definition codeDescriptions : gmap Z bytes :=
  list_to_map (prod_map id lit <$> codeDescriptions_list).

Record response := Response {
  r_code : Z;
  r_mime : bytes;
  r_content : bytes;
  r_charset : bytes;
  r_headers : gmap bytes bytes;
  r_noContentType : bool;
}.

Definition with_headers (r : response) (h : gmap bytes bytes) : response :=
  Response (r_code r) (r_mime r) (r_content r) (r_charset r) h (r_noContentType r).

Definition setMIME (r : response) (mime : bytes) : response :=
  Response (r_code r) mime (r_content r) (r_charset r) (r_headers r) (r_noContentType r).

Definition setCharset (r : response) (charset : bytes) : response :=
  Response (r_code r) (r_mime r) (r_content r) charset (r_headers r) (r_noContentType r).

Definition setHeaders (r : response) (headers : gmap bytes bytes) : response :=
  with_headers r headers.

Definition setHeader (r : response) (header value : bytes) : response :=
  with_headers r (<[toLower header := value]> (r_headers r)).

Definition setClose (r : response) (close : bool) : response :=
  if close then setHeader r (lit "Connection") (lit "close")
  else if bool_decide (r_headers r !! lit "connection" = Some (lit "close"))
       then with_headers r (delete (lit "connection") (r_headers r))
       else r.

Definition setNoContentType (r : response) (value : bool) : response :=
  Response (r_code r) (r_mime r) (r_content r) (r_charset r) (r_headers r) value.

Definition setAcceptRanges (r : response) (value : bool) : response :=
  if value then with_headers r (<[lit "accept-ranges" := lit "bytes"]> (r_headers r))
  else with_headers r (delete (lit "accept-ranges") (r_headers r)).

(** The formatted time is an argument: it depends on the locale and the time
    zone of the host. *)
Definition setLastModified (r : response) (formatted : bytes) : response :=
  with_headers r (<[lit "last-modified" := formatted]> (r_headers r)).

(** [response[name] = value] and the reading [operator[]]. *)
Definition set_at (r : response) (name value : bytes) : response :=
  with_headers r (<[name := value]> (r_headers r)).

Definition get_at (r : response) (name : bytes) : outcome bytes :=
  match r_headers r !! name with Some v => Ret v | None => Throw OutOfRange end.

(** The three constructors. *)
Definition make_response_mime (code : Z) (content mime : bytes) : response :=
  setClose (Response code mime content [] ∅ false) true.
Definition make_response (code : Z) (content : bytes) : response :=
  make_response_mime code content (lit "text/html").

Definition contentView (r : response) : bytes := r_content r.

Definition generate500 : bytes :=
  let body := lit "Internal Server Error" in
  lit "HTTP/1.1 500 Internal Server Error" ++ crlf
  ++ lit "Content-Type: text/html; charset=UTF-8" ++ crlf
  ++ lit "Content-Length: " ++ to_dec (Z.of_nat (length body)) ++ crlf
  ++ lit "Connection: close" ++ crlf ++ crlf ++ body.

Definition header_line (name value : bytes) : bytes := name ++ lit ": " ++ value ++ crlf.

Definition noContent (r : response) : bytes :=
  match codeDescriptions !! r_code r with
  | None => generate500
  | Some description =>
    let content_size := Z.of_nat (length (r_content r)) in
    (lit "HTTP/1.1 " ++ to_dec (r_code r) ++ lit " " ++ description ++ crlf)
    ++ (if negb (r_noContentType r)
           && negb (bool_decide (is_Some (r_headers r !! lit "content-type")))
        then header_line (lit "Content-Type")
               (r_mime r ++ (if bool_decide (r_charset r = []) then []
                             else lit "; charset=" ++ r_charset r))
        else [])
    ++ (if negb (bool_decide (is_Some (r_headers r !! lit "content-length")))
        then header_line (lit "Content-Length") (to_dec content_size)
        else [])
    ++ concat (map (fun kv => header_line kv.1 kv.2) (entries (r_headers r)))
    ++ crlf
  end.

(** [operator std::string]. *)
Definition render (r : response) : bytes := noContent r ++ r_content r.

(** ** A reference parser of responses *)

Fixpoint parse_headers (fuel : nat) (s : bytes) : option (list (bytes * bytes) * bytes) :=
  match fuel with
  | O => None
  | S f =>
    i ← find_sub crlf s;
    let line := take i s in
    let rest := drop (i + 2) s in
    if bool_decide (line = []) then Some ([], rest)
    else
      j ← find_sub (lit ": ") line;
      '(hs, body) ← parse_headers f rest;
      Some ((take j line, drop (j + 2) line) :: hs, body)
  end.

Definition parse_status (line : bytes) : option (Z * bytes) :=
  if is_prefix (lit "HTTP/1.1 ") line then
    let s := drop 9 line in
    let '(v, k) := digits_prefix 0 0 s in
    if negb (k =? 0) && is_prefix (lit " ") (drop k s) then Some (v, drop (S k) s) else None
  else None.

Definition parse_message (s : bytes) : option (Z * bytes * list (bytes * bytes) * bytes) :=
  i ← find_sub crlf s;
  '(c, d) ← parse_status (take i s);
  '(hs, body) ← parse_headers (length s) (drop (i + 2) s);
  Some (c, d, hs, body).

(** The headers a rendered response carries. *)
Definition rendered_headers (r : response) : list (bytes * bytes) :=
  (if negb (r_noContentType r) && negb (bool_decide (is_Some (r_headers r !! lit "content-type")))
   then [(lit "Content-Type", r_mime r ++ (if bool_decide (r_charset r = []) then []
                                           else lit "; charset=" ++ r_charset r))]
   else [])
  ++ (if negb (bool_decide (is_Some (r_headers r !! lit "content-length")))
      then [(lit "Content-Length", to_dec (Z.of_nat (length (r_content r))))] else [])
  ++ entries (r_headers r).

(** A header cannot be mistaken for another one: no colon in its name, no
    carriage return anywhere. *)
Definition clean_header (kv : bytes * bytes) : Prop :=
  (cr ∉ kv.1) /\ (":"%char ∉ kv.1) /\ (cr ∉ kv.2).

Definition clean_response (r : response) : Prop :=
  (cr ∉ r_mime r) /\ (cr ∉ r_charset r) /\
  (forall k v, r_headers r !! k = Some v -> clean_header (k, v)).

Lemma noContent_lines r d :
  codeDescriptions !! r_code r = Some d ->
  noContent r = (lit "HTTP/1.1 " ++ to_dec (r_code r) ++ lit " " ++ d) ++ crlf
                ++ concat (map (fun kv => header_line kv.1 kv.2) (rendered_headers r)) ++ crlf.
Proof.
  intros H. unfold noContent, rendered_headers. rewrite H, !map_app, !concat_app.
  rewrite <- !app_assoc. destruct (_ && _), (negb _); cbn [map concat app fst snd];
    rewrite <- ?app_assoc; done.
Qed.

Lemma find_crlf a b : cr ∉ a -> find_sub crlf (a ++ crlf ++ b) = Some (length a).
Proof. exact (find_sub_first cr [lf] a b). Qed.

Lemma find_colon a b : ":"%char ∉ a -> find_sub (lit ": ") (a ++ lit ": " ++ b) = Some (length a).
Proof. exact (find_sub_first ":"%char [" "%char] a b). Qed.

Lemma drop_app_2 (a s b : bytes) : length s = 2 -> drop (length a + 2) (a ++ s ++ b) = b.
Proof.
  intros H. rewrite app_assoc. replace (length a + 2) with (length (a ++ s))
    by (rewrite length_app; lia). apply drop_app_length.
Qed.

Lemma parse_headers_line f line rest :
  (cr ∉ line) -> line <> [] ->
  parse_headers (S f) (line ++ crlf ++ rest) =
  (j ← find_sub (lit ": ") line;
   '(hs, body) ← parse_headers f rest;
   Some ((take j line, drop (j + 2) line) :: hs, body)).
Proof.
  intros Hcr Hne. cbn [parse_headers]. rewrite (find_crlf line rest Hcr).
  cbn [mbind option_bind]. rewrite (take_app_length line (crlf ++ rest)).
  rewrite (drop_app_2 line crlf rest eq_refl).
  rewrite (bool_decide_false _ Hne). done.
Qed.

Lemma parse_headers_render hs body fuel :
  Forall clean_header hs -> length hs < fuel ->
  parse_headers fuel (concat (map (fun kv => header_line kv.1 kv.2) hs) ++ crlf ++ body)
  = Some (hs, body).
Proof.
  revert fuel. induction hs as [|[k v] hs IH]; intros fuel Hc Hf;
    (destruct fuel as [|fuel]; [simpl in Hf; lia|]).
  - done.
  - apply Forall_cons_1 in Hc as [(Hk & Hcol & Hv) Hc]. cbn [fst snd] in Hk, Hcol, Hv.
    cbn [map concat fst snd]. unfold header_line at 1.
    replace (((k ++ lit ": " ++ v ++ crlf) ++
              concat (map (fun kv => header_line kv.1 kv.2) hs)) ++ crlf ++ body)
      with ((k ++ lit ": " ++ v) ++ crlf ++
            (concat (map (fun kv => header_line kv.1 kv.2) hs) ++ crlf ++ body))
      by (by rewrite <- !app_assoc).
    assert (Hline : cr ∉ k ++ lit ": " ++ v).
    { rewrite !elem_of_app. intros [?|[H|?]]; [done| |done].
      revert H. apply (bool_decide_unpack (cr ∉ lit ": ")). vm_compute. exact I. }
    rewrite parse_headers_line; [|done|by destruct k].
    rewrite (find_colon k v Hcol), (IH fuel Hc ltac:(simpl in Hf; lia)).
    cbn [mbind option_bind]. rewrite (take_app_length k (lit ": " ++ v)).
    by rewrite (drop_app_2 k (lit ": ") v eq_refl).
Qed.

Lemma to_dec_no_cr n : (0 <= n)%Z -> cr ∉ to_dec n.
Proof.
  intros Hn H. destruct (to_dec_spec n Hn) as (_ & Hd & _).
  rewrite List.Forall_forall in Hd. rewrite list_elem_of_In in H.
  destruct (Hd _ H) as [x Hx]. vm_compute in Hx. done.
Qed.

Lemma codeDescriptions_clean c d :
  codeDescriptions !! c = Some d -> (0 <= c)%Z /\ (cr ∉ d).
Proof.
  assert (H : map_Forall (fun c d => (0 <= c)%Z /\ (cr ∉ d)) codeDescriptions).
  { refine (bool_decide_unpack _ _). vm_compute. exact I. }
  apply H.
Qed.

Lemma rendered_headers_clean r : clean_response r -> Forall clean_header (rendered_headers r).
Proof.
  intros (Hm & Hch & Hh). unfold rendered_headers. rewrite !Forall_app.
  assert (Hlit : forall s, bool_decide (cr ∈ lit s) = false -> cr ∉ lit s)
    by (intros s H; by apply bool_decide_eq_false in H).
  split; [|split].
  - destruct (_ && _); [|done]. apply Forall_singleton.
    split; [by apply Hlit|]. split; [refine (bool_decide_unpack _ _); done|]. cbn [snd].
    case_bool_decide; [by rewrite app_nil_r|]. rewrite !elem_of_app.
    intros [?|[Hx|?]]; [done| |done]. revert Hx. by apply (Hlit "; charset="%string).
  - destruct (negb _); [|done]. apply Forall_singleton.
    split; [by apply Hlit|]. split; [refine (bool_decide_unpack _ _); done|].
    apply to_dec_no_cr. lia.
  - apply List.Forall_forall. intros [k v] Hin. rewrite <- list_elem_of_In in Hin.
    apply elem_of_entries in Hin. by apply Hh.
Qed.

Lemma parse_status_render c d :
  (0 <= c)%Z -> parse_status (lit "HTTP/1.1 " ++ to_dec c ++ lit " " ++ d) = Some (c, d).
Proof.
  intros Hc. unfold parse_status. rewrite is_prefix_app.
  change 9 with (length (lit "HTTP/1.1 ")). rewrite drop_app_length.
  rewrite digits_prefix_dec by done.
  destruct (to_dec_spec c Hc) as (Hne & _ & _).
  replace (length (to_dec c) =? 0) with false by (by destruct (to_dec c)).
  rewrite (drop_app_length (to_dec c)), is_prefix_app. cbn [negb andb].
  replace (S (length (to_dec c))) with (length (to_dec c ++ lit " "))
    by (rewrite length_app; simpl; lia).
  by rewrite app_assoc, drop_app_length.
Qed.

Lemma length_header_lines hs :
  length hs <= length (concat (map (fun kv => header_line kv.1 kv.2) hs)).
Proof.
  induction hs as [|kv hs IH]; [simpl; lia|].
  cbn [map concat]. unfold header_line at 1. rewrite !length_app.
  change (length crlf) with 2. change (length (kv :: hs)) with (S (length hs)). lia.
Qed.

Lemma parse_message_lines c d hs content :
  (0 <= c)%Z -> (cr ∉ d) -> Forall clean_header hs ->
  parse_message ((lit "HTTP/1.1 " ++ to_dec c ++ lit " " ++ d) ++ crlf
                 ++ concat (map (fun kv => header_line kv.1 kv.2) hs) ++ crlf ++ content)
  = Some (c, d, hs, content).
Proof.
  intros Hc Hcr Hclean.
  assert (Hst : cr ∉ lit "HTTP/1.1 " ++ to_dec c ++ lit " " ++ d).
  { rewrite !elem_of_app. pose proof (to_dec_no_cr c Hc).
    assert (cr ∉ lit "HTTP/1.1 ") by (refine (bool_decide_unpack _ _); vm_compute; exact I).
    assert (cr ∉ lit " ") by (refine (bool_decide_unpack _ _); vm_compute; exact I).
    tauto. }
  unfold parse_message. rewrite (find_crlf _ _ Hst). cbn [mbind option_bind].
  rewrite take_app_length, (parse_status_render _ d Hc), (drop_app_2 _ crlf _ eq_refl).
  cbn [mbind option_bind]. rewrite parse_headers_render; [done|done|].
  pose proof (length_header_lines hs). rewrite !length_app. change (length crlf) with 2. lia.
Qed.

Lemma render_parses r d :
  codeDescriptions !! r_code r = Some d -> clean_response r ->
  parse_message (render r) = Some (r_code r, d, rendered_headers r, r_content r).
Proof.
  intros Hd Hclean. destruct (codeDescriptions_clean _ _ Hd) as [Hc Hcr].
  unfold render. rewrite (noContent_lines _ _ Hd).
  rewrite <- (app_assoc (lit "HTTP/1.1 " ++ to_dec (r_code r) ++ lit " " ++ d)), <- (app_assoc crlf),
    <- (app_assoc (concat _) crlf).
  apply parse_message_lines; [done..|]. by apply rendered_headers_clean.
Qed.

(** C39: a rendered response is read back by the reference parser: its status
    code and description, the generated headers followed by the response's own
    in the order of their names, and its content, which is exactly what
    follows the empty line. *)
Theorem render_parse r d :
  codeDescriptions !! r_code r = Some d -> clean_response r ->
  parse_message (render r) = Some (r_code r, d, rendered_headers r, r_content r).
Proof. apply render_parses. Qed.

Definition example_response : response :=
  setHeader (make_response 404 (lit "<h1>404</h1>")) (lit "X-Served-By") (lit "algiz").

Lemma render_parse_witness :
  parse_message (render example_response)
  = Some (404%Z, lit "Not Found", rendered_headers example_response, lit "<h1>404</h1>").
Proof.
  apply (render_parse example_response (lit "Not Found")).
  - vm_compute. reflexivity.
  - split; [|split].
    + refine (bool_decide_unpack _ _). vm_compute. exact I.
    + refine (bool_decide_unpack _ _). vm_compute. exact I.
    + change (map_Forall (fun k v => clean_header (k, v)) (r_headers example_response)).
      unfold clean_header. refine (bool_decide_unpack _ _). vm_compute. exact I.
Defined.

(** The header names a response is given do not depend on their case, and
    asking for the connection to be closed is undone by asking for the
    opposite. *)
Lemma setClose_undo r :
  r_headers r !! lit "connection" = None -> setClose (setClose r true) false = r.
Proof.
  intros H. unfold setClose at 2. cbv iota. unfold setClose, setHeader, with_headers.
  cbn [r_headers r_code r_mime r_content r_charset r_noContentType].
  change (toLower (lit "Connection")) with (lit "connection").
  rewrite lookup_insert_eq, bool_decide_true by done.
  rewrite delete_insert_id by done. by destruct r.
Qed.
