(* ===== verification/Request.v ===== *)
(** * HTTP requests

    [src/http/Request.cpp] and [include/http/Request.h]: the request that a
    client accumulates line by line, its query parameters, its ranges and its
    authentication.  The state of [handleLine] is the request together with
    the two fields of the owning client that it sets. *)

From Stdlib Require Import ZArith Lia Ascii String.
From stdpp Require Import base tactics option list strings gmap.
From S2P Require Import Prelude OrdMap Util Base64.

Inductive AuthenticationResult :=
| AuthInvalid | AuthMissing | AuthMalformed | AuthBadUsername | AuthBadPassword | AuthSuccess.

Inductive Mode := MMethod | MHeaders | MContent.
Inductive Method := Invalid | GET | HEAD | PUT | POST.
Inductive HandleResult := Continue | DisableLineMode | Done.

#[export] Instance AuthenticationResult_eq_dec : EqDecision AuthenticationResult.
Proof. solve_decision. Defined.
#[export] Instance Mode_eq_dec : EqDecision Mode.
Proof. solve_decision. Defined.
#[export] Instance Method_eq_dec : EqDecision Method.
Proof. solve_decision. Defined.
#[export] Instance HandleResult_eq_dec : EqDecision HandleResult.
Proof. solve_decision. Defined.

(** The formatter of methods. *)
Definition method_name (m : Method) : bytes :=
  match m with
  | Invalid => lit "Invalid" | GET => lit "GET" | HEAD => lit "HEAD"
  | PUT => lit "PUT" | POST => lit "POST"
  end.

(** The underlying value of the enumeration. *)
Definition method_int (m : Method) : Z :=
  match m with Invalid => 0 | GET => 1 | HEAD => 2 | PUT => 3 | POST => 4 end.

Record request := Request {
  q_mode : Mode;
  q_contentLength : Z;
  q_lengthRemaining : Z;
  q_method : Method;
  q_path : bytes;
  q_version : bytes;
  q_content : bytes;
  q_charset : bytes;
  q_headers : gmap bytes bytes;
  q_parameters : gmap bytes bytes;
  q_postParameters : gmap bytes bytes;
  q_ranges : list (Z * Z);
  q_suffixLength : Z;
  (* the fields of the client *)
  q_maxRead : Z;
  q_keepAlive : bool;
}.

Definition new_request : request :=
  Request MMethod 0 0 Invalid [] [] [] [] ∅ ∅ ∅ [] 0 0 true.

Definition set_mode (m : Mode) (q : request) : request :=
  Request m (q_contentLength q) (q_lengthRemaining q) (q_method q) (q_path q) (q_version q)
    (q_content q) (q_charset q) (q_headers q) (q_parameters q) (q_postParameters q)
    (q_ranges q) (q_suffixLength q) (q_maxRead q) (q_keepAlive q).
Definition set_lengths (n : Z) (q : request) : request :=
  Request (q_mode q) n n (q_method q) (q_path q) (q_version q)
    (q_content q) (q_charset q) (q_headers q) (q_parameters q) (q_postParameters q)
    (q_ranges q) (q_suffixLength q) (q_maxRead q) (q_keepAlive q).
Definition set_remaining (n : Z) (q : request) : request :=
  Request (q_mode q) (q_contentLength q) n (q_method q) (q_path q) (q_version q)
    (q_content q) (q_charset q) (q_headers q) (q_parameters q) (q_postParameters q)
    (q_ranges q) (q_suffixLength q) (q_maxRead q) (q_keepAlive q).
Definition set_method (m : Method) (q : request) : request :=
  Request (q_mode q) (q_contentLength q) (q_lengthRemaining q) m (q_path q) (q_version q)
    (q_content q) (q_charset q) (q_headers q) (q_parameters q) (q_postParameters q)
    (q_ranges q) (q_suffixLength q) (q_maxRead q) (q_keepAlive q).
Definition set_path (p : bytes) (q : request) : request :=
  Request (q_mode q) (q_contentLength q) (q_lengthRemaining q) (q_method q) p (q_version q)
    (q_content q) (q_charset q) (q_headers q) (q_parameters q) (q_postParameters q)
    (q_ranges q) (q_suffixLength q) (q_maxRead q) (q_keepAlive q).
Definition set_version (v : bytes) (q : request) : request :=
  Request (q_mode q) (q_contentLength q) (q_lengthRemaining q) (q_method q) (q_path q) v
    (q_content q) (q_charset q) (q_headers q) (q_parameters q) (q_postParameters q)
    (q_ranges q) (q_suffixLength q) (q_maxRead q) (q_keepAlive q).
Definition set_body (c : bytes) (q : request) : request :=
  Request (q_mode q) (q_contentLength q) (q_lengthRemaining q) (q_method q) (q_path q)
    (q_version q) c (q_charset q) (q_headers q) (q_parameters q) (q_postParameters q)
    (q_ranges q) (q_suffixLength q) (q_maxRead q) (q_keepAlive q).
Definition set_headers (h : gmap bytes bytes) (q : request) : request :=
  Request (q_mode q) (q_contentLength q) (q_lengthRemaining q) (q_method q) (q_path q)
    (q_version q) (q_content q) (q_charset q) h (q_parameters q) (q_postParameters q)
    (q_ranges q) (q_suffixLength q) (q_maxRead q) (q_keepAlive q).
Definition set_parameters (p : gmap bytes bytes) (q : request) : request :=
  Request (q_mode q) (q_contentLength q) (q_lengthRemaining q) (q_method q) (q_path q)
    (q_version q) (q_content q) (q_charset q) (q_headers q) p (q_postParameters q)
    (q_ranges q) (q_suffixLength q) (q_maxRead q) (q_keepAlive q).
Definition set_postParameters (p : gmap bytes bytes) (q : request) : request :=
  Request (q_mode q) (q_contentLength q) (q_lengthRemaining q) (q_method q) (q_path q)
    (q_version q) (q_content q) (q_charset q) (q_headers q) (q_parameters q) p
    (q_ranges q) (q_suffixLength q) (q_maxRead q) (q_keepAlive q).
Definition set_ranges (r : list (Z * Z)) (q : request) : request :=
  Request (q_mode q) (q_contentLength q) (q_lengthRemaining q) (q_method q) (q_path q)
    (q_version q) (q_content q) (q_charset q) (q_headers q) (q_parameters q)
    (q_postParameters q) r (q_suffixLength q) (q_maxRead q) (q_keepAlive q).
Definition set_suffixLength (n : Z) (q : request) : request :=
  Request (q_mode q) (q_contentLength q) (q_lengthRemaining q) (q_method q) (q_path q)
    (q_version q) (q_content q) (q_charset q) (q_headers q) (q_parameters q)
    (q_postParameters q) (q_ranges q) n (q_maxRead q) (q_keepAlive q).
Definition set_maxRead (n : Z) (q : request) : request :=
  Request (q_mode q) (q_contentLength q) (q_lengthRemaining q) (q_method q) (q_path q)
    (q_version q) (q_content q) (q_charset q) (q_headers q) (q_parameters q)
    (q_postParameters q) (q_ranges q) (q_suffixLength q) n (q_keepAlive q).
Definition set_keepAlive (b : bool) (q : request) : request :=
  Request (q_mode q) (q_contentLength q) (q_lengthRemaining q) (q_method q) (q_path q)
    (q_version q) (q_content q) (q_charset q) (q_headers q) (q_parameters q)
    (q_postParameters q) (q_ranges q) (q_suffixLength q) (q_maxRead q) b.

(** ** Paths and query parameters *)

Definition getPath (path : bytes) : bytes := substr_to path (find_char "?" path).

Definition add_parameter (parameters : gmap bytes bytes) (pair : bytes)
    : outcome (gmap bytes bytes) :=
  if bool_decide (pair = []) then Ret parameters
  else match find_char "=" pair with
       | None => k ← unescape pair true; Ret (<[k := []]> parameters)
       | Some equals =>
         v ← unescape (drop (equals + 1) pair) true;
         k ← unescape (take equals pair) true;
         Ret (<[k := v]> parameters)
       end.

Fixpoint parameters_loop (fuel : nat) (parameters : gmap bytes bytes) (path : bytes)
    : outcome (gmap bytes bytes) :=
  match find_char "&" path with
  | None => add_parameter parameters path
  | Some ampersand =>
    match fuel with
    | O => Diverge
    | S f => p ← add_parameter parameters (take ampersand path);
             parameters_loop f p (drop (ampersand + 1) path)
    end
  end.

Definition getParameters (path : bytes) (chop_question_mark : bool)
    : outcome (gmap bytes bytes) :=
  if chop_question_mark then
    match find_char "?" path with
    | None => Ret ∅
    | Some question_mark =>
      let path := drop (question_mark + 1) path in
      parameters_loop (length path) ∅ path
    end
  else parameters_loop (length path) ∅ path.

Definition parameter_text (kv : bytes * bytes) : bytes :=
  kv.1 ++ (if bool_decide (kv.2 = []) then [] else lit "=" ++ kv.2).

Definition pathWithParameters (q : request) : bytes :=
  q_path q ++
  match entries (q_parameters q) with
  | [] => []
  | kv :: rest =>
    lit "?" ++ parameter_text kv
    ++ concat (map (fun kv => lit "&" ++ parameter_text kv) rest)
  end.

Definition getHeader (q : request) (name : bytes) : bytes :=
  match q_headers q !! name with Some v => v | None => [] end.

(** ** Authentication *)

Definition checkAuthentication (q : request) (username password : bytes)
    : outcome AuthenticationResult :=
  match q_headers q !! lit "authorization" with
  | None => Ret AuthMissing
  | Some auth =>
    if negb (bool_decide (take 6 auth = lit "Basic ")) then Ret AuthMalformed
    else
      decoded ← base64Decode (drop 6 auth);
      match find_char ":" decoded with
      | None => Ret AuthMalformed
      | Some colon =>
        Ret (if negb (bool_decide (take colon decoded = username)) then AuthBadUsername
             else if negb (bool_decide (drop (colon + 1) decoded = password))
                  then AuthBadPassword
                  else AuthSuccess)
      end
  end.

(** ** Ranges *)

Definition invalid_argument_to_ParseError {St A} (what : bytes -> bytes) (e : exn)
    : option (M St A) :=
  match e with InvalidArgument w => Some (throw (ParseError (what w))) | _ => None end.

(** One piece of a [Range] header.  Without a hyphen [hyphen] is [npos]:
    [hyphen + 1] is then 0, and [hyphen != piece.size() - 1] holds unless the
    piece is empty, where the number parsed first has failed already. *)
Definition parse_piece (piece : bytes) : M request () :=
  match find_char "-" piece with
  | Some 0 =>
    if length piece =? 1 then throw (ParseError (lit "parseRange: invalid range"))
    else n ← lift (parseUlong_view (drop 1 piece)); modify (set_suffixLength n)
  | hyphen =>
    start ← lift (parseUlong_view (substr_to piece hyphen));
    stop ← match hyphen with
           | None => if bool_decide (piece = []) then mret SIZE_MAX
                     else lift (parseUlong_view piece)
           | Some h => if h =? length piece - 1 then mret SIZE_MAX
                       else lift (parseUlong_view (drop (h + 1) piece))
           end;
    modify (fun q => set_ranges (q_ranges q ++ [(start, stop)]) q)
  end.

Fixpoint range_loop (fuel : nat) (content : bytes) : M request () :=
  if bool_decide (content = []) then mret tt
  else match fuel with
       | O => diverge
       | S f =>
         let separator := find_sub (lit ", ") content in
         parse_piece (substr_to content separator) ;;
         match separator with
         | None => mret tt
         | Some s => range_loop f (drop (s + 2) content)
         end
       end.

Definition parseRange (content : bytes) : M request () :=
  if negb (bool_decide (take 6 content = lit "bytes=")) then
    throw (ParseError (lit "parseRange: invalid unit"))
  else
    let content := drop 6 content in
    modify (set_ranges []) ;;
    catch (range_loop (length content) content)
      (invalid_argument_to_ParseError (fun _ => lit "parseRange: number parsing failed")).

Definition absorbPOST : M request () :=
  q ← get;
  if match q_headers q !! lit "content-type" with
     | Some t => negb (bool_decide (t = lit "application/x-www-form-urlencoded"))
     | None => false
     end
  then mret tt
  else p ← lift (getParameters (q_content q) false);
       modify (set_postParameters p) ;;
       modify (set_body []).

Fixpoint ranges_consecutive (total_size : Z) (prev : Z * Z) (rest : list (Z * Z)) : bool :=
  match rest with
  | [] => true
  | (start, stop) :: rest' =>
    if ((stop <=? start) || (start <? prev.2) || (total_size <=? start)
        || (total_size <? stop))%Z
    then false else ranges_consecutive total_size (start, stop) rest'
  end.

Section valid.
(** [std::sort] with the comparison of [valid].  That comparison is not a
    strict weak order, so what the library does with two ranges or more is not
    determined: the sort is an argument. *)
Variable std_sort : (Z * Z -> Z * Z -> bool) -> list (Z * Z) -> outcome (list (Z * Z)).

Definition range_less (left right : Z * Z) : bool := (left.1 <? right.2)%Z.

Definition valid (total_size : Z) (q : request) : outcome (bool * request) :=
  if (total_size <? q_suffixLength q)%Z then Ret (false, q)
  else if bool_decide (q_ranges q = []) then Ret (true, q)
  else
    sorted ← std_sort range_less (q_ranges q);
    let q := set_ranges sorted q in
    match sorted with
    | [] => Undef
    | first :: rest =>
      if negb (ranges_consecutive total_size first rest) then Ret (false, q)
      else Ret ((default first (last rest)).2 <=? wrap64 (total_size - q_suffixLength q), q)%Z
    end.
End valid.

Definition hackRanges (q : request) : bool * request :=
  match q_ranges q with
  | [(start, stop)] =>
    if (start =? 0)%Z && (stop =? SIZE_MAX)%Z then (true, set_ranges [] q) else (false, q)
  | _ => (false, q)
  end.

(** ** Reading a request line by line *)

(** [line.remove_suffix(1)] when the last byte is [c]. *)
Definition chop_last (c : ascii) (line : bytes) : bytes :=
  if bool_decide (last line = Some c) then take (length line - 1) line else line.

Definition chop_line (line : bytes) : bytes := chop_last cr (chop_last lf line).

Section handleLine.
(** [client.server.getOption<size_t>(path, "postMax")], which throws
    [std::invalid_argument] for a path outside of the web root. *)
Variable getOption_postMax : bytes -> outcome (option Z).

Definition POST_MAX : Z := Z.shiftl 1 24.

Definition parse_method (view : bytes) : outcome Method :=
  if bool_decide (view = lit "GET") then Ret GET
  else if bool_decide (view = lit "HEAD") then Ret HEAD
  else if bool_decide (view = lit "PUT") then Ret PUT
  else if bool_decide (view = lit "POST") then Ret POST
  else Throw (UnsupportedMethod view).

Definition handle_method_line (line : bytes) : M request HandleResult :=
  match find_char " " line with
  | None => throw (ParseError (lit "Bad method line: can't determine method"))
  | Some first_space =>
    m ← lift (parse_method (take first_space line));
    modify (set_method m) ;;
    let line := drop (first_space + 1) line in
    match find_char " " line with
    | None => throw (ParseError (lit "Bad method line: can't determine path"))
    | Some next_space =>
      let full_path := take next_space line in
      modify (set_path (getPath full_path)) ;;
      p ← lift (getParameters full_path true);
      modify (set_parameters p) ;;
      let version := drop (next_space + 1) line in
      modify (set_version version) ;;
      if negb (bool_decide (version = lit "HTTP/1.1"))
         && negb (bool_decide (version = lit "HTTP/1.0"))
      then throw (ParseError (lit "Invalid HTTP version: " ++ version))
      else modify (set_mode MHeaders) ;; mret Continue
    end
  end.

Definition merge_header (headers : gmap bytes bytes) (name content : bytes)
    : gmap bytes bytes :=
  match headers !! name with
  | None => <[name := content]> headers
  | Some old => if bool_decide (old = []) then <[name := content]> headers
                else <[name := old ++ lit " " ++ content]> headers
  end.

Definition handle_content_length (header_content : bytes) : M request () :=
  catch
    (n ← lift (parseUlong_view header_content);
     modify (set_lengths n) ;;
     q ← get;
     when (bool_decide (q_method q = POST))
       (post_max_opt ← lift (getOption_postMax (q_path q));
        let post_max := default POST_MAX post_max_opt in
        when (post_max <? n)%Z
          (throw (ParseError (lit "POST length too long: " ++ to_dec n)))))
    (invalid_argument_to_ParseError id).

Definition handle_header_line (line : bytes) : M request HandleResult :=
  match find_sub (lit ": ") line with
  | None => throw (ParseError (lit "Invalid HTTP header: no separator"))
  | Some separator =>
    let header_name := take separator line in
    let header_content := drop (separator + 2) line in
    modify (fun q => set_headers (merge_header (q_headers q) (toLower header_name)
                                    header_content) q) ;;
    (if bool_decide (header_name = lit "Content-Length") then
       handle_content_length header_content
     else if bool_decide (header_name = lit "Range") then parseRange header_content
     else if bool_decide (header_name = lit "Connection") then
       modify (set_keepAlive (negb (bool_decide (header_content = lit "close"))))
     else mret tt) ;;
    mret Continue
  end.

Definition handle_content_chunk (line : bytes) : M request HandleResult :=
  q ← get;
  let size := Z.of_nat (length line) in
  (if (q_lengthRemaining q <? size)%Z then
     modify (fun q => set_remaining 0 (set_body
       (q_content q ++ drop (Z.to_nat (q_lengthRemaining q)) line) q))
   else if (q_lengthRemaining q =? size)%Z then
     modify (fun q => set_remaining 0 (set_body (q_content q ++ line) q))
   else mret tt) ;;
  q ← get;
  if (q_lengthRemaining q =? 0)%Z then
    when (bool_decide (q_method q = POST)) absorbPOST ;;
    modify (set_mode MMethod) ;;
    mret Done
  else
    modify (fun q => set_remaining (q_lengthRemaining q - size)
                       (set_body (q_content q ++ line) q)) ;;
    mret Continue.

Definition handleLine (line : bytes) : M request HandleResult :=
  q ← get;
  let line := match q_mode q with MContent => line | _ => chop_line line end in
  if bool_decide (line = []) && bool_decide (q_mode q = MHeaders) then
    modify (set_mode MContent) ;;
    if bool_decide (is_Some (q_headers q !! lit "content-length")) then
      modify (set_maxRead (q_contentLength q)) ;;
      mret DisableLineMode
    else mret Done
  else match q_mode q with
       | MMethod => handle_method_line line
       | MHeaders => handle_header_line line
       | MContent => handle_content_chunk line
       end.

(** The lines of one request: up to the first that is answered otherwise than with
    [Continue].  What a client does with the lines behind it is in [Client.v] and, for
    any lines, in [RequestTypes.v] ([feed]). *)
Fixpoint handleLines (lines : list bytes) : M request (HandleResult * list bytes) :=
  match lines with
  | [] => mret (Continue, [])
  | l :: rest =>
    r ← handleLine l;
    match r with Continue => handleLines rest | _ => mret (r, rest) end
  end.

(** ** Theorems: reading a request *)

Lemma chop_last_app c s : chop_last c (s ++ [c]) = s.
Proof.
  unfold chop_last. rewrite last_snoc, bool_decide_true by done.
  rewrite length_app. simpl. by rewrite Nat.add_sub, take_app_length.
Qed.

(** The end of a line, as a client sends it and as the network server leaves it. *)
Definition line_end (eol : bytes) : Prop := eol = [cr; lf] \/ eol = [cr].

Lemma chop_line_end eol s : line_end eol -> chop_line (s ++ eol) = s.
Proof.
  unfold chop_line. intros [->| ->].
  - change [cr; lf] with ([cr] ++ [lf]). by rewrite app_assoc, chop_last_app, chop_last_app.
  - assert (chop_last lf (s ++ [cr]) = s ++ [cr]) as -> by (unfold chop_last; by rewrite last_snoc).
    apply chop_last_app.
Qed.

(** A header that announces neither a body nor ranges. *)
Definition plain_header (kv : bytes * bytes) : Prop :=
  (":"%char ∉ kv.1) /\ kv.1 <> lit "Content-Length" /\ kv.1 <> lit "Range".

(** What the headers, in their order, make of the wish to keep the connection. *)
Definition keeps_alive (k : bool) (hs : list (bytes * bytes)) : bool :=
  foldl (fun k kv => if bool_decide (kv.1 = lit "Connection") then negb (bool_decide (kv.2 = lit "close")) else k)
    k hs.

Definition header_text (kv : bytes * bytes) : bytes := kv.1 ++ lit ": " ++ kv.2.

Definition merged (headers : gmap bytes bytes) (hs : list (bytes * bytes)) : gmap bytes bytes :=
  foldl (fun m kv => merge_header m (toLower kv.1) kv.2) headers hs.

(** A request after a list of headers. *)
Definition with_header_lines (hs : list (bytes * bytes)) (q : request) : request :=
  set_keepAlive (keeps_alive (q_keepAlive q) hs) (set_headers (merged (q_headers q) hs) q).

Lemma with_header_lines_cons kv hs q :
  with_header_lines hs (with_header_lines [kv] q) = with_header_lines (kv :: hs) q.
Proof. by destruct q. Qed.

Lemma handle_header_plain kv q :
  plain_header kv -> handle_header_line (header_text kv) q = (Ret Continue, with_header_lines [kv] q).
Proof.
  destruct kv as [k v]. intros (Hc & Hl & Hr). cbn [fst snd] in *.
  unfold handle_header_line, header_text. cbn [fst snd].
  change (find_sub (lit ": ") (k ++ lit ": " ++ v))
    with (find_sub (":"%char :: lit " ") (k ++ (":"%char :: lit " ") ++ v)).
  rewrite find_sub_first by done. cbv iota.
  rewrite take_app_length.
  assert (drop (length k + 2) (k ++ lit ": " ++ v) = v) as ->.
  { rewrite app_assoc. change 2 with (length (lit ": ")).
    rewrite <- length_app. apply drop_app_length. }
  rewrite (bool_decide_false _ Hl), (bool_decide_false _ Hr).
  unfold with_header_lines, keeps_alive. cbn [foldl fst snd]. destruct q. by case_bool_decide.
Qed.

Lemma handleLine_header eol kv q :
  line_end eol -> plain_header kv -> q_mode q = MHeaders ->
  handleLine (header_text kv ++ eol) q = (Ret Continue, with_header_lines [kv] q).
Proof.
  intros He Hp Hm. unfold handleLine. mrun. rewrite Hm, chop_line_end by done.
  rewrite bool_decide_false by (unfold header_text; by destruct kv as [[|] ?]).
  cbn [andb]. by apply handle_header_plain.
Qed.

Lemma handleLines_headers eol hs rest q :
  line_end eol -> Forall plain_header hs -> q_mode q = MHeaders ->
  handleLines (map (fun kv => header_text kv ++ eol) hs ++ rest) q
  = handleLines rest (with_header_lines hs q).
Proof.
  intros He. revert q. induction hs as [|kv hs IH]; intros q Hp Hm.
  - simpl. by destruct q.
  - apply Forall_cons_1 in Hp as [Hkv Hp]. cbn [map app handleLines]. mrun.
    rewrite handleLine_header by done. cbv iota. rewrite IH by done. by rewrite with_header_lines_cons.
Qed.

Lemma find_space a b : " "%char ∉ a -> find_char " " (a ++ lit " " ++ b) = Some (length a).
Proof. exact (find_char_app " " a b). Qed.

Definition method_line (m : Method) (full_path version : bytes) : bytes :=
  method_name m ++ lit " " ++ full_path ++ lit " " ++ version.

Lemma method_name_no_space m : " "%char ∉ method_name m.
Proof. destruct m; refine (bool_decide_unpack _ _); vm_compute; exact I. Qed.

Lemma parse_method_name m : m <> Invalid -> parse_method (method_name m) = Ret m.
Proof. destruct m; done. Qed.

Lemma handle_method_line_ok m full_path version p q :
  m <> Invalid -> (" "%char ∉ full_path) -> version = lit "HTTP/1.1" \/ version = lit "HTTP/1.0" ->
  getParameters full_path true = Ret p ->
  handle_method_line (method_line m full_path version) q
  = (Ret Continue,
     set_mode MHeaders (set_version version (set_parameters p
       (set_path (getPath full_path) (set_method m q))))).
Proof.
  intros Hm Hsp Hv Hp. unfold handle_method_line, method_line.
  rewrite find_space by apply method_name_no_space. cbv zeta.
  rewrite take_app_length, parse_method_name by done. mrun.
  replace (length (method_name m) + 1) with (length (method_name m ++ lit " "))
    by (by rewrite length_app).
  rewrite (app_assoc (method_name m)), drop_app_length.
  rewrite (find_space full_path version Hsp). cbv iota.
  rewrite take_app_length, Hp. mrun.
  replace (length full_path + 1) with (length (full_path ++ lit " "))
    by (by rewrite length_app).
  rewrite (app_assoc full_path), drop_app_length.
  destruct Hv as [-> | ->]; reflexivity.
Qed.

(** The lines of a request without a body. *)
Definition request_lines (eol : bytes) (m : Method) (full_path version : bytes)
    (hs : list (bytes * bytes)) : list bytes :=
  ((method_line m full_path version ++ eol) :: map (fun kv => header_text kv ++ eol) hs) ++ [eol].

Lemma request_lines_done eol m full_path version p hs q :
  line_end eol -> m <> Invalid -> (" "%char ∉ full_path) ->
  version = lit "HTTP/1.1" \/ version = lit "HTTP/1.0" ->
  getParameters full_path true = Ret p ->
  Forall plain_header hs -> q_mode q = MMethod ->
  merged (q_headers q) hs !! lit "content-length" = None ->
  handleLines (request_lines eol m full_path version hs) q
  = (Ret (Done, []),
     set_mode MContent (with_header_lines hs
       (set_mode MHeaders (set_version version (set_parameters p
         (set_path (getPath full_path) (set_method m q))))))).
Proof.
  intros He Hm Hsp Hv Hp Hhs Hmode Hcl. unfold request_lines. cbn [app handleLines]. mrun.
  assert (handleLine (method_line m full_path version ++ eol) q
          = handle_method_line (method_line m full_path version) q) as ->.
  { unfold handleLine. mrun. rewrite Hmode, chop_line_end by done.
    by rewrite (bool_decide_false (MMethod = MHeaders)), andb_false_r by done. }
  rewrite (handle_method_line_ok _ _ _ p) by done. cbv iota.
  rewrite handleLines_headers by done. cbn [handleLines]. mrun.
  unfold handleLine, with_header_lines. mrun. cbn [q_mode set_mode set_headers q_headers set_keepAlive].
  change (chop_line eol) with (chop_line ([] ++ eol)). rewrite chop_line_end by done.
  cbn [q_headers set_headers set_mode set_version set_parameters set_path set_method set_keepAlive].
  rewrite (bool_decide_false (is_Some _)) by (rewrite Hcl; by intros [? ?]).
  reflexivity.
Qed.

(** C29: a request without a body: the method line, any headers that announce
    neither a body nor ranges and the empty line leave a finished request with the
    method, the path, the decoded parameters and every header under its
    lower-case name, repeated headers joined in order; the connection is kept
    unless the last header called Connection says close. *)
Theorem handleLines_request m full_path version p hs q :
  m <> Invalid -> (" "%char ∉ full_path) -> version = lit "HTTP/1.1" \/ version = lit "HTTP/1.0" ->
  getParameters full_path true = Ret p ->
  Forall plain_header hs -> q_mode q = MMethod ->
  merged (q_headers q) hs !! lit "content-length" = None ->
  handleLines (((method_line m full_path version ++ [cr; lf])
                :: map (fun kv => header_text kv ++ [cr; lf]) hs) ++ [[cr; lf]]) q
  = (Ret (Done, []),
     set_mode MContent (with_header_lines hs
       (set_mode MHeaders (set_version version (set_parameters p
         (set_path (getPath full_path) (set_method m q))))))).
Proof. intros. apply (request_lines_done [cr; lf]); [by left|done..]. Qed.
End handleLine.

(** ** Theorems: the body *)

Definition is_form (q : request) : bool :=
  match q_headers q !! lit "content-type" with
  | Some t => bool_decide (t = lit "application/x-www-form-urlencoded")
  | None => true
  end.

(** What the request becomes once its whole body has been read. *)
Definition completed (q : request) : outcome request :=
  if bool_decide (q_method q = POST) && is_form q then
    p ← getParameters (q_content q) false;
    Ret (set_mode MMethod (set_body [] (set_postParameters p q)))
  else Ret (set_mode MMethod q).

Definition received (chunk : bytes) (remaining : Z) (q : request) : request :=
  set_remaining remaining (set_body (q_content q ++ chunk) q).

Lemma absorb_completed q q' :
  completed q = Ret q' ->
  (when (bool_decide (q_method q = POST)) absorbPOST ;;
   modify (set_mode MMethod) ;; mret Done) q = (Ret Done, q').
Proof.
  unfold completed, absorbPOST, is_form. intros H. mrun.
  destruct (bool_decide (q_method q = POST)); cbn [andb] in H; [|by injection H as <-].
  destruct (q_headers q !! lit "content-type") as [t|];
    [destruct (bool_decide (t = _)); cbn [negb]; [|by injection H as <-]|];
    destruct (getParameters (q_content q) false); try discriminate H;
    by injection H as <-.
Qed.

Lemma handleLine_content pm line q :
  q_mode q = MContent -> line <> [] -> handleLine pm line q = handle_content_chunk line q.
Proof.
  intros Hm Hl. unfold handleLine. mrun. rewrite Hm.
  by rewrite (bool_decide_false (line = [])) by done.
Qed.

Lemma content_chunk_middle line q :
  (Z.of_nat (length line) < q_lengthRemaining q)%Z ->
  handle_content_chunk line q
  = (Ret Continue, received line (q_lengthRemaining q - Z.of_nat (length line)) q).
Proof.
  intros H. unfold handle_content_chunk. mrun.
  destruct (Z.ltb_spec (q_lengthRemaining q) (Z.of_nat (length line))); [lia|].
  destruct (Z.eqb_spec (q_lengthRemaining q) (Z.of_nat (length line))); [lia|].
  destruct (Z.eqb_spec (q_lengthRemaining q) 0); [lia|]. reflexivity.
Qed.

Lemma content_chunk_last line q q' :
  q_lengthRemaining q = Z.of_nat (length line) ->
  completed (received line 0 q) = Ret q' ->
  handle_content_chunk line q = (Ret Done, q').
Proof.
  intros H Hq. rewrite <- (absorb_completed _ _ Hq).
  unfold handle_content_chunk. mrun.
  destruct (Z.ltb_spec (q_lengthRemaining q) (Z.of_nat (length line))); [lia|].
  destruct (Z.eqb_spec (q_lengthRemaining q) (Z.of_nat (length line))); [|lia]. reflexivity.
Qed.

(** The body is assembled from whatever pieces the network delivers: every
    piece before the last one asks for more, and the one that completes the
    announced length ends the request with exactly the concatenation as its
    content (or, for a form, its decoded fields). *)
Theorem handleLines_body pm chunks q q' :
  q_mode q = MContent -> chunks <> [] -> Forall (fun c => c <> []) chunks ->
  q_lengthRemaining q = Z.of_nat (length (concat chunks)) ->
  completed (received (concat chunks) 0 q) = Ret q' ->
  handleLines pm chunks q = (Ret (Done, []), q').
Proof.
  intros Hm Hne Hall. revert q Hm. induction chunks as [|c chunks IH]; [done|].
  intros q Hm Hlen Hq. apply Forall_cons_1 in Hall as [Hc Hall].
  cbn [handleLines]. mrun. rewrite handleLine_content by done.
  cbn [concat] in *. rewrite length_app in Hlen.
  destruct chunks as [|c2 chunks].
  - cbn [concat] in *. rewrite app_nil_r in Hq. simpl in Hlen.
    rewrite (content_chunk_last c q q') by (done || lia). reflexivity.
  - assert (0 < length (concat (c2 :: chunks))) as Hpos.
    { apply Forall_cons_1 in Hall as [Hc2 _]. cbn [concat]. rewrite length_app.
      destruct c2; [done|]. simpl. lia. }
    rewrite content_chunk_middle by lia.
    apply (IH ltac:(done) Hall); [done| |].
    + unfold received. cbn [q_lengthRemaining set_remaining]. lia.
    + rewrite <- Hq. unfold received. f_equal. unfold set_remaining, set_body.
      cbn [q_content]. by rewrite <- app_assoc.
Qed.

(** A piece longer than what is left of the body: the bytes kept are those
    behind the body, not those of the body. *)
Lemma content_chunk_overlong line q :
  (0 <= q_lengthRemaining q < Z.of_nat (length line))%Z -> is_form q = false ->
  handle_content_chunk line q
  = (Ret Done, set_mode MMethod
       (received (drop (Z.to_nat (q_lengthRemaining q)) line) 0 q)).
Proof.
  intros H Hf.
  assert (Hc : completed (received (drop (Z.to_nat (q_lengthRemaining q)) line) 0 q)
               = Ret (set_mode MMethod (received (drop (Z.to_nat (q_lengthRemaining q)) line) 0 q))).
  { unfold completed.
    change (is_form (received (drop (Z.to_nat (q_lengthRemaining q)) line) 0 q)) with (is_form q).
    by rewrite Hf, andb_false_r. }
  rewrite <- (absorb_completed _ _ Hc). unfold handle_content_chunk. mrun.
  destruct (Z.ltb_spec (q_lengthRemaining q) (Z.of_nat (length line))); [|lia]. reflexivity.
Qed.

(** ** Theorems: ranges *)

Definition range_text (r : Z * option Z) : bytes :=
  to_dec r.1 ++ lit "-" ++ match r.2 with Some e => to_dec e | None => [] end.
Definition range_value (r : Z * option Z) : Z * Z := (r.1, default SIZE_MAX r.2).
Definition good_range (r : Z * option Z) : Prop :=
  (0 <= r.1 <= SIZE_MAX)%Z /\ match r.2 with Some e => 0 <= e <= SIZE_MAX | None => True end%Z.

Lemma to_dec_no_byte c n : (0 <= n)%Z -> digit c = None -> c ∉ to_dec n.
Proof.
  intros Hn Hc Hin. destruct (to_dec_spec n Hn) as (_ & Hd & _).
  rewrite List.Forall_forall in Hd. rewrite list_elem_of_In in Hin.
  destruct (Hd _ Hin) as [d Hd']. congruence.
Qed.

Lemma parseUlong_view_to_dec n :
  (0 <= n <= SIZE_MAX)%Z -> parseUlong_view (to_dec n) = Ret n.
Proof.
  intros H. unfold parseUlong_view, from_chars_unsigned.
  rewrite <- (app_nil_r (to_dec n)), digits_prefix_dec by (done || lia).
  rewrite length_to_dec by lia. destruct (Z.ltb_spec SIZE_MAX n); [lia|done].
Qed.

Lemma find_hyphen a b : "-"%char ∉ a -> find_char "-" (a ++ lit "-" ++ b) = Some (length a).
Proof. exact (find_char_app "-" a b). Qed.

Lemma parse_piece_text r q :
  good_range r ->
  parse_piece (range_text r) q = (Ret tt, set_ranges (q_ranges q ++ [range_value r]) q).
Proof.
  destruct r as [a e]. intros [Ha He]. unfold range_text. cbn [fst snd] in *. unfold parse_piece.
  rewrite find_hyphen by (apply to_dec_no_byte; [lia|done]).
  pose proof (length_to_dec a ltac:(lia)) as Hl. apply Nat.eqb_neq in Hl.
  destruct (length (to_dec a)) as [|k] eqn:Ek; [done|]. cbv iota. cbn [substr_to].
  rewrite <- Ek, take_app_length, parseUlong_view_to_dec by lia. mrun.
  destruct e as [e|].
  - pose proof (length_to_dec e ltac:(lia)) as Hl2. apply Nat.eqb_neq in Hl2.
    rewrite !length_app. change (length (lit "-")) with 1.
    destruct (Nat.eqb_spec (length (to_dec a)) (length (to_dec a) + (1 + length (to_dec e)) - 1));
      [lia|].
    rewrite app_assoc. replace (length (to_dec a) + 1) with (length (to_dec a ++ lit "-"))
      by (by rewrite length_app).
    by rewrite drop_app_length, parseUlong_view_to_dec by lia.
  - rewrite app_nil_r, length_app. change (length (lit "-")) with 1.
    by rewrite Nat.add_sub, Nat.eqb_refl.
Qed.

Lemma range_text_no_comma r : good_range r -> ","%char ∉ range_text r.
Proof.
  destruct r as [a e]. intros [Ha He]. unfold range_text. rewrite !elem_of_app.
  cbn [fst snd] in *. intros [H|[H|H]].
  - revert H. by apply to_dec_no_byte; [lia|].
  - revert H. refine (bool_decide_unpack (_ ∉ _) _). vm_compute. exact I.
  - destruct e as [e|]; [|set_solver]. revert H. by apply to_dec_no_byte; [lia|].
Qed.

Lemma find_comma a b : ","%char ∉ a -> find_sub (lit ", ") (a ++ lit ", " ++ b) = Some (length a).
Proof. exact (find_sub_first ","%char [" "%char] a b). Qed.

Lemma find_comma_None a : ","%char ∉ a -> find_sub (lit ", ") a = None.
Proof.
  intros H. destruct (find_sub (lit ", ") a) as [i|] eqn:E; [|done].
  apply find_sub_Some in E as [E _]. exfalso. apply H. rewrite E.
  apply elem_of_app. right. by left.
Qed.

Lemma range_text_nonempty r : good_range r -> range_text r <> [].
Proof.
  intros _. destruct r as [a e]. unfold range_text. cbn [fst snd]. by destruct (to_dec a).
Qed.

Lemma range_loop_text r rs fuel q :
  Forall good_range (r :: rs) -> length rs < fuel ->
  range_loop fuel (join (map range_text (r :: rs)) (lit ", ")) q
  = (Ret tt, set_ranges (q_ranges q ++ map range_value (r :: rs)) q).
Proof.
  revert r fuel q. induction rs as [|r2 rs IH]; intros r fuel q Hall Hf;
    apply Forall_cons_1 in Hall as [Hr Hall];
    destruct fuel as [|fuel]; try (simpl in Hf; lia); cbn [range_loop].
  - unfold join. cbn [map concat]. rewrite app_nil_r.
    rewrite bool_decide_false by by apply range_text_nonempty.
    rewrite find_comma_None by by apply range_text_no_comma. cbn [substr_to]. mrun.
    by rewrite parse_piece_text by done.
  - assert (Hj : join (map range_text (r :: r2 :: rs)) (lit ", ")
                 = range_text r ++ lit ", " ++ join (map range_text (r2 :: rs)) (lit ", ")).
    { unfold join. cbn [map concat]. by rewrite <- !app_assoc. }
    rewrite Hj, bool_decide_false
      by (intros H; apply app_eq_nil in H as [H _]; by apply (range_text_nonempty r)).
    rewrite find_comma by by apply range_text_no_comma. cbn [substr_to].
    rewrite take_app_length. mrun. rewrite parse_piece_text by done.
    rewrite app_assoc. replace (length (range_text r) + 2) with (length (range_text r ++ lit ", "))
      by (by rewrite length_app).
    rewrite drop_app_length, IH by (done || simpl in Hf; lia).
    unfold set_ranges. cbn [q_ranges map]. by rewrite <- app_assoc.
Qed.

Lemma length_join_texts r rs :
  length rs < length (join (map range_text (r :: rs)) (lit ", ")) \/ rs = [].
Proof.
  destruct rs as [|r2 rs]; [by right|]. left. unfold join. cbn [map].
  rewrite length_app.
  assert (H : forall l, 2 * length l <= length (concat (map (fun i => lit ", " ++ i) (map range_text l)))).
  { induction l as [|x l IHl]; [simpl; lia|]. cbn [map concat].
    rewrite !length_app. change (length (lit ", ")) with 2.
    change (length (x :: l)) with (S (length l)). lia. }
  specialize (H (r2 :: rs)). cbn [map] in H.
  change (length (r2 :: rs)) with (S (length rs)) in *. lia.
Qed.

(** The ranges of a [Range] header are read back from their text: bounds
    up to the largest [size_t], a missing upper bound as the largest
    [size_t], in the order they are written, replacing the ranges of an
    earlier header. *)
Theorem parseRange_text r rs q :
  Forall good_range (r :: rs) ->
  parseRange (lit "bytes=" ++ join (map range_text (r :: rs)) (lit ", ")) q
  = (Ret tt, set_ranges (map range_value (r :: rs)) q).
Proof.
  intros Hall. unfold parseRange.
  set (text := join (map range_text (r :: rs)) (lit ", ")).
  assert (take 6 (lit "bytes=" ++ text) = lit "bytes=") as -> by done.
  rewrite bool_decide_true by done. cbn [negb].
  change (drop 6 (lit "bytes=" ++ text)) with text. mrun. subst text.
  rewrite range_loop_text; [done|done|].
  destruct (length_join_texts r rs) as [H| ->]; [done|].
  apply Forall_cons_1 in Hall as [Hr _]. apply range_text_nonempty in Hr.
  unfold join. cbn [map concat]. rewrite app_nil_r. by destruct (range_text r); [|simpl; lia].
Qed.

Lemma parseRange_text_witness :
  parseRange (lit "bytes=0-499, 700-") new_request
  = (Ret tt, set_ranges [(0, 499); (700, SIZE_MAX)]%Z new_request).
Proof.
  apply (parseRange_text (0, Some 499)%Z [(700, None)]%Z new_request).
  repeat constructor; vm_compute; discriminate.
Defined.

(** ** Theorems: validity of ranges *)

(** What [serveRange] may rely on: every range but the first is not reversed,
    begins inside the file at or behind the end of the previous one and does
    not end behind the end of the file. *)
Definition well_placed (total_size : Z) (prev cur : Z * Z) : Prop :=
  (prev.2 <= cur.1 /\ cur.1 < cur.2 /\ cur.1 < total_size /\ cur.2 <= total_size)%Z.

Lemma ranges_consecutive_spec total prev rest :
  ranges_consecutive total prev rest = true ->
  forall i a b, (prev :: rest) !! i = Some a -> (prev :: rest) !! S i = Some b ->
  well_placed total a b.
Proof.
  revert prev. induction rest as [|[s e] rest IH]; intros prev H i a b Ha Hb; [by destruct i|].
  cbn [ranges_consecutive] in H.
  destruct (Z.leb_spec e s), (Z.ltb_spec s prev.2), (Z.leb_spec total s), (Z.ltb_spec total e);
    try done.
  destruct i as [|i].
  - injection Ha as <-. injection Hb as <-. unfold well_placed. simpl. lia.
  - exact (IH (s, e) H i a b Ha Hb).
Qed.

(** Whatever the sort does, ranges found valid are ordered and disjoint,
    end inside the file and, from the second one on, are not reversed; nothing
    but the order of the ranges is changed. *)
Theorem valid_sound std_sort total q q' :
  (0 <= q_suffixLength q)%Z -> (total < W64)%Z ->
  valid std_sort total q = Ret (true, q') ->
  (q_suffixLength q <= total)%Z /\
  (q_ranges q = [] /\ q' = q \/
   std_sort range_less (q_ranges q) = Ret (q_ranges q') /\
   q' = set_ranges (q_ranges q') q /\
   (forall i a b, q_ranges q' !! i = Some a -> q_ranges q' !! S i = Some b ->
      well_placed total a b) /\
   (forall a, a ∈ q_ranges q' -> (a.2 <= total)%Z)).
Proof.
  intros Hs Ht. unfold valid. destruct (Z.ltb_spec total (q_suffixLength q)) as [|Hle]; [done|].
  intros H. split; [done|]. case_bool_decide as Hr; [left; by injection H as <-|right].
  revert H. destruct (std_sort range_less (q_ranges q)) as [[|f rest]| | |] eqn:Es; try done.
  mrun. destruct (ranges_consecutive total f rest) eqn:Ec; cbn [negb]; [|done].
  intros [= Hlast <-]. cbn [q_ranges set_ranges]. split; [done|].
  split; [by destruct q|].
  pose proof (ranges_consecutive_spec _ _ _ Ec) as Hw. split; [exact Hw|].
  intros a (i & Hi)%list_elem_of_lookup.
  destruct i as [|i].
  - injection Hi as <-. destruct rest as [|b rest].
    + simpl in Hlast. apply Z.leb_le in Hlast. rewrite wrap64_small in Hlast by lia. lia.
    + destruct (Hw 0 f b eq_refl eq_refl) as (? & ? & ? & ?). lia.
  - destruct (lookup_lt_is_Some_2 (f :: rest) i) as [p Hp].
    { apply lookup_lt_Some in Hi. lia. }
    destruct (Hw i p a Hp Hi) as (? & ? & ? & ?). done.
Qed.

(** A sort that does nothing, which is what sorting one range is. *)
Definition no_sort : (Z * Z -> Z * Z -> bool) -> list (Z * Z) -> outcome (list (Z * Z)) :=
  fun _ l => Ret l.

Lemma valid_sound_witness :
  (0 <= 100)%Z /\
  forall i a b, [(0, 10); (20, 30)]%Z !! i = Some a -> [(0, 10); (20, 30)]%Z !! S i = Some b ->
    well_placed 100 a b.
Proof.
  split; [done|].
  destruct (valid_sound no_sort 100 (set_ranges [(0, 10); (20, 30)]%Z new_request)
              (set_ranges [(0, 10); (20, 30)]%Z new_request)
              ltac:(vm_compute; discriminate) eq_refl eq_refl) as [_ [[H _]|(_ & _ & H & _)]].
  - discriminate H.
  - exact H.
Defined.

Lemma valid_one std_sort total start stop q :
  q_ranges q = [(start, stop)] -> std_sort range_less [(start, stop)] = Ret [(start, stop)] ->
  (0 <= q_suffixLength q <= total)%Z -> (total < W64)%Z ->
  valid std_sort total q = Ret ((stop <=? total - q_suffixLength q)%Z, q).
Proof.
  intros Hq Hsort Hs Ht. unfold valid. rewrite Hq, Hsort.
  destruct (Z.ltb_spec total (q_suffixLength q)); [lia|].
  rewrite bool_decide_false by done. mrun. cbn [ranges_consecutive negb last default q_suffixLength set_ranges snd].
  rewrite wrap64_small by lia. rewrite <- Hq. by destruct q.
Qed.

(** The check of a single range looks at its upper bound only: the lower
    bound plays no part (a reversed range is found valid), and a range without
    an upper bound is valid for no file shorter than the largest [size_t]. *)
Theorem valid_single std_sort total start stop q :
  q_ranges q = [(start, stop)] -> std_sort range_less [(start, stop)] = Ret [(start, stop)] ->
  (0 <= q_suffixLength q <= total)%Z -> (total < W64)%Z ->
  valid std_sort total q = Ret ((stop <=? total - q_suffixLength q)%Z, q).
Proof. exact (valid_one std_sort total start stop q). Qed.

Lemma valid_single_witness :
  let q := set_ranges [(90, 10)]%Z new_request in valid no_sort 100 q = Ret (true, q).
Proof.
  exact (valid_single no_sort 100 90 10 (set_ranges [(90, 10)]%Z new_request)
           eq_refl eq_refl ltac:(vm_compute; split; discriminate) eq_refl).
Defined.

(** ** Theorems: authentication *)

Lemma find_colon_byte a b : ":"%char ∉ a -> find_char ":" (a ++ lit ":" ++ b) = Some (length a).
Proof. exact (find_char_app ":" a b). Qed.

(** Authentication succeeds exactly when the header is the scheme followed
    by text whose decoding is the name, a colon and the password; in
    particular the encoding of the credentials is accepted. *)
Theorem checkAuthentication_spec q username password auth :
  q_headers q !! lit "authorization" = Some auth -> (":"%char ∉ username) ->
  checkAuthentication q username password = Ret AuthSuccess <->
  take 6 auth = lit "Basic " /\
  base64Decode (drop 6 auth) = Ret (username ++ lit ":" ++ password).
Proof.
  intros Hq Hu. unfold checkAuthentication. rewrite Hq.
  destruct (decide (take 6 auth = lit "Basic ")) as [Ht|Ht].
  2: { rewrite bool_decide_false by done. cbn [negb]. split; [discriminate|]. by intros [? _]. }
  rewrite bool_decide_true by done. cbn [negb].
  destruct (base64Decode (drop 6 auth)) as [d| | |]; try (split; [discriminate|by intros [_ ?]]).
  mrun. split.
  - destruct (find_char ":" d) as [i|] eqn:Ei; [|discriminate].
    destruct (decide (take i d = username)) as [E1|];
      [rewrite bool_decide_true by done|by rewrite bool_decide_false by done].
    destruct (decide (drop (i + 1) d = password)) as [E2|];
      [rewrite bool_decide_true by done|by rewrite (bool_decide_false (drop _ _ = _)) by done].
    intros _. split; [done|]. f_equal. apply find_char_Some in Ei as (Hd & _ & _).
    rewrite Hd, E1, <- E2, (Nat.add_1_r i). done.
  - intros [_ Hd]. assert (d = username ++ lit ":" ++ password) as -> by congruence. clear Hd.
    rewrite (find_colon_byte username password Hu). cbv iota.
    rewrite take_app_length, bool_decide_true by done. cbn [negb].
    replace (length username + 1) with (length (username ++ lit ":")) by (by rewrite length_app).
    rewrite app_assoc, drop_app_length, bool_decide_true by done. done.
Qed.

Definition with_credentials (encoded : bytes) : request :=
  set_headers {[ lit "authorization" := lit "Basic " ++ encoded ]} new_request.

Lemma checkAuthentication_spec_witness :
  checkAuthentication (with_credentials (lit "YWRtaW46aHVudGVyMg==")) (lit "admin") (lit "hunter2")
  = Ret AuthSuccess.
Proof.
  apply (checkAuthentication_spec (with_credentials (lit "YWRtaW46aHVudGVyMg=="))
           (lit "admin") (lit "hunter2") (lit "Basic YWRtaW46aHVudGVyMg==")).
  - vm_compute. reflexivity.
  - refine (bool_decide_unpack _ _). vm_compute. exact I.
  - split; vm_compute; reflexivity.
Defined.

(** Credentials that the server encodes itself are accepted. *)
Lemma checkAuthentication_encoded username password encoded :
  ":"%char ∉ username -> base64Encode (username ++ lit ":" ++ password) = Ret encoded ->
  base64Decode encoded = Ret (username ++ lit ":" ++ password) ->
  checkAuthentication (with_credentials encoded) username password = Ret AuthSuccess.
Proof.
  intros Hu _ Hd. unfold checkAuthentication, with_credentials.
  cbn [q_headers set_headers]. rewrite lookup_singleton_eq.
  assert (take 6 (lit "Basic " ++ encoded) = lit "Basic ") as -> by done.
  rewrite bool_decide_true by done. cbn [negb].
  change (drop 6 (lit "Basic " ++ encoded)) with encoded. rewrite Hd. mrun.
  rewrite (find_colon_byte username password Hu). cbv iota.
  rewrite take_app_length, bool_decide_true by done. cbn [negb].
  replace (length username + 1) with (length (username ++ lit ":")) by (by rewrite length_app).
  by rewrite app_assoc, drop_app_length, bool_decide_true by done.
Qed.

(** ** Theorems: query parameters *)

Definition clean_parameter (kv : bytes * bytes) : Prop :=
  kv.1 <> [] /\
  (forall c, c ∈ [ "="; "&"; "%"; "+"; "?" ]%char -> c ∉ kv.1) /\
  (forall c, c ∈ [ "&"; "%"; "+" ]%char -> c ∉ kv.2).

Lemma unescape_plain s : "%"%char ∉ s -> "+"%char ∉ s -> unescape s true = Ret s.
Proof.
  intros H1 H2. unfold unescape. apply find_char_None in H1, H2.
  by rewrite !bool_decide_true.
Qed.

Lemma clean_parameter_chars kv : clean_parameter kv ->
  ("="%char ∉ kv.1) /\ ("&"%char ∉ kv.1) /\ ("%"%char ∉ kv.1) /\ ("+"%char ∉ kv.1) /\
  ("&"%char ∉ kv.2) /\ ("%"%char ∉ kv.2) /\ ("+"%char ∉ kv.2).
Proof.
  intros (_ & Hk & Hv). repeat split; (apply Hk || apply Hv);
    refine (bool_decide_unpack _ _); vm_compute; exact I.
Qed.

Lemma find_equals a b : "="%char ∉ a -> find_char "=" (a ++ lit "=" ++ b) = Some (length a).
Proof. exact (find_char_app "=" a b). Qed.

Lemma find_ampersand a b : "&"%char ∉ a -> find_char "&" (a ++ lit "&" ++ b) = Some (length a).
Proof. exact (find_char_app "&" a b). Qed.

Lemma add_parameter_text m kv :
  clean_parameter kv -> add_parameter m (parameter_text kv) = Ret (<[kv.1 := kv.2]> m).
Proof.
  intros Hc. destruct (clean_parameter_chars _ Hc) as (H1 & H2 & H3 & H4 & H5 & H6 & H7).
  destruct Hc as [Hne _]. destruct kv as [k v]. cbn [fst snd] in *.
  unfold add_parameter, parameter_text. cbn [fst snd].
  rewrite bool_decide_false by (intros H; by apply app_eq_nil in H as [? _]).
  destruct (decide (v = [])) as [->|Hv].
  - rewrite (bool_decide_true ([] = [])), app_nil_r by done.
    rewrite (proj2 (find_char_None _ _) H1), unescape_plain by done. done.
  - rewrite (bool_decide_false (v = [])), find_equals by done.
    replace (length k + 1) with (length (k ++ lit "=")) by (by rewrite length_app).
    rewrite take_app_length, app_assoc, drop_app_length, !unescape_plain by done. done.
Qed.

Lemma parameter_text_no_ampersand kv : clean_parameter kv -> "&"%char ∉ parameter_text kv.
Proof.
  intros Hc. destruct (clean_parameter_chars _ Hc) as (_ & H2 & _ & _ & H5 & _).
  unfold parameter_text. rewrite elem_of_app. intros [H|H]; [done|].
  case_bool_decide; [set_solver|]. apply elem_of_app in H as [H|H]; [|done].
  revert H. refine (bool_decide_unpack (_ ∉ _) _). vm_compute. exact I.
Qed.

Definition insert_all (m : gmap bytes bytes) (kvs : list (bytes * bytes)) : gmap bytes bytes :=
  foldl (fun m kv => <[kv.1 := kv.2]> m) m kvs.

Lemma parameters_loop_texts kv kvs m fuel :
  Forall clean_parameter (kv :: kvs) -> length kvs <= fuel ->
  parameters_loop fuel m (parameter_text kv
                          ++ concat (map (fun kv => lit "&" ++ parameter_text kv) kvs))
  = Ret (insert_all m (kv :: kvs)).
Proof.
  revert kv m fuel. induction kvs as [|kv2 kvs IH]; intros kv m fuel Hall Hf;
    apply Forall_cons_1 in Hall as [Hkv Hall].
  - cbn [map concat]. rewrite app_nil_r.
    destruct fuel; cbn [parameters_loop];
      rewrite (proj2 (find_char_None _ _) (parameter_text_no_ampersand _ Hkv));
      by apply add_parameter_text.
  - destruct fuel as [|fuel]; [simpl in Hf; lia|].
    cbn [map concat parameters_loop]. rewrite <- (app_assoc (lit "&")).
    rewrite find_ampersand by by apply parameter_text_no_ampersand.
    rewrite take_app_length, add_parameter_text by done. mrun.
    replace (length (parameter_text kv) + 1) with (length (parameter_text kv ++ lit "&"))
      by (by rewrite length_app).
    rewrite app_assoc, drop_app_length, IH by (done || simpl in Hf; lia). done.
Qed.

Lemma insert_all_union m kvs :
  NoDup kvs.*1 -> insert_all m kvs = list_to_map kvs ∪ m.
Proof.
  revert m. induction kvs as [|[k v] kvs IH]; intros m Hnd.
  - by rewrite list_to_map_nil, map_empty_union.
  - inversion Hnd as [|? ? Hk Hnd']; subst. unfold insert_all. cbn [foldl fst snd].
    fold (insert_all (<[k := v]> m) kvs). rewrite IH by done. rewrite list_to_map_cons.
    rewrite <- insert_union_l, <- insert_union_r; [done|].
    by apply not_elem_of_list_to_map_1.
Qed.

Lemma insert_all_entries m : insert_all ∅ (entries m) = m.
Proof.
  rewrite insert_all_union by apply NoDup_entries_keys. rewrite map_union_empty.
  rewrite (list_to_map_proper (entries m) (map_to_list m)).
  - apply list_to_map_to_list.
  - apply NoDup_entries_keys.
  - apply entries_permutation.
Qed.

Lemma length_parameter_texts kvs :
  length kvs <= length (concat (map (fun kv => lit "&" ++ parameter_text kv) kvs)).
Proof.
  induction kvs as [|kv kvs IH]; [simpl; lia|]. cbn [map concat]. rewrite !length_app.
  change (length (lit "&")) with 1. change (length (kv :: kvs)) with (S (length kvs)). lia.
Qed.

(** The parameters of a request are read back from the path it is printed
    with, for keys and values without the bytes that have a meaning in a query
    string (which are printed unescaped). *)
Theorem getParameters_pathWithParameters q :
  "?"%char ∉ q_path q -> map_Forall (fun k v => clean_parameter (k, v)) (q_parameters q) ->
  getParameters (pathWithParameters q) true = Ret (q_parameters q) /\
  getPath (pathWithParameters q) = q_path q.
Proof.
  intros Hp Hall. unfold getParameters, getPath, pathWithParameters.
  assert (Hent : Forall clean_parameter (entries (q_parameters q))).
  { apply List.Forall_forall. intros [k v] Hin. rewrite <- list_elem_of_In in Hin.
    apply elem_of_entries in Hin. by apply (Hall k v). }
  pose proof (insert_all_entries (q_parameters q)) as Hins.
  destruct (entries (q_parameters q)) as [|kv kvs] eqn:E.
  - rewrite app_nil_r, (proj2 (find_char_None _ _) Hp). by rewrite <- Hins.
  - rewrite (find_char_app "?" (q_path q) _ Hp : find_char "?" (q_path q ++ lit "?" ++ _) = _).
    cbn [substr_to]. rewrite take_app_length. split; [|done].
    replace (length (q_path q) + 1) with (length (q_path q ++ lit "?")) by (by rewrite length_app).
    rewrite app_assoc, drop_app_length, parameters_loop_texts; [by rewrite Hins|done|].
    rewrite length_app. pose proof (length_parameter_texts kvs). lia.
Qed.

Definition parameters_example : request :=
  set_parameters (list_to_map [(lit "b", lit "2"); (lit "a", lit "x=y"); (lit "flag", [])])
    (set_path (lit "/list") new_request).

Lemma getParameters_pathWithParameters_witness :
  getParameters (lit "/list?a=x=y&b=2&flag") true = Ret (q_parameters parameters_example).
Proof.
  apply (getParameters_pathWithParameters parameters_example).
  - refine (bool_decide_unpack _ _). vm_compute. exact I.
  - unfold clean_parameter.
    refine (map_Forall_insert_2 _ _ _ _ _ _); [|refine (map_Forall_insert_2 _ _ _ _ _ _);
      [|refine (map_Forall_insert_2 _ _ _ _ _ (map_Forall_empty _))]];
      (split; [discriminate|]); split; cbn [fst snd]; intros c Hc Hk;
      apply list_elem_of_In in Hc, Hk; simpl in Hc, Hk; intuition congruence.
Defined.

(** ** Witnesses for the reading of a request, and the case of the names *)

Definition no_option (path : bytes) : outcome (option Z) := Ret None.

Definition posted : request :=
  set_headers {[ lit "content-type" := lit "text/plain"; lit "content-length" := lit "5" ]}
    (set_lengths 5 (set_mode MContent (set_method POST new_request))).

Lemma handleLines_request_witness :
  handleLines no_option
    [lit "GET /a?x=1 HTTP/1.1" ++ [cr; lf]; lit "Host: h" ++ [cr; lf];
     lit "X-A: 1" ++ [cr; lf]; lit "x-a: 2" ++ [cr; lf]; [cr; lf]] new_request
  = (Ret (Done, []),
     set_mode MContent (set_headers {[ lit "host" := lit "h"; lit "x-a" := lit "1 2" ]}
       (set_mode MHeaders (set_version (lit "HTTP/1.1") (set_parameters {[ lit "x" := lit "1" ]}
         (set_path (lit "/a") (set_method GET new_request))))))).
Proof.
  refine (eq_trans (handleLines_request no_option GET (lit "/a?x=1") (lit "HTTP/1.1")
    {[ lit "x" := lit "1" ]}
    [(lit "Host", lit "h"); (lit "X-A", lit "1"); (lit "x-a", lit "2")] new_request
    _ _ _ _ _ _ _) _).
  - discriminate.
  - refine (bool_decide_unpack _ _). vm_compute. exact I.
  - by left.
  - vm_compute. reflexivity.
  - repeat constructor; try discriminate;
      refine (bool_decide_unpack (_ ∉ _) _); vm_compute; exact I.
  - reflexivity.
  - vm_compute. reflexivity.
  - vm_compute. reflexivity.
Defined.

Lemma handleLines_body_witness :
  handleLines no_option [lit "he"; lit "l"; lit "lo"] posted
  = (Ret (Done, []), set_mode MMethod (received (lit "hello") 0 posted)).
Proof.
  apply (handleLines_body no_option [lit "he"; lit "l"; lit "lo"] posted).
  - reflexivity.
  - discriminate.
  - repeat constructor; discriminate.
  - reflexivity.
  - vm_compute. reflexivity.
Defined.

(** Header names are looked up in lower case but compared as they are written:
    a body announced by any other spelling has the length 0, and its first
    piece, kept whole, ends the request. *)
Lemma content_length_spelling pm name n q :
  toLower name = lit "content-length" -> ":"%char ∉ name -> name <> lit "Content-Length" ->
  q_mode q = MHeaders -> q_contentLength q = 0%Z -> q_lengthRemaining q = 0%Z ->
  exists q',
    handleLines pm [header_text (name, n) ++ [cr; lf]; [cr; lf]] q
      = (Ret (DisableLineMode, []), q') /\
    q_maxRead q' = 0%Z /\ q_lengthRemaining q' = 0%Z /\ q_mode q' = MContent.
Proof.
  intros Hl Hc Hn Hm Hcl Hrem. cbn [handleLines]. mrun.
  rewrite handleLine_header; [|by left|split; [done|]|done].
  2: { split; [done|]. cbn [fst]. intros ->. vm_compute in Hl. discriminate Hl. }
  cbv iota. unfold handleLine, with_header_lines. mrun.
  cbn [q_mode q_headers set_headers set_keepAlive merged foldl fst snd]. rewrite Hm.
  change (chop_line [cr; lf]) with ([] : bytes). rewrite Hl.
  rewrite (bool_decide_true (is_Some _)).
  - eexists. split; [reflexivity|]. done.
  - unfold merge_header. destruct (q_headers q !! lit "content-length");
      [case_bool_decide|]; rewrite lookup_insert_eq; eauto.
Qed.
