(* ===== verification/RequestTypes.v ===== *)
(** * Requests stay well typed

    What holds of a request after any lines and pieces of a body whatsoever, those
    that are refused included: its numbers are those of their machine words, nothing more remains
    of a body than has been announced, and past the first line there are a method
    and a version.  And every line is handled in finitely many steps. *)

From Stdlib Require Import ZArith Lia Ascii String.
From stdpp Require Import base tactics option list strings gmap.
From S2P Require Import Prelude Util Request.

(** A value of [size_t]. *)
Definition in_word (n : Z) : Prop := (0 <= n < W64)%Z.

Record typed (q : request) : Prop := {
  ty_length : in_word (q_contentLength q);
  ty_remaining : (0 <= q_lengthRemaining q <= q_contentLength q)%Z;
  ty_suffix : in_word (q_suffixLength q);
  ty_maxRead : in_word (q_maxRead q);
  ty_ranges : Forall (fun r => in_word r.1 /\ in_word r.2) (q_ranges q);
  ty_path : ("?"%char ∉ q_path q) /\ (" "%char ∉ q_path q);
  ty_headers : map_Forall (fun name _ => toLower name = name) (q_headers q);
  ty_started : q_mode q <> MMethod ->
    q_method q <> Invalid /\ (q_version q = lit "HTTP/1.1" \/ q_version q = lit "HTTP/1.0");
}.

(** ** Computations that keep a property and come to an end *)

Section retains.
Context {St : Type} (P : St -> Prop).

Definition retains {A} (m : M St A) : Prop := forall s, P s -> P (m s).2 /\ (m s).1 <> Diverge.

Lemma retains_ret {A} (a : A) : retains (mret a).
Proof. done. Qed.
Lemma retains_throw {A} e : retains (throw e : M St A).
Proof. done. Qed.
Lemma retains_lift {A} (o : outcome A) : o <> Diverge -> retains (lift o).
Proof. done. Qed.
Lemma retains_modify f : (forall s, P s -> P (f s)) -> retains (modify f).
Proof. intros H s Hs. split; [by apply H|done]. Qed.
Lemma retains_bind {A B} (m : M St A) (k : A -> M St B) :
  retains m -> (forall a, retains (k a)) -> retains (mbind k m).
Proof.
  intros Hm Hk s Hs. specialize (Hm s Hs). mrun. destruct (m s) as [[a|e| |] s'];
    [apply (Hk a), Hm|split; [apply Hm|done]|split; [apply Hm|done]|by destruct Hm].
Qed.
Lemma retains_lift_bind {A B} (o : outcome A) (k : A -> M St B) :
  o <> Diverge -> (forall a, o = Ret a -> retains (k a)) -> retains (mbind k (lift o)).
Proof. intros Ho Hk s Hs. mrun. destruct o as [a|e| |]; try done. by apply (Hk a). Qed.
Lemma retains_get {B} (k : St -> M St B) : (forall s, P s -> retains (k s)) -> retains (mbind k get).
Proof. intros Hk s Hs. mrun. by apply (Hk s). Qed.
Lemma retains_when (b : bool) (m : M St ()) : retains m -> retains (when b m).
Proof. by destruct b. Qed.
Lemma retains_catch {A} (m : M St A) (h : exn -> option (M St A)) :
  retains m -> (forall e k, h e = Some k -> retains k) -> retains (catch m h).
Proof.
  intros Hm Hh s Hs. specialize (Hm s Hs). mrun. destruct (m s) as [[a|e| |] s']; [done| |done..].
  destruct (h e) as [k|] eqn:E; [|done]. apply (Hh e k E), Hm.
Qed.
Lemma retains_parse_error {A} (m : M St A) what : retains m -> retains (catch m (invalid_argument_to_ParseError what)).
Proof. intros Hm. apply retains_catch; [done|]. by intros [] k; intros [= <-]. Qed.
End retains.

Create HintDb retains.
#[export] Hint Resolve retains_ret retains_throw retains_when retains_parse_error : retains.

(** ** Numbers and the decoder *)

Lemma digits_prefix_pos acc count s : (0 <= acc)%Z -> (0 <= (digits_prefix acc count s).1)%Z.
Proof.
  revert acc count. induction s as [|c s IH]; intros acc count Ha; cbn; [done|].
  destruct (digit c) as [d|] eqn:E; [|done]. apply IH.
  assert (0 <= d)%Z by (unfold digit in E; destruct (_ && _) eqn:Eb in E; [injection E as <-|done];
    apply andb_true_iff in Eb as [?%Z.leb_le ?%Z.leb_le]; lia). lia.
Qed.

Lemma parseUlong_view_word view : parseUlong_view view <> Diverge /\ forall n, parseUlong_view view = Ret n -> in_word n.
Proof.
  unfold parseUlong_view, from_chars_unsigned. pose proof (digits_prefix_pos 0 0 view ltac:(lia)) as Hp.
  destruct (digits_prefix 0 0 view) as [v k]. cbn [fst] in Hp.
  destruct (k =? 0); [done|]. destruct (Z.ltb_spec SIZE_MAX v); [done|]. split; [done|]. intros n [= <-].
  unfold in_word. unfold SIZE_MAX in *. lia.
Qed.

Lemma max_word : in_word SIZE_MAX.
Proof. unfold in_word, SIZE_MAX, W64. lia. Qed.

Lemma unescape_loop_ends fuel path plus i out :
  i <= length path -> length path < fuel + i -> unescape_loop fuel path plus i out <> Diverge.
Proof.
  revert i out. induction fuel as [|f IH]; intros i out Hi Hf; cbn; [lia|].
  destruct (path !! i) as [ch|] eqn:E; [|done]. apply lookup_lt_Some in E.
  destruct (_ && _); [apply IH; lia|]. destruct (_ || _); [apply IH; lia|].
  destruct (path !! (i + 1)); [|done]. destruct (path !! (i + 2)) eqn:E2; [|done].
  apply lookup_lt_Some in E2. destruct (_ || _); apply IH; lia.
Qed.

Lemma unescape_ends path plus : unescape path plus <> Diverge.
Proof. unfold unescape. destruct (_ && _); [done|]. apply unescape_loop_ends; lia. Qed.

Lemma add_parameter_ends m pair : add_parameter m pair <> Diverge.
Proof.
  unfold add_parameter. destruct (bool_decide _); [done|]. destruct (find_char "=" pair).
  - mrun. pose proof (unescape_ends (drop (n + 1) pair) true). pose proof (unescape_ends (take n pair) true).
    destruct (unescape (drop _ _) _); try done. by destruct (unescape (take _ _) _).
  - mrun. pose proof (unescape_ends pair true). by destruct (unescape pair true).
Qed.

Lemma parameters_loop_ends fuel m path : length path <= fuel -> parameters_loop fuel m path <> Diverge.
Proof.
  revert m path. induction fuel as [|f IH]; intros m path Hf; cbn [parameters_loop];
    destruct (find_char "&" path) as [i|] eqn:E; try apply add_parameter_ends.
  - destruct path; [done|cbn in Hf; lia].
  - mrun. pose proof (add_parameter_ends m (take i path)). destruct (add_parameter m (take i path)); try done.
    apply IH. rewrite length_drop. destruct path; [done|]. cbn in *. lia.
Qed.

Lemma getParameters_ends path chop : getParameters path chop <> Diverge.
Proof.
  unfold getParameters. destruct chop; [destruct (find_char _ _); [|done]|]; by apply parameters_loop_ends.
Qed.

Lemma parse_method_method view m : parse_method view = Ret m -> m <> Invalid.
Proof. unfold parse_method. repeat case_bool_decide; by intros [= <-]. Qed.

Lemma toLower_twice s : toLower (toLower s) = toLower s.
Proof.
  assert (H : forall c, bool_decide (to_lower_char (to_lower_char c) = to_lower_char c) = true)
    by (apply byte_forall; vm_compute; reflexivity).
  unfold toLower. rewrite map_map. apply map_ext. intros c. specialize (H c). by apply bool_decide_eq_true in H.
Qed.

(** What [find] has not found before its result. *)
Lemma getPath_no_query full_path next_space line :
  find_char " " line = Some next_space -> full_path = take next_space line ->
  ("?"%char ∉ getPath full_path) /\ (" "%char ∉ getPath full_path).
Proof.
  intros Hs ->. apply find_char_Some in Hs.
  assert (Hn : " "%char ∉ take next_space line) by apply Hs. unfold getPath, substr_to.
  destruct (find_char "?" (take next_space line)) as [i|] eqn:E.
  - apply find_char_Some in E. split; [apply E|]. intros Hin. apply Hn.
    rewrite <- (take_drop i (take next_space line)), elem_of_app. by left.
  - split; [by apply find_char_None|done].
Qed.

(** ** The operations keep requests typed *)

Lemma in_word_0 : in_word 0.
Proof. unfold in_word, W64. lia. Qed.

(** A change of fields that typing does not look at, or to values that fit. *)
Ltac retype := let H := fresh in intros ? H; destruct H; split; cbn; try done; try by apply in_word_0.

Lemma add_range_keeps start stop : in_word start -> in_word stop ->
  retains typed (modify (fun q => set_ranges (q_ranges q ++ [(start, stop)]) q)).
Proof. intros Hs He. apply retains_modify. retype. apply Forall_app. split; [done|]. by constructor. Qed.

Lemma parse_piece_keeps piece : retains typed (parse_piece piece).
Proof.
  destruct (parseUlong_view_word piece) as [Hp Hw]. unfold parse_piece.
  destruct (find_char "-" piece) as [[|h]|].
  - destruct (length piece =? 1); [auto with retains|]. destruct (parseUlong_view_word (drop 1 piece)) as [H1 H2].
    apply retains_lift_bind; [done|]. intros n Hn. apply retains_modify. retype. by apply H2.
  - destruct (parseUlong_view_word (substr_to piece (Some (S h)))) as [H1 H2].
    apply retains_lift_bind; [done|]. intros start Hs.
    pose proof (fun stop => add_range_keeps start stop (H2 _ Hs)) as Hm.
    destruct (_ =? _); [apply (Hm _ max_word)|].
    destruct (parseUlong_view_word (drop (S h + 1) piece)) as [H3 H4]. apply retains_lift_bind; [done|]. auto.
  - destruct (parseUlong_view_word (substr_to piece None)) as [H1 H2].
    apply retains_lift_bind; [done|]. intros start Hs.
    pose proof (fun stop => add_range_keeps start stop (H2 _ Hs)) as Hm.
    destruct (bool_decide _); [apply (Hm _ max_word)|]. apply retains_lift_bind; [done|]. auto.
Qed.

Lemma range_loop_keeps fuel content : length content <= fuel -> retains typed (range_loop fuel content).
Proof.
  revert content. induction fuel as [|f IH]; intros content Hf; cbn [range_loop];
    case_bool_decide as Hc; try apply retains_ret.
  - destruct content; [done|cbn in Hf; lia].
  - apply retains_bind; [apply parse_piece_keeps|]. intros _.
    destruct (find_sub (lit ", ") content) as [s|]; [|apply retains_ret]. apply IH. rewrite length_drop.
    destruct content; [done|]. cbn in *. lia.
Qed.

Lemma parseRange_keeps content : retains typed (parseRange content).
Proof.
  unfold parseRange. destruct (negb _); [auto with retains|].
  apply retains_bind; [apply retains_modify; retype|]. intros _.
  apply retains_parse_error. by apply range_loop_keeps.
Qed.

Lemma absorbPOST_keeps : retains typed absorbPOST.
Proof.
  unfold absorbPOST. apply retains_get. intros q _.
  assert (Hp : retains typed (p ← lift (getParameters (q_content q) false); modify (set_postParameters p) ;; modify (set_body []))).
  { apply retains_lift_bind; [apply getParameters_ends|]. intros p _.
    apply retains_bind; [|intros _]; apply retains_modify; retype. }
  destruct (q_headers q !! _) as [t|]; [destruct (negb _); [apply retains_ret|]|]; exact Hp.
Qed.

Lemma header_typed name content headers :
  map_Forall (fun name _ => toLower name = name) headers ->
  map_Forall (fun name _ => toLower name = name) (merge_header headers (toLower name) content).
Proof.
  intros H. unfold merge_header. destruct (headers !! _) as [old|]; [case_bool_decide|];
    (apply map_Forall_insert_2; [apply toLower_twice|done]).
Qed.

Section lines.
Variable getOption_postMax : bytes -> outcome (option Z).
Hypothesis option_ends : forall path, getOption_postMax path <> Diverge.

Lemma content_length_keeps content : retains typed (handle_content_length getOption_postMax content).
Proof.
  unfold handle_content_length. apply retains_parse_error.
  destruct (parseUlong_view_word content) as [H1 H2]. apply retains_lift_bind; [done|]. intros n Hn. apply H2 in Hn.
  apply retains_bind; [apply retains_modify; retype; unfold in_word in Hn; lia|]. intros _.
  apply retains_get. intros q _. apply retains_when. apply retains_lift_bind; [apply option_ends|]. intros m _.
  auto with retains.
Qed.

Lemma header_line_keeps line : retains typed (handle_header_line getOption_postMax line).
Proof.
  unfold handle_header_line. destruct (find_sub _ _); [|auto with retains].
  apply retains_bind; [apply retains_modify; retype; by apply header_typed|]. intros _.
  apply retains_bind; [|auto with retains].
  destruct (bool_decide (_ = lit "Content-Length")); [apply content_length_keeps|].
  destruct (bool_decide (_ = lit "Range")); [apply parseRange_keeps|].
  destruct (bool_decide (_ = lit "Connection")); [apply retains_modify; retype|apply retains_ret].
Qed.

(** In the first line the mode does not change before everything else is there. *)
Lemma method_line_keeps line q : q_mode q = MMethod -> typed q ->
  typed (handle_method_line line q).2 /\ (handle_method_line line q).1 <> Diverge.
Proof.
  intros Hm Hq. unfold handle_method_line. destruct (find_char " " line) as [i|]; [|done].
  mrun. destruct (parse_method (take i line)) as [m|e| |] eqn:Ep; cbn [fst snd]; [|done..|].
  2: by (unfold parse_method in Ep; repeat case_bool_decide).
  apply parse_method_method in Ep.
  assert (H1 : typed (set_method m q)) by (destruct Hq; by split).
  destruct (find_char " " (drop (i + 1) line)) as [j|] eqn:Es; [|done]. cbn [fst snd].
  pose proof (getPath_no_query _ j _ Es eq_refl) as Hpath.
  set (full := take j (drop (i + 1) line)) in *.
  assert (H2 : typed (set_path (getPath full) (set_method m q))) by (destruct H1; by split).
  pose proof (getParameters_ends full true). destruct (getParameters full true) as [p|e| |]; [|done..].
  generalize (drop (j + 1) (drop (i + 1) line)). intros version.
  destruct (negb (bool_decide (version = lit "HTTP/1.1")) && _) eqn:Ev; cbn [fst snd].
  - split; [|done]. destruct H2. split; try done; cbn; by rewrite Hm.
  - split; [|done]. destruct H2. split; try done. intros _. split; [done|]. cbn [q_version set_mode set_version].
    revert Ev. case_bool_decide; [by left|]. case_bool_decide; [by right|done].
Qed.

Lemma content_chunk_keeps line : retains typed (handle_content_chunk line).
Proof.
  intros q Hq. pose proof (ty_remaining q Hq) as Hr. unfold handle_content_chunk.
  set (size := Z.of_nat (length line)).
  set (tail := fun _ : () => q ← get; _).
  assert (Ht : forall q1, typed q1 -> (q_lengthRemaining q1 = 0 \/ size < q_lengthRemaining q1)%Z ->
    typed (tail tt q1).2 /\ (tail tt q1).1 <> Diverge).
  { intros q1 H1 Hrem. unfold tail. mrun.
    destruct (Z.eqb_spec (q_lengthRemaining q1) 0) as [E|E].
    - change (typed ((when (bool_decide (q_method q1 = POST)) absorbPOST ;; modify (set_mode MMethod) ;; mret Done) q1).2 /\
        ((when (bool_decide (q_method q1 = POST)) absorbPOST ;; modify (set_mode MMethod) ;; mret Done) q1).1 <> Diverge).
      apply retains_bind; [apply retains_when, absorbPOST_keeps|intros _|done].
      apply retains_bind; [|auto with retains]. apply retains_modify. retype.
    - split; [|done]. pose proof (ty_remaining q1 H1). destruct H1. split; try done. cbn. unfold size in *. lia. }
  mrun. destruct (Z.ltb_spec (q_lengthRemaining q) size); [|destruct (Z.eqb_spec (q_lengthRemaining q) size)];
    (apply Ht; cbn [q_lengthRemaining set_remaining]; [|lia]); [..|done]; destruct Hq; split; try done; cbn; lia.
Qed.

Lemma handleLine_keeps line : retains typed (handleLine getOption_postMax line).
Proof.
  intros q Hq. unfold handleLine. mrun.
  set (l := match q_mode q with MContent => line | _ => chop_line line end).
  destruct (bool_decide (l = []) && bool_decide (q_mode q = MHeaders)) eqn:E.
  - apply andb_true_iff in E as [_ E%bool_decide_eq_true]. cbn [q_headers set_mode].
    assert (H1 : typed (set_mode MContent q)).
    { pose proof (ty_started q Hq). destruct Hq. split; try done. intros _. apply H. by rewrite E. }
    destruct (bool_decide _); [|done]. split; [|done]. destruct H1. by split.
  - destruct (q_mode q) eqn:Em; [by apply method_line_keeps|by apply header_line_keeps|by apply content_chunk_keeps].
Qed.

(** A client hands over line after line, and piece after piece of a body, to one
    request whatever became of those before. *)
Fixpoint feed (lines : list bytes) (q : request) : list (outcome HandleResult) * request :=
  match lines with
  | [] => ([], q)
  | line :: rest =>
    let '(r, q1) := handleLine getOption_postMax line q in
    let '(results, q2) := feed rest q1 in (r :: results, q2)
  end.

Lemma feed_keeps lines q : typed q ->
  typed (feed lines q).2 /\ Forall (fun r => r <> Diverge) (feed lines q).1 /\ length (feed lines q).1 = length lines.
Proof.
  revert q. induction lines as [|line rest IH]; intros q Hq; cbn [feed]; [split; [done|]; by split; [constructor|]|].
  destruct (handleLine_keeps line q Hq) as [H1 H2]. destruct (handleLine getOption_postMax line q) as [r q1].
  destruct (IH q1 H1) as (H3 & H4 & H5). destruct (feed rest q1) as [results q2]. cbn in *.
  split; [done|]. split; [by constructor|by rewrite H5].
Qed.
End lines.

Lemma new_request_typed : typed new_request.
Proof.
  split; cbn; try apply in_word_0; try done. split; by intros ?%elem_of_nil.
Qed.

(** C30: whatever lines and pieces of bodies a client sends, in whatever order and
    however each of them is answered (with an exception or with undefined behaviour
    too), each is handled in finitely many steps, and the request that has come of
    them is well typed: its numbers fit their machine words, no more remains of the
    body than has been announced, the path has neither a query nor a space, the names
    of the headers are in lower case, and behind the first line there are a method
    and a version. *)
Theorem requests_stay_typed getOption_postMax (lines : list bytes) :
  (forall path, getOption_postMax path <> Diverge) ->
  let x := feed getOption_postMax lines new_request in
  typed x.2 /\ Forall (fun r => r <> Diverge) x.1 /\ length x.1 = length lines.
Proof. intros Ho. exact (feed_keeps _ Ho lines new_request new_request_typed). Qed.

(** ** Witness *)

(** A request whose body comes in two pieces, the second longer than what remains;
    then a line that is no request, and the next request. *)
Definition two_requests : list bytes :=
  [lit "POST /a?b=c HTTP/1.1"; lit "CONTENT-Type: text/plain"; lit "Range: bytes=1-2, 3-"; lit "Content-Length: 5"; [];
   lit "he"; lit "lloXY"; lit "nonsense"; lit "GET /x HTTP/1.0"].

Lemma requests_stay_typed_witness :
  let x := feed no_option two_requests new_request in
  x.1 = [Ret Continue; Ret Continue; Ret Continue; Ret Continue; Ret DisableLineMode; Ret Continue; Ret Done;
         Throw (ParseError (lit "Bad method line: can't determine method")); Ret Continue] /\
  q_contentLength x.2 = 5%Z /\ q_lengthRemaining x.2 = 0%Z /\ typed x.2.
Proof.
  split; [vm_compute; reflexivity|]. split; [vm_compute; reflexivity|]. split; [vm_compute; reflexivity|].
  apply (requests_stay_typed no_option). intros path. discriminate.
Defined.
