(* ===== verification/PluginHost.v ===== *)
(** * Plugins and their host

    [src/PluginHost.cpp], [include/plugins/PluginHost.h], [src/Plugin.cpp] and
    [include/util/WeakCompare.h]: the propagation of events through handlers
    held by weak pointers, and the table of loaded plugins. *)

From Stdlib Require Import ZArith Lia Ascii String.
From stdpp Require Import base tactics option list strings gmap.
From S2P Require Import Prelude Util.

Inductive HandlerResult := HPass | HKill.
Inductive CancelableResult := CPass | CKill | CDisable | CEnable | CApprove.

#[export] Instance HandlerResult_eq_dec : EqDecision HandlerResult.
Proof. solve_decision. Defined.
#[export] Instance CancelableResult_eq_dec : EqDecision CancelableResult.
Proof. solve_decision. Defined.

(** ** Propagation of events

    A handler is reached through a weak pointer; [lock] is what the pointer
    gives in the current state, where nothing stands for an expired one. *)

Section events.
Context {St P : Type}.
Variable lock : P -> St -> option (bool -> M St CancelableResult).

Fixpoint beforeMulti (funcs : list P) (should_pass : bool) : M St (bool * HandlerResult) :=
  match funcs with
  | [] => mret (should_pass, HPass)
  | func :: rest =>
    s ← get;
    match lock func s with
    | None => beforeMulti rest should_pass
    | Some f =>
      result ← f should_pass;
      let should_pass :=
        if bool_decide (result = CKill) || bool_decide (result = CDisable) then false
        else if bool_decide (result = CApprove) || bool_decide (result = CEnable) then true
        else should_pass in
      if bool_decide (result = CKill) || bool_decide (result = CApprove)
      then mret (should_pass, HKill)
      else beforeMulti rest should_pass
    end
  end.

Definition before (funcs : list P) : M St bool :=
  r ← beforeMulti funcs true; mret r.1.

End events.

Section post_events.
Context {St P : Type}.
Variable lock_post : P -> St -> option (M St ()).

Fixpoint after (funcs : list P) : M St () :=
  match funcs with
  | [] => mret tt
  | func :: rest =>
    s ← get;
    match lock_post func s with
    | None => after rest
    | Some f => f ;; after rest
    end
  end.
End post_events.

(** [PluginHost::erase] compares what the pointers of a list give. *)
Section erase.
Context {P Obj : Type} `{EqDecision Obj}.
Variable lock_object : P -> option Obj.

Fixpoint erase (l : list P) (locked : option Obj) : bool * list P :=
  match l with
  | [] => (false, [])
  | x :: r => if bool_decide (lock_object x = locked) then (true, r)
              else let '(b, r') := erase r locked in (b, x :: r')
  end.

(** [while (PluginHost::erase(handlers, nullptr));] *)
Fixpoint erase_expired (fuel : nat) (l : list P) : outcome (list P) :=
  match erase l None with
  | (false, l') => Ret l'
  | (true, l') => match fuel with O => Diverge | S f => erase_expired f l' end
  end.

(** [WeakCompare]: objects are ordered by their address, expired pointers
    come first. *)
Variable address : Obj -> Z.
Definition weak_compare (left right : P) : bool :=
  match lock_object right with
  | None => false
  | Some r => match lock_object left with
              | None => true
              | Some l => (address l <? address r)%Z
              end
  end.
End erase.

(** ** The table of plugins

    A plugin is an object of the shared library it was loaded from: its
    methods, the file system and the dynamic loader are arguments. *)

Definition plugin := Z.
Definition handle := Z.
Definition PluginTuple : Type := bytes * plugin * handle.

Class PluginWorld (W : Type) := {
  getName : plugin -> bytes;
  canonical : bytes -> W -> outcome bytes;
  exists_ : bytes -> W -> bool;
  directory_iterator : bytes -> W -> outcome (list (bytes * bool));
  path_extension : bytes -> bytes;
  dlopen : bytes -> W -> option handle * W;
  dlclose : handle -> W -> W;
  make_plugin : handle -> W -> option plugin * W;
  preinit : plugin -> W -> outcome () * W;
  postinit : plugin -> W -> outcome () * W;
  cleanup : plugin -> W -> outcome () * W;
}.

Section host.
Context {W : Type} `{PW : PluginWorld W}.

(** The state: the loaded plugins and the world. *)
Definition host : Type := list PluginTuple * W.

Definition world_op {A} (f : W -> outcome A * W) : M host A := fun h =>
  let '(r, w) := f h.2 in (r, (h.1, w)).

Definition unloadPlugin (tuple : PluginTuple) : M host () :=
  let '(path, plugin, lib) := tuple in
  h ← get;
  match list_find (fun t => t = tuple) h.1 with
  | None => throw (RuntimeError (lit "Couldn't find plugin tuple for path " ++ path))
  | Some (iter, _) =>
    world_op (cleanup plugin) ;;
    modify (fun h => (delete iter h.1, h.2)) ;;
    world_op (fun w => (Ret tt, dlclose lib w))
  end.

Fixpoint unloadPlugins (fuel : nat) : M host () :=
  h ← get;
  match h.1 with
  | [] => mret tt
  | front :: _ => match fuel with
                  | O => diverge
                  | S f => unloadPlugin front ;; unloadPlugins f
                  end
  end.

Definition loadPlugin (path : bytes) : M host PluginTuple :=
  h ← get;
  canonical_path ← lift (canonical path h.2);
  if negb (exists_ canonical_path h.2) then
    throw FilesystemError
  else
    lib ← world_op (fun w => let '(r, w') := dlopen canonical_path w in (Ret r, w'));
    match lib with
    | None => throw (RuntimeError (lit "dlopen returned nullptr."))
    | Some lib =>
      p ← world_op (fun w => let '(r, w') := make_plugin lib w in (Ret r, w'));
      match p with
      | None => throw (RuntimeError (lit "Plugin creation function is null"))
      | Some p =>
        let tuple := (canonical_path, p, lib) in
        modify (fun h => (h.1 ++ [tuple], h.2)) ;;
        mret tuple
      end
    end.

Fixpoint loadPlugins (fuel : nat) (path : bytes) : M host () :=
  match fuel with
  | O => diverge
  | S f =>
    h ← get;
    listing ← lift (directory_iterator path h.2);
    for_each listing (fun entry : bytes * bool =>
      if entry.2 then loadPlugins f entry.1
      else
        let extension := path_extension entry.1 in
        if bool_decide (extension = lit ".so") || bool_decide (extension = lit ".dylib")
        then _ ← loadPlugin entry.1; mret tt
        else mret tt)
  end.

Definition tuple_path (t : PluginTuple) : bytes := t.1.1.
Definition tuple_plugin (t : PluginTuple) : plugin := t.1.2.

Definition getPlugin_matches (name : bytes) (insensitive : bool) (t : PluginTuple) : bool :=
  bool_decide (tuple_path t = name) ||
  (if insensitive then bool_decide (toLower (getName (tuple_plugin t)) = toLower name)
   else bool_decide (getName (tuple_plugin t) = name)).

Definition getPlugin (name : bytes) (insensitive : bool) (h : host) : option PluginTuple :=
  find (getPlugin_matches name insensitive) h.1.

Definition getPlugin_of (p : plugin) (h : host) : option PluginTuple :=
  find (fun t => (tuple_plugin t =? p)%Z) h.1.

Definition hasPlugin_path (path : bytes) (h : host) : outcome bool :=
  c ← canonical path h.2;
  Ret (existsb (fun t => bool_decide (c = tuple_path t)) h.1).

Definition hasPlugin_name (name : bytes) (insensitive : bool) (h : host) : bool :=
  if insensitive
  then existsb (fun t => bool_decide (toLower (getName (tuple_plugin t)) = toLower name)) h.1
  else existsb (fun t => bool_decide (getName (tuple_plugin t) = name)) h.1.

Definition getPlugins (h : host) : list PluginTuple := h.1.

Definition preinitPlugins : M host () :=
  h ← get; for_each h.1 (fun t => world_op (preinit (tuple_plugin t))).

Definition postinitPlugins : M host () :=
  h ← get; for_each h.1 (fun t => world_op (postinit (tuple_plugin t))).

Definition pluginForPath (path : bytes) (h : host) : option plugin :=
  tuple_plugin <$> find (fun t => bool_decide (tuple_path t = path)) h.1.

(** [Plugin::unload], for a plugin whose parent is this host or nothing. *)
Definition unload (p : plugin) (has_parent : bool) : M host bool :=
  if negb has_parent then throw (RuntimeError (lit "Plugin host is null"))
  else
    h ← get;
    match getPlugin_of p h with
    | Some tuple => unloadPlugin tuple ;; mret true
    | None => mret false
    end.
End host.

(** ** Theorems: propagation *)

Section propagation.
Context {St P : Type}.
Variable lock : P -> St -> option (bool -> M St CancelableResult).

(** What one answer makes of the decision so far, and whether it is final. *)
Definition verdict (should_pass : bool) (r : CancelableResult) : bool :=
  match r with CKill | CDisable => false | CApprove | CEnable => true | CPass => should_pass end.
Definition final (r : CancelableResult) : bool :=
  match r with CKill | CApprove => true | _ => false end.

(** The specification as a relation: expired handlers are skipped, each of the
    others runs on the decision made so far in the state left by the previous
    ones, and nothing runs behind a final answer. *)
Inductive propagates : list P -> bool -> St -> bool * HandlerResult -> St -> Prop :=
| prop_end b s : propagates [] b s (b, HPass) s
| prop_expired f fs b s r s' :
    lock f s = None -> propagates fs b s r s' -> propagates (f :: fs) b s r s'
| prop_next f fs b s h a s1 r s' :
    lock f s = Some h -> h b s = (Ret a, s1) -> final a = false ->
    propagates fs (verdict b a) s1 r s' -> propagates (f :: fs) b s r s'
| prop_stop f fs b s h a s1 :
    lock f s = Some h -> h b s = (Ret a, s1) -> final a = true ->
    propagates (f :: fs) b s (verdict b a, HKill) s1.

Lemma beforeMulti_refines funcs b s r s' :
  beforeMulti lock funcs b s = (Ret r, s') <-> propagates funcs b s r s'.
Proof.
  split.
  - revert b s. induction funcs as [|f fs IH]; intros b s; cbn [beforeMulti]; mrun.
    + intros [= <- <-]. constructor.
    + destruct (lock f s) as [h|] eqn:El; [|intros H; apply prop_expired; auto].
      destruct (h b s) as [[a| | |] s1] eqn:Eh; try discriminate.
      destruct a; cbn -[beforeMulti]; intros H;
        try (eapply prop_next; [exact El|exact Eh|done|]; by apply IH);
        injection H as <- <-; by eapply (prop_stop _ _ _ _ _ _ _ El Eh).
  - induction 1 as [b s|f fs b s r s' El _ IH|f fs b s h a s1 r s' El Eh Ef _ IH
                   |f fs b s h a s1 El Eh Ef];
      cbn [beforeMulti]; mrun; rewrite ?El, ?Eh; try done;
      destruct a; try discriminate Ef; done.
Qed.

(** C33: [beforeMulti] implements the specification: it returns exactly the
    decision and the state the relation derives. *)
Theorem beforeMulti_propagates funcs b s r s' :
  beforeMulti lock funcs b s = (Ret r, s') <-> propagates funcs b s r s'.
Proof. exact (beforeMulti_refines funcs b s r s'). Qed.

(** The outcome is [HKill] exactly when some handler's answer was final. *)
Lemma beforeMulti_app pre post b s b1 s1 :
  beforeMulti lock pre b s = (Ret (b1, HPass), s1) ->
  beforeMulti lock (pre ++ post) b s = beforeMulti lock post b1 s1.
Proof.
  revert b s. induction pre as [|f pre IH]; intros b s; cbn [beforeMulti app]; mrun.
  - by intros [= <- <-].
  - destruct (lock f s) as [h|]; [|apply IH].
    destruct (h b s) as [[a| | |] s2]; try discriminate.
    destruct a; cbn -[beforeMulti]; (apply IH || discriminate).
Qed.

(** All handlers being expired, an event is not handled. *)
Lemma beforeMulti_all_expired funcs b s :
  Forall (fun f => lock f s = None) funcs -> beforeMulti lock funcs b s = (Ret (b, HPass), s).
Proof.
  induction 1 as [|f fs Hf _ IH]; [done|]. cbn [beforeMulti]. mrun. by rewrite Hf.
Qed.
End propagation.

(** Two handlers on a log: an enabling one, which lets the event pass on, and
    a killing one. *)
Definition example_lock (f : nat) (s : list nat) : option (bool -> M (list nat) CancelableResult) :=
  match f with
  | 0 => None
  | 1 => Some (fun _ s => (Ret CEnable, s ++ [1]))
  | _ => Some (fun _ s => (Ret CKill, s ++ [f]))
  end.

Example beforeMulti_example :
  beforeMulti example_lock [1; 0; 2; 3] false [] = (Ret (false, HKill), [1; 2]).
Proof. reflexivity. Qed.

(** ** Theorems: erasing *)

Section erase_theorems.
Context {P Obj : Type} `{EqDecision Obj}.
Variable lock_object : P -> option Obj.

Lemma erase_None l :
  match erase lock_object l None with
  | (false, l') => l' = l /\ filter (fun x => is_Some (lock_object x)) l = l
  | (true, l') => length l = S (length l') /\
      filter (fun x => is_Some (lock_object x)) l = filter (fun x => is_Some (lock_object x)) l'
  end.
Proof.
  induction l as [|x l IH]; cbn [erase]; [done|].
  destruct (bool_decide (lock_object x = None)) eqn:Ex.
  - apply bool_decide_eq_true in Ex. split; [done|].
    rewrite filter_cons_False; [done|]. rewrite Ex. by intros [? ?].
  - apply bool_decide_eq_false in Ex.
    assert (is_Some (lock_object x)) by by apply not_eq_None_Some.
    destruct (erase lock_object l None) as [[] l'].
    + destruct IH as [IH1 IH2]. rewrite !filter_cons_True by done. rewrite IH2. simpl. auto.
    + destruct IH as [-> IH2]. rewrite filter_cons_True, IH2 by done. done.
Qed.

Lemma erase_expired_live fuel l :
  length l <= fuel ->
  erase_expired lock_object fuel l = Ret (filter (fun x => is_Some (lock_object x)) l).
Proof.
  revert l. induction fuel as [|fuel IH]; intros l Hl; cbn [erase_expired];
    pose proof (erase_None l) as He; destruct (erase lock_object l None) as [[] l'].
  - destruct He. lia.
  - destruct He as [-> He]. by rewrite He.
  - destruct He as [H1 H2]. rewrite IH by lia. by rewrite H2.
  - destruct He as [-> He]. by rewrite He.
Qed.

(** The loop that clears a list of handlers ends and keeps exactly the
    handlers that are not expired, in their order. *)
Theorem erase_expired_filter fuel l :
  length l <= fuel ->
  erase_expired lock_object fuel l = Ret (filter (fun x => is_Some (lock_object x)) l).
Proof. exact (erase_expired_live fuel l). Qed.

(** At any one moment the order on weak pointers is a strict weak order. *)
Variable address : Obj -> Z.
Lemma weak_compare_irrefl x : weak_compare lock_object address x x = false.
Proof. unfold weak_compare. destruct (lock_object x); [apply Z.ltb_irrefl|done]. Qed.

Lemma weak_compare_trans x y z :
  weak_compare lock_object address x y = true -> weak_compare lock_object address y z = true ->
  weak_compare lock_object address x z = true.
Proof.
  unfold weak_compare. destruct (lock_object x), (lock_object y), (lock_object z); try done.
  rewrite !Z.ltb_lt. lia.
Qed.
End erase_theorems.

Lemma erase_expired_filter_witness :
  erase_expired (fun n : nat => if n =? 0 then None else Some n) 4 [0; 3; 0; 5] = Ret [3; 5].
Proof.
  exact (erase_expired_filter (fun n : nat => if n =? 0 then None else Some n) 4 [0; 3; 0; 5]
           ltac:(simpl; lia)).
Defined.

(** ** Theorems: unloading *)

Section unloading.
Context {W : Type} `{PW : PluginWorld W}.

(** The effect of unloading one plugin whose clean-up does not fail. *)
Definition cleaned (w : W) (t : PluginTuple) : W :=
  dlclose t.2 (cleanup (tuple_plugin t) w).2.

Lemma unloadPlugin_front t ts w :
  (cleanup (tuple_plugin t) w).1 = Ret tt ->
  unloadPlugin t (t :: ts, w) = (Ret tt, (ts, cleaned w t)).
Proof.
  destruct t as [[path p] lib]. cbn [tuple_plugin fst snd]. intros Hc.
  unfold unloadPlugin, world_op. mrun. cbn [fst snd].
  cbn [list_find fst snd fmap option_fmap option_map prod_map].
  rewrite decide_True by done. cbn [fst snd].
  unfold cleaned, tuple_plugin. cbn [fst snd].
  destruct (cleanup p w) as [r w1] eqn:Ec. cbn [fst snd] in *. by rewrite Hc.
Qed.

(** When no clean-up fails, unloading all plugins ends with an empty
    table, each plugin having been cleaned up and its library closed exactly
    once, in the order in which they were loaded. *)
Theorem unloadPlugins_all ts w fuel :
  (forall p w, (cleanup p w).1 = Ret tt) -> length ts <= fuel ->
  unloadPlugins fuel (ts, w) = (Ret tt, ([], foldl cleaned w ts)).
Proof.
  intros Hc. revert w fuel. induction ts as [|t ts IH]; intros w fuel Hf.
  - by destruct fuel.
  - destruct fuel as [|fuel]; [simpl in Hf; lia|].
    cbn [unloadPlugins]. mrun. cbn [fst]. rewrite unloadPlugin_front by done.
    rewrite IH by (simpl in Hf; lia). done.
Qed.

(** A clean-up that throws leaves the plugin in the table. *)
Lemma unloadPlugin_throws t ts w e :
  (cleanup (tuple_plugin t) w).1 = Throw e ->
  unloadPlugin t (t :: ts, w) = (Throw e, (t :: ts, (cleanup (tuple_plugin t) w).2)).
Proof.
  destruct t as [[path p] lib]. cbn [tuple_plugin fst snd]. intros Hc.
  unfold unloadPlugin, world_op. mrun. cbn [fst snd].
  cbn [list_find fst snd fmap option_fmap option_map prod_map].
  rewrite decide_True by done. cbn [fst snd].
  unfold tuple_plugin in *. cbn [fst snd] in *.
  destruct (cleanup p w) as [r w1] eqn:Ec. cbn [fst snd] in *. by rewrite Hc.
Qed.

(** A plugin found by its object is found first by any of its names. *)
Lemma getPlugin_of_unique p t (h : @host W) :
  NoDup (map tuple_plugin h.1) -> t ∈ h.1 -> tuple_plugin t = p -> getPlugin_of p h = Some t.
Proof.
  unfold getPlugin_of. destruct h as [ts w]. cbn [fst]. intros Hnd Hin Hp.
  induction ts as [|x ts IH]; [set_solver|]. cbn [map] in Hnd.
  inversion Hnd as [|? ? Hx Hnd']; subst. cbn [find].
  apply elem_of_cons in Hin as [->|Hin]; [by rewrite Z.eqb_refl|].
  destruct (Z.eqb_spec (tuple_plugin x) (tuple_plugin t)) as [E|]; [|by apply IH].
  exfalso. apply Hx. rewrite E. rewrite list_elem_of_In. apply in_map.
  by rewrite <- list_elem_of_In.
Qed.
End unloading.

(** A world that logs what is called. *)
#[local] Instance log_world : PluginWorld (list bytes) := {
  getName := fun p => to_dec p;
  canonical := fun p w => Ret p;
  exists_ := fun p w => true;
  directory_iterator := fun p w => Ret [];
  path_extension := fun p => [];
  dlopen := fun p w => (Some 7%Z, w);
  dlclose := fun l w => w ++ [lit "close " ++ to_dec l];
  make_plugin := fun l w => (Some 9%Z, w);
  preinit := fun p w => (Ret tt, w);
  postinit := fun p w => (Ret tt, w);
  cleanup := fun p w => (Ret tt, w ++ [lit "clean " ++ to_dec p]);
}.

Lemma unloadPlugins_all_witness :
  unloadPlugins 2 ([(lit "a.so", 1%Z, 10%Z); (lit "b.so", 2%Z, 20%Z)], [])
  = (Ret tt, ([], [lit "clean 1"; lit "close 10"; lit "clean 2"; lit "close 20"])).
Proof.
  exact (unloadPlugins_all [(lit "a.so", 1%Z, 10%Z); (lit "b.so", 2%Z, 20%Z)] []  2
           (fun p w => eq_refl) (le_n 2)).
Defined.
