(* ===== verification/Client.v ===== *)
(** * HTTP clients and the WebSocket framing

    [src/http/Client.cpp] and [include/http/Client.h], with the fields of
    [include/net/GenericClient.h]: what a client does with the bytes it is
    handed, as lines of a request or as WebSocket frames.  The server behind
    the client is an interface, [ServerOps]. *)

From Stdlib Require Import ZArith Lia Ascii String.
From stdpp Require Import base tactics option list strings gmap.
From S2P Require Import Prelude Util Response Request.

(** The fields [maxRead] and [keepAlive] are kept with the request, which sets
    them; [session] is used by plugins only. *)
Record client := Client {
  c_id : Z;
  c_ip : bytes;
  c_lineMode : bool;
  c_maxLineSize : Z;
  c_awaitingWebSocketHeader : bool;
  c_lastFin : bool;
  c_webSocketMask : Z;
  c_maskOffset : Z;
  c_remainingBytesInPacket : Z;
  c_packet : bytes;
  c_leftoverMessage : bytes;
  c_request : request;
  c_isWebSocket : bool;
  c_webSocketPath : list bytes;
  c_maxWebSocketPacketLength : Z;
}.

Definition new_client (id : Z) (ip : bytes) : client :=
  Client id ip true 8192 true false 0 0 0 [] [] new_request false [] (Z.shiftl 1 24).

Definition set_lineMode (b : bool) (c : client) : client :=
  Client (c_id c) (c_ip c) b (c_maxLineSize c) (c_awaitingWebSocketHeader c) (c_lastFin c)
    (c_webSocketMask c) (c_maskOffset c) (c_remainingBytesInPacket c) (c_packet c)
    (c_leftoverMessage c) (c_request c) (c_isWebSocket c) (c_webSocketPath c)
    (c_maxWebSocketPacketLength c).
Definition set_request (q : request) (c : client) : client :=
  Client (c_id c) (c_ip c) (c_lineMode c) (c_maxLineSize c) (c_awaitingWebSocketHeader c)
    (c_lastFin c) (c_webSocketMask c) (c_maskOffset c) (c_remainingBytesInPacket c) (c_packet c)
    (c_leftoverMessage c) q (c_isWebSocket c) (c_webSocketPath c) (c_maxWebSocketPacketLength c).
Definition set_webSocket (path : list bytes) (c : client) : client :=
  Client (c_id c) (c_ip c) false (c_maxLineSize c) (c_awaitingWebSocketHeader c)
    (c_lastFin c) (c_webSocketMask c) (c_maskOffset c) (c_remainingBytesInPacket c) (c_packet c)
    (c_leftoverMessage c) (c_request c) true path (c_maxWebSocketPacketLength c).

(** The framing fields, which only [handleInput] touches. *)
Definition set_frame (awaiting fin : bool) (mask offset remaining : Z)
    (packet leftover : bytes) (c : client) : client :=
  Client (c_id c) (c_ip c) (c_lineMode c) (c_maxLineSize c) awaiting fin mask offset remaining
    packet leftover (c_request c) (c_isWebSocket c) (c_webSocketPath c)
    (c_maxWebSocketPacketLength c).
Definition set_leftover (s : bytes) (c : client) : client :=
  set_frame (c_awaitingWebSocketHeader c) (c_lastFin c) (c_webSocketMask c) (c_maskOffset c)
    (c_remainingBytesInPacket c) (c_packet c) s c.
Definition set_lastFin (b : bool) (c : client) : client :=
  set_frame (c_awaitingWebSocketHeader c) b (c_webSocketMask c) (c_maskOffset c)
    (c_remainingBytesInPacket c) (c_packet c) (c_leftoverMessage c) c.
Definition set_mask (m : Z) (c : client) : client :=
  set_frame (c_awaitingWebSocketHeader c) (c_lastFin c) m (c_maskOffset c)
    (c_remainingBytesInPacket c) (c_packet c) (c_leftoverMessage c) c.
Definition set_offset (o : Z) (c : client) : client :=
  set_frame (c_awaitingWebSocketHeader c) (c_lastFin c) (c_webSocketMask c) o
    (c_remainingBytesInPacket c) (c_packet c) (c_leftoverMessage c) c.
Definition set_remainingBytes (n : Z) (c : client) : client :=
  set_frame (c_awaitingWebSocketHeader c) (c_lastFin c) (c_webSocketMask c) (c_maskOffset c)
    n (c_packet c) (c_leftoverMessage c) c.
Definition set_packet (p : bytes) (c : client) : client :=
  set_frame (c_awaitingWebSocketHeader c) (c_lastFin c) (c_webSocketMask c) (c_maskOffset c)
    (c_remainingBytesInPacket c) p (c_leftoverMessage c) c.
Definition set_awaiting (b : bool) (c : client) : client :=
  set_frame b (c_lastFin c) (c_webSocketMask c) (c_maskOffset c)
    (c_remainingBytesInPacket c) (c_packet c) (c_leftoverMessage c) c.

(** ** The interface of the server *)

(** What [HTTP::Server] and the network server below it do for a client; [W]
    is their state. *)
Class ServerOps (W : Type) := {
  server_send : Z -> bytes -> M W ();
  server_close : Z -> M W bool;
  server_id : W -> bytes;
  option_postMax : W -> bytes -> outcome (option Z);
  server_handleGET : M (client * W) ();
  server_handlePOST : M (client * W) ();
  server_handleWebSocketMessage : bytes -> M (client * W) ();
  server_closeWebSocket : M (client * W) ();
}.

Section client.
Context {W : Type} `{SO : ServerOps W}.

Definition on_world {A} (m : M W A) : M (client * W) A := fun s =>
  let '(r, w) := m s.2 in (r, (s.1, w)).
Definition modify_client (f : client -> client) : M (client * W) () :=
  modify (fun s => (f s.1, s.2)).
Definition get_client : M (client * W) client := s ← get; mret s.1.

Definition send (message : bytes) : M (client * W) () :=
  c ← get_client; on_world (server_send (c_id c) message).

Definition send400 : M (client * W) () :=
  send (render (make_response 400 (lit "Invalid request"))).

Definition close : M (client * W) () :=
  c ← get_client;
  when (negb (q_keepAlive (c_request c)))
    (_ ← on_world (server_close (c_id c)); mret tt).

Definition removeSelf : M (client * W) () :=
  c ← get_client; _ ← on_world (server_close (c_id c)); mret tt.

Definition onMaxLineSizeExceeded : M (client * W) () :=
  send (render (make_response 413 (lit "Payload too large"))).

Definition getID (s : client * W) : bytes := server_id s.2 ++ lit ":" ++ to_dec (c_id s.1).

(** The byte of [n] above [shift] bits. *)
Definition byte_at (n shift : Z) : ascii := chr (Z.land (Z.shiftr n shift) 255).

(** The header [sendWebSocket] builds. *)
Definition webSocket_header (message_size : Z) (opcode : Z) : bytes :=
  chr (Z.lor 128 opcode) ::
  (if (message_size <=? 125)%Z then [chr message_size]
   else if (message_size <? 65536)%Z
   then [chr 126; byte_at message_size 8; byte_at message_size 0]
   else [chr 127; byte_at message_size 56; byte_at message_size 48; byte_at message_size 40;
         byte_at message_size 32; byte_at message_size 24; byte_at message_size 16;
         byte_at message_size 8; byte_at message_size 0]).

Definition sendWebSocket (message : bytes) (is_binary : bool) (opcode_override : Z)
    : M (client * W) () :=
  let opcode := if negb (opcode_override =? 255)%Z then opcode_override
                else if is_binary then 2%Z else 1%Z in
  send (webSocket_header (Z.of_nat (length message)) opcode) ;;
  send message.

Definition closeWebSocket : M (client * W) () :=
  sendWebSocket (lit "Error") false 8 ;; server_closeWebSocket.

(** ** Receiving frames *)

(** The loop that unmasks the bytes at hand, given as a list. *)
Fixpoint unmask (mask offset : Z) (s : bytes) : bytes * Z :=
  match s with
  | [] => ([], offset)
  | b :: r =>
    let x := chr (Z.lxor (code b) (Z.land (Z.shiftr mask (8 * (3 - offset))) 255)) in
    let '(t, o) := unmask mask ((offset + 1) mod 4) r in (x :: t, o)
  end.

Definition unmask_into_packet (s : bytes) : M (client * W) () :=
  modify_client (fun c =>
    let '(t, o) := unmask (c_webSocketMask c) (c_maskOffset c) s in
    set_offset o (set_packet (c_packet c ++ t) c)).

(** A big-endian integer. *)
Fixpoint big_endian (acc : Z) (s : bytes) : Z :=
  match s with [] => acc | b :: r => big_endian (acc * 256 + code b) r end.

(** [CHECKSIZE(n)] followed by [k]. *)
Definition check_size (n : nat) (message : bytes) (has_leftover : bool)
    (k : M (client * W) ()) : M (client * W) () :=
  if length message <? n then
    when (negb has_leftover) (modify_client (set_leftover message))
  else k.

(** What follows the header: [mask_index] is where the mask begins. *)
Definition handle_payload (message : bytes) (has_leftover fin : bool) (opcode : Z)
    (use_mask : bool) (payload_length : Z) (mask_index : nat) : M (client * W) () :=
  c ← get_client;
  if negb use_mask || (c_maxWebSocketPacketLength c <? payload_length)%Z then
    send400 ;; removeSelf
  else
    check_size (mask_index + 4) message has_leftover (
      let message_size := Z.of_nat (length message) in
      modify_client (set_mask (big_endian 0 (substr message mask_index 4))) ;;
      let payload_length_here :=
        Z.min payload_length (message_size - Z.of_nat mask_index - 4) in
      let remaining := (payload_length - payload_length_here)%Z in
      modify_client (fun c => set_offset 0 (set_remainingBytes remaining c)) ;;
      unmask_into_packet (substr message (mask_index + 4) (Z.to_nat payload_length_here)) ;;
      c ← get_client;
      if (opcode =? 9)%Z then
        if (payload_length <=? 125)%Z then sendWebSocket (c_packet c) true 10
        else closeWebSocket
      else
        let stop := (payload_length_here + Z.of_nat mask_index + 4)%Z in
        if (stop <? message_size)%Z then
          modify_client (fun c => set_leftover (drop (Z.to_nat stop) message)
                                    (set_awaiting true c)) ;;
          (if fin then
             modify_client (set_remainingBytes 0) ;;
             server_handleWebSocketMessage (c_packet c)
           else closeWebSocket) ;;
          modify_client (set_packet [])
        else
          (if (stop =? message_size)%Z && (remaining =? 0)%Z then
             modify_client (set_awaiting true) ;;
             (if fin then server_handleWebSocketMessage (c_packet c) else closeWebSocket) ;;
             modify_client (set_packet [])
           else modify_client (set_awaiting false)) ;;
          modify_client (set_leftover [])).

Definition handle_frame_header (message : bytes) (has_leftover : bool) : M (client * W) () :=
  check_size 2 message has_leftover (
    let byte1 := default 0%Z (code <$> message !! 0) in
    let fin := (Z.land (Z.shiftr byte1 7) 1 =? 1)%Z in
    modify_client (set_lastFin fin) ;;
    let opcode := Z.land byte1 15 in
    let byte2 := default 0%Z (code <$> message !! 1) in
    let use_mask := (Z.land (Z.shiftr byte2 7) 1 =? 1)%Z in
    let payload_length := Z.land byte2 127 in
    if (payload_length =? 126)%Z then
      check_size 4 message has_leftover
        (handle_payload message has_leftover fin opcode use_mask
           (big_endian 0 (substr message 2 2)) 4)
    else if (payload_length =? 127)%Z then
      check_size 10 message has_leftover
        (handle_payload message has_leftover fin opcode use_mask
           (big_endian 0 (substr message 2 8)) 10)
    else handle_payload message has_leftover fin opcode use_mask payload_length 2).

Definition handle_continuation (message : bytes) : M (client * W) () :=
  c ← get_client;
  let message_size := Z.of_nat (length message) in
  let payload_length_here := Z.min (c_remainingBytesInPacket c) message_size in
  unmask_into_packet (take (Z.to_nat payload_length_here) message) ;;
  (if (c_remainingBytesInPacket c <? message_size)%Z then
     modify_client (fun c => set_remainingBytes 0
                       (set_leftover (drop (Z.to_nat payload_length_here) message) c))
   else modify_client (fun c => set_remainingBytes
                          (c_remainingBytesInPacket c - payload_length_here) c)) ;;
  c ← get_client;
  when (c_remainingBytesInPacket c =? 0)%Z
    (modify_client (set_awaiting true) ;;
     when (c_lastFin c)
       (server_handleWebSocketMessage (c_packet c) ;;
        modify_client (set_packet []))).

Definition handle_webSocket_input (message_in : bytes) : M (client * W) () :=
  c ← get_client;
  let has_leftover := negb (bool_decide (c_leftoverMessage c = [])) in
  when has_leftover
    (modify_client (fun c => set_leftover (c_leftoverMessage c ++ message_in) c)) ;;
  let message := if has_leftover then c_leftoverMessage c ++ message_in else message_in in
  if c_awaitingWebSocketHeader c then handle_frame_header message has_leftover
  else handle_continuation message.

(** ** Receiving requests *)

Definition handleRequest : M (client * W) () :=
  c ← get_client;
  match q_method (c_request c) with
  | GET => server_handleGET
  | POST => server_handlePOST
  | m => throw (ParseError (lit "Invalid method: " ++ to_dec (method_int m)))
  end.

(** [request.handleLine], on the request in the client. *)
Definition request_handleLine (line : bytes) : M (client * W) HandleResult := fun s =>
  let '(r, q) := handleLine (option_postMax s.2) line (c_request s.1) in
  (r, (set_request q s.1, s.2)).

Definition handle_line_input (message_in : bytes) : M (client * W) () :=
  catch
    (result ← request_handleLine message_in;
     match result with
     | DisableLineMode => modify_client (set_lineMode false)
     | Done => handleRequest
     | Continue => mret tt
     end)
    (fun e => match e with UnsupportedMethod _ => Some (send400 ;; removeSelf) | _ => None end).

Definition handleInput (message_in : bytes) : M (client * W) () :=
  c ← get_client;
  if c_isWebSocket c then handle_webSocket_input message_in
  else handle_line_input message_in.

(** A sequence of reads. *)
Fixpoint handleInputs (messages : list bytes) : M (client * W) () :=
  match messages with
  | [] => mret tt
  | m :: rest => handleInput m ;; handleInputs rest
  end.
End client.

(** ** Reference frames *)

(** The [k] low bytes of [n], the highest one first. *)
Fixpoint be (k : nat) (n : Z) : bytes :=
  match k with O => [] | S k' => byte_at n (8 * Z.of_nat k') :: be k' n end.

(** The length field of a frame, with the value [mask_bit] of its mask bit. *)
Definition frame_length (mask_bit n : Z) : bytes :=
  if (n <=? 125)%Z then [chr (mask_bit + n)]
  else if (n <? 65536)%Z then chr (mask_bit + 126) :: be 2 n
  else chr (mask_bit + 127) :: be 8 n.

(** RFC 6455, 5.3: byte [i] of the payload is combined with byte [i mod 4] of
    the key. *)
Definition rfc_mask (key payload : bytes) : bytes :=
  imap (fun i b => chr (Z.lxor (code b) (code (nth (i mod 4) key "000"%char)))) payload.

(** A frame as a client sends it: final, with the payload masked. *)
Definition client_frame (opcode mask : Z) (payload : bytes) : bytes :=
  chr (128 + opcode) :: frame_length 128 (Z.of_nat (length payload))
  ++ be 4 mask ++ rfc_mask (be 4 mask) payload.

(** The reader of RFC 6455 for frames without a mask, as a client runs it. *)
Definition parse_frame (s : bytes) : option (bool * Z * bytes * bytes) :=
  match s with
  | b1 :: b2 :: r =>
    let fin := (128 <=? code b1)%Z in
    let opcode := (code b1 mod 16)%Z in
    let '(n, k) := if (code b2 =? 126)%Z then (big_endian 0 (take 2 r), 2)
                   else if (code b2 =? 127)%Z then (big_endian 0 (take 8 r), 8)
                   else (code b2, 0) in
    if ((code b2 <? 128) && (n <=? Z.of_nat (length (drop k r))))%Z
    then Some (fin, opcode, take (Z.to_nat n) (drop k r), drop (Z.to_nat n) (drop k r))
    else None
  | _ => None
  end.

Lemma mask_byte m o : o < 4 ->
  code (nth o (be 4 m) "000"%char) = Z.land (Z.shiftr m (8 * (3 - Z.of_nat o))) 255.
Proof.
  intros Ho. assert (Hb : forall s, code (byte_at m s) = Z.land (Z.shiftr m s) 255).
  { intros s. unfold byte_at. rewrite code_chr, Z.mod_small; [done|].
    change 255%Z with (Z.ones 8). rewrite Z.land_ones by lia. apply Z.mod_pos_bound. lia. }
  destruct o as [|[|[|[|o]]]]; [apply Hb..|lia].
Qed.

(** The loop masks as the standard says. *)
Lemma unmask_from k m s :
  (unmask m (Z.of_nat (k mod 4)) s).1 =
  imap (fun i b => chr (Z.lxor (code b) (code (nth ((k + i) mod 4) (be 4 m) "000"%char)))) s.
Proof.
  revert k. induction s as [|b s IH]; intros k; [done|]. cbn [unmask imap].
  specialize (IH (S k)).
  replace (Z.of_nat (S k mod 4)) with ((Z.of_nat (k mod 4) + 1) mod 4)%Z in IH
    by (rewrite !Nat2Z.inj_mod, Zplus_mod_idemp_l; f_equal; lia).
  destruct (unmask m ((Z.of_nat (k mod 4) + 1) mod 4) s) as [t o]. cbn [fst] in *.
  rewrite IH, Nat.add_0_r, mask_byte by (apply Nat.mod_upper_bound; lia). f_equal.
  apply imap_ext. intros i x _. cbn. by rewrite Nat.add_succ_r.
Qed.

Lemma unmask_rfc m s : (unmask m 0 s).1 = rfc_mask (be 4 m) s.
Proof. exact (unmask_from 0 m s). Qed.

Lemma client_frame_unmask opcode mask payload :
  client_frame opcode mask payload =
  chr (128 + opcode) :: frame_length 128 (Z.of_nat (length payload))
  ++ be 4 mask ++ (unmask mask 0 payload).1.
Proof. unfold client_frame. by rewrite unmask_rfc. Qed.

Lemma code_byte_at n s : (0 <= s)%Z -> code (byte_at n s) = ((n / 2 ^ s) mod 256)%Z.
Proof.
  intros Hs. unfold byte_at. rewrite code_chr, Z.shiftr_div_pow2 by done.
  change 255%Z with (Z.ones 8). rewrite Z.land_ones by lia. apply Zmod_mod.
Qed.

Lemma length_be k n : length (be k n) = k.
Proof. induction k; simpl; auto. Qed.

Lemma big_endian_app acc a b : big_endian acc (a ++ b) = big_endian (big_endian acc a) b.
Proof. revert acc. induction a as [|x a IH]; intros acc; simpl; auto. Qed.

Lemma big_endian_be k n acc :
  big_endian acc (be k n) = (acc * 256 ^ Z.of_nat k + n mod 256 ^ Z.of_nat k)%Z.
Proof.
  revert acc. induction k as [|k IH]; intros acc.
  - simpl. rewrite Z.mod_1_r. lia.
  - cbn [be big_endian]. rewrite IH, code_byte_at by lia.
    rewrite Nat2Z.inj_succ, Z.pow_succ_r by lia. rewrite (Z.mul_comm 256).
    rewrite Z.rem_mul_r by lia.
    replace (2 ^ (8 * Z.of_nat k))%Z with (256 ^ Z.of_nat k)%Z
      by (change 256%Z with (2 ^ 8)%Z; rewrite <- Z.pow_mul_r by lia; f_equal; lia).
    lia.
Qed.

Lemma big_endian_be_small k n :
  (0 <= n < 256 ^ Z.of_nat k)%Z -> big_endian 0 (be k n) = n.
Proof. intros H. rewrite big_endian_be, Z.mod_small by done. lia. Qed.

(** ** Theorems: sending *)

(** What the client is sent, for a client that is connected. *)
Class SendLog (W : Type) `{ServerOps W} := {
  connected : Z -> W -> Prop;
  sent : Z -> W -> bytes;
  send_logged (id : Z) (b : bytes) (w : W) : connected id w -> exists w',
    server_send id b w = (Ret tt, w') /\ connected id w' /\ sent id w' = sent id w ++ b;
}.

(** A fact about small numbers, checked on the bytes. *)
Lemma byte_value_forall (P : Z -> bool) :
  forallb (fun c => P (code c)) all_bytes = true -> forall n, (0 <= n < 256)%Z -> P n = true.
Proof.
  intros H n Hn. pose proof (byte_forall (fun c => P (code c)) H (chr n)) as Hc.
  cbn beta in Hc. by rewrite code_chr, Z.mod_small in Hc by lia.
Qed.

Lemma lor_128 n : (0 <= n < 128)%Z -> Z.lor 128 n = (128 + n)%Z.
Proof.
  intros H.
  assert (Hb : ((128 <=? n) || (Z.lor 128 n =? 128 + n))%Z = true).
  { apply (byte_value_forall (fun n => ((128 <=? n) || (Z.lor 128 n =? 128 + n))%Z));
      [vm_compute; reflexivity|lia]. }
  rewrite orb_true_iff, Z.leb_le, Z.eqb_eq in Hb. lia.
Qed.

Lemma webSocket_header_reference n opcode :
  (0 <= opcode < 128)%Z -> webSocket_header n opcode = chr (128 + opcode) :: frame_length 0 n.
Proof. intros Ho. unfold webSocket_header. by rewrite lor_128. Qed.

Lemma code_chr_small z : (0 <= z < 256)%Z -> code (chr z) = z.
Proof. intros H. by rewrite code_chr, Z.mod_small. Qed.

Lemma take_drop_app_length {A} (a b : list A) : take (length a) (a ++ b) = a /\ drop (length a) (a ++ b) = b.
Proof. by rewrite take_app_length, drop_app_length. Qed.

Lemma parse_frame_header n opcode s :
  (0 <= opcode < 16)%Z -> Z.of_nat (length s) = n -> (n < W64)%Z ->
  forall rest, parse_frame (webSocket_header n opcode ++ s ++ rest) = Some (true, opcode, s, rest).
Proof.
  intros Ho Hn HW rest. rewrite webSocket_header_reference by lia.
  assert (Hend : forall r, r = s ++ rest -> (n <=? Z.of_nat (length r))%Z = true /\
            take (Z.to_nat n) r = s /\ drop (Z.to_nat n) r = rest).
  { intros r ->. rewrite length_app, <- Hn, Nat2Z.id.
    destruct (take_drop_app_length s rest) as [-> ->]. split; [|done]. apply Z.leb_le. lia. }
  assert (Hb : forall k, (0 <= n < 256 ^ Z.of_nat k)%Z ->
            big_endian 0 (take k (be k n ++ s ++ rest)) = n /\
            drop k (be k n ++ s ++ rest) = s ++ rest).
  { intros k Hk. rewrite <- (length_be k n) at 1 3.
    destruct (take_drop_app_length (be k n) (s ++ rest)) as [-> ->].
    by rewrite big_endian_be_small. }
  assert (Hfin : (128 <=? code (chr (128 + opcode)))%Z = true)
    by (rewrite code_chr_small by lia; apply Z.leb_le; lia).
  assert (Hop : (code (chr (128 + opcode)) mod 16 = opcode)%Z).
  { rewrite code_chr_small by lia. change (128 + opcode)%Z with (8 * 16 + opcode)%Z.
    rewrite Z.add_comm, Z.mod_add by lia. by apply Z.mod_small. }
  unfold frame_length. destruct (Z.leb_spec n 125); [|destruct (Z.ltb_spec n 65536)];
    cbn [app]; unfold parse_frame; cbv zeta; rewrite Hfin, Hop.
  - rewrite code_chr_small by lia. rewrite Z.add_0_l.
    destruct (Z.eqb_spec n 126); [lia|]. destruct (Z.eqb_spec n 127); [lia|].
    destruct (Hend _ (eq_refl (s ++ rest))) as (H1 & H2 & H3).
    change (drop 0 (s ++ rest)) with (s ++ rest). rewrite H1, H2, H3.
    destruct (Z.ltb_spec n 128); [done|lia].
  - change (code (chr (0 + 126)) =? 126)%Z with true.
    change (code (chr (0 + 126)) <? 128)%Z with true. cbv iota.
    destruct (Hb 2 ltac:(simpl; lia)) as [-> ->].
    by destruct (Hend _ (eq_refl (s ++ rest))) as (-> & -> & ->).
  - change (code (chr (0 + 127)) =? 126)%Z with false.
    change (code (chr (0 + 127)) =? 127)%Z with true.
    change (code (chr (0 + 127)) <? 128)%Z with true. cbv iota.
    destruct (Hb 8 ltac:(change (256 ^ Z.of_nat 8)%Z with W64; lia)) as [-> ->].
    by destruct (Hend _ (eq_refl (s ++ rest))) as (-> & -> & ->).
Qed.

Lemma sendWebSocket_sends {W : Type} `{SO : ServerOps W} `{SL : !SendLog W}
    (message : bytes) (is_binary : bool) (opcode_override : Z) (c : client) (w : W) :
  let opcode := if negb (opcode_override =? 255)%Z then opcode_override
                else if is_binary then 2%Z else 1%Z in
  (0 <= opcode < 16)%Z -> (Z.of_nat (length message) < W64)%Z -> connected (c_id c) w ->
  exists w' frame,
    sendWebSocket message is_binary opcode_override (c, w) = (Ret tt, (c, w')) /\
    sent (c_id c) w' = sent (c_id c) w ++ frame /\
    forall rest, parse_frame (frame ++ rest) = Some (true, opcode, message, rest).
Proof.
  intros opcode Ho Hlen Hc.
  set (header := webSocket_header (Z.of_nat (length message)) opcode).
  destruct (send_logged (c_id c) header w Hc) as (w1 & E1 & Hc1 & S1).
  destruct (send_logged (c_id c) message w1 Hc1) as (w2 & E2 & Hc2 & S2).
  exists w2, (header ++ message). split; [|split].
  - unfold sendWebSocket, send, get_client, on_world. fold opcode. fold header.
    mrun. cbn [fst snd]. rewrite E1. cbn [fst snd]. by rewrite E2.
  - by rewrite S2, S1, <- app_assoc.
  - intros rest. rewrite <- app_assoc. by apply parse_frame_header.
Qed.

(** C22: what [sendWebSocket] writes is one final, unmasked frame whose opcode
    and payload a reader of RFC 6455 recovers, for every length of the payload
    and whatever is sent behind it. *)
Theorem sendWebSocket_frame {W : Type} `{SO : ServerOps W} `{SL : !SendLog W}
    (message : bytes) (is_binary : bool) (opcode_override : Z) (c : client) (w : W) :
  let opcode := if negb (opcode_override =? 255)%Z then opcode_override
                else if is_binary then 2%Z else 1%Z in
  (0 <= opcode < 16)%Z -> (Z.of_nat (length message) < W64)%Z -> connected (c_id c) w ->
  exists w' frame,
    sendWebSocket message is_binary opcode_override (c, w) = (Ret tt, (c, w')) /\
    sent (c_id c) w' = sent (c_id c) w ++ frame /\
    forall rest, parse_frame (frame ++ rest) = Some (true, opcode, message, rest).
Proof. exact (sendWebSocket_sends message is_binary opcode_override c w). Qed.

(** A server that logs what is sent and hands over every message. *)
#[export] Instance log_ops : ServerOps (list bytes) := {
  server_send := fun _ b w => (Ret tt, w ++ [b]);
  server_close := fun _ w => (Ret true, w ++ [lit "close"]);
  server_id := fun _ => lit "server";
  option_postMax := fun _ _ => Ret None;
  server_handleGET := modify (fun s : client * list bytes => (s.1, s.2 ++ [lit "GET " ++ q_path (c_request s.1)]));
  server_handlePOST := modify (fun s : client * list bytes => (s.1, s.2 ++ [lit "POST " ++ q_path (c_request s.1)]));
  server_handleWebSocketMessage := fun m => modify (fun s : client * list bytes => (s.1, s.2 ++ [lit "message " ++ m]));
  server_closeWebSocket := modify (fun s : client * list bytes => (s.1, s.2 ++ [lit "close"]));
}.

Lemma log_send_logged (id : Z) (b : bytes) (w : list bytes) :
  True -> exists w', server_send id b w = (Ret tt, w') /\ True /\ concat w' = concat w ++ b.
Proof.
  intros _. exists (w ++ [b]). split; [done|]. split; [done|].
  rewrite concat_app. cbn [concat]. by rewrite app_nil_r.
Qed.

#[export] Instance log_sent : SendLog (list bytes) := {|
  connected := fun _ _ => True;
  sent := fun _ w => concat w;
  send_logged := log_send_logged
|}.

Lemma sendWebSocket_frame_witness :
  exists w' frame,
    sendWebSocket (lit "hi") false 255 (new_client 1 [], []) = (Ret tt, (new_client 1 [], w')) /\
    concat w' = frame /\
    forall rest, parse_frame (frame ++ rest) = Some (true, 1%Z, lit "hi", rest).
Proof.
  exact (sendWebSocket_frame (lit "hi") false 255 (new_client 1 []) []
           ltac:(vm_compute; split; [discriminate|reflexivity]) eq_refl I).
Defined.

(** ** Theorems: unmasking *)

Lemma xor_byte c d : chr (Z.lxor (code (chr (Z.lxor (code c) (code d)))) (code d)) = c.
Proof.
  apply Ascii.eqb_eq. revert c d.
  apply (byte_forall2 (fun c d =>
    Ascii.eqb (chr (Z.lxor (code (chr (Z.lxor (code c) (code d)))) (code d))) c)).
  vm_compute. reflexivity.
Qed.

Lemma xor_land x b : chr (Z.lxor (code (chr (Z.lxor (code b) (Z.land x 255)))) (Z.land x 255)) = b.
Proof.
  assert (Z.land x 255 = code (chr x)) as ->.
  { rewrite code_chr. change 255%Z with (Z.ones 8). by rewrite Z.land_ones by lia. }
  apply xor_byte.
Qed.

Lemma unmask_length m o s : length (unmask m o s).1 = length s.
Proof.
  revert o. induction s as [|b s IH]; intros o; [done|]. cbn [unmask].
  specialize (IH ((o + 1) mod 4)%Z). destruct (unmask m ((o + 1) mod 4) s). simpl in *. auto.
Qed.

Lemma unmask_involutive m o s : (unmask m o (unmask m o s).1).1 = s.
Proof.
  revert o. induction s as [|b s IH]; intros o; [done|]. cbn [unmask].
  specialize (IH ((o + 1) mod 4)%Z). destruct (unmask m ((o + 1) mod 4) s) as [t o'] eqn:E.
  cbn [fst unmask] in *. destruct (unmask m ((o + 1) mod 4) t) as [t' o''].
  cbn [fst] in *. by rewrite IH, xor_land.
Qed.

Lemma unmask_offset m o s :
  (0 <= o < 4)%Z -> (unmask m o s).2 = ((o + Z.of_nat (length s)) mod 4)%Z.
Proof.
  revert o. induction s as [|b s IH]; intros o Ho; cbn [unmask].
  - simpl. rewrite Z.add_0_r, Z.mod_small; lia.
  - specialize (IH ((o + 1) mod 4)%Z ltac:(apply Z.mod_pos_bound; lia)).
    destruct (unmask m ((o + 1) mod 4) s) as [t o']. cbn [snd] in *.
    rewrite IH, Zplus_mod_idemp_l. f_equal. simpl length. lia.
Qed.

Lemma unmask_app m o a b :
  unmask m o (a ++ b) =
  ((unmask m o a).1 ++ (unmask m (unmask m o a).2 b).1, (unmask m (unmask m o a).2 b).2).
Proof.
  revert o. induction a as [|x a IH]; intros o; cbn [unmask app].
  - cbn [fst snd app]. by destruct (unmask m o b).
  - rewrite IH. destruct (unmask m ((o + 1) mod 4) a). cbn [fst snd app].
    by destruct (unmask m _ b).
Qed.

(** A piece of a masked payload is unmasked to the same piece of it. *)
Lemma unmask_piece m p i j :
  i + j <= length p ->
  unmask m (Z.of_nat i mod 4) (substr (unmask m 0 p).1 i j)
  = (substr p i j, (Z.of_nat (i + j) mod 4)%Z).
Proof.
  intros H. unfold substr.
  pose proof (unmask_involutive m 0 p) as Hinv.
  pose proof (unmask_length m 0 p) as Hlen. set (q := (unmask m 0 p).1) in *.
  assert (Hq : q = take i q ++ take j (drop i q) ++ drop j (drop i q))
    by (by rewrite !take_drop).
  assert (Hti : length (take i q) = i) by (rewrite length_take; lia).
  assert (Htj : length (take j (drop i q)) = j) by (rewrite length_take, length_drop; lia).
  pose proof (unmask_offset m 0 (take i q) ltac:(lia)) as Ho. rewrite Hti, Z.add_0_l in Ho.
  pose proof (unmask_offset m (Z.of_nat i mod 4) (take j (drop i q))
                ltac:(apply Z.mod_pos_bound; lia)) as Ho2.
  rewrite Htj, Zplus_mod_idemp_l, <- Nat2Z.inj_add in Ho2.
  pose proof (unmask_length m 0 (take i q)) as L1. rewrite Hti in L1.
  pose proof (unmask_length m (Z.of_nat i mod 4) (take j (drop i q))) as L2. rewrite Htj in L2.
  rewrite Hq, unmask_app, Ho, unmask_app, Ho2 in Hinv. cbn [fst snd] in Hinv.
  destruct (unmask m (Z.of_nat i mod 4) (take j (drop i q))) as [t o]. cbn [fst snd] in *.
  subst o. f_equal. rewrite <- Hinv.
  rewrite drop_app_length' by lia. by rewrite take_app_length' by lia.
Qed.

(** ** Theorems: receiving *)

(** The server cannot see the framing fields, which are private. *)
Class FrameOblivious (W : Type) `{ServerOps W} := {
  oblivious (msg : bytes) a f k o r p l c (w : W) :
    server_handleWebSocketMessage msg (set_frame a f k o r p l c, w) =
    let '(x, (c', w')) := server_handleWebSocketMessage msg (c, w) in
    (x, (set_frame a f k o r p l c', w'));
}.

Lemma substr_take {s : bytes} {i a b} :
  a + b <= i -> substr (take i s) a b = substr s a b.
Proof.
  intros H. unfold substr. rewrite skipn_firstn_comm, take_take. f_equal. lia.
Qed.

Lemma bits_128 n : (0 <= n < 128)%Z ->
  (Z.land (Z.shiftr (128 + n) 7) 1 =? 1)%Z = true /\ Z.land (128 + n) 127 = n.
Proof.
  intros H.
  assert (Hb : ((128 <=? n) || ((Z.land (Z.shiftr (128 + n) 7) 1 =? 1)
                               && (Z.land (128 + n) 127 =? n)))%Z = true).
  { apply (byte_value_forall (fun n => ((128 <=? n) || ((Z.land (Z.shiftr (128 + n) 7) 1 =? 1)
                               && (Z.land (128 + n) 127 =? n)))%Z)); [vm_compute; reflexivity|lia]. }
  rewrite orb_true_iff, Z.leb_le, andb_true_iff, (Z.eqb_eq (Z.land _ 127)) in Hb.
  destruct Hb as [Hb|Hb]; [lia|exact Hb].
Qed.

Lemma low_nibble n : (0 <= n < 16)%Z -> Z.land (128 + n) 15 = n.
Proof.
  intros H. change 15%Z with (Z.ones 4). rewrite Z.land_ones by lia.
  change (128 + n)%Z with (8 * 2 ^ 4 + n)%Z. rewrite Z.add_comm, Z.mod_add by lia.
  by apply Z.mod_small.
Qed.

Section receive.
Context {W : Type} `{SO : ServerOps W}.
Variables (opcode mask : Z) (p pk : bytes) (c0 : client).
Hypothesis Hop : (0 <= opcode < 16)%Z.
Hypothesis Hdata : opcode <> 9%Z.
Hypothesis Hmask : (0 <= mask < 2 ^ 32)%Z.
Hypothesis Hlen : (Z.of_nat (length p) <= c_maxWebSocketPacketLength c0)%Z.
Hypothesis HW : (Z.of_nat (length p) < W64)%Z.
Hypothesis Hidle : c_awaitingWebSocketHeader c0 = true /\ c_leftoverMessage c0 = [] /\
  c_packet c0 = pk /\ c_isWebSocket c0 = true.

Let n : Z := Z.of_nat (length p).
Let F : bytes := client_frame opcode mask p.
Let mi : nat := 1 + length (frame_length 128 n).
Let masked : bytes := (unmask mask 0 p).1.

Definition keep_message (has_leftover : bool) (msg : bytes) (c : client) : client :=
  if has_leftover then c else set_leftover msg c.

Lemma length_frame : length F = mi + 4 + length p.
Proof.
  unfold F. rewrite client_frame_unmask. cbn [length]. rewrite !length_app, length_be, unmask_length.
  fold n. unfold mi. lia.
Qed.

Lemma payload_short msg lo c w :
  length msg < mi + 4 -> c_maxWebSocketPacketLength c = c_maxWebSocketPacketLength c0 ->
  handle_payload msg lo true opcode true n mi (c, w) = (Ret tt, (keep_message lo msg c, w)).
Proof.
  intros Hj Hc. unfold handle_payload, get_client. mrun. cbn [negb orb fst snd]. rewrite Hc.
  destruct (Z.ltb_spec (c_maxWebSocketPacketLength c0) n); [unfold n in *; lia|].
  unfold check_size. rewrite (proj2 (Nat.ltb_lt _ _) Hj). by destruct lo.
Qed.

(** The fields of the frame's header, as far as they have arrived. *)
Lemma header_step j lo c w :
  j <= length F -> c_maxWebSocketPacketLength c = c_maxWebSocketPacketLength c0 ->
  (j < mi + 4 -> exists b,
     handle_frame_header (take j F) lo (c, w)
     = (Ret tt, (keep_message lo (take j F) (set_lastFin b c), w))) /\
  (mi + 4 <= j ->
     handle_frame_header (take j F) lo (c, w)
     = handle_payload (take j F) lo true opcode true n mi (set_lastFin true c, w)).
Proof.
  intros Hj Hc.
  assert (Hl : length (take j F) = j) by (rewrite length_take; lia).
  destruct (decide (j < 2)) as [H2|H2].
  { split; [|unfold mi; lia]. intros _. exists (c_lastFin c).
    unfold handle_frame_header, check_size. rewrite Hl, (proj2 (Nat.ltb_lt _ _) H2).
    by destruct lo, c. }
  assert (Hshort : forall c', c_maxWebSocketPacketLength c' = c_maxWebSocketPacketLength c0 ->
            j < mi + 4 -> handle_payload (take j F) lo true opcode true n mi (c', w)
            = (Ret tt, (keep_message lo (take j F) c', w)))
    by (intros; apply payload_short; [lia|done]).
  unfold handle_frame_header.
  assert (Hcs : forall k : M (client * W) (), check_size 2 (take j F) lo k = k)
    by (intros; unfold check_size; by rewrite Hl, (proj2 (Nat.ltb_ge j 2)) by lia).
  rewrite !Hcs.
  assert (Hb1 : take j F !! 0 = Some (chr (128 + opcode))) by (rewrite lookup_take_lt by lia; done).
  assert (Hb2 : take j F !! 1 = (frame_length 128 n ++ be 4 mask ++ masked) !! 0)
    by (unfold F; rewrite client_frame_unmask, lookup_take_lt by lia; done).
  rewrite Hb1, Hb2. cbn [fmap option_fmap option_map default from_option id].
  rewrite code_chr_small by lia.
  destruct (bits_128 opcode ltac:(lia)) as [-> _].
  rewrite (low_nibble opcode) by lia. unfold modify_client. mrun. cbn [fst snd].
  assert (Hsub : forall k, 2 + k <= j -> substr (take j F) 2 k
            = take k (drop 1 (frame_length 128 n ++ be 4 mask ++ masked)))
    by (intros k Hk; rewrite substr_take by lia; unfold F; by rewrite client_frame_unmask).
  unfold mi in *. unfold frame_length in *. destruct (Z.leb_spec n 125); [|destruct (Z.ltb_spec n 65536)];
    cbn [app lookup list_lookup fmap option_fmap option_map default from_option id length drop] in *.
  - rewrite code_chr_small by lia. destruct (bits_128 n ltac:(lia)) as [-> ->].
    destruct (Z.eqb_spec n 126); [lia|]. destruct (Z.eqb_spec n 127); [lia|].
    split; [intros; exists true; by apply Hshort|done].
  - change (Z.land (Z.shiftr (code (chr (128 + 126))) 7) 1 =? 1)%Z with true.
    change (Z.land (code (chr (128 + 126))) 127 =? 126)%Z with true. cbv iota.
    unfold check_size. rewrite Hl. destruct (Nat.ltb_spec j 4) as [H4|H4].
    + split; [|simpl; lia]. intros _. exists true. by destruct lo.
    + rewrite Hsub by lia.
      change (take 2 _) with (be 2 n).
      rewrite big_endian_be_small by (simpl; lia).
      split; [intros; exists true; by apply Hshort|done].
  - change (Z.land (Z.shiftr (code (chr (128 + 127))) 7) 1 =? 1)%Z with true.
    change (Z.land (code (chr (128 + 127))) 127 =? 126)%Z with false.
    change (Z.land (code (chr (128 + 127))) 127 =? 127)%Z with true. cbv iota.
    unfold check_size. rewrite Hl. destruct (Nat.ltb_spec j 10) as [H10|H10].
    + split; [|simpl; lia]. intros _. exists true. by destruct lo.
    + rewrite Hsub by lia.
      change (take 8 _) with (be 8 n).
      rewrite big_endian_be_small by (change (256 ^ Z.of_nat 8)%Z with W64; unfold n; lia).
      split; [intros; exists true; by apply Hshort|done].
Qed.

Lemma frame_mask j : mi + 4 <= j -> big_endian 0 (substr (take j F) mi 4) = mask.
Proof.
  intros Hj. rewrite substr_take by lia.
  assert (substr F mi 4 = be 4 mask) as ->.
  { unfold substr, F. rewrite client_frame_unmask. fold n. rewrite app_comm_cons.
    change (chr (128 + opcode) :: frame_length 128 n)
      with ([chr (128 + opcode)] ++ frame_length 128 n).
    rewrite drop_app_length' by (unfold mi; done). by rewrite take_app_length' by (by rewrite length_be). }
  apply big_endian_be_small. exact Hmask.
Qed.

Lemma frame_payload j k :
  mi + 4 + k <= j -> substr (take j F) (mi + 4) k = substr masked 0 k.
Proof.
  intros Hj. rewrite substr_take by lia. unfold substr, F. rewrite client_frame_unmask. fold n masked.
  change (chr (128 + opcode) :: frame_length 128 n ++ be 4 mask ++ masked)
    with (([chr (128 + opcode)] ++ frame_length 128 n) ++ be 4 mask ++ masked).
  rewrite (app_assoc _ (be 4 mask)), drop_app_length'; [done|].
  rewrite !length_app, length_be. unfold mi. simpl. lia.
Qed.

Context `{FO : !FrameOblivious W}.

(** The state while the payload arrives, [k] bytes of it being there. *)
Definition in_payload (k : nat) : client :=
  set_frame false true mask (Z.of_nat k mod 4) (n - Z.of_nat k) (pk ++ take k p) [] c0.

(** The state once the message has been delivered. *)
Definition delivered (c : client) : client := set_frame true true mask (n mod 4) 0 [] [] c.

Lemma payload_arrives j lo am ao ar l w :
  mi + 4 <= j -> j < length F ->
  handle_payload (take j F) lo true opcode true n mi (set_frame true true am ao ar pk l c0, w)
  = (Ret tt, (in_payload (j - mi - 4), w)).
Proof.
  intros Hj Hlt. pose proof length_frame as HF.
  assert (Hl : length (take j F) = j) by (rewrite length_take; lia).
  unfold handle_payload, get_client. mrun. cbn [negb orb fst snd set_frame c_maxWebSocketPacketLength].
  destruct (Z.ltb_spec (c_maxWebSocketPacketLength c0) n); [unfold n in *; lia|].
  unfold check_size. rewrite Hl, (proj2 (Nat.ltb_ge j (mi + 4)) Hj).
  rewrite frame_mask by done. set (k := j - mi - 4).
  assert (Z.min n (Z.of_nat j - Z.of_nat mi - 4) = Z.of_nat k) as -> by (unfold n, k; lia).
  unfold unmask_into_packet, modify_client. mrun. cbn [fst snd]. rewrite Nat2Z.id.
  rewrite frame_payload by (unfold k; lia).
  cbn [c_webSocketMask c_maskOffset c_packet set_frame set_mask set_offset set_remainingBytes].
  pose proof (unmask_piece mask p 0 k ltac:(unfold k; lia)) as Hu.
  change (Z.of_nat 0 mod 4)%Z with 0%Z in Hu. unfold masked. rewrite Hu. cbn [fst snd].
  destruct (Z.eqb_spec opcode 9); [done|].
  assert ((Z.of_nat k + Z.of_nat mi + 4 <? Z.of_nat j)%Z = false) as ->
    by (apply Z.ltb_ge; unfold k; lia).
  assert ((n - Z.of_nat k =? 0)%Z = false) as -> by (apply Z.eqb_neq; unfold n, k; lia).
  rewrite andb_false_r. reflexivity.
Qed.

Lemma payload_complete lo am ao ar l w c1 w1 :
  server_handleWebSocketMessage (pk ++ p) (c0, w) = (Ret tt, (c1, w1)) ->
  handle_payload F lo true opcode true n mi (set_frame true true am ao ar pk l c0, w)
  = (Ret tt, (delivered c1, w1)).
Proof.
  intros Hh. pose proof length_frame as HF.
  assert (HFt : take (length F) F = F) by apply take_ge, le_n.
  assert (Hmk : big_endian 0 (substr F mi 4) = mask)
    by (rewrite <- HFt; apply frame_mask; lia).
  assert (Hpl : substr F (mi + 4) (length p) = substr masked 0 (length p))
    by (rewrite <- HFt at 1; apply frame_payload; lia).
  unfold handle_payload, get_client. mrun. cbn [negb orb fst snd set_frame c_maxWebSocketPacketLength].
  destruct (Z.ltb_spec (c_maxWebSocketPacketLength c0) n); [unfold n in *; lia|].
  unfold check_size. rewrite (proj2 (Nat.ltb_ge (length F) (mi + 4))) by lia.
  rewrite Hmk.
  assert (Z.min n (Z.of_nat (length F) - Z.of_nat mi - 4) = Z.of_nat (length p)) as ->
    by (unfold n; lia).
  unfold unmask_into_packet, modify_client. mrun. cbn [fst snd]. rewrite Nat2Z.id.
  rewrite Hpl.
  cbn [c_webSocketMask c_maskOffset c_packet set_frame set_mask set_offset set_remainingBytes].
  pose proof (unmask_piece mask p 0 (length p) ltac:(lia)) as Hu.
  change (Z.of_nat 0 mod 4)%Z with 0%Z in Hu. unfold masked. rewrite Hu. cbn [fst snd].
  assert (substr p 0 (length p) = p) as -> by apply take_ge, le_n.
  destruct (Z.eqb_spec opcode 9); [done|].
  assert ((Z.of_nat (length p) + Z.of_nat mi + 4 <? Z.of_nat (length F))%Z = false) as ->
    by (apply Z.ltb_ge; lia).
  assert ((Z.of_nat (length p) + Z.of_nat mi + 4 =? Z.of_nat (length F))%Z = true) as ->
    by (apply Z.eqb_eq; lia).
  assert ((n - Z.of_nat (length p) =? 0)%Z = true) as -> by (apply Z.eqb_eq; unfold n; lia).
  cbn [andb set_packet set_offset set_awaiting set_remainingBytes set_mask set_frame c_packet fst snd].
  match goal with |- context [server_handleWebSocketMessage _ (?c, w)] =>
    change c with (set_frame true true mask (Z.of_nat (0 + length p) mod 4) (n - Z.of_nat (length p))
                     (pk ++ p) l c0) end.
  rewrite oblivious, Hh. cbn [fst snd]. unfold delivered, set_packet, set_leftover, set_frame, n.
  cbn [c_awaitingWebSocketHeader c_lastFin c_webSocketMask c_maskOffset
       c_remainingBytesInPacket c_packet c_leftoverMessage].
  by rewrite Z.sub_diag.
Qed.

(** The state after [j] bytes of the frame. *)
Definition progress (j : nat) (c : client) : Prop :=
  (j < mi + 4 /\ exists b, c = set_leftover (take j F) (set_lastFin b c0)) \/
  (mi + 4 <= j < length F /\ c = in_payload (j - mi - 4)).

Lemma progress_start : 0 < length F -> progress 0 c0.
Proof.
  intros _. left. split; [unfold mi; lia|]. exists (c_lastFin c0).
  destruct Hidle as (_ & Hl & _ & _). change (take 0 F) with ([] : bytes). rewrite <- Hl.
  by destruct c0.
Qed.

Lemma set_leftover_self c : set_leftover (c_leftoverMessage c) c = c.
Proof. by destruct c. Qed.

(** What an idle client makes of the bytes it has: those kept and the new ones. *)
Lemma input_header j d b w :
  j < mi + 4 -> d <> [] -> take (length d) (drop j F) = d -> j + length d <= length F ->
  handleInput d (set_leftover (take j F) (set_lastFin b c0), w) =
  handle_frame_header (take (j + length d) F) (negb (bool_decide (take j F = [])))
    (if bool_decide (take j F = []) then set_leftover [] (set_lastFin b c0)
     else set_leftover (take (j + length d) F) (set_lastFin b c0), w).
Proof.
  intros Hj Hd Htake Hle. destruct Hidle as (Ha & _ & _ & Hws).
  assert (Hcat : take j F ++ d = take (j + length d) F).
  { rewrite <- take_take_drop. by rewrite Htake. }
  unfold handleInput, get_client. mrun.
  cbn [fst snd set_leftover set_lastFin set_frame c_isWebSocket]. rewrite Hws.
  unfold handle_webSocket_input, get_client, modify_client. mrun.
  cbn [fst snd set_leftover set_lastFin set_frame c_leftoverMessage c_awaitingWebSocketHeader].
  rewrite Ha, Hcat. destruct (bool_decide (take j F = [])) eqn:E; cbn [negb fst snd].
  2: { cbn [set_leftover set_frame c_leftoverMessage]. by rewrite Hcat. }
  apply bool_decide_eq_true in E. rewrite E, app_nil_l in *. by rewrite <- Hcat.
Qed.

Lemma step_header j d b w :
  j < mi + 4 -> d <> [] -> take (length d) (drop j F) = d -> j + length d < length F ->
  exists c', handleInput d (set_leftover (take j F) (set_lastFin b c0), w) = (Ret tt, (c', w))
    /\ progress (j + length d) c'.
Proof.
  intros Hj Hd Htake Hlt. rewrite input_header by (done || lia).
  set (lo := negb _). set (c := if bool_decide _ then _ else _).
  destruct (header_step (j + length d) lo c w ltac:(lia)) as [Hs Hl].
  { unfold c. by destruct (bool_decide _). }
  destruct (decide (j + length d < mi + 4)) as [H|H].
  - destruct (Hs H) as [b' ->]. eexists. split; [reflexivity|]. left. split; [done|].
    exists b'. unfold lo, c. by destruct (bool_decide _).
  - rewrite Hl by lia. exists (in_payload (j + length d - mi - 4)). split; [|right; split; [lia|done]].
    assert (exists l, set_lastFin true c
              = set_frame true true (c_webSocketMask c0) (c_maskOffset c0)
                  (c_remainingBytesInPacket c0) pk l c0) as [l ->].
    { destruct Hidle as (Ha & _ & Hp & _). rewrite <- Hp.
      exists (c_leftoverMessage c). unfold c. destruct (bool_decide _);
        unfold set_lastFin, set_leftover, set_frame; cbn; by rewrite Ha. }
    apply payload_arrives; lia.
Qed.

Lemma finish_header j d b w c1 w1 :
  j < mi + 4 -> d <> [] -> take (length d) (drop j F) = d -> j + length d = length F ->
  server_handleWebSocketMessage (pk ++ p) (c0, w) = (Ret tt, (c1, w1)) ->
  handleInput d (set_leftover (take j F) (set_lastFin b c0), w) = (Ret tt, (delivered c1, w1)).
Proof.
  intros Hj Hd Htake Heq Hh. rewrite input_header by (done || lia).
  set (lo := negb _). set (c := if bool_decide _ then _ else _).
  pose proof length_frame as HF.
  destruct (header_step (j + length d) lo c w ltac:(lia)) as [_ Hl].
  { unfold c. by destruct (bool_decide _). }
  rewrite Hl by lia. rewrite Heq, take_ge by done.
  assert (exists l, set_lastFin true c
            = set_frame true true (c_webSocketMask c0) (c_maskOffset c0)
                (c_remainingBytesInPacket c0) pk l c0) as [l ->].
  { destruct Hidle as (Ha & _ & Hp & _). rewrite <- Hp.
    exists (c_leftoverMessage c). unfold c. destruct (bool_decide _);
      unfold set_lastFin, set_leftover, set_frame; cbn; by rewrite Ha. }
  by apply payload_complete.
Qed.

(** Bytes of the payload that arrive on their own. *)
Lemma drop_frame k : drop (mi + 4 + k) F = drop k masked.
Proof.
  unfold F. rewrite client_frame_unmask. fold n masked.
  change (chr (128 + opcode) :: frame_length 128 n ++ be 4 mask ++ masked)
    with (([chr (128 + opcode)] ++ frame_length 128 n) ++ be 4 mask ++ masked).
  rewrite (app_assoc _ (be 4 mask)), <- drop_drop, drop_app_length'; [done|].
  rewrite !length_app, length_be. unfold mi. simpl. lia.
Qed.

Lemma continuation k d w :
  take (length d) (drop (mi + 4 + k) F) = d -> k + length d <= length p -> d <> [] ->
  handle_continuation d (in_payload k, w) =
  (if decide (k + length d < length p) then (Ret tt, (in_payload (k + length d), w))
   else (server_handleWebSocketMessage (pk ++ p) ;; modify_client (set_packet []))
          (set_frame true true mask (n mod 4) 0 (pk ++ p) [] c0, w)).
Proof.
  intros Htake Hle Hd. rewrite drop_frame in Htake.
  unfold handle_continuation, get_client, unmask_into_packet, modify_client. mrun.
  cbn [fst snd]. unfold in_payload at 1 2 3 4 5 6.
  cbn [c_webSocketMask c_maskOffset c_packet c_remainingBytesInPacket set_frame].
  assert (Z.min (n - Z.of_nat k) (Z.of_nat (length d)) = Z.of_nat (length d)) as ->
    by (unfold n; lia).
  rewrite Nat2Z.id, (take_ge d (length d)) by lia.
  pose proof (unmask_piece mask p k (length d) Hle) as Hu.
  unfold substr in Hu. fold masked in Hu. rewrite Htake in Hu. rewrite Hu. cbn [fst snd].
  destruct (Z.ltb_spec (n - Z.of_nat k) (Z.of_nat (length d))); [unfold n in *; lia|].
  assert (c_packet (in_payload k) ++ take (length d) (drop k p) = pk ++ take (k + length d) p) as ->
    by (change (c_packet (in_payload k)) with (pk ++ take k p);
        by rewrite <- app_assoc, take_take_drop).
  cbn [fst snd].
  match goal with |- context [set_remainingBytes ?r ?c] =>
    change (set_remainingBytes r c) with
      (set_frame false true mask (Z.of_nat (k + length d) mod 4)
         (n - Z.of_nat k - Z.of_nat (length d)) (pk ++ take (k + length d) p) [] c0) end.
  cbn [set_frame c_remainingBytesInPacket c_lastFin c_packet].
  destruct (decide (k + length d < length p)) as [Hlt|Hge].
  - assert ((n - Z.of_nat k - Z.of_nat (length d) =? 0)%Z = false) as ->
      by (apply Z.eqb_neq; unfold n; lia).
    unfold in_payload. rewrite Nat2Z.inj_add, Z.sub_add_distr. reflexivity.
  - assert (Hk : k + length d = length p) by lia.
    rewrite Hk, (take_ge p) by lia.
    assert ((n - Z.of_nat k - Z.of_nat (length d))%Z = 0%Z) as -> by (unfold n; lia).
    reflexivity.
Qed.

(** One read: either the frame is still incomplete, or it has been delivered. *)
Lemma step_frame j d c w c1 w1 :
  progress j c -> d <> [] -> take (length d) (drop j F) = d -> j + length d <= length F ->
  server_handleWebSocketMessage (pk ++ p) (c0, w) = (Ret tt, (c1, w1)) ->
  (j + length d < length F /\
     exists c', handleInput d (c, w) = (Ret tt, (c', w)) /\ progress (j + length d) c') \/
  (j + length d = length F /\ handleInput d (c, w) = (Ret tt, (delivered c1, w1))).
Proof.
  intros [[Hj [b ->]]|[[Hj Hlt] ->]] Hd Htake Hle Hh.
  - destruct (decide (j + length d = length F)) as [Heq|Hne]; [right|left].
    + split; [done|]. by apply finish_header.
    + split; [lia|]. apply step_header; (done || lia).
  - destruct Hidle as (Ha & _ & _ & Hws). pose proof length_frame as HF.
    assert (Hin : handleInput d (in_payload (j - mi - 4), w)
                  = handle_continuation d (in_payload (j - mi - 4), w)).
    { unfold handleInput, get_client. mrun. unfold in_payload.
      cbn [fst snd set_frame c_isWebSocket]. rewrite Hws. reflexivity. }
    replace j with (mi + 4 + (j - mi - 4)) in Htake at 1 by lia.
    rewrite Hin, continuation by (done || lia).
    destruct (decide (j - mi - 4 + length d < length p)); [left|right].
    + split; [lia|]. eexists. split; [reflexivity|]. right. split; [lia|]. f_equal. lia.
    + split; [lia|]. mrun. rewrite oblivious, Hh. reflexivity.
Qed.

Lemma frame_chunks chunks j c w c1 w1 :
  progress j c -> Forall (fun d => d <> []) chunks -> chunks <> [] -> concat chunks = drop j F ->
  server_handleWebSocketMessage (pk ++ p) (c0, w) = (Ret tt, (c1, w1)) ->
  handleInputs chunks (c, w) = (Ret tt, (delivered c1, w1)).
Proof.
  intros Hp Hall Hne Hcat Hh. revert j c Hp Hcat.
  induction chunks as [|d chunks IH]; intros j c Hp Hcat; [done|].
  apply Forall_cons_1 in Hall as [Hd Hall]. cbn [concat] in Hcat.
  assert (Hcl : length d + length (concat chunks) = length F - j)
    by (rewrite <- length_app, Hcat; apply length_drop).
  assert (Hd0 : 0 < length d) by (destruct d; simpl; [done|lia]).
  cbn [handleInputs]. mrun.
  destruct (step_frame j d c w c1 w1 Hp Hd) as [[Hlt (c' & -> & Hp')]|[Heq ->]].
  - by rewrite <- Hcat, take_app_length.
  - lia.
  - done.
  - destruct chunks as [|d2 chunks]; [cbn [concat length] in Hcl; lia|].
    apply (IH Hall ltac:(done) (j + length d) c' Hp').
    rewrite <- drop_drop, <- Hcat. by rewrite drop_app_length.
  - destruct chunks as [|d2 chunks]; [done|].
    apply Forall_cons_1 in Hall as [Hd2 _]. cbn [concat] in Hcl. rewrite length_app in Hcl.
    destruct d2; [done|]. cbn [length] in Hcl. lia.
Qed.
End receive.

Lemma frame_received {W : Type} `{SO : ServerOps W} `{FO : !FrameOblivious W}
    (opcode mask : Z) (payload pk : bytes) (c : client) (w : W) chunks c1 w1 :
  (0 <= opcode < 16)%Z /\ opcode <> 9%Z -> (0 <= mask < 2 ^ 32)%Z ->
  (Z.of_nat (length payload) <= c_maxWebSocketPacketLength c)%Z ->
  (Z.of_nat (length payload) < W64)%Z ->
  c_awaitingWebSocketHeader c = true /\ c_leftoverMessage c = [] /\ c_packet c = pk /\
    c_isWebSocket c = true ->
  concat chunks = client_frame opcode mask payload -> Forall (fun d => d <> []) chunks ->
  server_handleWebSocketMessage (pk ++ payload) (c, w) = (Ret tt, (c1, w1)) ->
  handleInputs chunks (c, w)
  = (Ret tt, (set_frame true true mask (Z.of_nat (length payload) mod 4) 0 [] [] c1, w1)).
Proof.
  intros Hop Hmask Hlen HW Hidle Hcat Hall Hh.
  refine (frame_chunks opcode mask payload pk c (proj1 Hop) (proj2 Hop) Hmask Hlen HW Hidle chunks 0 c w c1 w1
            _ Hall _ Hcat Hh).
  - apply progress_start; try done. unfold client_frame. simpl. lia.
  - intros ->. by unfold client_frame in Hcat.
Qed.

(** C21: a masked final data frame reaches the server as one message with the
    payload unmasked, however the network cuts it into reads, and leaves the
    client ready for the next frame.  The message is preceded by whatever the
    packet buffer held, which is nothing after another data frame. *)
Theorem handleInputs_frame {W : Type} `{SO : ServerOps W} `{FO : !FrameOblivious W}
    (opcode mask : Z) (payload pk : bytes) (c : client) (w : W) chunks c1 w1 :
  (0 <= opcode < 16)%Z /\ opcode <> 9%Z -> (0 <= mask < 2 ^ 32)%Z ->
  (Z.of_nat (length payload) <= c_maxWebSocketPacketLength c)%Z ->
  (Z.of_nat (length payload) < W64)%Z ->
  c_awaitingWebSocketHeader c = true /\ c_leftoverMessage c = [] /\ c_packet c = pk /\
    c_isWebSocket c = true ->
  concat chunks = client_frame opcode mask payload -> Forall (fun d => d <> []) chunks ->
  server_handleWebSocketMessage (pk ++ payload) (c, w) = (Ret tt, (c1, w1)) ->
  handleInputs chunks (c, w)
  = (Ret tt, (set_frame true true mask (Z.of_nat (length payload) mod 4) 0 [] [] c1, w1)).
Proof. exact (frame_received opcode mask payload pk c w chunks c1 w1). Qed.

Lemma log_oblivious (msg : bytes) a f k o r p l c (w : list bytes) :
  server_handleWebSocketMessage msg (set_frame a f k o r p l c, w) =
  let '(x, (c', w')) := server_handleWebSocketMessage msg (c, w) in
  (x, (set_frame a f k o r p l c', w')).
Proof. reflexivity. Qed.

#[export] Instance log_frame_oblivious : FrameOblivious (list bytes) :=
  {| oblivious := log_oblivious |}.

Definition websocket_client : client := set_webSocket [] (new_client 1 []).

(** "Hello" masked as in RFC 6455, delivered in three reads. *)
Lemma handleInputs_frame_witness :
  handleInputs [map chr [129; 133; 55]; map chr [250; 33; 61; 127; 159]; map chr [77; 81; 88]]%Z
    (websocket_client, [])
  = (Ret tt, (set_frame true true 939139389 1 0 [] [] websocket_client, [lit "message Hello"])).
Proof.
  apply (handleInputs_frame 1 939139389 (lit "Hello") [] websocket_client []
           [map chr [129; 133; 55]; map chr [250; 33; 61; 127; 159]; map chr [77; 81; 88]]%Z
           websocket_client [lit "message Hello"]).
  - split; [split; [discriminate|reflexivity]|discriminate].
  - split; [discriminate|reflexivity].
  - vm_compute. discriminate.
  - reflexivity.
  - repeat split.
  - vm_compute. reflexivity.
  - repeat constructor; discriminate.
  - reflexivity.
Defined.

(** ** Theorems: pings *)

(** A ping that arrives in one read is answered by a pong, but its payload
    stays in the packet buffer: the pong carries the buffer's old contents
    before the ping's payload, and so will the next message. *)
Theorem ping_answered {W : Type} `{SO : ServerOps W} `{SL : !SendLog W}
    (mask : Z) (payload : bytes) (c : client) (w : W) :
  (0 <= mask < 2 ^ 32)%Z -> length payload <= 125 ->
  (Z.of_nat (length payload) <= c_maxWebSocketPacketLength c)%Z ->
  (Z.of_nat (length (c_packet c)) < 2 ^ 63)%Z ->
  c_awaitingWebSocketHeader c = true /\ c_leftoverMessage c = [] /\ c_isWebSocket c = true ->
  connected (c_id c) w ->
  exists w' pong,
    handleInput (client_frame 9 mask payload) (c, w)
    = (Ret tt, (set_frame true true mask (Z.of_nat (length payload) mod 4) 0
                  (c_packet c ++ payload) [] c, w')) /\
    sent (c_id c) w' = sent (c_id c) w ++ pong /\
    parse_frame pong = Some (true, 10%Z, c_packet c ++ payload, []).
Proof.
  intros Hm Hlen Hmax Hpk (Ha & Hl & Hws) Hc.
  pose proof (length_frame 9 mask payload) as HF.
  set (mi := 1 + length (frame_length 128 (Z.of_nat (length payload)))) in *.
  set (F := client_frame 9 mask payload) in *.
  assert (HFt : take (length F) F = F) by apply take_ge, le_n.
  set (c' := set_frame true true mask (Z.of_nat (length payload) mod 4) 0
               (c_packet c ++ payload) [] c).
  destruct (sendWebSocket_sends (c_packet c ++ payload) true 10 c' w) as (w' & pong & H1 & H2 & H3);
    [done|rewrite length_app; unfold W64 in *; lia|done|].
  exists w', pong. split; [|split; [exact H2|]].
  2: { specialize (H3 []). by rewrite app_nil_r in H3. }
  unfold handleInput, get_client. mrun. cbn [fst snd]. rewrite Hws.
  unfold handle_webSocket_input, get_client. mrun. cbn [fst snd]. rewrite Hl, Ha.
  rewrite (bool_decide_true ([] = [])) by done. cbn [negb].
  destruct (header_step 9 mask payload c ltac:(lia) Hmax ltac:(unfold W64; lia)
              (length F) false c w (le_n _) eq_refl) as [_ Hh].
  fold F mi in Hh. rewrite HFt in Hh. rewrite Hh by lia. clear Hh.
  unfold handle_payload, get_client. mrun. cbn [negb orb fst snd set_lastFin set_frame
    c_maxWebSocketPacketLength].
  destruct (Z.ltb_spec (c_maxWebSocketPacketLength c) (Z.of_nat (length payload))); [lia|].
  unfold check_size. fold mi. rewrite (proj2 (Nat.ltb_ge (length F) (mi + 4))) by lia.
  assert (big_endian 0 (substr F mi 4) = mask) as ->
    by (rewrite <- HFt; apply frame_mask; (done || lia)).
  assert (Z.min (Z.of_nat (length payload)) (Z.of_nat (length F) - Z.of_nat mi - 4)
          = Z.of_nat (length payload)) as -> by lia.
  unfold unmask_into_packet, modify_client. mrun. cbn [fst snd]. rewrite Nat2Z.id.
  assert (substr F (mi + 4) (length payload) = substr (unmask mask 0 payload).1 0 (length payload)) as ->
    by (rewrite <- HFt at 1; apply frame_payload; lia).
  cbn [c_webSocketMask c_maskOffset c_packet set_frame set_mask set_offset set_remainingBytes].
  pose proof (unmask_piece mask payload 0 (length payload) ltac:(lia)) as Hu.
  change (Z.of_nat 0 mod 4)%Z with 0%Z in Hu. rewrite Hu. cbn [fst snd].
  assert (substr payload 0 (length payload) = payload) as -> by apply take_ge, le_n.
  change (9 =? 9)%Z with true. cbv iota.
  destruct (Z.leb_spec (Z.of_nat (length payload)) 125); [|lia].
  match goal with |- context [sendWebSocket (c_packet ?s)] => assert (s = c') as -> end.
  { unfold c'. rewrite Z.sub_diag, <- Hl. destruct c. cbn in Ha. subst. reflexivity. }
  exact H1.
Qed.

Lemma ping_answered_witness :
  exists w' pong,
    handleInput (client_frame 9 7 (lit "x")) (websocket_client, [])
    = (Ret tt, (set_frame true true 7 1 0 (lit "x") [] websocket_client, w')) /\
    concat w' = pong /\ parse_frame pong = Some (true, 10%Z, lit "x", []).
Proof.
  refine (ping_answered (W := list bytes) 7 (lit "x") websocket_client [] _ _ _ _ _ _).
  - split; [discriminate|reflexivity].
  - vm_compute. lia.
  - vm_compute. discriminate.
  - reflexivity.
  - repeat split.
  - exact I.
Defined.
