(* ===== verification/FS.v ===== *)
(** * Paths and files

    [src/util/FS.cpp] over a model of [std::filesystem::path]: a path is
    whether it has a root directory and the list of its file names, the last
    one empty when the path ends in a separator.  What the system says about
    files is an interface, [FileSystem], which is given the C string of a
    path: it ends at the first null byte. *)

From Stdlib Require Import ZArith Lia Ascii String.
From stdpp Require Import base tactics option list strings gmap.
From S2P Require Import Prelude Util.

Record path := Path { p_root : bool; p_names : list bytes }.

#[export] Instance path_eq_dec : EqDecision path.
Proof. solve_decision. Defined.

#[export] Instance path_countable : Countable path.
Proof.
  refine (inj_countable' (fun p => (p_root p, p_names p)) (fun p => Path p.1 p.2) _).
  by intros [].
Defined.

Definition root_path : path := Path true [].
Definition empty_path : path := Path false [].

(** [path::string] for a path whose separators are single. *)
Definition path_string (p : path) : bytes :=
  (if p_root p then lit "/" else []) ++ join (p_names p) (lit "/").

(** The file names of a string: runs of separators count as one. *)
Fixpoint names_of (s cur : bytes) : list bytes :=
  match s with
  | [] => [cur]
  | c :: r =>
    if Ascii.eqb c "/" then
      if bool_decide (cur = []) then names_of r [] else cur :: names_of r []
    else names_of r (cur ++ [c])
  end.

Definition path_of (s : bytes) : path :=
  let names := names_of s [] in
  Path (is_prefix (lit "/") s) (if bool_decide (names = [[]]) then [] else names).

Definition path_empty (p : path) : bool := negb (p_root p) && bool_decide (p_names p = []).
Definition is_absolute (p : path) : bool := p_root p.

Definition filename (p : path) : bytes := default [] (last (p_names p)).

Definition parent_path (p : path) : path := Path (p_root p) (removelast (p_names p)).

(** The last dot of a file name that starts an extension. *)
Definition extension_of (name : bytes) : bytes :=
  if bool_decide (name = lit ".") || bool_decide (name = lit "..") then []
  else match find_end (lit ".") name with
       | Some (S i) => drop (S i) name
       | _ => []
       end.
Definition extension (p : path) : bytes := extension_of (filename p).
Definition stem_of (name : bytes) : bytes := take (length name - length (extension_of name)) name.

(** [operator/]. *)
Definition strip_separator (names : list bytes) : list bytes :=
  if bool_decide (last names = Some []) then removelast names else names.
Definition path_append (p q : path) : path :=
  if p_root q then q
  else match p_names q with
       | [] => Path (p_root p) (if bool_decide (p_names p = []) then []
                                else strip_separator (p_names p) ++ [[]])
       | names => Path (p_root p) (strip_separator (p_names p) ++ names)
       end.

(** [replace_extension] with an extension that starts with a dot. *)
Definition replace_extension (p : path) (ext : bytes) : path :=
  Path (p_root p) (removelast (p_names p) ++ [stem_of (filename p) ++ ext]).

(** [lexically_normal]: [stack] holds the names kept so far, the last one
    first, and [trailing] whether the path now ends in a separator. *)
Fixpoint normal_names (rooted : bool) (names : list bytes) (stack : list bytes) (trailing : bool)
    : list bytes * bool :=
  match names with
  | [] => (rev stack, trailing)
  | n :: rest =>
    if bool_decide (n = []) || bool_decide (n = lit ".") then normal_names rooted rest stack true
    else if bool_decide (n = lit "..") then
      match stack with
      | [] => if rooted then normal_names rooted rest [] true
              else normal_names rooted rest [n] false
      | top :: stack' => if bool_decide (top = lit "..")
                         then normal_names rooted rest (n :: stack) false
                         else normal_names rooted rest stack' true
      end
    else normal_names rooted rest (n :: stack) false
  end.

Definition lexically_normal (p : path) : path :=
  if path_empty p then p
  else
    let '(names, trailing) := normal_names (p_root p) (p_names p) [] false in
    let ends_separator := trailing && negb (bool_decide (names = []))
                          && negb (bool_decide (last names = Some (lit ".."))) in
    let names := if ends_separator then names ++ [[]] else names in
    if negb (p_root p) && bool_decide (names = []) then Path false [lit "."]
    else Path (p_root p) names.

(** ** [isSubpath] *)

Fixpoint isSubpath_loop (fuel : nat) (base to_check : path) : outcome bool :=
  if bool_decide (to_check = root_path) || path_empty to_check then Ret false
  else if bool_decide (to_check = base) then Ret true
  else match fuel with
       | O => Diverge
       | S f => isSubpath_loop f base (parent_path to_check)
       end.

Definition isSubpath (base to_check : path) : outcome bool :=
  if bool_decide (base = to_check) then Ret true
  else isSubpath_loop (length (p_names to_check)) base to_check.

(** ** Files *)

Class FileSystem := {
  fs_is_regular_file : bytes -> bool;
  fs_is_directory : bytes -> bool;
  fs_exists : bytes -> bool;
  fs_contents : bytes -> option bytes;
  fs_file_size : bytes -> outcome Z;
  fs_permissions : bytes -> outcome Z;
  fs_stat : bytes -> option (Z * Z);
  fs_last_write_time : bytes -> outcome Z;
  fs_canonical : bytes -> outcome path;
  sys_getuid : Z;
  sys_getpwuid : Z -> option (bytes * Z);
  sys_getgrgid : Z -> option (list bytes);
}.

Section files.
Context `{FS : FileSystem}.

(** The string a path is handed to the system with. *)
Definition path_c_str (p : path) : bytes := c_str (path_string p).

Definition inGroup (uid gid : Z) : outcome bool :=
  match sys_getpwuid uid with
  | None => Throw (RuntimeError (lit "uid not found: " ++ to_dec uid))
  | Some (pw_name, pw_gid) =>
    if (pw_gid =? gid)%Z then Ret true
    else match sys_getgrgid gid with
         | None => Throw (RuntimeError (lit "gid not found: " ++ to_dec uid))
         | Some members => Ret (existsb (fun m => bool_decide (m = pw_name)) members)
         end
  end.

Definition getInfo (p : path) : outcome (Z * Z) :=
  match fs_stat (path_c_str p) with
  | Some info => Ret info
  | None => Throw (RuntimeError (lit "stat failed"))
  end.

Definition selfOwns (info : Z * Z) : bool := (info.1 =? sys_getuid)%Z.
Definition groupOwns (info : Z * Z) : outcome bool := inGroup sys_getuid info.2.
Definition selfOwns_path (p : path) : outcome bool := info ← getInfo p; Ret (selfOwns info).
Definition groupOwns_path (p : path) : outcome bool := info ← getInfo p; groupOwns info.

Definition owner_exec : Z := 64.
Definition group_exec : Z := 8.
Definition others_exec : Z := 1.
Definition has_perm (perms bit : Z) : bool := negb (Z.land perms bit =? 0)%Z.

Definition canExecute (p : path) : outcome bool :=
  perms ← fs_permissions (path_c_str p);
  if has_perm perms owner_exec && has_perm perms group_exec && has_perm perms others_exec
  then Ret true
  else if negb (has_perm perms owner_exec || has_perm perms group_exec
                || has_perm perms others_exec)
  then Ret false
  else
    info ← getInfo p;
    if selfOwns info then Ret (has_perm perms owner_exec)
    else
      g ← groupOwns info;
      if (g : bool) then Ret (has_perm perms group_exec)
      else Ret (has_perm perms others_exec).

Definition readFile (p : path) : outcome bytes :=
  match fs_contents (path_c_str p) with
  | Some contents => Ret contents
  | None => Throw FilesystemError
  end.

(** The bytes behind the end of the file are left uninitialised. *)
Definition readFile_part (p : path) (offset byte_count : nat) : outcome bytes :=
  match fs_contents (path_c_str p) with
  | None => Throw FilesystemError
  | Some contents =>
    let part := substr contents offset byte_count in
    if length part <? byte_count then Undef else Ret part
  end.

Definition lastWritten (p : path) : outcome Z := fs_last_write_time (path_c_str p).

Definition isNewerThan (check basis : path) : outcome bool :=
  check_time ← fs_last_write_time (path_c_str check);
  basis_time ← fs_last_write_time (path_c_str basis);
  Ret (basis_time <? check_time)%Z.
End files.

(** ** The names of a string *)

Lemma names_of_cur s cur :
  "/"%char ∉ s -> names_of s cur = [cur ++ s].
Proof.
  revert cur. induction s as [|c s IH]; intros cur Hs; cbn [names_of]; [by rewrite app_nil_r|].
  rewrite not_elem_of_cons in Hs. destruct Hs as [Hc Hs].
  destruct (Ascii.eqb_spec c "/"); [congruence|]. rewrite IH by done. by rewrite <- app_assoc.
Qed.

Lemma names_of_slash n rest cur :
  "/"%char ∉ n -> cur ++ n <> [] ->
  names_of (n ++ "/"%char :: rest) cur = (cur ++ n) :: names_of rest [].
Proof.
  revert cur. induction n as [|c n IH]; intros cur Hn Hne; cbn [names_of app].
  - rewrite app_nil_r in *. change (Ascii.eqb "/" "/") with true. cbv iota.
    by rewrite bool_decide_false.
  - rewrite not_elem_of_cons in Hn. destruct Hn as [Hc Hn].
    destruct (Ascii.eqb_spec c "/"); [congruence|]. rewrite IH; [by rewrite <- app_assoc|done|].
    by destruct cur.
Qed.

(** ** Theorems: sub-paths *)

Lemma removelast_prefix {A} (b l : list A) :
  b `prefix_of` removelast l -> b `prefix_of` l.
Proof.
  intros [s Hs]. destruct l as [|x l]; [by exists s|].
  exists (s ++ [List.last (x :: l) x]). rewrite app_assoc, <- Hs.
  by apply app_removelast_last.
Qed.

Lemma prefix_removelast {A} (b l : list A) :
  b `prefix_of` l -> b = l \/ b `prefix_of` removelast l.
Proof.
  intros [s ->]. destruct s as [|x s]; [left; by rewrite app_nil_r|right].
  rewrite removelast_app by done. apply prefix_app_r. done.
Qed.

Lemma isSubpath_loop_spec fuel base p :
  length (p_names p) <= fuel ->
  isSubpath_loop fuel base p =
  Ret (bool_decide (p_root p = p_root base /\ p_names base <> [] /\
                    p_names base `prefix_of` p_names p)).
Proof.
  revert p. induction fuel as [|fuel IH]; intros [r names] Hf; cbn [p_names p_root] in *.
  - assert (names = []) as -> by (destruct names; [done|simpl in Hf; lia]).
    assert (bool_decide (Path r [] = root_path) || path_empty (Path r []) = true) as Hstop
      by (by destruct r). cbn [isSubpath_loop]. rewrite Hstop.
    rewrite bool_decide_false; [done|]. intros (_ & Hne & Hp).
    by apply prefix_nil_inv in Hp.
  - cbn [isSubpath_loop].
    destruct (bool_decide (Path r names = root_path) || path_empty (Path r names)) eqn:Estop.
    + assert (names = []) as ->.
      { apply orb_true_iff in Estop as [H|H]; [by apply bool_decide_eq_true in H as [= _ ->]|].
        unfold path_empty in H. apply andb_true_iff in H as [_ H].
        by apply bool_decide_eq_true in H. }
      rewrite bool_decide_false; [done|]. intros (_ & Hne & Hp). by apply prefix_nil_inv in Hp.
    + assert (names <> []) as Hne.
      { intros ->. by destruct r. }
      destruct (decide (Path r names = base)) as [<-|Hbase].
      * rewrite !bool_decide_true; [done| |done]. by split; [|split].
      * rewrite (bool_decide_false (Path r names = base)) by done.
        unfold parent_path. cbn [p_root p_names]. rewrite IH.
        -- cbn [p_root p_names]. f_equal. apply bool_decide_ext. split.
           ++ intros (H1 & H2 & H3). split; [done|]. split; [done|]. by apply removelast_prefix.
           ++ intros (H1 & H2 & H3). split; [done|]. split; [done|].
              apply prefix_removelast in H3 as [H3|H3]; [|done].
              destruct base as [rb nb]. cbn [p_root p_names] in *. subst. done.
        -- cbn [p_names]. rewrite (app_removelast_last [] Hne), length_app in Hf. simpl in Hf. lia.
Qed.

(** The test for a sub-path always ends; it accepts a path exactly when it
    is the base itself or begins with all the names of the base.  The base "/"
    accepts nothing but itself, and a base that ends in a separator nothing
    that does not have an empty name in its place. *)
Theorem isSubpath_spec base p :
  isSubpath base p =
  Ret (bool_decide (base = p \/
        p_root p = p_root base /\ p_names base <> [] /\ p_names base `prefix_of` p_names p)).
Proof.
  unfold isSubpath. destruct (decide (base = p)) as [->|Hne].
  - rewrite !bool_decide_true; [done|by left|done].
  - rewrite (bool_decide_false (base = p)) by done. rewrite isSubpath_loop_spec by done.
    f_equal. apply bool_decide_ext. tauto.
Qed.

(** ** Theorems: normal paths *)

Definition dotdot : bytes := lit "..".

Lemma normal_names_rooted names stack trailing :
  dotdot ∉ stack -> dotdot ∉ (normal_names true names stack trailing).1.
Proof.
  revert stack trailing. induction names as [|n names IH]; intros stack trailing Hs; cbn [normal_names].
  - cbn [fst]. by rewrite list_elem_of_In, <- in_rev, <- list_elem_of_In.
  - destruct (_ || _); [by apply IH|]. fold dotdot.
    destruct (decide (n = dotdot)) as [->|Hn];
      [rewrite bool_decide_true by done|rewrite bool_decide_false by done; apply IH].
    + destruct stack as [|top stack]; [by apply IH|].
      rewrite not_elem_of_cons in Hs. destruct Hs as [Ht Hs].
      rewrite bool_decide_false by done. by apply IH.
    + rewrite not_elem_of_cons. auto.
Qed.

(** A normal path with a root directory has no name that leads upwards. *)
Lemma lexically_normal_rooted p :
  p_root p = true -> p_root (lexically_normal p) = true /\ dotdot ∉ p_names (lexically_normal p).
Proof.
  intros Hr. unfold lexically_normal, path_empty. rewrite Hr. cbn [negb andb].
  pose proof (normal_names_rooted (p_names p) [] false ltac:(set_solver)) as Hn.
  destruct (normal_names true (p_names p) [] false) as [names t]. cbn [fst] in Hn.
  cbn [p_root p_names]. split; [done|]. destruct (_ && _ && _); [|done].
  rewrite elem_of_app, list_elem_of_singleton. unfold dotdot in *. intros [?|?]; done.
Qed.

(** ** Theorems: permissions *)

(** Whether a file may be executed is what the bits of the one class the
    process falls in say, owner before group before others, whatever shortcut
    is taken. *)
Theorem canExecute_spec `{FS : FileSystem} p perms info in_group :
  fs_permissions (path_c_str p) = Ret perms -> fs_stat (path_c_str p) = Some info ->
  inGroup sys_getuid info.2 = Ret in_group ->
  canExecute p = Ret (has_perm perms (if (info.1 =? sys_getuid)%Z then owner_exec
                                      else if (in_group : bool) then group_exec
                                      else others_exec)).
Proof.
  intros Hp Hi Hg. unfold canExecute, getInfo, groupOwns, selfOwns.
  rewrite Hp. mrun. rewrite Hi, Hg.
  destruct (has_perm perms owner_exec) eqn:E1, (has_perm perms group_exec) eqn:E2,
    (has_perm perms others_exec) eqn:E3; cbn [andb orb negb];
    destruct (info.1 =? sys_getuid)%Z, in_group; by rewrite ?E1, ?E2, ?E3.
Qed.

(** A file owned by the user 1000 whose group may execute it. *)
#[local] Instance example_fs : FileSystem := {
  fs_is_regular_file := fun _ => true;
  fs_is_directory := fun _ => false;
  fs_exists := fun _ => true;
  fs_contents := fun _ => Some (lit "hello");
  fs_file_size := fun _ => Ret 5%Z;
  fs_permissions := fun _ => Ret 8%Z;
  fs_stat := fun _ => Some (1001, 7)%Z;
  fs_last_write_time := fun _ => Ret 0%Z;
  fs_canonical := fun s => Ret (path_of s);
  sys_getuid := 1000;
  sys_getpwuid := fun _ => Some (lit "www", 50)%Z;
  sys_getgrgid := fun _ => Some [lit "root"; lit "www"];
}.

Lemma canExecute_spec_witness : canExecute (path_of (lit "/srv/a.cpp")) = Ret true.
Proof. exact (canExecute_spec (path_of (lit "/srv/a.cpp")) 8 (1001, 7)%Z true eq_refl eq_refl eq_refl). Defined.

Example path_examples :
  path_string (lexically_normal (path_of (lit "/a//b/./../c/"))) = lit "/a/c/" /\
  path_string (lexically_normal (path_of (lit "/../x/.."))) = lit "/" /\
  path_string (lexically_normal (path_of (lit "a/.."))) = lit "." /\
  path_string (path_append (path_of (lit "/www/")) (path_of (lit "./x"))) = lit "/www/./x" /\
  extension (path_of (lit "/www/.algiz")) = [] /\
  extension (path_of (lit "/www/a.cpp.so")) = lit ".so".
Proof. vm_compute. repeat split; reflexivity. Qed.
