(* ===== verification/HttpServer.v ===== *)
(** * The HTTP server

    [src/http/Server.cpp] and [include/http/Server.h]: dispatch of requests to
    the handlers of plugins, the WebSocket upgrade, the tables of WebSocket
    handlers and the per-directory configuration.  It implements the interface
    [ServerOps] of [Client.v] over the interface [NetOps] of the network
    server. *)

From Stdlib Require Import ZArith Lia Ascii String.
From stdpp Require Import base tactics option list strings gmap.
From S2P Require Import Prelude Util Base64 Response Request PluginHost Client FS.

(** ** What lies below and beside the server *)

Class NetOps (N : Type) := {
  net_send : Z -> bytes -> M N ();
  net_close : Z -> M N bool;
  net_id : N -> bytes;
}.

(** The law of sending: a connected client is sent what is handed over, and
    stays connected. *)
Class NetLog (N : Type) `{NetOps N} := {
  net_connected : Z -> N -> Prop;
  net_sent : Z -> N -> bytes;
  net_send_logged (id : Z) (b : bytes) (n : N) : net_connected id n -> exists n',
    net_send id b n = (Ret tt, n') /\ net_connected id n' /\ net_sent id n' = net_sent id n ++ b;
}.

(** The JSON library: an object is asked for members and a value for its
    content, which throws the library's exceptions. *)
Class JsonOps (J : Type) := {
  json_parse : bytes -> option J;
  json_contains : J -> bytes -> bool;
  json_at : J -> bytes -> outcome J;
  json_get_bool : J -> outcome bool;
  json_get_size : J -> outcome Z;
  json_get_string : J -> outcome bytes;
  json_get_strings : J -> outcome (list bytes);
  json_is_string : J -> bool;
  json_is_array : J -> bool;
}.

Record HandlerArgs := MkHandlerArgs { a_request : request; a_parts : list bytes }.

Record WebSocketConnectionArgs := MkConnectionArgs {
  wa_args : HandlerArgs;
  wa_protocols : list bytes;
  wa_acceptedProtocol : bytes;
}.

(** A weak pointer to a handler. *)
Definition weak := Z.

Record http_server (J : Type) := HttpServer {
  h_options : J;
  h_webRoot : path;
  h_getHandlers : list weak;
  h_postHandlers : list weak;
  h_webSocketConnectionHandlers : list weak;
  h_webSocketMessageHandlers : gmap Z (list weak);
  h_webSocketCloseHandlers : gmap Z (list weak);
  h_configs : gmap path J;
}.
Arguments HttpServer {J}.
Arguments h_options {J}.
Arguments h_webRoot {J}.
Arguments h_getHandlers {J}.
Arguments h_postHandlers {J}.
Arguments h_webSocketConnectionHandlers {J}.
Arguments h_webSocketMessageHandlers {J}.
Arguments h_webSocketCloseHandlers {J}.
Arguments h_configs {J}.

Definition validatePath (path : bytes) : bool :=
  negb (bool_decide (path = [])) && bool_decide (head path = Some "/"%char).

Fixpoint unescape_all (views : list bytes) : outcome (list bytes) :=
  match views with
  | [] => Ret []
  | v :: r => x ← unescape v true; xs ← unescape_all r; Ret (x :: xs)
  end.

Definition getParts (path : bytes) : outcome (list bytes) :=
  match path with
  | [] => Throw OutOfRange
  | _ :: rest => views ← split rest (lit "/") true; unescape_all views
  end.

Definition webSocket_guid : bytes := lit "258EAFA5-E914-47DA-95CA-C5AB0DC85B11".

Section server.
Context {J N : Type} `{JO : JsonOps J} `{NO : NetOps N}.

(** The state below a client: the HTTP server and the network. *)
Definition world : Type := http_server J * N.

(** The handlers behind the weak pointers: functions of plugins. *)
Class Handlers := {
  lock_handler : weak -> HandlerArgs * (client * world) ->
                 option (bool -> M (HandlerArgs * (client * world)) CancelableResult);
  lock_connection : weak -> WebSocketConnectionArgs * (client * world) ->
                    option (bool -> M (WebSocketConnectionArgs * (client * world)) CancelableResult);
  lock_message : weak -> client * world ->
                 option (bytes -> bool -> M (client * world) CancelableResult);
  lock_close : weak -> client * world -> option (M (client * world) ());
  handler_live : weak -> option Z;
}.

(** SHA-1 comes from a library. *)
Variable sha1 : bytes -> bytes.

Definition on_net {A} (m : M N A) : M world A := fun w =>
  let '(r, n) := m w.2 in (r, (w.1, n)).
Definition on_net_c {A} (m : M N A) : M (client * world) A := fun s =>
  let '(r, n) := m s.2.2 in (r, (s.1, (s.2.1, n))).

(** [server->send(client.id, ...)] and [server->close(client.id)]. *)
Definition send_to (message : bytes) : M (client * world) () :=
  s ← get; on_net_c (net_send (c_id s.1) message).
Definition close_client : M (client * world) () :=
  s ← get; _ ← on_net_c (net_close (c_id s.1)); mret tt.

Definition http_send400 : M (client * world) () :=
  send_to (render (make_response 400 (lit "Invalid request"))).
Definition http_send401_realm (realm : bytes) : M (client * world) () :=
  send_to (render (set_at (make_response 401 (lit "Unauthorized")) (lit "www-authenticate")
                     (lit "Basic realm=" ++ [dquote] ++ escapeQuotes realm ++ [dquote]))).
Definition http_send401 : M (client * world) () :=
  send_to (render (make_response 401 (lit "Unauthorized"))).
Definition http_send403 : M (client * world) () :=
  send_to (render (make_response 403 (lit "Forbidden"))).
Definition http_send500 : M (client * world) () :=
  send_to (render (make_response 500 (lit "Internal Server Error"))).

Definition reject_path : M (client * world) () :=
  send_to (render (make_response 403 (lit "Invalid path."))) ;; close_client.
Definition unhandled : M (client * world) () :=
  send_to (render (make_response 501 (lit "Unhandled request"))) ;; close_client.

(** Runs an operation on the arguments of a handler and the state, and drops
    the arguments when it is done. *)
Definition with_args {Args A} (args : Args) (m : M (Args * (client * world)) A)
    : M (client * world) (A * Args) := fun s =>
  match m (args, s) with
  | (Ret a, (args', s')) => (Ret (a, args'), s')
  | (Throw e, (_, s')) => (Throw e, s')
  | (Undef, (_, s')) => (Undef, s')
  | (Diverge, (_, s')) => (Diverge, s')
  end.

Context {HH : Handlers}.

Definition run_handlers (handlers : list weak) (q : request) : M (client * world) () :=
  parts ← lift (getParts (q_path q));
  r ← with_args (MkHandlerArgs q parts) (beforeMulti lock_handler handlers true);
  when (bool_decide (r.1.2 = HPass)) unhandled.

(** The response to an accepted upgrade. *)
Definition switching_protocols (key acceptedProtocol : bytes) : outcome response :=
  accept ← base64Encode (sha1 (key ++ webSocket_guid));
  let r := set_at (set_at (set_at (make_response 101 []) (lit "upgrade") (lit "websocket"))
                     (lit "connection") (lit "Upgrade")) (lit "sec-websocket-accept") accept in
  Ret (if bool_decide (acceptedProtocol = []) then r
       else set_at r (lit "sec-websocket-protocol") acceptedProtocol).

Definition upgrade_webSocket (q : request) : M (client * world) () :=
  match q_headers q !! lit "sec-websocket-key", q_headers q !! lit "sec-websocket-version" with
  | Some key, Some _ =>
    if negb (length key =? 24) then http_send400
    else
      protocols ← lift (match q_headers q !! lit "sec-websocket-protocol" with
                        | Some p => split p (lit " ") true
                        | None => Ret []
                        end);
      parts ← lift (getParts (q_path q));
      modify (fun s => (set_webSocket parts s.1, s.2)) ;;
      s ← get;
      r ← with_args (MkConnectionArgs (MkHandlerArgs q parts) protocols [])
            (beforeMulti lock_connection (h_webSocketConnectionHandlers s.2.1) true);
      if bool_decide (r.1.2 = HPass) then unhandled
      else
        response ← lift (switching_protocols key (wa_acceptedProtocol r.2));
        send_to (render response)
  | _, _ => http_send400
  end.

Definition wants_webSocket (q : request) : bool :=
  match q_headers q !! lit "connection" with
  | Some header =>
    (bool_decide (header = lit "Upgrade") || bool_decide (header = lit "keep-alive, Upgrade"))
    && bool_decide (q_headers q !! lit "upgrade" = Some (lit "websocket"))
  | None => false
  end.

Definition handleGET : M (client * world) () :=
  s ← get;
  let q := c_request s.1 in
  if negb (validatePath (q_path q)) then reject_path
  else if wants_webSocket q then upgrade_webSocket q
  else run_handlers (h_getHandlers s.2.1) q.

Definition handlePOST : M (client * world) () :=
  s ← get;
  let q := c_request s.1 in
  if negb (validatePath (q_path q)) then reject_path
  else run_handlers (h_postHandlers s.2.1) q.

(** The handlers of messages, given the message. *)
Definition message_lock (message : bytes) (p : weak) (s : client * world)
    : option (bool -> M (client * world) CancelableResult) :=
  (fun f => f message) <$> lock_message p s.

Definition handleWebSocketMessage (message : bytes) : M (client * world) () :=
  s ← get;
  match h_webSocketMessageHandlers s.2.1 !! c_id s.1 with
  | None => mret tt
  | Some handlers =>
    _ ← beforeMulti (message_lock message) handlers true;
    mret tt
  end.

Fixpoint run_close_handlers (handlers : list weak) : M (client * world) () :=
  match handlers with
  | [] => mret tt
  | fnptr :: rest =>
    s ← get;
    match lock_close fnptr s with
    | Some fn => fn ;; run_close_handlers rest
    | None => run_close_handlers rest
    end
  end.

Definition http_closeWebSocket : M (client * world) () :=
  s ← get;
  match h_webSocketCloseHandlers s.2.1 !! c_id s.1 with
  | Some handlers => run_close_handlers handlers
  | None => mret tt
  end ;;
  close_client.

(** ** The tables of WebSocket handlers *)

Definition set_message_handlers (m : gmap Z (list weak)) (h : http_server J) : http_server J :=
  HttpServer (h_options h) (h_webRoot h) (h_getHandlers h) (h_postHandlers h)
    (h_webSocketConnectionHandlers h) m (h_webSocketCloseHandlers h) (h_configs h).
Definition set_close_handlers (m : gmap Z (list weak)) (h : http_server J) : http_server J :=
  HttpServer (h_options h) (h_webRoot h) (h_getHandlers h) (h_postHandlers h)
    (h_webSocketConnectionHandlers h) (h_webSocketMessageHandlers h) m (h_configs h).
Definition set_configs (m : gmap path J) (h : http_server J) : http_server J :=
  HttpServer (h_options h) (h_webRoot h) (h_getHandlers h) (h_postHandlers h)
    (h_webSocketConnectionHandlers h) (h_webSocketMessageHandlers h)
    (h_webSocketCloseHandlers h) m.

(** [std::erase_if] over a table: expired handlers go, then empty lists. *)
Definition clean_table (m : gmap Z (list weak)) : gmap Z (list weak) :=
  omap (fun handlers =>
    match erase_expired handler_live (length handlers) handlers with
    | Ret [] => None
    | Ret l => Some l
    | _ => None
    end) m.

Definition cleanWebSocketMessageHandlers (h : http_server J) : http_server J :=
  set_message_handlers (clean_table (h_webSocketMessageHandlers h)) h.
Definition cleanWebSocketCloseHandlers (h : http_server J) : http_server J :=
  set_close_handlers (clean_table (h_webSocketCloseHandlers h)) h.
Definition cleanWebSocketHandlers (h : http_server J) : http_server J :=
  cleanWebSocketCloseHandlers (cleanWebSocketMessageHandlers h).

Definition registerWebSocketMessageHandler (id : Z) (handler : weak) (h : http_server J)
    : http_server J :=
  let m := h_webSocketMessageHandlers h in
  set_message_handlers (<[id := default [] (m !! id) ++ [handler]]> m) h.
Definition registerWebSocketCloseHandler (id : Z) (handler : weak) (h : http_server J)
    : http_server J :=
  let m := h_webSocketCloseHandlers h in
  set_close_handlers (<[id := default [] (m !! id) ++ [handler]]> m) h.

(** ** Configuration *)

Section option.
Context {T : Type}.
Variable get_as : J -> outcome T.

(** The loop of [getOption] over the enclosing directories; [None] means that
    it was left without an answer. *)
Fixpoint option_loop (fuel : nat) (h : http_server J) (root dir : path) (name : bytes)
    : outcome (option T) :=
  match fuel with
  | O => Diverge
  | S f =>
    let next :=
      if bool_decide (dir = h_webRoot h) then Ret None
      else
        let dir := parent_path dir in
        if bool_decide (dir = root) then Ret None else option_loop f h root dir name in
    match h_configs h !! dir with
    | Some config =>
      if json_contains config name then
        v ← json_at config name; x ← get_as v; Ret (Some x)
      else next
    | None => next
    end
  end.

Definition getOption (h : http_server J) (p : path) (name : bytes) : outcome (option T) :=
  sub ← isSubpath (h_webRoot h) p;
  if negb sub then
    Throw (InvalidArgument (lit "Not a subpath of the webroot (" ++ path_string (h_webRoot h)
                            ++ lit "): " ++ path_string p))
  else
    let dir := parent_path p in
    let root := Path (p_root dir) [] in
    found ← option_loop (S (length (p_names dir))) h root dir name;
    match found with
    | Some x => Ret (Some x)
    | None =>
      if json_contains (h_options h) name then
        v ← json_at (h_options h) name; x ← get_as v; Ret (Some x)
      else Ret None
    end.

(** The overload for a path of the web. *)
Definition getOption_web (h : http_server J) (web_path : bytes) (name : bytes)
    : outcome (option T) :=
  let web_path := match web_path with
                  | c :: r => if Ascii.eqb c "/" then r else web_path
                  | [] => []
                  end in
  getOption h (path_append (h_webRoot h) (path_of web_path)) name.
End option.

(** The listing of a directory: every entry with whether it is a directory. *)
Variable directory_iterator : path -> outcome (list (path * bool)).
Context `{FSys : FileSystem}.

Definition config_name : bytes := lit ".algiz".

Fixpoint crawl_entries (crawl : path -> gmap path J -> outcome (gmap path J))
    (base : path) (entries : list (path * bool)) (m : gmap path J) : outcome (gmap path J) :=
  match entries with
  | [] => Ret m
  | (entry, is_directory) :: rest =>
    m' ← (if is_directory : bool then crawl entry m
          else if bool_decide (filename entry = config_name) then
            text ← readFile entry;
            match json_parse text with
            | Some json => Ret (match m !! base with Some _ => m | None => <[base := json]> m end)
            | None => Ret m
            end
          else Ret m);
    crawl_entries crawl base rest m'
  end.

Fixpoint crawlConfigs (fuel : nat) (base : path) (m : gmap path J) : outcome (gmap path J) :=
  match fuel with
  | O => Diverge
  | S f =>
    if negb (fs_is_directory (path_c_str base)) then
      Throw (RuntimeError (lit "Can't crawl " ++ path_string base ++ lit ": not a directory"))
    else
      entries ← directory_iterator base;
      crawl_entries (crawlConfigs f) base entries m
  end.

Definition addConfig (p : path) (h : http_server J) : outcome (http_server J) :=
  text ← readFile p;
  match json_parse text with
  | None => Ret h
  | Some json => Ret (set_configs (<[parent_path p := json]> (h_configs h)) h)
  end.

(** ** The interface of clients *)

#[export] Instance http_ServerOps : ServerOps world := {
  server_send := fun id message => on_net (net_send id message);
  server_close := fun id => on_net (net_close id);
  server_id := fun w => net_id w.2;
  option_postMax := fun w web_path => getOption_web json_get_size w.1 web_path (lit "postMax");
  server_handleGET := handleGET;
  server_handlePOST := handlePOST;
  server_handleWebSocketMessage := handleWebSocketMessage;
  server_closeWebSocket := http_closeWebSocket;
}.
End server.

(** The HTTP server passes the law on to its clients. *)
Section laws.
Context {J N : Type} `{JO : JsonOps J} `{NO : NetOps N} `{NL : !NetLog N} {HH : @Handlers J N}.
Variable sha1 : bytes -> bytes.

Lemma world_send_logged id b (w : @world J N) :
  net_connected id w.2 -> exists w',
    @server_send _ (http_ServerOps sha1) id b w = (Ret tt, w') /\ net_connected id w'.2 /\
    net_sent id w'.2 = net_sent id w.2 ++ b.
Proof.
  intros Hc. destruct (net_send_logged id b w.2 Hc) as (n' & E & Hc' & S').
  exists (w.1, n'). cbn [server_send http_ServerOps]. unfold on_net. by rewrite E.
Qed.

#[export] Instance world_SendLog : @SendLog (@world J N) (http_ServerOps sha1) := {|
  connected := fun id w => net_connected id w.2;
  sent := fun id w => net_sent id w.2;
  send_logged := world_send_logged;
|}.

Lemma send_to_logged message (c : client) h (n : N) :
  net_connected (c_id c) n -> exists n',
    send_to message (c, (h : http_server J, n)) = (Ret tt, (c, (h, n'))) /\
    net_connected (c_id c) n' /\ net_sent (c_id c) n' = net_sent (c_id c) n ++ message.
Proof.
  intros Hc. destruct (net_send_logged (c_id c) message n Hc) as (n' & E & Hc' & S').
  exists n'. unfold send_to, on_net_c. mrun. cbn [fst snd]. by rewrite E.
Qed.
End laws.

(** ** Theorems: configuration *)

Section config_theorems.
Context {J : Type} `{JO : JsonOps J} {T : Type}.
Variable get_as : J -> outcome T.

(** The first of some directories whose configuration has the option. *)
Fixpoint first_config (h : http_server J) (dirs : list path) (name : bytes) : option J :=
  match dirs with
  | [] => None
  | d :: rest => match h_configs h !! d with
                 | Some config => if json_contains config name then Some config
                                  else first_config h rest name
                 | None => first_config h rest name
                 end
  end.

Definition read_option (config : option J) (name : bytes) : outcome (option T) :=
  match config with
  | Some c => v ← json_at c name; x ← get_as v; Ret (Some x)
  | None => Ret None
  end.

(** The directories of a path below [base], the innermost one first, down to
    [base] itself. *)
Definition enclosing (base s : list bytes) : list path :=
  map (fun i => Path true (base ++ take i s)) (rev (seq 0 (length s))).

Lemma removelast_take {A} (l : list A) k :
  S k <= length l -> removelast (take (S k) l) = take k l.
Proof.
  revert k. induction l as [|x l IH]; intros k Hk; [simpl in Hk; lia|].
  destruct k as [|k]; [done|]. simpl in Hk.
  change (take (S (S k)) (x :: l)) with (x :: take (S k) l).
  change (take (S k) (x :: l)) with (x :: take k l).
  rewrite <- (IH k) by lia. destruct l; [simpl in Hk; lia|]. done.
Qed.

Lemma option_loop_spec h base s name k fuel :
  h_webRoot h = Path true base -> base <> [] -> k <= length s -> k < fuel ->
  option_loop get_as fuel h root_path (Path true (base ++ take k s)) name
  = read_option (first_config h (map (fun i => Path true (base ++ take i s))
                                   (rev (seq 0 (S k)))) name) name.
Proof.
  intros Hroot Hbase. revert fuel. induction k as [|k IH]; intros fuel Hk Hf;
    (destruct fuel as [|fuel]; [lia|]); cbn [option_loop].
  - change (rev (seq 0 1)) with [0]. cbn [map first_config].
    rewrite (bool_decide_true (_ = h_webRoot h)) by (by rewrite Hroot, app_nil_r).
    destruct (h_configs h !! Path true (base ++ take 0 s)) as [c|]; [|done].
    destruct (json_contains c name); done.
  - rewrite seq_S, rev_app_distr. cbn [rev app map first_config].
    rewrite (bool_decide_false (_ = h_webRoot h)).
    2: { rewrite Hroot. intros [= H]. apply (f_equal length) in H.
         rewrite length_app, length_take in H. lia. }
    assert (parent_path (Path true (base ++ take (S k) s)) = Path true (base ++ take k s)) as ->.
    { unfold parent_path. cbn [p_root p_names]. f_equal.
      rewrite removelast_app by (destruct s; [simpl in Hk; lia|done]).
      by rewrite removelast_take by lia. }
    rewrite (bool_decide_false (_ = root_path)).
    2: { unfold root_path. intros [= H]. by apply app_eq_nil in H as [? _]. }
    rewrite IH by lia. change (0 + S k) with (S k).
    destruct (h_configs h !! Path true (base ++ take (S k) s)) as [c|]; [|done].
    destruct (json_contains c name); done.
Qed.

(** The search for an option ends and gives the value of the innermost
    directory, from the one that holds the path up to the web root, whose
    configuration has the option, and otherwise the value of the server's own
    options; no directory outside of the web root is looked at. *)
Theorem getOption_nearest h base s name :
  h_webRoot h = Path true base -> base <> [] -> s <> [] ->
  getOption get_as h (Path true (base ++ s)) name =
  match first_config h (enclosing base s) name with
  | Some config => read_option (Some config) name
  | None => if json_contains (h_options h) name then read_option (Some (h_options h)) name
            else Ret None
  end.
Proof.
  intros Hroot Hbase Hs. unfold getOption.
  assert (isSubpath (h_webRoot h) (Path true (base ++ s)) = Ret true) as ->.
  { rewrite Hroot. unfold isSubpath. case_bool_decide; [done|].
    rewrite isSubpath_loop_spec by done. f_equal. apply bool_decide_eq_true.
    cbn [p_root p_names]. split; [done|]. split; [done|]. by exists s. }
  mrun. cbn [negb]. unfold parent_path. cbn [p_root p_names].
  assert (exists k, length s = S k) as [k Hk] by (destruct s; [done|by eexists]).
  assert (removelast (base ++ s) = base ++ take k s) as ->.
  { rewrite removelast_app by done. f_equal. rewrite <- (take_ge s (S k)) at 1 by lia.
    apply removelast_take. lia. }
  fold root_path. rewrite option_loop_spec.
  - unfold enclosing. rewrite Hk.
    destruct (first_config h _ name) as [c|]; cbn [read_option].
    + destruct (json_at c name) as [v| | |]; mrun; [|done..]. by destruct (get_as v).
    + done.
  - done.
  - done.
  - lia.
  - rewrite length_app, length_take. lia.
Qed.
End config_theorems.

(** A JSON library for objects of strings, to run the definitions with. *)
#[export] Instance string_json : JsonOps (gmap bytes bytes) := {
  json_parse := fun _ => None;
  json_contains := fun j name => bool_decide (is_Some (j !! name));
  json_at := fun j name => match j !! name with
                           | Some v => Ret {[ [] := v ]}
                           | None => Throw JsonOutOfRange
                           end;
  json_get_bool := fun j => Ret (bool_decide (j !! [] = Some (lit "true")));
  json_get_size := fun j => parseUlong_view (default [] (j !! []));
  json_get_string := fun j => Ret (default [] (j !! []));
  json_get_strings := fun j => Ret [default [] (j !! [])];
  json_is_string := fun _ => true;
  json_is_array := fun _ => false;
}.

Definition example_http : http_server (gmap bytes bytes) :=
  HttpServer ∅ (path_of (lit "/srv/www")) [] [] [] {[ 3%Z := [1%Z] ]} ∅
    {[ path_of (lit "/srv/www") := {[ lit "postMax" := lit "10" ]};
       path_of (lit "/srv/www/up") := {[ lit "postMax" := lit "99" ]};
       path_of (lit "/srv") := {[ lit "postMax" := lit "7" ]} ]}.

Lemma getOption_nearest_witness :
  getOption json_get_size example_http (path_of (lit "/srv/www/up/x/f")) (lit "postMax")
  = Ret (Some 99%Z).
Proof.
  refine (eq_trans (getOption_nearest json_get_size example_http [lit "srv"; lit "www"]
            [lit "up"; lit "x"; lit "f"] (lit "postMax") eq_refl _ _) _).
  - discriminate.
  - discriminate.
  - vm_compute. reflexivity.
Defined.

(** ** Theorems: the parts of a path *)

(** A byte that the encoding of no byte contains. *)
Lemma escapeURL_avoids x s :
  forallb (fun c => negb (existsb (Ascii.eqb x) (escapeURL_char c))) all_bytes = true -> x ∉ escapeURL s.
Proof.
  intros H. induction s as [|c s IH]; [apply not_elem_of_nil|].
  change (escapeURL (c :: s)) with (escapeURL_char c ++ escapeURL s). rewrite not_elem_of_app. split; [|done].
  pose proof (byte_forall _ H c) as Hc. cbv beta in Hc. apply negb_true_iff in Hc. intros Hin.
  assert (existsb (Ascii.eqb x) (escapeURL_char c) = true) as E; [|congruence].
  apply existsb_exists. exists x. rewrite <- list_elem_of_In. split; [done|apply Ascii.eqb_refl].
Qed.

Lemma escapeURL_no_slash s : "/"%char ∉ escapeURL s.
Proof. apply escapeURL_avoids. vm_compute. reflexivity. Qed.

Lemma escapeURL_nonempty s : s <> [] -> escapeURL s <> [].
Proof.
  destruct s as [|c s]; [done|]. intros _. change (escapeURL (c :: s)) with (escapeURL_char c ++ escapeURL s).
  assert (Hc : forall a, negb (bool_decide (escapeURL_char a = [])) = true)
    by (apply byte_forall; vm_compute; reflexivity).
  specialize (Hc c). apply negb_true_iff, bool_decide_eq_false in Hc.
  by destruct (escapeURL_char c).
Qed.

Lemma unescape_all_escaped parts :
  Forall (fun p => (Z.of_nat (length (escapeURL p)) < W64)%Z) parts ->
  unescape_all (map escapeURL parts) = Ret parts.
Proof.
  induction parts as [|p parts IH]; intros Hall; [done|].
  apply Forall_cons_1 in Hall as [Hp Hall]. cbn [map unescape_all].
  rewrite unescape_of_escapeURL by done. mrun. by rewrite IH.
Qed.

(** A path built from any non-empty parts, percent-encoded, is split into
    exactly those parts. *)
Theorem getParts_escaped parts :
  parts <> [] ->
  Forall (fun p => p <> [] /\ (Z.of_nat (length (escapeURL p)) < W64)%Z) parts ->
  getParts (lit "/" ++ join (map escapeURL parts) (lit "/")) = Ret parts.
Proof.
  intros Hne Hall. change (lit "/" ++ join (map escapeURL parts) (lit "/"))
    with ("/"%char :: join (map escapeURL parts) (lit "/")).
  cbn [getParts]. change (lit "/") with ["/"%char]. rewrite split_join_char.
  - mrun. apply unescape_all_escaped. eapply List.Forall_impl; [|exact Hall]. by intros ? [].
  - by destruct parts.
  - rewrite Forall_map. eapply List.Forall_impl; [|exact Hall].
    intros p [Hp _]. split; [by apply escapeURL_nonempty|apply escapeURL_no_slash].
Qed.

Lemma getParts_escaped_witness :
  getParts (lit "/a%20b/%2f%2e") = Ret [lit "a b"; lit "/."] /\
  getParts (lit "/" ++ join (map escapeURL [lit "a b"; lit "x/y"]) (lit "/"))
  = Ret [lit "a b"; lit "x/y"].
Proof.
  split; [vm_compute; reflexivity|].
  apply (getParts_escaped [lit "a b"; lit "x/y"]); [discriminate|].
  repeat constructor; discriminate.
Defined.

(** ** Theorems: dispatch *)

Section dispatch.
Context {J N : Type} `{JO : JsonOps J} `{NO : NetOps N} {HH : @Handlers J N}.
Variable sha1 : bytes -> bytes.
Implicit Types s : client * @world J N.

Lemma with_args_ok {Args A} (args args' : Args) (m : M (Args * (client * world)) A) a s s' :
  m (args, s) = (Ret a, (args', s')) -> with_args args m s = (Ret (a, args'), s').
Proof. unfold with_args. by intros ->. Qed.

Lemma handleGET_run s s' parts args' (passed : bool) result :
  validatePath (q_path (c_request s.1)) = true -> wants_webSocket (c_request s.1) = false ->
  getParts (q_path (c_request s.1)) = Ret parts ->
  propagates lock_handler (h_getHandlers s.2.1) true
    (MkHandlerArgs (c_request s.1) parts, s) (passed, result) (args', s') ->
  handleGET sha1 s = if bool_decide (result = HPass) then unhandled s' else (Ret tt, s').
Proof.
  intros Hv Hw Hp Hr. apply beforeMulti_refines in Hr.
  unfold handleGET, world in *. mrun. rewrite Hv, Hw. cbn [negb].
  unfold run_handlers, world in *. mrun. rewrite Hp.
  rewrite (with_args_ok _ _ _ _ _ _ Hr). cbn [fst snd]. by destruct result.
Qed.

(** A GET for a valid path that asks for no upgrade is handed to the
    handlers by the rules of propagation, with the request and the decoded
    parts of its path, and the server answers by itself, with a 501 and the
    end of the connection, exactly when no handler gives a final answer. *)
Theorem handleGET_dispatch s s' parts args' (passed : bool) result :
  validatePath (q_path (c_request s.1)) = true -> wants_webSocket (c_request s.1) = false ->
  getParts (q_path (c_request s.1)) = Ret parts ->
  propagates lock_handler (h_getHandlers s.2.1) true
    (MkHandlerArgs (c_request s.1) parts, s) (passed, result) (args', s') ->
  handleGET sha1 s = if bool_decide (result = HPass) then unhandled s' else (Ret tt, s').
Proof. apply handleGET_run. Qed.

(** The upgrade to a WebSocket computes the accept key of RFC 6455 and
    switches the client over as soon as one handler's answer is final, whether
    that answer lets the connection through or not. *)
Theorem handleGET_upgrade s key version parts passed args' s' :
  let q := c_request s.1 in
  validatePath (q_path q) = true -> wants_webSocket q = true ->
  q_headers q !! lit "sec-websocket-key" = Some key -> length key = 24 ->
  q_headers q !! lit "sec-websocket-version" = Some version ->
  q_headers q !! lit "sec-websocket-protocol" = None -> getParts (q_path q) = Ret parts ->
  propagates lock_connection (h_webSocketConnectionHandlers s.2.1) true
    (MkConnectionArgs (MkHandlerArgs q parts) [] [], (set_webSocket parts s.1, s.2))
    (passed, HKill) (args', s') ->
  exists response,
    handleGET sha1 s = send_to (render response) s' /\
    r_code response = 101%Z /\
    r_headers response !! lit "sec-websocket-accept"
      = Some (rfc_encode (sha1 (key ++ webSocket_guid))) /\
    r_headers response !! lit "connection" = Some (lit "Upgrade") /\
    c_isWebSocket (set_webSocket parts s.1) = true.
Proof.
  intros q Hv Hw Hk Hlen Hver Hprot Hparts Hr. subst q. apply beforeMulti_refines in Hr.
  set (r := set_at (set_at (set_at (make_response 101 []) (lit "upgrade") (lit "websocket"))
              (lit "connection") (lit "Upgrade")) (lit "sec-websocket-accept")
              (rfc_encode (sha1 (key ++ webSocket_guid)))).
  set (r' := if bool_decide (wa_acceptedProtocol args' = []) then r
             else set_at r (lit "sec-websocket-protocol") (wa_acceptedProtocol args')).
  exists r'. split.
  - unfold handleGET, world in *. mrun. rewrite Hv, Hw. cbn [negb].
    unfold upgrade_webSocket. rewrite Hk, Hver, Hlen. change (24 =? 24) with true. cbn [negb].
    rewrite Hprot. unfold world in *. mrun. rewrite Hparts.
    pose proof (with_args_ok _ _ _ _ _ _ Hr) as Hok. unfold world in Hok.
    cbn [fst snd]. rewrite Hok. cbn [fst snd].
    rewrite bool_decide_false by done. unfold switching_protocols.
    rewrite base64Encode_spec. mrun. reflexivity.
  - unfold r', r. destruct (bool_decide _); unfold set_at, with_headers;
      cbn [r_code r_headers make_response make_response_mime setClose setHeader];
      repeat split; repeat (rewrite lookup_insert_eq || rewrite lookup_insert_ne by done); done.
Qed.

(** Closing a WebSocket runs its close handlers but leaves the tables of
    handlers as they are: messages of a later client that is given the same
    identifier go to the handlers of the closed one. *)
Theorem stale_message_handlers (c c2 : client) h (n : N) r handlers message n' :
  h_webSocketCloseHandlers h !! c_id c = None ->
  h_webSocketMessageHandlers h !! c_id c = Some handlers ->
  net_close (c_id c) n = (Ret r, n') -> c_id c2 = c_id c ->
  http_closeWebSocket (c, (h, n)) = (Ret tt, (c, (h, n'))) /\
  forall n2, handleWebSocketMessage message (c2, (h, n2)) =
    (_ ← beforeMulti (message_lock message) handlers true;
     mret tt) (c2, (h, n2)).
Proof.
  intros Hc Hm Hn Hid. split.
  - unfold http_closeWebSocket, close_client, on_net_c. mrun. cbn [fst snd]. rewrite Hc.
    cbn [fst snd]. by rewrite Hn.
  - intros n2. unfold handleWebSocketMessage. mrun. cbn [fst snd]. by rewrite Hid, Hm.
Qed.

(** Cleaning the tables leaves the live handlers of every client, in order. *)
Lemma clean_table_lookup (m : gmap Z (list weak)) id :
  clean_table m !! id =
  (handlers ← m !! id;
   match filter (fun x => is_Some (handler_live x)) handlers with [] => None | l => Some l end).
Proof.
  unfold clean_table. rewrite lookup_omap. destruct (m !! id) as [handlers|]; [|done].
  cbn [mbind option_bind]. rewrite erase_expired_live by done. by destruct (filter _ handlers).
Qed.

(** The clients' private fields are out of reach of handlers that respect
    them, which is what the framing theorems ask of the server. *)
Definition message_oblivious : Prop :=
  forall p (s : client * world) f a k m o r pk l,
    lock_message p (set_frame a k m o r pk l s.1, s.2) = lock_message p s /\
    (lock_message p s = Some f -> forall msg b,
       f msg b (set_frame a k m o r pk l s.1, s.2) =
       let '(x, (c', w')) := f msg b s in (x, (set_frame a k m o r pk l c', w'))).

Lemma beforeMulti_oblivious msg handlers b s a k m o r pk l :
  message_oblivious ->
  beforeMulti (message_lock msg) handlers b (set_frame a k m o r pk l s.1, s.2) =
  let '(x, (c', w')) := beforeMulti (message_lock msg) handlers b s in
  (x, (set_frame a k m o r pk l c', w')).
Proof.
  intros Hob. revert b s. induction handlers as [|p rest IH]; intros b s; cbn [beforeMulti]; mrun.
  - by destruct s.
  - assert (Hp : lock_message p (set_frame a k m o r pk l s.1, s.2) = lock_message p s)
      by apply (Hob p s (fun _ _ => mret CPass)).
    destruct (lock_message p s) as [f|] eqn:E.
    + assert (message_lock msg p s = Some (f msg)) as -> by (unfold message_lock; by rewrite E).
      assert (message_lock msg p (set_frame a k m o r pk l s.1, s.2) = Some (f msg)) as ->
        by (unfold message_lock; by rewrite Hp).
      destruct (Hob p s f a k m o r pk l) as [_ Hf].
      rewrite (Hf E msg b). destruct (f msg b s) as [[x| | |] [c' w']]; try done.
      destruct x; try done; apply (IH _ (c', w')).
    + assert (message_lock msg p s = None) as -> by (unfold message_lock; by rewrite E).
      assert (message_lock msg p (set_frame a k m o r pk l s.1, s.2) = None) as ->
        by (unfold message_lock; by rewrite Hp).
      apply IH.
Qed.

Lemma http_oblivious : message_oblivious ->
  @FrameOblivious (@world J N) (http_ServerOps sha1).
Proof.
  intros Hob. constructor. intros msg a f k o r p l c w. cbn [server_handleWebSocketMessage http_ServerOps].
  unfold handleWebSocketMessage. mrun. cbn [fst snd].
  change (c_id (set_frame a f k o r p l c)) with (c_id c).
  destruct (h_webSocketMessageHandlers w.1 !! c_id c) as [handlers|]; [|done].
  pose proof (beforeMulti_oblivious msg handlers true (c, w) a f k o r p l Hob) as Hb.
  cbn [fst snd] in Hb. rewrite Hb.
  by destruct (beforeMulti _ handlers true (c, w)) as [[x| | |] [c' w']].
Qed.
End dispatch.

(** ** Witnesses *)

#[export] Instance log_net : NetOps (list bytes) := {
  net_send := fun _ b n => (Ret tt, n ++ [b]);
  net_close := fun _ n => (Ret true, n ++ [lit "close"]);
  net_id := fun _ => lit "server";
}.

Lemma log_net_logged (id : Z) (b : bytes) (n : list bytes) : True -> exists n',
  net_send id b n = (Ret tt, n') /\ True /\ concat n' = concat n ++ b.
Proof.
  intros _. exists (n ++ [b]). split; [done|]. split; [done|].
  rewrite concat_app. cbn [concat]. by rewrite app_nil_r.
Qed.

#[export] Instance log_net_log : NetLog (list bytes) := {|
  net_connected := fun _ _ => True;
  net_sent := fun _ n => concat n;
  net_send_logged := log_net_logged;
|}.

(** The handler 1 echoes messages, 2 approves and 3 refuses connections, 4 is
    a GET handler; any other pointer is expired. *)
#[local] Instance example_handlers : @Handlers (gmap bytes bytes) (list bytes) := {
  lock_handler := fun p _ => if (p =? 4)%Z then Some (fun _ => mret CApprove) else None;
  lock_connection := fun p _ => if (p =? 3)%Z then Some (fun _ => mret CKill) else None;
  lock_message := fun p _ =>
    if (p =? 1)%Z then Some (fun m _ => send_to m ;; mret CKill) else None;
  lock_close := fun _ _ => None;
  handler_live := fun p => if (p <? 5)%Z then Some p else None;
}.

Definition with_request (q : request) : client * @world (gmap bytes bytes) (list bytes) :=
  (set_request q (new_client 3 []),
   (HttpServer ∅ (path_of (lit "/srv/www")) [7; 4]%Z [] [3%Z] {[ 3%Z := [1%Z] ]} ∅ ∅, [])).

Lemma handleGET_dispatch_witness :
  handleGET id (with_request (set_path (lit "/a") new_request))
  = (Ret tt, with_request (set_path (lit "/a") new_request)).
Proof.
  apply (handleGET_dispatch id (with_request (set_path (lit "/a") new_request))
           (with_request (set_path (lit "/a") new_request)) [lit "a"]
           (MkHandlerArgs (set_path (lit "/a") new_request) [lit "a"]) true HKill).
  - reflexivity.
  - reflexivity.
  - reflexivity.
  - apply prop_expired; [reflexivity|].
    exact (prop_stop _ 4%Z [] true _ (fun _ => mret CApprove) CApprove _ eq_refl eq_refl eq_refl).
Defined.

Definition upgrade_request : request :=
  set_headers {[ lit "connection" := lit "Upgrade"; lit "upgrade" := lit "websocket";
                 lit "sec-websocket-key" := lit "dGhlIHNhbXBsZSBub25jZQ==";
                 lit "sec-websocket-version" := lit "13" ]}
    (set_path (lit "/chat") new_request).

(** The connection handler refuses, and the client is switched over. *)
Lemma handleGET_upgrade_witness :
  exists response,
    handleGET id (with_request upgrade_request)
    = send_to (render response)
        (set_webSocket [lit "chat"] (with_request upgrade_request).1,
         (with_request upgrade_request).2) /\
    r_code response = 101%Z.
Proof.
  destruct (handleGET_upgrade id (with_request upgrade_request) (lit "dGhlIHNhbXBsZSBub25jZQ==")
              (lit "13") [lit "chat"] false
              (MkConnectionArgs (MkHandlerArgs upgrade_request [lit "chat"]) [] [])
              (set_webSocket [lit "chat"] (with_request upgrade_request).1,
               (with_request upgrade_request).2)
              ltac:(vm_compute; reflexivity) ltac:(vm_compute; reflexivity)
              ltac:(vm_compute; reflexivity) eq_refl ltac:(vm_compute; reflexivity)
              ltac:(vm_compute; reflexivity) ltac:(vm_compute; reflexivity))
    as (response & H1 & H2 & _).
  - exact (prop_stop _ 3%Z [] true _ (fun _ => mret CKill) CKill _ eq_refl eq_refl eq_refl).
  - exists response. split; [exact H1|exact H2].
Defined.

Lemma stale_message_handlers_witness :
  let h := (with_request new_request).2.1 in
  http_closeWebSocket (new_client 3 (lit "old"), (h, []))
    = (Ret tt, (new_client 3 (lit "old"), (h, [lit "close"]))) /\
  handleWebSocketMessage (lit "hi") (new_client 3 (lit "new"), (h, []))
    = (Ret tt, (new_client 3 (lit "new"), (h, [lit "hi"]))).
Proof.
  destruct (stale_message_handlers (J := gmap bytes bytes) (N := list bytes) (new_client 3 (lit "old")) (new_client 3 (lit "new"))
              (with_request new_request).2.1 [] true [1%Z] (lit "hi") [lit "close"]
              ltac:(reflexivity) ltac:(reflexivity) ltac:(reflexivity) ltac:(reflexivity))
    as [H1 H2].
  split; [exact H1|]. exact (H2 []).
Defined.
