(* ===== verification/NetServer.v ===== *)
(** * The network server

    [src/net/Server.cpp], [include/net/Server.h] and the connection handling of
    [src/net/SSLServer.cpp]: the tables that tie file descriptors, client
    identifiers, client objects, bufferevents and workers together, and the
    reading of lines.  The library's bufferevents are modelled by the bytes
    waiting in their two buffers; a bufferevent is its address, which the
    allocator may hand out again once it has been freed. *)

From Stdlib Require Import ZArith Lia Ascii String.
From stdpp Require Import base tactics option list strings gmap sets.
From S2P Require Import Prelude Util.

(** The fields of a client the server uses. *)
Class GenericClient (C : Type) := {
  gc_lineMode : C -> bool;
  gc_maxLineSize : C -> Z;
  gc_maxRead : C -> Z;
  gc_set_maxRead : Z -> C -> C;
  gc_describe : C -> bytes;
}.

(** What [clientsMutex] protects. *)
Record ctable (C : Type) := CTable {
  t_clients : gmap Z Z;        (* descriptor to identifier *)
  t_descriptors : gmap Z Z;    (* identifier to descriptor *)
  t_allClients : gmap Z C;
  t_freePool : gset Z;
  t_lastClient : Z;
}.
Arguments CTable {C}.
Arguments t_clients {C}.
Arguments t_descriptors {C}.
Arguments t_allClients {C}.
Arguments t_freePool {C}.
Arguments t_lastClient {C}.

(** What [descriptorsMutex] protects, and the table of workers. *)
Record etable := ETable {
  e_bufferEvents : gmap Z Z;           (* descriptor to bufferevent *)
  e_bufferEventDescriptors : gmap Z Z; (* bufferevent to descriptor *)
  e_workerMap : gmap Z Z;
}.

(** What belongs to the workers, indexed by the worker first. *)
Record wtable := WTable {
  w_readBuffers : gmap (Z * Z) bytes;
  w_closeQueue : gset (Z * Z);
  w_acceptQueues : gmap Z (list Z);
}.

(** The library: the unread input and unsent output of each bufferevent. *)
Record evtable := EvTable {
  v_input : gmap Z bytes;
  v_output : gmap Z bytes;
  v_ssls : gset Z;
}.

Record net (C : Type) := Net {
  n_ct : ctable C;
  n_et : etable;
  n_wt : wtable;
  n_ev : evtable;
  n_threadCursor : Z;
}.
Arguments Net {C}.
Arguments n_ct {C}.
Arguments n_et {C}.
Arguments n_wt {C}.
Arguments n_ev {C}.
Arguments n_threadCursor {C}.

Section net.
Context {C : Type} `{GC : GenericClient C}.
Implicit Types n : net C.

Definition with_ct (f : ctable C -> ctable C) n : net C :=
  Net (f (n_ct n)) (n_et n) (n_wt n) (n_ev n) (n_threadCursor n).
Definition with_et (f : etable -> etable) n : net C :=
  Net (n_ct n) (f (n_et n)) (n_wt n) (n_ev n) (n_threadCursor n).
Definition with_wt (f : wtable -> wtable) n : net C :=
  Net (n_ct n) (n_et n) (f (n_wt n)) (n_ev n) (n_threadCursor n).
Definition with_ev (f : evtable -> evtable) n : net C :=
  Net (n_ct n) (n_et n) (n_wt n) (f (n_ev n)) (n_threadCursor n).
Definition set_cursor (z : Z) n : net C :=
  Net (n_ct n) (n_et n) (n_wt n) (n_ev n) z.
Definition set_input (b : Z) (s : bytes) : net C -> net C :=
  with_ev (fun v => EvTable (<[b := s]> (v_input v)) (v_output v) (v_ssls v)).
Definition set_output (b : Z) (s : bytes) : net C -> net C :=
  with_ev (fun v => EvTable (v_input v) (<[b := s]> (v_output v)) (v_ssls v)).
Definition set_readBuffer (w fd : Z) (s : bytes) : net C -> net C :=
  with_wt (fun t => WTable (<[(w, fd) := s]> (w_readBuffers t)) (w_closeQueue t) (w_acceptQueues t)).
Definition set_client (id : Z) (c : C) : net C -> net C :=
  with_ct (fun t => CTable (t_clients t) (t_descriptors t) (<[id := c]> (t_allClients t))
                      (t_freePool t) (t_lastClient t)).

(** [at]. *)
Definition at_ {K V} `{Lookup K V T} (k : K) (m : T) : outcome V :=
  match m !! k with Some v => Ret v | None => Throw OutOfRange end.

(** The handlers the application installs; an empty one is not called. *)
Variable closeHandler : option (Z -> M (net C) ()).
Variable messageHandler : Z -> bytes -> M (net C) ().
Variable onMaxLineSizeExceeded : Z -> M (net C) ().

Definition getDescriptor (client : Z) : M (net C) Z :=
  n ← get; lift (at_ client (t_descriptors (n_ct n))).
Definition getBufferEvent (descriptor : Z) : M (net C) Z :=
  n ← get; lift (at_ descriptor (e_bufferEvents (n_et n))).

(** A use of a bufferevent that has been freed is undefined. *)
Definition output_of (b : Z) : M (net C) bytes :=
  n ← get; match v_output (n_ev n) !! b with Some s => mret s | None => undefined end.
Definition input_of (b : Z) : M (net C) bytes :=
  n ← get; match v_input (n_ev n) !! b with Some s => mret s | None => undefined end.

Definition write_to (b : Z) (message : bytes) : M (net C) () :=
  old ← output_of b; modify (set_output b (old ++ message)).

Definition send (client : Z) (message : bytes) : M (net C) Z :=
  catch
    (fd ← getDescriptor client;
     b ← getBufferEvent fd;
     write_to b message ;; mret 0%Z)
    (fun e => match e with OutOfRange => Some (mret (-1)%Z) | _ => None end).

(** ** Removing a connection *)

Definition forget_event (b fd : Z) (t : etable) : etable :=
  ETable (delete fd (e_bufferEvents t)) (delete b (e_bufferEventDescriptors t)) (e_workerMap t).
Definition forget_client (id fd : Z) (t : ctable C) : ctable C :=
  CTable (delete fd (t_clients t)) (delete id (t_descriptors t)) (delete id (t_allClients t))
    ({[ id ]} ∪ t_freePool t) (t_lastClient t).
Definition forget_buffer (w fd : Z) (t : wtable) : wtable :=
  WTable (delete (w, fd) (w_readBuffers t)) (w_closeQueue t) (w_acceptQueues t).
Definition forget_worker (b : Z) (t : etable) : etable :=
  ETable (e_bufferEvents t) (e_bufferEventDescriptors t) (delete b (e_workerMap t)).
Definition free_event (b : Z) (v : evtable) : evtable :=
  EvTable (delete b (v_input v)) (delete b (v_output v)) (v_ssls v).
Definition forget_ssl (fd : Z) (v : evtable) : evtable :=
  EvTable (v_input v) (v_output v) (v_ssls v ∖ {[ fd ]}).

(** [Worker::remove], and [SSLServer::Worker::remove] for [ssl]. *)
Definition worker_remove (ssl : bool) (w b : Z) : M (net C) () :=
  n ← get;
  descriptor ← lift (at_ b (e_bufferEventDescriptors (n_et n)));
  modify (with_et (forget_event b descriptor)) ;;
  n ← get;
  client_id ← lift (at_ descriptor (t_clients (n_ct n)));
  match closeHandler with Some h => h client_id | None => mret tt end ;;
  modify (with_ct (forget_client client_id descriptor)) ;;
  modify (with_wt (forget_buffer w descriptor)) ;;
  modify (with_et (forget_worker b)) ;;
  when ssl (modify (with_ev (forget_ssl descriptor))) ;;
  modify (with_ev (free_event b)).

Definition removeDescriptor (ssl : bool) (w descriptor : Z) : M (net C) () :=
  b ← getBufferEvent descriptor; worker_remove ssl w b.

Definition worker_removeClient (ssl : bool) (w client : Z) : M (net C) () :=
  fd ← getDescriptor client; b ← getBufferEvent fd; worker_remove ssl w b.

Definition server_remove (ssl : bool) (b : Z) : M (net C) bool :=
  n ← get;
  match e_workerMap (n_et n) !! b with
  | None => mret false
  | Some w => worker_remove ssl w b ;; mret true
  end.

Definition removeClient (ssl : bool) (client : Z) : M (net C) bool :=
  fd ← getDescriptor client; b ← getBufferEvent fd; server_remove ssl b.

Definition queueClose (ssl : bool) (w b : Z) : M (net C) () :=
  out ← output_of b;
  if bool_decide (out = []) then worker_remove ssl w b
  else modify (with_wt (fun t => WTable (w_readBuffers t) ({[ (w, b) ]} ∪ w_closeQueue t)
                                   (w_acceptQueues t))).

Definition queueClose_client (ssl : bool) (w client : Z) : M (net C) () :=
  fd ← getDescriptor client; b ← getBufferEvent fd; queueClose ssl w b.

Definition close (ssl : bool) (client_id : Z) : M (net C) bool := fun n =>
  match (fd ← getDescriptor client_id; getBufferEvent fd) n with
  | (Throw OutOfRange, n') => (Ret false, n')
  | (Ret b, n') =>
    (n ← get; w ← lift (at_ b (e_workerMap (n_et n))); queueClose ssl w b ;; mret true) n'
  | (Throw e, n') => (Throw e, n')
  | (Undef, n') => (Undef, n')
  | (Diverge, n') => (Diverge, n')
  end.

Definition handleWriteEmpty (ssl : bool) (w b : Z) : M (net C) () :=
  n ← get;
  let contains := bool_decide ((w, b) ∈ w_closeQueue (n_wt n)) in
  when contains (modify (with_wt (fun t => WTable (w_readBuffers t)
                   (w_closeQueue t ∖ {[ (w, b) ]}) (w_acceptQueues t)))) ;;
  when contains (worker_remove ssl w b).

Definition handleEOF (ssl : bool) (w b : Z) : M (net C) () := worker_remove ssl w b.

(** ** Accepting a connection *)

(** An IPv4 address mapped to IPv6 loses its prefix. *)
Definition unmap_ip (ip : bytes) : bytes :=
  if bool_decide (take 7 ip = lit "::ffff:") && bool_decide (is_Some (find_char "." ip))
  then drop 7 ip else ip.

(** The identifier for a new client: the pool's first one, in the order the
    hash set happens to have, or a new one. *)
Definition take_id (pick : gset Z -> option Z) (t : ctable C) : Z * ctable C :=
  match pick (t_freePool t) with
  | Some id => (id, CTable (t_clients t) (t_descriptors t) (t_allClients t)
                      (t_freePool t ∖ {[ id ]}) (t_lastClient t))
  | None => let id := (t_lastClient t + 1)%Z in
            (id, CTable (t_clients t) (t_descriptors t) (t_allClients t) (t_freePool t) id)
  end.

Variable pick : gset Z -> option Z.
Variable addClient : Z -> Z -> bytes -> M (net C) ().

(** [allocated] is what the library returns for the new bufferevent. *)
Definition accept (ssl : bool) (w new_fd : Z) (allocated : option Z) (ip : bytes)
    : M (net C) () :=
  n ← get;
  let '(new_client, t) := take_id pick (n_ct n) in
  modify (with_ct (fun _ =>
    CTable (<[new_fd := new_client]> (t_clients t))
      (match t_descriptors t !! new_client with
       | Some _ => t_descriptors t
       | None => <[new_client := new_fd]> (t_descriptors t)
       end) (t_allClients t) (t_freePool t) (t_lastClient t))) ;;
  match allocated with
  | None => throw (RuntimeError (lit "buffer_event is null"))
  | Some b =>
    modify (with_ev (fun v =>
      EvTable (<[b := []]> (v_input v)) (<[b := []]> (v_output v)) (v_ssls v))) ;;
    n ← get;
    if bool_decide (is_Some (e_bufferEvents (n_et n) !! new_fd)) then
      throw (RuntimeError (lit "File descriptor " ++ to_dec new_fd
                           ++ lit " already has a bufferevent struct"))
    else
      modify (with_et (fun e =>
        ETable (<[new_fd := b]> (e_bufferEvents e))
          (match e_bufferEventDescriptors e !! b with
           | Some _ => e_bufferEventDescriptors e
           | None => <[b := new_fd]> (e_bufferEventDescriptors e)
           end) (e_workerMap e))) ;;
      when ssl (modify (with_ev (fun v =>
        EvTable (v_input v) (v_output v) ({[ new_fd ]} ∪ v_ssls v)))) ;;
      modify (with_et (fun e =>
        ETable (e_bufferEvents e) (e_bufferEventDescriptors e)
          (match e_workerMap e !! b with
           | Some _ => e_workerMap e
           | None => <[b := w]> (e_workerMap e)
           end))) ;;
      addClient w new_client ip
  end.

Definition plain_accept (w new_fd : Z) (allocated : option Z) (ip : bytes) : M (net C) () :=
  accept false w new_fd allocated (unmap_ip ip).

(** The filters of an SSL server, in order: a refused connection is closed
    before it enters any table.  The other kind of server does not ask them. *)
Fixpoint ip_allowed (filters : list (option (bytes -> Z -> bool))) (ip : bytes) (fd : Z) : bool :=
  match filters with
  | [] => true
  | Some f :: rest => if f ip fd then ip_allowed rest ip fd else false
  | None :: rest => ip_allowed rest ip fd
  end.

Definition ssl_accept (filters : list (option (bytes -> Z -> bool))) (w new_fd : Z)
    (allocated : option Z) (ip : bytes) : M (net C) () :=
  let ip := unmap_ip ip in
  if ip_allowed filters ip new_fd then accept true w new_fd allocated ip else mret tt.

Definition queueAccept (w new_fd : Z) n : net C :=
  with_wt (fun t => WTable (w_readBuffers t) (w_closeQueue t)
    (<[w := default [] (w_acceptQueues t !! w) ++ [new_fd]]> (w_acceptQueues t))) n.

(** The listener deals connections out to the workers in turn. *)
Definition listener_cb (threadCount : Z) (fd : Z) n : net C :=
  set_cursor ((n_threadCursor n + 1) mod threadCount) (queueAccept (n_threadCursor n) fd n).

(** The last one queued is accepted first. *)
Fixpoint worker_acceptcb (fuel : nat) (accept_fd : Z -> M (net C) ()) (w : Z) : M (net C) () :=
  n ← get;
  let queue := default [] (w_acceptQueues (n_wt n) !! w) in
  match last queue with
  | None => mret tt
  | Some descriptor =>
    match fuel with
    | O => diverge
    | S f =>
      modify (with_wt (fun t => WTable (w_readBuffers t) (w_closeQueue t)
        (<[w := removelast queue]> (w_acceptQueues t)))) ;;
      accept_fd descriptor ;; worker_acceptcb f accept_fd w
    end
  end.

Definition conn_writecb (ssl : bool) (w b : Z) : M (net C) () :=
  out ← output_of b;
  when (bool_decide (out = [])) (handleWriteEmpty ssl w b).

Definition conn_eventcb (ssl : bool) (w b : Z) (eof error_or_timeout : bool) : M (net C) () :=
  if eof then handleEOF ssl w b
  else when error_or_timeout (_ ← server_remove ssl b; mret tt).

(** ** Reading *)

Definition isMessageComplete (view : bytes) : option (nat * nat) :=
  match find_char lf view with Some found => Some (found, 1) | None => None end.

(** The references [str] and [client] of [handleRead]: using them after the
    connection has been removed is undefined. *)
Definition str_of (w fd : Z) : M (net C) bytes :=
  n ← get; match w_readBuffers (n_wt n) !! (w, fd) with Some s => mret s | None => undefined end.
Definition client_of (id : Z) : M (net C) C :=
  n ← get; match t_allClients (n_ct n) !! id with Some c => mret c | None => undefined end.

(** The loop over the complete lines of [view]: the bytes it has consumed. *)
Fixpoint line_loop (fuel : nat) (w fd id : Z) (view : bytes) (to_erase : nat) : M (net C) nat :=
  match isMessageComplete view with
  | None => mret to_erase
  | Some (index, delimiter_size) =>
    match fuel with
    | O => diverge
    | S f =>
      messageHandler id (take index view) ;;
      n ← get;
      if bool_decide (is_Some (t_clients (n_ct n) !! fd)) then
        _ ← str_of w fd;
        line_loop f w fd id (drop (index + delimiter_size) view)
          (to_erase + (index + delimiter_size))
      else mret to_erase
    end
  end.

Definition read_chunk (ssl : bool) (w fd id : Z) (chunk : bytes) : M (net C) () :=
  client ← client_of id;
  str ← str_of w fd;
  (if negb (gc_lineMode client) then
     messageHandler id chunk ;;
     _ ← str_of w fd;
     modify (set_readBuffer w fd [])
   else if (gc_maxLineSize client <? Z.of_nat (length str + length chunk))%Z then
     onMaxLineSizeExceeded id ;;
     removeDescriptor ssl w fd
   else
     let str := str ++ chunk in
     modify (set_readBuffer w fd str) ;;
     to_erase ← line_loop (length str) w fd id str 0;
     when (negb (to_erase =? 0))
       (str ← str_of w fd; modify (set_readBuffer w fd (drop to_erase str)))) ;;
  str ← str_of w fd;
  when (negb (bool_decide (str = [])))
    (client ← client_of id;
     if gc_lineMode client then
       throw (ParseError (lit "Text is left over in the buffer, but " ++ gc_describe client
                          ++ lit " is still in line mode"))
     else messageHandler id str).

Fixpoint read_loop (fuel : nat) (ssl : bool) (bufferSize w b fd id : Z) : M (net C) () :=
  input ← input_of b;
  if bool_decide (input = []) then mret tt
  else match fuel with
       | O => diverge
       | S f =>
         client ← client_of id;
         let max_read := gc_maxRead client in
         let use_max_read := (0 <? max_read)%Z in
         let to_read := Z.min bufferSize (Z.of_nat (length input)) in
         let to_read := if use_max_read then Z.min to_read max_read else to_read in
         let chunk := take (Z.to_nat to_read) input in
         modify (set_input b (drop (Z.to_nat to_read) input)) ;;
         when use_max_read
           (modify (set_client id (gc_set_maxRead (max_read - Z.of_nat (length chunk)) client))) ;;
         read_chunk ssl w fd id chunk ;;
         read_loop f ssl bufferSize w b fd id
       end.

Definition handleRead (ssl : bool) (bufferSize w b descriptor : Z) : M (net C) () :=
  if (descriptor =? -1)%Z then
    throw (RuntimeError (lit "descriptor is -1 in Worker::handleRead"))
  else
    input ← input_of b;
    catch
      (n ← get;
       modify (set_readBuffer w descriptor
                 (default [] (w_readBuffers (n_wt n) !! (w, descriptor)))) ;;
       client_id ← lift (at_ descriptor (t_clients (n_ct n)));
       match t_allClients (n_ct n) !! client_id with
       | None => mret tt
       | Some _ => read_loop (length input) ssl bufferSize w b descriptor client_id
       end)
      (fun e => if is_runtime_error e then Some (worker_remove ssl w b) else None).
End net.

(** The close handler the HTTP server installs, for a client without close
    handlers of plugins. *)
Definition http_closeHandler {C} (ssl : bool) (client_id : Z) : M (net C) () :=
  n ← get;
  _ ← lift (at_ client_id (t_allClients (n_ct n)));
  _ ← close None ssl client_id;
  mret tt.

(** ** Theorems: the tables *)

Section tables.
Context {C : Type} `{GC : GenericClient C}.
Implicit Types n : net C.

Record wf n : Prop := {
  wf_clients fd id :
    t_clients (n_ct n) !! fd = Some id <-> t_descriptors (n_ct n) !! id = Some fd;
  wf_events fd b :
    e_bufferEvents (n_et n) !! fd = Some b <-> e_bufferEventDescriptors (n_et n) !! b = Some fd;
  wf_same_descriptors fd :
    is_Some (t_clients (n_ct n) !! fd) <-> is_Some (e_bufferEvents (n_et n) !! fd);
  wf_workers b :
    is_Some (e_workerMap (n_et n) !! b) <-> is_Some (e_bufferEventDescriptors (n_et n) !! b);
  wf_outputs b :
    is_Some (v_output (n_ev n) !! b) <-> is_Some (e_bufferEventDescriptors (n_et n) !! b);
  wf_inputs b :
    is_Some (v_input (n_ev n) !! b) <-> is_Some (e_bufferEventDescriptors (n_et n) !! b);
  wf_instances id :
    is_Some (t_allClients (n_ct n) !! id) <-> is_Some (t_descriptors (n_ct n) !! id);
  wf_pool id :
    (id ∈ t_freePool (n_ct n) \/ is_Some (t_descriptors (n_ct n) !! id))
    <-> (0 <= id <= t_lastClient (n_ct n))%Z;
  wf_disjoint id : id ∈ t_freePool (n_ct n) -> t_descriptors (n_ct n) !! id = None;
  wf_last : (-1 <= t_lastClient (n_ct n))%Z;
}.

(** Nothing but the contents of buffers differs. *)
Definition same_tables n n' : Prop :=
  n_ct n' = n_ct n /\ n_et n' = n_et n /\ n_wt n' = n_wt n /\ v_ssls (n_ev n') = v_ssls (n_ev n) /\
  (forall b, is_Some (v_output (n_ev n') !! b) <-> is_Some (v_output (n_ev n) !! b)) /\
  (forall b, is_Some (v_input (n_ev n') !! b) <-> is_Some (v_input (n_ev n) !! b)).

(** A close handler that, called for a connection whose bufferevent is out of
    the tables already, changes nothing but what other clients are sent. *)
Definition quiet_close_handler (h : Z -> M (net C) ()) : Prop :=
  forall id fd n,
    t_descriptors (n_ct n) !! id = Some fd -> e_bufferEvents (n_et n) !! fd = None ->
    is_Some (t_allClients (n_ct n) !! id) -> exists n', h id n = (Ret tt, n') /\ same_tables n n'.

Definition quiet (closeHandler : option (Z -> M (net C) ())) : Prop :=
  match closeHandler with Some h => quiet_close_handler h | None => True end.

Lemma same_tables_refl n : same_tables n n.
Proof. repeat split; auto. Qed.

(** The HTTP server's close handler asks for the connection to be closed once
    more, which finds no bufferevent and does nothing. *)
Lemma http_closeHandler_quiet ssl : quiet_close_handler (http_closeHandler ssl).
Proof.
  intros id fd n Hd Hb [c Hc]. exists n. split; [|apply same_tables_refl].
  unfold http_closeHandler, close, getDescriptor, getBufferEvent, at_. mrun.
  rewrite Hc, Hd, Hb. done.
Qed.

Section remove.
Variable closeHandler : option (Z -> M (net C) ()).
Hypothesis Hquiet : quiet closeHandler.

Definition removed (ssl : bool) (w b fd id : Z) n n' : Prop :=
  n_ct n' = forget_client id fd (n_ct n) /\
  n_et n' = forget_worker b (forget_event b fd (n_et n)) /\
  n_wt n' = forget_buffer w fd (n_wt n) /\
  (forall b', is_Some (v_output (n_ev n') !! b') <-> b' <> b /\ is_Some (v_output (n_ev n) !! b')) /\
  (forall b', is_Some (v_input (n_ev n') !! b') <-> b' <> b /\ is_Some (v_input (n_ev n) !! b')).

Lemma worker_remove_spec ssl w b fd n :
  wf n -> e_bufferEventDescriptors (n_et n) !! b = Some fd ->
  exists id n', t_clients (n_ct n) !! fd = Some id /\
    worker_remove closeHandler ssl w b n = (Ret tt, n') /\ removed ssl w b fd id n n'.
Proof.
  intros Hwf Hb.
  assert (is_Some (t_clients (n_ct n) !! fd)) as [id Hid].
  { apply (wf_same_descriptors _ Hwf). exists b. by apply (wf_events _ Hwf). }
  exists id. unfold worker_remove, at_. mrun. rewrite Hb. cbn [n_ct with_et]. rewrite Hid.
  set (n1 := with_et (forget_event b fd) n).
  assert (exists n2, (match closeHandler with Some h => h id | None => mret tt end) n1
                     = (Ret tt, n2) /\ same_tables n1 n2) as (n2 & E2 & S2).
  { destruct closeHandler as [h|]; [|exists n1; split; [done|apply same_tables_refl]].
    apply (Hquiet id fd).
    - cbn. by apply (wf_clients _ Hwf).
    - cbn. apply lookup_delete_eq.
    - cbn. apply (wf_instances _ Hwf). exists fd. by apply (wf_clients _ Hwf). }
  revert E2. mrun. intros ->. destruct S2 as (T1 & T2 & T3 & T4 & T5 & T6).
  destruct ssl; eexists; (split; [done|]); (split; [reflexivity|]); unfold removed; cbn [n_ct n_et n_wt n_ev with_ev with_et with_wt with_ct free_event
    forget_ssl v_output v_input]; rewrite ?T1, ?T2, ?T3; (split; [done|]; split; [done|]; split; [done|]);
    (split; intros b'; [specialize (T5 b')|specialize (T6 b')]; (destruct (decide (b' = b)) as [->|Hne];
     [rewrite lookup_delete_eq; split; [by intros [? ?]|by intros [? _]]
     |rewrite lookup_delete_ne by done; unfold n1 in *; cbn in *; tauto])).
Qed.

Lemma removed_wf ssl w b fd id n n' :
  wf n -> e_bufferEventDescriptors (n_et n) !! b = Some fd -> t_clients (n_ct n) !! fd = Some id ->
  removed ssl w b fd id n n' -> wf n'.
Proof.
  intros Hwf Hb Hid (R1 & R2 & R3 & R4 & R5).
  assert (Hfd : e_bufferEvents (n_et n) !! fd = Some b) by by apply (wf_events _ Hwf).
  assert (Hdesc : t_descriptors (n_ct n) !! id = Some fd) by by apply (wf_clients _ Hwf).
  constructor; rewrite ?R1, ?R2; unfold forget_client, forget_worker, forget_event;
    cbn [t_clients t_descriptors t_allClients t_freePool t_lastClient e_bufferEvents
         e_bufferEventDescriptors e_workerMap].
  - intros fd' id'. rewrite !lookup_delete_Some, (wf_clients _ Hwf fd' id').
    split; intros [Hne H]; (split; [|done]); intros <-.
    + congruence.
    + apply (wf_clients _ Hwf) in H. congruence.
  - intros fd' b'. rewrite !lookup_delete_Some, (wf_events _ Hwf fd' b').
    split; intros [Hne H]; (split; [|done]); intros <-.
    + congruence.
    + apply (wf_events _ Hwf) in H. congruence.
  - intros fd'. destruct (decide (fd' = fd)) as [->|Hne].
    + rewrite !lookup_delete_eq. split; by intros [? ?].
    + rewrite !lookup_delete_ne by done. apply (wf_same_descriptors _ Hwf).
  - intros b'. destruct (decide (b' = b)) as [->|Hne].
    + rewrite !lookup_delete_eq. split; by intros [? ?].
    + rewrite !lookup_delete_ne by done. apply (wf_workers _ Hwf).
  - intros b'. rewrite R4. destruct (decide (b' = b)) as [->|Hne].
    + rewrite lookup_delete_eq. split; [by intros [? _]|by intros [? ?]].
    + rewrite lookup_delete_ne by done. rewrite (wf_outputs _ Hwf). tauto.
  - intros b'. rewrite R5. destruct (decide (b' = b)) as [->|Hne].
    + rewrite lookup_delete_eq. split; [by intros [? _]|by intros [? ?]].
    + rewrite lookup_delete_ne by done. rewrite (wf_inputs _ Hwf). tauto.
  - intros id'. destruct (decide (id' = id)) as [->|Hne].
    + rewrite !lookup_delete_eq. split; by intros [? ?].
    + rewrite !lookup_delete_ne by done. apply (wf_instances _ Hwf).
  - intros id'. rewrite <- (wf_pool _ Hwf), elem_of_union, elem_of_singleton.
    destruct (decide (id' = id)) as [->|Hne].
    + split; [intros _; right; eauto|intros _; by left; left].
    + rewrite lookup_delete_ne by done. tauto.
  - intros id'. rewrite elem_of_union, elem_of_singleton.
    destruct (decide (id' = id)) as [->|Hne]; [intros _; apply lookup_delete_eq|].
    rewrite lookup_delete_ne by done. intros [?|?]; [done|]. by apply (wf_disjoint _ Hwf).
  - apply (wf_last _ Hwf).
Qed.
End remove.

(** ** Theorems: accepting, and what can be reached *)

Definition initial : net C :=
  Net (CTable ∅ ∅ ∅ ∅ (-1)) (ETable ∅ ∅ ∅) (WTable ∅ ∅ ∅) (EvTable ∅ ∅ ∅) 0.

Lemma initial_wf : wf initial.
Proof.
  constructor; cbn; intros; rewrite ?lookup_empty; try (split; by intros [? ?]); try done.
  - rewrite elem_of_empty. split; [by intros [?|[? ?]]|lia].
Qed.

Lemma wf_wt n n' :
  wf n -> n_ct n' = n_ct n -> n_et n' = n_et n ->
  (forall b, is_Some (v_output (n_ev n') !! b) <-> is_Some (v_output (n_ev n) !! b)) ->
  (forall b, is_Some (v_input (n_ev n') !! b) <-> is_Some (v_input (n_ev n) !! b)) -> wf n'.
Proof.
  intros Hwf H1 H2 H3 H4. destruct Hwf. constructor; rewrite ?H1, ?H2; auto.
  - intros b. rewrite H3. auto.
  - intros b. rewrite H4. auto.
Qed.

Section reach.
Variable closeHandler : option (Z -> M (net C) ()).
Variable pick : gset Z -> option Z.
Variable addClient : Z -> Z -> bytes -> M (net C) ().
Hypothesis Hquiet : quiet closeHandler.
(** The hash set's first element. *)
Hypothesis Hpick : forall s, match pick s with Some x => x ∈ s | None => s = ∅ end.
(** The application makes a client object for the identifier. *)
Hypothesis Hadd : forall w id ip n, exists c, addClient w id ip n = (Ret tt, set_client id c n).

Lemma take_id_facts (u : ctable C) id t :
  (forall x, x ∈ t_freePool u -> t_descriptors u !! x = None) ->
  (forall x, (x ∈ t_freePool u \/ is_Some (t_descriptors u !! x)) <-> (0 <= x <= t_lastClient u)%Z) ->
  (-1 <= t_lastClient u)%Z -> take_id pick u = (id, t) ->
  t_descriptors u !! id = None /\ t_clients t = t_clients u /\
  t_descriptors t = t_descriptors u /\ t_allClients t = t_allClients u /\
  (forall x, x ∈ t_freePool t <-> x ∈ t_freePool u /\ x <> id) /\
  (0 <= id <= t_lastClient t)%Z /\
  (forall x, (0 <= x <= t_lastClient t)%Z <-> (0 <= x <= t_lastClient u)%Z \/ x = id).
Proof.
  intros Hdis Hp Hlast. unfold take_id. specialize (Hpick (t_freePool u)).
  destruct (pick (t_freePool u)) as [x|]; intros [= <- <-]; cbn.
  - pose proof (Hdis _ Hpick) as Hd. pose proof (proj1 (Hp x) (or_introl Hpick)) as Hb.
    split; [done|]. do 3 (split; [done|]). split; [|split; [lia|]].
    + intros y. rewrite elem_of_difference, elem_of_singleton. tauto.
    + intros y. split; [tauto|]. intros [?| ->]; lia.
  - assert (Hnone : t_descriptors u !! (t_lastClient u + 1)%Z = None).
    { destruct (t_descriptors u !! (t_lastClient u + 1)%Z) eqn:E; [|done].
      pose proof (proj1 (Hp (t_lastClient u + 1)%Z) (or_intror (mk_is_Some _ _ E))). lia. }
    split; [done|]. do 3 (split; [done|]). split; [|split; [lia|intros y; lia]].
    intros y. rewrite Hpick. set_solver.
Qed.

Lemma take_id_spec n id t :
  wf n -> take_id pick (n_ct n) = (id, t) ->
  t_descriptors (n_ct n) !! id = None /\ t_clients t = t_clients (n_ct n) /\
  t_descriptors t = t_descriptors (n_ct n) /\ t_allClients t = t_allClients (n_ct n) /\
  (forall x, x ∈ t_freePool t <-> x ∈ t_freePool (n_ct n) /\ x <> id) /\
  (0 <= id <= t_lastClient t)%Z /\
  (forall x, (0 <= x <= t_lastClient t)%Z <-> (0 <= x <= t_lastClient (n_ct n))%Z \/ x = id).
Proof. intros Hwf. apply (take_id_facts _ id t (wf_disjoint _ Hwf) (wf_pool _ Hwf) (wf_last _ Hwf)). Qed.

Definition accepted (ssl : bool) (w fd b id : Z) (c : C) n n' : Prop :=
  t_clients (n_ct n') = <[fd := id]> (t_clients (n_ct n)) /\
  t_descriptors (n_ct n') = <[id := fd]> (t_descriptors (n_ct n)) /\
  t_allClients (n_ct n') = <[id := c]> (t_allClients (n_ct n)) /\
  e_bufferEvents (n_et n') = <[fd := b]> (e_bufferEvents (n_et n)) /\
  e_bufferEventDescriptors (n_et n') = <[b := fd]> (e_bufferEventDescriptors (n_et n)) /\
  e_workerMap (n_et n') = <[b := w]> (e_workerMap (n_et n)) /\
  v_output (n_ev n') = <[b := []]> (v_output (n_ev n)) /\
  v_input (n_ev n') = <[b := []]> (v_input (n_ev n)) /\
  n_wt n' = n_wt n /\
  (forall x, x ∈ t_freePool (n_ct n') <-> x ∈ t_freePool (n_ct n) /\ x <> id) /\
  (0 <= id <= t_lastClient (n_ct n'))%Z /\
  (forall x, (0 <= x <= t_lastClient (n_ct n'))%Z <->
             (0 <= x <= t_lastClient (n_ct n))%Z \/ x = id).

(** A partial map that is the inverse of another one stays so when a fresh
    pair is added. *)
Lemma inverse_insert (f g : gmap Z Z) a b :
  (forall x y, f !! x = Some y <-> g !! y = Some x) -> f !! a = None -> g !! b = None ->
  forall x y, <[a := b]> f !! x = Some y <-> <[b := a]> g !! y = Some x.
Proof.
  intros H Ha Hb x y. rewrite !lookup_insert_Some, H.
  split; (intros [[-> ->]|[Hne Hg]]; [by left|right; split; [|done]]); intros <-.
  - congruence.
  - apply H in Hg. congruence.
Qed.

Lemma is_Some_insert {V} (m : gmap Z V) k v x :
  is_Some (<[k := v]> m !! x) <-> x = k \/ is_Some (m !! x).
Proof. rewrite lookup_insert_is_Some. destruct (decide (k = x)) as [->|]; naive_solver. Qed.

Lemma accepted_wf ssl w fd b id c n n' :
  wf n -> t_clients (n_ct n) !! fd = None -> t_descriptors (n_ct n) !! id = None ->
  e_bufferEvents (n_et n) !! fd = None -> e_bufferEventDescriptors (n_et n) !! b = None ->
  accepted ssl w fd b id c n n' -> wf n'.
Proof.
  intros Hwf Hfd Hid He Hb (A1 & A2 & A3 & A4 & A5 & A6 & A7 & A8 & _ & A9 & A10 & A11).
  constructor; rewrite ?A1, ?A2, ?A3, ?A4, ?A5, ?A6, ?A7, ?A8.
  - by apply inverse_insert; [apply (wf_clients _ Hwf)| |].
  - by apply inverse_insert; [apply (wf_events _ Hwf)| |].
  - intros x. by rewrite !is_Some_insert, (wf_same_descriptors _ Hwf).
  - intros x. by rewrite !is_Some_insert, (wf_workers _ Hwf).
  - intros x. by rewrite !is_Some_insert, (wf_outputs _ Hwf).
  - intros x. by rewrite !is_Some_insert, (wf_inputs _ Hwf).
  - intros x. by rewrite !is_Some_insert, (wf_instances _ Hwf).
  - intros x. rewrite A9, A11, is_Some_insert, <- (wf_pool _ Hwf x).
    destruct (decide (x = id)); tauto.
  - intros x. rewrite A9. intros [Hx Hne]. rewrite lookup_insert_ne by done.
    by apply (wf_disjoint _ Hwf).
  - lia.
Qed.

Lemma accept_spec ssl w fd b ip n :
  wf n -> t_clients (n_ct n) !! fd = None -> v_output (n_ev n) !! b = None ->
  exists id c n', accept pick addClient ssl w fd (Some b) ip n = (Ret tt, n') /\
    t_descriptors (n_ct n) !! id = None /\ accepted ssl w fd b id c n n' /\ wf n'.
Proof.
  intros Hwf Hfd Hb.
  destruct (take_id pick (n_ct n)) as [id t] eqn:Et.
  destruct (take_id_spec n id t Hwf Et) as (Hid & T1 & T2 & T3 & T4 & T5 & T6).
  assert (He : e_bufferEvents (n_et n) !! fd = None).
  { apply eq_None_not_Some. rewrite <- (wf_same_descriptors _ Hwf), Hfd. by intros [? ?]. }
  assert (Hbd : e_bufferEventDescriptors (n_et n) !! b = None).
  { apply eq_None_not_Some. rewrite <- (wf_outputs _ Hwf), Hb. by intros [? ?]. }
  assert (Hw : e_workerMap (n_et n) !! b = None).
  { apply eq_None_not_Some. rewrite (wf_workers _ Hwf), Hbd. by intros [? ?]. }
  unfold accept. mrun. rewrite Et. cbn [n_et with_ev with_ct]. rewrite He.
  rewrite (bool_decide_false (is_Some None)) by (by intros [? ?]).
  cbn [n_et with_et e_bufferEventDescriptors e_workerMap e_bufferEvents].
  destruct ssl; cbv beta iota; cbn [n_et with_et with_ev e_bufferEventDescriptors e_workerMap e_bufferEvents];
    match goal with |- context [addClient w id ip ?s] => destruct (Hadd w id ip s) as [c Hc] end;
    exists id, c; eexists; (split; [exact Hc|]); (split; [exact Hid|]).
  all: match goal with |- accepted _ _ _ _ _ _ _ ?n' /\ _ => set (n1 := n') end.
  all: assert (Hacc : forall ssl, accepted ssl w fd b id c n n1)
    by (intros ssl; unfold accepted, n1, set_client;
        cbn [n_ct n_et n_wt n_ev with_ct with_et with_ev t_clients t_descriptors t_allClients
             e_bufferEvents e_bufferEventDescriptors e_workerMap v_output v_input];
        rewrite T1, T2, T3, Hid, Hbd, Hw; repeat (split; [reflexivity|]); done).
  all: split; [apply Hacc|].
  all: by apply (accepted_wf true w fd b id c n n1).
Qed.

(** Closing: whatever the outcome, the tables stay well formed. *)
Lemma queueClose_wf ssl w b fd n :
  wf n -> e_bufferEventDescriptors (n_et n) !! b = Some fd ->
  exists n', queueClose closeHandler ssl w b n = (Ret tt, n') /\ wf n'.
Proof.
  intros Hwf Hb. unfold queueClose, output_of. mrun.
  assert (is_Some (v_output (n_ev n) !! b)) as [out Hout] by (apply (wf_outputs _ Hwf); eauto).
  rewrite Hout. destruct (decide (out = [])) as [->|Hne].
  - rewrite bool_decide_true by done.
    destruct (worker_remove_spec closeHandler Hquiet ssl w b fd n Hwf Hb) as (id & n' & H1 & H2 & H3).
    exists n'. split; [exact H2|]. by eapply removed_wf.
  - rewrite bool_decide_false by done. eexists. split; [reflexivity|].
    by apply (wf_wt n).
Qed.

Lemma close_wf ssl id n :
  wf n -> exists r n', close closeHandler ssl id n = (Ret r, n') /\ wf n'.
Proof.
  intros Hwf. unfold close, getDescriptor, getBufferEvent, at_. mrun.
  destruct (t_descriptors (n_ct n) !! id) as [fd|] eqn:Ed; [|by exists false, n].
  assert (is_Some (e_bufferEvents (n_et n) !! fd)) as [b Hb].
  { apply (wf_same_descriptors _ Hwf). exists id. by apply (wf_clients _ Hwf). }
  rewrite Hb. apply (wf_events _ Hwf) in Hb.
  assert (is_Some (e_workerMap (n_et n) !! b)) as [w Hw] by (apply (wf_workers _ Hwf); eauto).
  rewrite Hw. destruct (queueClose_wf ssl w b fd n Hwf Hb) as (n' & H & Hwf').
  exists true, n'. by rewrite H.
Qed.

(** What can happen to the server: a connection is accepted (the system hands
    out a descriptor that is not open and the allocator an address that is not
    in use), data comes in or goes out, a message is queued, a client is
    closed by the application or by its peer, and a queued close is carried
    out. *)
Inductive step (ssl : bool) : net C -> net C -> Prop :=
| step_accept w fd b ip n n' :
    t_clients (n_ct n) !! fd = None -> v_output (n_ev n) !! b = None ->
    accept pick addClient ssl w fd (Some b) ip n = (Ret tt, n') -> step ssl n n'
| step_listen threads fd n : step ssl n (listener_cb threads fd n)
| step_input b s n : is_Some (v_input (n_ev n) !! b) -> step ssl n (set_input b s n)
| step_output b s n : is_Some (v_output (n_ev n) !! b) -> step ssl n (set_output b s n)
| step_send id message r n n' : send id message n = (Ret r, n') -> step ssl n n'
| step_close id r n n' : close closeHandler ssl id n = (Ret r, n') -> step ssl n n'
| step_writecb w b n n' :
    is_Some (v_output (n_ev n) !! b) -> conn_writecb closeHandler ssl w b n = (Ret tt, n') ->
    step ssl n n'
| step_eventcb w b eof error n n' :
    is_Some (v_output (n_ev n) !! b) ->
    conn_eventcb closeHandler ssl w b eof error n = (Ret tt, n') -> step ssl n n'.

Lemma is_Some_insert_same {V} (m : gmap Z V) k v x :
  is_Some (m !! k) -> is_Some (<[k := v]> m !! x) <-> is_Some (m !! x).
Proof. intros H. rewrite is_Some_insert. naive_solver. Qed.

Lemma live_event n b :
  wf n -> is_Some (v_output (n_ev n) !! b) ->
  exists fd, e_bufferEventDescriptors (n_et n) !! b = Some fd.
Proof. intros Hwf H. by apply (wf_outputs _ Hwf) in H. Qed.

Lemma send_wf id message r n n' : wf n -> send id message n = (Ret r, n') -> wf n'.
Proof.
  intros Hwf. unfold send, getDescriptor, getBufferEvent, write_to, output_of, at_. mrun.
  destruct (t_descriptors (n_ct n) !! id) as [fd|]; [|by intros [= _ <-]].
  destruct (e_bufferEvents (n_et n) !! fd) as [b|]; [|by intros [= _ <-]].
  destruct (v_output (n_ev n) !! b) as [out|] eqn:Eo; [|done].
  intros [= _ <-]. apply (wf_wt n); [done..| |done].
  intros x. apply is_Some_insert_same. eauto.
Qed.

Lemma writecb_wf ssl w b n n' :
  wf n -> is_Some (v_output (n_ev n) !! b) ->
  conn_writecb closeHandler ssl w b n = (Ret tt, n') -> wf n'.
Proof.
  intros Hwf Hb. destruct (live_event n b Hwf Hb) as [fd Hfd].
  unfold conn_writecb, output_of, handleWriteEmpty. mrun. destruct Hb as [out ->].
  destruct (bool_decide (out = [])); [|by intros [= <-]].
  destruct (bool_decide _); [|by intros [= <-]].
  match goal with |- worker_remove _ _ _ _ ?n1 = _ -> _ => set (n2 := n1) end.
  assert (Hwf2 : wf n2) by by apply (wf_wt n).
  destruct (worker_remove_spec closeHandler Hquiet ssl w b fd n2 Hwf2 Hfd) as (id & n3 & H1 & -> & H3).
  intros [= <-]. by eapply removed_wf.
Qed.

Lemma eventcb_wf ssl w b eof error n n' :
  wf n -> is_Some (v_output (n_ev n) !! b) ->
  conn_eventcb closeHandler ssl w b eof error n = (Ret tt, n') -> wf n'.
Proof.
  intros Hwf Hb. destruct (live_event n b Hwf Hb) as [fd Hfd].
  assert (Hrm : forall w, exists n1, worker_remove closeHandler ssl w b n = (Ret tt, n1) /\ wf n1).
  { intros w'. destruct (worker_remove_spec closeHandler Hquiet ssl w' b fd n Hwf Hfd)
      as (id & n3 & H1 & H2 & H3). exists n3. split; [done|]. by eapply removed_wf. }
  unfold conn_eventcb, handleEOF, server_remove. destruct eof.
  - destruct (Hrm w) as (n1 & -> & Hn1). by intros [= <-].
  - destruct error; mrun; [|by intros [= <-]].
    destruct (e_workerMap (n_et n) !! b) as [w'|]; [|by intros [= <-]].
    destruct (Hrm w') as (n1 & -> & Hn1). by intros [= <-].
Qed.

Lemma step_wf ssl n n' : step ssl n n' -> wf n -> wf n'.
Proof.
  intros H Hwf. destruct H as [w fd b ip n n' Hfd Hb H|threads fd n|b s n Hb|b s n Hb|id m r n n' H
                              |id r n n' H|w b n n' Hb H|w b eof error n n' Hb H].
  - destruct (accept_spec ssl w fd b ip n Hwf Hfd Hb) as (id & c & n1 & E & _ & _ & Hwf1).
    rewrite E in H. by injection H as <-.
  - by apply (wf_wt n).
  - apply (wf_wt n); [done..|]. intros x. by apply is_Some_insert_same.
  - apply (wf_wt n); [done..| |done]. intros x. by apply is_Some_insert_same.
  - by eapply send_wf.
  - destruct (close_wf ssl id n Hwf) as (r1 & n1 & E & Hwf1). rewrite E in H. by injection H as _ <-.
  - by eapply writecb_wf.
  - by eapply eventcb_wf.
Qed.
End reach.

(** C3: whatever happens to the server, its tables agree: descriptors and
    client identifiers are mapped to each other one to one, so are descriptors
    and bufferevents, every connection has a client object and a worker, an
    identifier is in use or in the pool or has never been given out, and a
    close can always be carried out without an exception. *)
Theorem reachable_wf closeHandler pick addClient ssl n :
  quiet closeHandler ->
  (forall s, match pick s with Some x => x ∈ s | None => s = ∅ end) ->
  (forall w id ip n, exists c, addClient w id ip n = (Ret tt, set_client id c n)) ->
  rtc (step closeHandler pick addClient ssl) initial n ->
  wf n /\ forall id, exists r n', close closeHandler ssl id n = (Ret r, n').
Proof.
  intros Hq Hp Ha Hr.
  assert (Hwf : wf n).
  { revert Hr. generalize initial_wf. generalize initial. intros n0 H0 Hr.
    induction Hr as [x|x y z Hxy _ IH]; [done|]. apply IH. by eapply step_wf. }
  split; [done|]. intros id.
  destruct (close_wf closeHandler Hq ssl id n Hwf) as (r & n' & H & _). eauto.
Qed.
End tables.

(** ** Theorems: a close that outlives its connection *)

Section stale.
Context {C : Type} `{GC : GenericClient C}.
Implicit Types n : net C.

(** A close that waits for output stays in the queue when the peer ends
    the connection first; when the allocator reuses the address for the next
    connection of that worker, the first time its output is empty it is closed
    in the place of the old one. *)
Theorem stale_close closeHandler pick addClient ssl w b fd fd2 ip n :
  quiet closeHandler ->
  (forall s, match pick s with Some x => x ∈ s | None => s = ∅ end) ->
  (forall w id ip n, exists c, addClient w id ip n = (Ret tt, set_client id c n)) ->
  wf n -> e_bufferEventDescriptors (n_et n) !! b = Some fd ->
  (w, b) ∈ w_closeQueue (n_wt n) -> t_clients (n_ct n) !! fd2 = None ->
  exists n1 n2 n3,
    handleEOF closeHandler ssl w b n = (Ret tt, n1) /\
    accept pick addClient ssl w fd2 (Some b) ip n1 = (Ret tt, n2) /\
    is_Some (t_clients (n_ct n2) !! fd2) /\
    conn_writecb closeHandler ssl w b n2 = (Ret tt, n3) /\
    t_clients (n_ct n3) !! fd2 = None.
Proof.
  intros Hq Hp Ha Hwf Hb Hin Hfd2.
  destruct (worker_remove_spec closeHandler Hq ssl w b fd n Hwf Hb) as (id & n1 & Hid & E1 & R1).
  pose proof (removed_wf ssl w b fd id n n1 Hwf Hb Hid R1) as Hwf1.
  destruct R1 as (Rc & Re & Rw & Ro & Ri).
  assert (Hne : fd2 <> fd) by congruence.
  assert (H2 : t_clients (n_ct n1) !! fd2 = None)
    by (rewrite Rc; cbn; by rewrite lookup_delete_ne).
  assert (Hb1 : v_output (n_ev n1) !! b = None).
  { apply eq_None_not_Some. rewrite Ro. tauto. }
  destruct (accept_spec closeHandler pick addClient Hq Hp Ha ssl w fd2 b ip n1 Hwf1 H2 Hb1)
    as (id2 & c & n2 & E2 & _ & A & Hwf2).
  destruct A as (A1 & _ & _ & _ & A5 & _ & A7 & _ & A9 & _).
  exists n1, n2.
  assert (Hout : v_output (n_ev n2) !! b = Some []) by (rewrite A7; apply lookup_insert_eq).
  assert (Hbd : e_bufferEventDescriptors (n_et n2) !! b = Some fd2)
    by (rewrite A5; apply lookup_insert_eq).
  assert (Hin2 : (w, b) ∈ w_closeQueue (n_wt n2)) by (by rewrite A9, Rw).
  set (n2' := with_wt (fun t => WTable (w_readBuffers t)
                (w_closeQueue t ∖ {[ (w, b) ]}) (w_acceptQueues t)) n2).
  assert (Hwf2' : wf n2') by by apply (wf_wt n2).
  destruct (worker_remove_spec closeHandler Hq ssl w b fd2 n2' Hwf2' Hbd)
    as (id3 & n3 & Hid3 & E3 & R3).
  exists n3. split; [exact E1|]. split; [exact E2|]. split; [rewrite A1, lookup_insert_eq; eauto|].
  split.
  - unfold conn_writecb, output_of, handleWriteEmpty. mrun. rewrite Hout.
    rewrite bool_decide_true by done. rewrite bool_decide_true by done. exact E3.
  - destruct R3 as (R3 & _). rewrite R3. cbn. apply lookup_delete_eq.
Qed.
End stale.

(** ** Theorems: reading lines *)

Section reading.
Context {C : Type} `{GC : GenericClient C}.
Implicit Types n : net C.
Variable closeHandler : option (Z -> M (net C) ()).
Variable messageHandler : Z -> bytes -> M (net C) ().
Variable onMaxLineSizeExceeded : Z -> M (net C) ().
Variables (ssl : bool) (w b fd id limit : Z).

(** A connection in line mode, with its partial line and its unread input. *)
Definition reading (str input : bytes) n : Prop :=
  t_clients (n_ct n) !! fd = Some id /\
  w_readBuffers (n_wt n) !! (w, fd) = Some str /\ v_input (n_ev n) !! b = Some input /\
  exists c, t_allClients (n_ct n) !! id = Some c /\ gc_lineMode c = true /\
    gc_maxRead c = 0%Z /\ (limit <= gc_maxLineSize c)%Z.

(** The handler takes a line without touching the connection. *)
Hypothesis Hhandler : forall m str input n, reading str input n ->
  exists n', messageHandler id m n = (Ret tt, n') /\ reading str input n'.

(** The states the handler passes through on some lines. *)
Inductive handled : list bytes -> net C -> net C -> Prop :=
| handled_nil n : handled [] n n
| handled_cons l ls n n1 n2 :
    messageHandler id l n = (Ret tt, n1) -> handled ls n1 n2 -> handled (l :: ls) n n2.

Definition with_lf (l : bytes) : bytes := l ++ [lf].

Lemma line_loop_spec lines partial str input fuel e n :
  Forall (fun l => lf ∉ l) lines -> lf ∉ partial -> length lines <= fuel ->
  reading str input n ->
  exists n', handled lines n n' /\ reading str input n' /\
    line_loop messageHandler fuel w fd id (concat (map with_lf lines) ++ partial) e n
    = (Ret (e + length (concat (map with_lf lines))), n').
Proof.
  intros Hl Hp. revert fuel e n. induction lines as [|l lines IH]; intros fuel e n Hf Hr.
  - exists n. split; [constructor|]. split; [done|].
    assert (find_char lf ([] ++ partial) = None) as Hn by (by apply find_char_None).
    cbn [map concat length]. rewrite Nat.add_0_r.
    destruct fuel; cbn [line_loop]; unfold isMessageComplete; by rewrite Hn.
  - apply Forall_cons_1 in Hl as [Hl Hls]. destruct fuel as [|fuel]; [simpl in Hf; lia|].
    destruct (Hhandler l str input n Hr) as (n1 & E1 & R1).
    destruct (IH Hls fuel (e + (length l + 1)) n1 ltac:(simpl in Hf; lia) R1)
      as (n2 & H2 & R2 & E2).
    exists n2. split; [by econstructor|]. split; [done|].
    cbn [map concat line_loop]. unfold isMessageComplete.
    change (with_lf l) with (l ++ [lf]). rewrite <- !app_assoc. rewrite (find_char_app lf l _ Hl : find_char lf (l ++ [lf] ++ _) = _).
    cbv iota. rewrite take_app_length. mrun. rewrite E1.
    destruct R1 as (Rc & Rb & Ri & Rl). rewrite Rc, bool_decide_true by eauto.
    unfold str_of. mrun. rewrite Rb.
    replace (length l + 1) with (length (l ++ [lf])) in * by (by rewrite length_app).
    rewrite app_assoc, drop_app_length, E2.
    do 2 f_equal. rewrite !length_app. lia.
Qed.

Lemma reading_set_readBuffer str str' input n :
  reading str input n -> reading str' input (set_readBuffer w fd str' n).
Proof.
  intros (Rc & Rb & Ri & Rl). split; [exact Rc|]. split; [cbn; apply lookup_insert_eq|].
  split; [exact Ri|exact Rl].
Qed.

Lemma reading_set_input str input input' n :
  reading str input n -> reading str input' (set_input b input' n).
Proof.
  intros (Rc & Rb & Ri & Rl). split; [exact Rc|]. split; [exact Rb|].
  split; [cbn; apply lookup_insert_eq|exact Rl].
Qed.

Lemma length_lines lines : length lines <= length (concat (map with_lf lines)).
Proof.
  induction lines as [|l lines IH]; [simpl; lia|]. cbn [map concat].
  change (with_lf l) with (l ++ [lf]). rewrite !length_app. simpl in *. lia.
Qed.

(** The buffer after some lines have been taken off it. *)
Definition leftover (lines : list bytes) (partial : bytes) n : net C :=
  if bool_decide (lines = []) then n else set_readBuffer w fd partial n.

Lemma read_chunk_lines lines partial n :
  Forall (fun l => lf ∉ l) lines -> lf ∉ partial ->
  let data := concat (map with_lf lines) ++ partial in
  data <> [] -> (Z.of_nat (length data) <= limit)%Z -> reading [] [] n ->
  exists n', handled lines (set_readBuffer w fd data n) n' /\
    reading data [] n' /\
    exists e, read_chunk closeHandler messageHandler onMaxLineSizeExceeded ssl w fd id data n =
      (if bool_decide (partial = []) then Ret tt else Throw (ParseError e),
       leftover lines partial n').
Proof.
  intros Hl Hp data Hne Hlim R.
  pose proof (reading_set_readBuffer _ data _ _ R) as R0.
  destruct (line_loop_spec lines partial data [] (length data) 0 (set_readBuffer w fd data n) Hl Hp)
    as (n1 & H1 & R1 & E1); [|exact R0|].
  { unfold data. rewrite length_app. pose proof (length_lines lines). lia. }
  fold data in E1. exists n1. split; [exact H1|]. split; [exact R1|].
  destruct R as (Rc & Rb & Ri & c & Hc & Hline & Hmax & Hsize).
  destruct R1 as (Rc1 & Rb1 & Ri1 & c1 & Hc1 & Hline1 & _ & _).
  exists (lit "Text is left over in the buffer, but " ++ gc_describe c1
          ++ lit " is still in line mode").
  unfold read_chunk, client_of, str_of, leftover. mrun. rewrite Hc, Rb, Hline. cbn [negb].
  destruct (Z.ltb_spec (gc_maxLineSize c) (Z.of_nat (length (@nil ascii) + length data)));
    [cbn [length] in *; lia|].
  rewrite app_nil_l, E1, Nat.add_0_l.
  destruct lines as [|l lines].
  - cbn [map concat length]. change (0 =? 0) with true. cbn [negb].
    rewrite (bool_decide_true (@nil bytes = [])) by done. rewrite Rb1.
    change data with partial in *. rewrite (bool_decide_false (partial = [])) by done.
    cbn [negb]. by rewrite Hc1, Hline1.
  - assert ((length (concat (map with_lf (l :: lines))) =? 0) = false) as ->.
    { apply Nat.eqb_neq. pose proof (length_lines (l :: lines)). simpl in *. lia. }
    cbn [negb]. rewrite (bool_decide_false (l :: lines = [])) by done. rewrite Rb1.
    assert (drop (length (concat (map with_lf (l :: lines)))) data = partial) as ->
      by apply drop_app_length.
    cbn [n_wt set_readBuffer with_wt w_readBuffers]. rewrite lookup_insert_eq.
    case_bool_decide; cbn [negb]; [done|].
    cbn [n_ct set_readBuffer with_wt]. by rewrite Hc1, Hline1.
Qed.

(** C11: complete lines that arrive in one read are handed over one by one, in
    order and without their newline; what follows the last newline is not kept
    for the next read but costs the connection its life. *)
Theorem handleRead_lines lines partial bufferSize n :
  Forall (fun l => lf ∉ l) lines -> lf ∉ partial -> fd <> (-1)%Z ->
  let data := concat (map with_lf lines) ++ partial in
  data <> [] -> (Z.of_nat (length data) <= bufferSize)%Z -> (Z.of_nat (length data) <= limit)%Z ->
  reading [] data n ->
  exists n',
    handled lines (set_readBuffer w fd data (set_input b [] (set_readBuffer w fd [] n))) n' /\
    handleRead closeHandler messageHandler onMaxLineSizeExceeded ssl bufferSize w b fd n =
    (if bool_decide (partial = [])
     then (Ret tt, set_readBuffer w fd [] n')
     else worker_remove closeHandler ssl w b (leftover lines partial n')).
Proof.
  intros Hl Hp Hfd data Hne Hbuf Hlim (Rc & Rb & Ri & c & Hc & Hline & Hmax & Hsize).
  set (n0 := set_input b [] (set_readBuffer w fd [] n)).
  assert (R0 : reading [] [] n0).
  { unfold n0. eapply reading_set_input, reading_set_readBuffer.
    split; [exact Rc|]. split; [exact Rb|]. split; [exact Ri|]. by exists c. }
  destruct (read_chunk_lines lines partial n0 Hl Hp Hne Hlim R0) as (n1 & H1 & R1 & e & E1).
  exists n1. split; [exact H1|].
  unfold handleRead. destruct (Z.eqb_spec fd (-1)); [done|].
  unfold input_of at 1. mrun. rewrite Ri, Rb. cbn [default from_option Datatypes.id].
  unfold at_. cbn [n_ct set_readBuffer with_wt]. rewrite Rc. cbn [n_ct set_readBuffer with_wt].
  rewrite Hc.
  assert (exists k, length data = S k) as [k Hk] by (destruct data; [done|by eexists]).
  rewrite Hk. cbn [read_loop]. unfold input_of at 1. mrun.
  cbn [n_ev set_readBuffer with_wt]. rewrite Ri, bool_decide_false by done.
  unfold client_of at 1. mrun. cbn [n_ct set_readBuffer with_wt]. rewrite Hc, Hmax.
  change (0 <? 0)%Z with false. cbv iota.
  rewrite Z.min_r, Nat2Z.id, take_ge, drop_ge by lia. fold data in E1.
  match goal with |- context [read_chunk _ _ _ _ _ _ _ _ ?s] => change s with n0 end.
  rewrite E1.
  case_bool_decide as Hpart; [|done].
  assert (Hin : v_input (n_ev (leftover lines partial n1)) !! b = Some []).
  { destruct R1 as (_ & _ & Ri1 & _). unfold leftover. by destruct (bool_decide _). }
  assert (leftover lines partial n1 = set_readBuffer w fd [] n1) as <-.
  { unfold leftover. rewrite bool_decide_false; [by rewrite Hpart|].
    intros ->. unfold data in Hne. by rewrite Hpart in Hne. }
  destruct k; cbn [read_loop]; unfold input_of; mrun; by rewrite Hin.
Qed.
End reading.

(** ** Witnesses *)

(** Clients that are the list of the lines they have received. *)
#[export] Instance log_client : GenericClient (list bytes) := {
  gc_lineMode := fun _ => true;
  gc_maxLineSize := fun _ => 8192%Z;
  gc_maxRead := fun _ => 0%Z;
  gc_set_maxRead := fun _ c => c;
  gc_describe := fun _ => lit "client";
}.

Definition first_free (s : gset Z) : option Z := head (elements s).
Definition add_log (w id : Z) (ip : bytes) : M (net (list bytes)) () := modify (set_client id []).
Definition log_line (id : Z) (m : bytes) : M (net (list bytes)) () := fun n =>
  (Ret tt, match t_allClients (n_ct n) !! id with
           | Some c => set_client id (c ++ [m]) n
           | None => n
           end).

Lemma first_free_spec (s : gset Z) : match first_free s with Some x => x ∈ s | None => s = ∅ end.
Proof.
  unfold first_free. destruct (elements s) as [|x l] eqn:E; cbn [head].
  - by apply elements_empty_inv in E; apply leibniz_equiv.
  - apply elem_of_elements. rewrite E. by left.
Qed.

Lemma add_log_spec w id ip (n : net (list bytes)) :
  exists c, add_log w id ip n = (Ret tt, set_client id c n).
Proof. by exists []. Qed.

Definition one_connection : net (list bytes) :=
  (accept first_free add_log false 0 7 (Some 100%Z) (lit "1.2.3.4") initial).2.

Definition http_close : option (Z -> M (net (list bytes)) ()) := Some (http_closeHandler false).

Lemma one_connection_wf : wf one_connection.
Proof.
  destruct (accept_spec http_close first_free add_log (http_closeHandler_quiet false) first_free_spec
              add_log_spec false 0 7 100 (lit "1.2.3.4") initial initial_wf eq_refl eq_refl)
    as (id & c & n' & E & _ & _ & Hwf).
  unfold one_connection. by rewrite E.
Qed.

Lemma reachable_wf_witness :
  wf one_connection /\
  forall id, exists r n', close http_close false id one_connection = (Ret r, n').
Proof.
  refine (reachable_wf http_close first_free add_log false one_connection
           (http_closeHandler_quiet false) first_free_spec add_log_spec _).
  apply rtc_once. by apply (step_accept _ _ _ _ 0 7 100 (lit "1.2.3.4")).
Defined.

Definition closing : net (list bytes) :=
  (close http_close false 0 (set_output 100 (lit "bye") one_connection)).2.

Lemma closing_wf : wf closing.
Proof.
  destruct (close_wf http_close (http_closeHandler_quiet false) false 0
              (set_output 100 (lit "bye") one_connection)) as (r & n' & E & Hwf).
  - eapply (step_wf http_close first_free add_log (http_closeHandler_quiet false) first_free_spec
              add_log_spec false); [|exact one_connection_wf].
    apply step_output. vm_compute. by eexists.
  - unfold closing. by rewrite E.
Qed.

Lemma stale_close_witness :
  exists n1 n2 n3,
    handleEOF http_close false 0 100 closing = (Ret tt, n1) /\
    accept first_free add_log false 0 8 (Some 100)%Z (lit "5.6.7.8") n1 = (Ret tt, n2) /\
    is_Some (t_clients (n_ct n2) !! 8%Z) /\
    conn_writecb http_close false 0 100 n2 = (Ret tt, n3) /\
    t_clients (n_ct n3) !! 8%Z = None.
Proof.
  apply (stale_close http_close first_free add_log false 0 100 7 8 (lit "5.6.7.8") closing
           (http_closeHandler_quiet false) first_free_spec add_log_spec closing_wf).
  - vm_compute. reflexivity.
  - refine (bool_decide_unpack _ _). vm_compute. exact I.
  - vm_compute. reflexivity.
Defined.

Definition request_bytes : bytes := with_lf (lit "GET / HTTP/1.1") ++ with_lf (lit "Host: a") ++ lit "Acc".

Definition before_read : net (list bytes) :=
  set_readBuffer 0 7 [] (set_input 100 request_bytes one_connection).

Lemma log_line_reading (m str input : bytes) (n : net (list bytes)) :
  reading 0 100 7 0 8192 str input n ->
  exists n', log_line 0 m n = (Ret tt, n') /\ reading 0 100 7 0 8192 str input n'.
Proof.
  intros (Rc & Rb & Ri & c & Hc & Hrest). eexists. split; [reflexivity|]. rewrite Hc.
  split; [exact Rc|]. split; [exact Rb|]. split; [exact Ri|]. exists (c ++ [m]).
  split; [cbn; apply lookup_insert_eq|exact Hrest].
Qed.

(** Two lines and the beginning of a third: the connection is removed. *)
Lemma handleRead_lines_witness :
  exists n',
    handled log_line 0 [lit "GET / HTTP/1.1"; lit "Host: a"]
      (set_readBuffer 0 7 request_bytes (set_input 100 [] (set_readBuffer 0 7 [] before_read))) n' /\
    handleRead http_close log_line (fun _ => mret tt) false 1024 0 100 7 before_read
    = worker_remove http_close false 0 100 (leftover 0 7 [lit "GET / HTTP/1.1"; lit "Host: a"]
                                              (lit "Acc") n').
Proof.
  refine (handleRead_lines http_close log_line (fun _ => mret tt) false 0 100 7 0 8192
           log_line_reading [lit "GET / HTTP/1.1"; lit "Host: a"] (lit "Acc") 1024 before_read
           _ _ _ _ _ _ _).
  - repeat constructor; refine (bool_decide_unpack (_ ∉ _) _); vm_compute; exact I.
  - refine (bool_decide_unpack (_ ∉ _) _); vm_compute; exact I.
  - discriminate.
  - discriminate.
  - vm_compute. discriminate.
  - vm_compute. discriminate.
  - split; [vm_compute; reflexivity|]. split; [vm_compute; reflexivity|].
    split; [vm_compute; reflexivity|]. exists []. vm_compute. repeat split; discriminate.
Defined.
