(* ===== verification/Locks.v ===== *)
(** * Locks: threads that take mutexes

    A thread is a tree of what it does with the locks, the fields they guard and
    the events (the library's buffered connections) it shares with the others; a
    schedule says which thread takes the next step and how a choice that depends
    on data goes.  [disciplined] is a check on one thread: locks are taken in the
    order of their ranks, fields are touched under their guard, and events are
    used and freed in a way that [clients_lock] makes safe.  The theorems hold of
    any number of disciplined threads; [NetLocks.v] has those of the server. *)

From Stdlib Require Import Lia.
From stdpp Require Import base tactics option list gmap sets.
From S2P Require Import Prelude.

(** ** What the locks of a program are *)

Class Locking (L F : Type) := {
  lock_dec :: EqDecision L;
  recursive : L -> bool;             (* its owner may lock it again *)
  private : L -> option nat;         (* the one thread that ever takes it *)
  rank : L -> nat;
  max_rank : nat;
  guard : F -> L;
  table_lock : L;                    (* guards the table of events *)
  clients_lock : L;                  (* held from a lookup to the use of what it found *)
  rank_bound : forall l, rank l <= max_rank;
}.

Section locks.
Context {L F : Type} `{LK : Locking L F}.
Implicit Types l : L.

Inductive action :=
| Acquire (l : L)
| Release (l : L)
| Access (f : F)
| Use (b : nat)      (* the library reads or writes the event *)
| Enter (b : nat)    (* the library makes the event *)
| Link (b : nat)     (* it is put into the table *)
| Erase (b : nat)    (* it is taken out of the table *)
| Free (b : nat).

(** [Look] is a search of the table for an event; [Throw] an exception nothing
    in the thread catches, which releases the locks that are held. *)
Inductive prog :=
| Done
| Throws
| Dead
| Do (a : action) (k : prog)
| Look (b : nat) (found missing : prog)
| Either (p q : prog).

(** What a thread holds, and the history the check refers to: events it has seen
    in the table while holding its lock, those that it has looked up and may use,
    and those it has made, or erased before ([pending]) or under ([ready]) the
    clients' lock. *)
Record ctx := Ctx {
  held : list L;
  seen : list nat;
  valid : list nat;
  pending : list nat;
  ready : list nat;
  fresh : list nat;
}.
Definition no_ctx : ctx := Ctx [] [] [] [] [] [].
Definition owned (c : ctx) : list nat := pending c ++ ready c ++ fresh c.

Definition holds (c : ctx) (l : L) : bool := bool_decide (l ∈ held c).
Definition without (b : nat) (s : list nat) : list nat := filter (fun x => x <> b) s.

Definition after_acquire (l : L) (c : ctx) : ctx :=
  if decide (l = clients_lock)
  then Ctx (l :: held c) (seen c) (valid c) [] (pending c ++ ready c) (fresh c)
  else Ctx (l :: held c) (seen c) (valid c) (pending c) (ready c) (fresh c).
Definition after_release (l : L) (c : ctx) : ctx :=
  let h := remove_one l (held c) in
  Ctx h (if decide (table_lock ∈ h) then seen c else []) (if decide (clients_lock ∈ h) then valid c else [])
    (pending c) (ready c) (fresh c).
Definition after_erase (b : nat) (c : ctx) : ctx :=
  if decide (clients_lock ∈ held c)
  then Ctx (held c) (without b (seen c)) (without b (valid c)) (pending c) (b :: ready c) (fresh c)
  else Ctx (held c) (without b (seen c)) (without b (valid c)) (b :: pending c) (ready c) (fresh c).
Definition found_event (b : nat) (c : ctx) : ctx :=
  Ctx (held c) (b :: seen c) (if decide (clients_lock ∈ held c) then b :: valid c else valid c)
    (pending c) (ready c) (fresh c).

Definition after (a : action) (c : ctx) : ctx :=
  match a with
  | Acquire l => after_acquire l c
  | Release l => after_release l c
  | Access _ | Use _ => c
  | Enter b => Ctx (held c) (seen c) (valid c) (pending c) (ready c) (b :: fresh c)
  | Link b => Ctx (held c) (seen c) (valid c) (pending c) (ready c) (remove_one b (fresh c))
  | Erase b => after_erase b c
  | Free b => Ctx (held c) (seen c) (valid c) (pending c) (remove_one b (ready c)) (fresh c)
  end.

(** ** The check *)

(** A shared lock is taken after the shared locks of lower rank only. *)
Definition in_order (c : ctx) (l : L) : bool :=
  forallb (fun l' => match private l' with Some _ => true | None => rank l' <? rank l end) (held c).

Definition allowed (t : nat) (c : ctx) (a : action) : bool :=
  match a with
  | Acquire l =>
    if holds c l then recursive l
    else match private l with Some w => w =? t | None => in_order c l end
  | Release l => holds c l
  | Access f => holds c (guard f)
  | Use b => bool_decide (b ∈ valid c)
  | Enter _ => true
  | Link b => holds c table_lock && bool_decide (b ∈ fresh c)
  | Erase b => bool_decide (b ∈ seen c)
  | Free b => bool_decide (b ∈ ready c)
  end.

Fixpoint disciplined (t : nat) (c : ctx) (p : prog) : bool :=
  match p with
  | Done => bool_decide (held c = [] /\ pending c = [] /\ ready c = [])
  | Throws => true
  | Dead => bool_decide (held c = [])
  | Do a k => allowed t c a && disciplined t (after a c) k
  | Look b found missing =>
    holds c table_lock && disciplined t (found_event b c) found && disciplined t c missing
  | Either p q => disciplined t c p && disciplined t c q
  end.

(** ** Steps *)

Record state := State {
  threads : list (ctx * prog);
  table : gset nat;
  live : gset nat;
}.

Definition ctx_of (s : state) (i : nat) : ctx := from_option fst no_ctx (threads s !! i).
Definition set_thread (i : nat) (c : ctx) (p : prog) (s : state) : state :=
  State (<[i := (c, p)]> (threads s)) (table s) (live s).

(** Another thread has the lock. *)
Definition taken (i : nat) (l : L) (s : state) : bool :=
  existsb (fun j => negb (j =? i) && holds (ctx_of s j) l) (seq 0 (length (threads s))).

Definition step (i : nat) (choice : bool) (s : state) : option state :=
  th ← threads s !! i;
  let c := fst th in
  match snd th with
  | Done | Dead => None
  | Throws =>
    match held c with
    | [] => Some (set_thread i c Dead s)
    | l :: _ => Some (set_thread i (after (Release l) c) Throws s)
    end
  | Do a k =>
    let s' := set_thread i (after a c) k s in
    match a with
    | Acquire l => if taken i l s || holds c l && negb (recursive l) then None else Some s'
    | Release l => if holds c l then Some s' else None
    | Access _ | Use _ => Some s'
    | Enter b =>
      if decide (b ∈ live s) then Some (set_thread i c Throws s)
      else Some (State (threads s') (table s) ({[ b ]} ∪ live s))
    | Link b => Some (State (threads s') ({[ b ]} ∪ table s) (live s))
    | Erase b => Some (State (threads s') (table s ∖ {[ b ]}) (live s))
    | Free b => Some (State (threads s') (table s) (live s ∖ {[ b ]}))
    end
  | Look b found missing =>
    Some (if decide (b ∈ table s) then set_thread i (found_event b c) found s
          else set_thread i c missing s)
  | Either p q => Some (set_thread i c (if choice then p else q) s)
  end.

Fixpoint run (schedule : list (nat * bool)) (s : state) : option state :=
  match schedule with
  | [] => Some s
  | e :: rest => s' ← step e.1 e.2 s; run rest s'
  end.

(** No thread holds anything at the start. *)
Definition start (events : gset nat) (progs : list prog) : state :=
  State (map (pair no_ctx) progs) events events.

Definition finished (p : prog) : bool := match p with Done | Dead => true | _ => false end.
Definition ended (s : state) : bool := forallb (fun th => finished th.2) (threads s).
Definition next_action (p : prog) : option action := match p with Do a _ => Some a | _ => None end.

(** ** Lemmas *)

Lemma holds_spec c l : holds c l = true <-> l ∈ held c.
Proof. unfold holds. by rewrite bool_decide_eq_true. Qed.

Lemma in_order_spec c l l' :
  in_order c l = true -> l' ∈ held c -> private l' = None -> rank l' < rank l.
Proof.
  unfold in_order. rewrite forallb_forall. intros H Hl' Hp.
  specialize (H l' ltac:(by apply list_elem_of_In)). rewrite Hp in H. by apply Nat.ltb_lt.
Qed.

Lemma ctx_of_set i c p s j :
  i < length (threads s) ->
  ctx_of (set_thread i c p s) j = if decide (j = i) then c else ctx_of s j.
Proof.
  intros Hi. unfold ctx_of. cbn. case_decide as Hj; [subst; by rewrite list_lookup_insert_eq|].
  by rewrite list_lookup_insert_ne by congruence.
Qed.

Lemma ctx_of_lookup s i c p : threads s !! i = Some (c, p) -> ctx_of s i = c.
Proof. unfold ctx_of. by intros ->. Qed.

Lemma ctx_of_out s i : threads s !! i = None -> ctx_of s i = no_ctx.
Proof. unfold ctx_of. by intros ->. Qed.

Lemma taken_false i l s j : taken i l s = false -> l ∈ held (ctx_of s j) -> j = i.
Proof.
  intros Ht Hl. destruct (decide (j = i)) as [|Hj]; [done|]. exfalso.
  assert (Hlen : j < length (threads s)).
  { destruct (threads s !! j) eqn:E; [by eapply lookup_lt_Some|].
    rewrite (ctx_of_out s j E) in Hl. by apply elem_of_nil in Hl. }
  unfold taken in Ht. apply not_true_iff_false in Ht. apply Ht, existsb_exists. exists j.
  split; [apply in_seq; lia|]. apply andb_true_iff. split; [|by apply holds_spec].
  by apply negb_true_iff, Nat.eqb_neq.
Qed.

Lemma taken_true i l s :
  taken i l s = true -> exists j, j <> i /\ j < length (threads s) /\ l ∈ held (ctx_of s j).
Proof.
  unfold taken. rewrite existsb_exists. intros (j & Hj & [Hne Hh]%andb_true_iff).
  apply in_seq in Hj. apply negb_true_iff, Nat.eqb_neq in Hne. apply holds_spec in Hh.
  exists j. split; [done|]. split; [lia|done].
Qed.

(** ** What every schedule keeps *)

Record locks_ok (s : state) : Prop := {
  ok_disciplined i c p : threads s !! i = Some (c, p) -> disciplined i c p = true;
  ok_exclusive i j l : l ∈ held (ctx_of s i) -> l ∈ held (ctx_of s j) -> i = j;
  ok_private i l w : l ∈ held (ctx_of s i) -> private l = Some w -> w = i;
  ok_seen i b : b ∈ seen (ctx_of s i) -> table_lock ∈ held (ctx_of s i) /\ b ∈ table s;
  ok_valid i b : b ∈ valid (ctx_of s i) -> clients_lock ∈ held (ctx_of s i) /\
    (b ∈ table s \/ exists j, j <> i /\ b ∈ pending (ctx_of s j));
  ok_owned i b : b ∈ owned (ctx_of s i) -> b ∈ live s /\ b ∉ table s;
  ok_once i : NoDup (owned (ctx_of s i));
  ok_owner i j b : b ∈ owned (ctx_of s i) -> b ∈ owned (ctx_of s j) -> i = j;
  ok_table : table s ⊆ live s;
}.

Definition others (P : ctx -> Prop) (i : nat) (s : state) : Prop :=
  forall j, j <> i -> P (ctx_of s j).

(** What one thread's step must show of its own new context, and of the tables
    for the others. *)
Lemma ok_update i c c' p p' T V s :
  locks_ok s -> threads s !! i = Some (c, p) -> disciplined i c' p' = true ->
  (forall l, l ∈ held c' ->
    l ∈ held c \/ taken i l s = false /\ forall w, private l = Some w -> w = i) ->
  (forall b, b ∈ seen c' -> table_lock ∈ held c' /\ b ∈ T) ->
  (forall b, b ∈ valid c' -> clients_lock ∈ held c' /\
    (b ∈ T \/ exists j, j <> i /\ b ∈ pending (ctx_of s j))) ->
  (forall b, b ∈ owned c' -> b ∈ V /\ (b ∉ T) /\ others (fun cj => b ∉ owned cj) i s) ->
  NoDup (owned c') ->
  others (fun cj => forall b, b ∈ seen cj -> b ∈ T) i s ->
  (forall j b, j <> i -> b ∈ valid (ctx_of s j) -> b ∈ T \/
    (exists k, k <> j /\ k <> i /\ b ∈ pending (ctx_of s k)) \/ b ∈ pending c') ->
  others (fun cj => forall b, b ∈ owned cj -> b ∈ V /\ (b ∉ T)) i s ->
  T ⊆ V ->
  locks_ok (State (<[i := (c', p')]> (threads s)) T V).
Proof.
  intros [Hd He Hp Hs Hv Ho Hn Hw Ht] Hi Hd' Hl Hs' Hv' Ho' Hn' Os Ov Oo HT.
  assert (Hlen : i < length (threads s)) by by eapply lookup_lt_Some.
  pose proof (ctx_of_lookup s i c p Hi) as Hc.
  assert (Hctx : forall j, ctx_of (State (<[i := (c', p')]> (threads s)) T V) j =
    if decide (j = i) then c' else ctx_of s j) by (intros j; by apply (ctx_of_set i c' p' s)).
  assert (Hl' : forall l j, j <> i -> l ∈ held c' -> l ∈ held (ctx_of s j) -> False).
  { intros l j Hj Hl1 Hl2. destruct (Hl l Hl1) as [H1|[H1 _]].
    - rewrite <- Hc in H1. by apply Hj, (He j i l).
    - by apply Hj, (taken_false i l s j). }
  split.
  - intros j cj pj. cbn. rewrite list_lookup_insert. case_decide as Hj; [|by apply Hd].
    destruct Hj as [-> _]. by intros [= <- <-].
  - intros j k l. rewrite !Hctx. case_decide; case_decide; subst; [done|..|by apply He].
    + intros H1 H2. by destruct (Hl' l k).
    + intros H1 H2. by destruct (Hl' l j).
  - intros j l w. rewrite Hctx. case_decide as Hj; [|by apply Hp]. subst j.
    intros H1 Hw1. destruct (Hl l H1) as [H2|[_ H2]]; [|by apply H2]. rewrite <- Hc in H2. by eapply Hp.
  - intros j b. rewrite Hctx. case_decide as Hj; subst; [by apply Hs'|].
    intros Hb. split; [by eapply Hs|by eapply Os].
  - intros j b. rewrite Hctx. case_decide as Hj; subst.
    + intros Hb. destruct (Hv' b Hb) as [H1 [H2|(k & Hk & H2)]]; split; auto.
      right. exists k. split; [done|]. rewrite Hctx. by rewrite decide_False.
    + intros Hb. split; [by eapply Hv|]. destruct (Ov j b Hj Hb) as [H1|[(k & H1 & H2 & H3)|H1]]; [by left|..].
      * right. exists k. split; [done|]. rewrite Hctx. by rewrite decide_False.
      * right. exists i. split; [congruence|]. rewrite Hctx. by rewrite decide_True.
  - intros j b. rewrite Hctx. case_decide as Hj; subst; [|by apply Oo]. intros Hb. split; by apply Ho'.
  - intros j. rewrite Hctx. by case_decide.
  - intros j k b. rewrite !Hctx. case_decide as Hj; case_decide as Hk; subst; [done|..|by apply Hw].
    + intros H1 H2. by destruct (Ho' b H1) as (_ & _ & []%(fun X => X k Hk)).
    + intros H1 H2. by destruct (Ho' b H2) as (_ & _ & []%(fun X => X j Hj)).
  - done.
Qed.

(** A step that changes neither table nor who owns which event. *)
Lemma ok_local i c c' p p' s :
  locks_ok s -> threads s !! i = Some (c, p) -> disciplined i c' p' = true ->
  (forall l, l ∈ held c' ->
    l ∈ held c \/ taken i l s = false /\ forall w, private l = Some w -> w = i) ->
  (forall b, b ∈ seen c' -> table_lock ∈ held c' /\ b ∈ seen c) ->
  (forall b, b ∈ valid c' -> clients_lock ∈ held c' /\ b ∈ valid c) ->
  owned c' ≡ₚ owned c ->
  (forall b, b ∈ pending c -> b ∈ pending c' \/ others (fun cj => b ∉ valid cj) i s) ->
  locks_ok (set_thread i c' p' s).
Proof.
  intros Hok Hi Hd Hl Hs Hv Ho Hp. pose proof (ctx_of_lookup s i c p Hi) as Hc.
  eapply ok_update; try done.
  - intros b Hb. destruct (Hs b Hb) as [H1 H2]. split; [done|]. apply (ok_seen s Hok i). by rewrite Hc.
  - intros b Hb. destruct (Hv b Hb) as [H1 H2]. split; [done|]. apply (ok_valid s Hok i). by rewrite Hc.
  - intros b Hb. rewrite Ho in Hb. rewrite <- Hc in Hb. split_and!; [by eapply ok_owned..|].
    intros j Hj Hb'. by apply Hj, (ok_owner s Hok j i b).
  - rewrite Ho, <- Hc. by eapply ok_once.
  - intros j Hj b Hb. by eapply ok_seen.
  - intros j b Hj Hb. destruct (ok_valid s Hok j b Hb) as [_ [H1|(k & H1 & H2)]]; [by left|right].
    destruct (decide (k = i)) as [->|Hk]; [|left; by exists k]. rewrite Hc in H2.
    destruct (Hp b H2) as [H3|H3]; [by right|]. by destruct (H3 j Hj).
  - intros j Hj b Hb. by eapply ok_owned.
  - by eapply ok_table.
Qed.

(** No other thread has an event in use while this one has the clients' lock. *)
Lemma others_not_using i s b :
  locks_ok s -> clients_lock ∈ held (ctx_of s i) \/ taken i clients_lock s = false ->
  others (fun cj => b ∉ valid cj) i s.
Proof.
  intros Hok Hi j Hj Hb. destruct (ok_valid s Hok j b Hb) as [Hc _].
  destruct Hi as [Hi|Hi]; [by apply Hj, (ok_exclusive s Hok j i clients_lock)|].
  by apply Hj, (taken_false i clients_lock s j).
Qed.

Lemma ok_acquire i c k l s :
  locks_ok s -> threads s !! i = Some (c, Do (Acquire l) k) -> taken i l s = false ->
  locks_ok (set_thread i (after (Acquire l) c) k s).
Proof.
  intros Hok Hi Ht. pose proof (ok_disciplined s Hok i _ _ Hi) as [Ha Hd]%andb_true_iff.
  pose proof (ctx_of_lookup s i _ _ Hi) as Hc.
  assert (Hheld : held (after (Acquire l) c) = l :: held c) by (cbn; unfold after_acquire; by case_decide).
  eapply ok_local; try done.
  - rewrite Hheld. intros l'. rewrite elem_of_cons. intros [->|]; [|by left].
    cbn [allowed] in Ha. destruct (holds c l) eqn:Eh; [left; by apply holds_spec|].
    right. split; [done|]. intros w Hw. rewrite Hw in Ha. by apply Nat.eqb_eq in Ha.
  - intros b Hb. assert (Hb' : b ∈ seen c) by (revert Hb; cbn; unfold after_acquire; by case_decide).
    split; [|done]. rewrite Hheld. apply list_elem_of_further.
    rewrite <- Hc. apply (ok_seen s Hok i b). by rewrite Hc.
  - intros b Hb. assert (Hb' : b ∈ valid c) by (revert Hb; cbn; unfold after_acquire; by case_decide).
    split; [|done]. rewrite Hheld. apply list_elem_of_further.
    rewrite <- Hc. apply (ok_valid s Hok i b). by rewrite Hc.
  - cbn. unfold after_acquire, owned. case_decide; cbn; [|done]. by rewrite app_assoc.
  - intros b Hb. cbn. unfold after_acquire. case_decide; cbn; [|by left]. subst l. right.
    apply others_not_using; auto.
Qed.

Lemma ok_release i c k p l s :
  locks_ok s -> threads s !! i = Some (c, k) -> disciplined i (after (Release l) c) p = true ->
  locks_ok (set_thread i (after (Release l) c) p s).
Proof.
  intros Hok Hi Hd. eapply ok_local; try done; cbn.
  - intros l' Hl'. left. by eapply elem_of_remove_one.
  - intros b. case_decide; [done|]. by intros ?%elem_of_nil.
  - intros b. case_decide; [done|]. by intros ?%elem_of_nil.
  - intros b Hb. by left.
Qed.

(** A step that leaves the thread as it was but for what it does next. *)
Lemma ok_go_on i c p p' s :
  locks_ok s -> threads s !! i = Some (c, p) -> disciplined i c p' = true ->
  locks_ok (set_thread i c p' s).
Proof.
  intros Hok Hi Hd. pose proof (ctx_of_lookup s i _ _ Hi) as Hc. eapply ok_local; try done.
  - intros l Hl. by left.
  - intros b Hb. split; [|done]. rewrite <- Hc. apply (ok_seen s Hok i b). by rewrite Hc.
  - intros b Hb. split; [|done]. rewrite <- Hc. apply (ok_valid s Hok i b). by rewrite Hc.
  - intros b Hb. by left.
Qed.

Section events.
Context (s : state) (i : nat) (c : ctx).
Hypothesis Hok : locks_ok s.
Hypothesis Hc : ctx_of s i = c.

Lemma self_seen b : b ∈ seen c -> table_lock ∈ held c /\ b ∈ table s.
Proof. rewrite <- Hc. by apply ok_seen. Qed.
Lemma self_valid b : b ∈ valid c -> clients_lock ∈ held c /\
  (b ∈ table s \/ exists j, j <> i /\ b ∈ pending (ctx_of s j)).
Proof. rewrite <- Hc. by apply ok_valid. Qed.
Lemma self_owned b : b ∈ owned c ->
  b ∈ live s /\ (b ∉ table s) /\ others (fun cj => b ∉ owned cj) i s.
Proof.
  rewrite <- Hc. intros Hb. split_and!; [by eapply ok_owned..|].
  intros j Hj Hb'. by apply Hj, (ok_owner s Hok j i b).
Qed.
Lemma self_once : NoDup (owned c).
Proof. rewrite <- Hc. by apply ok_once. Qed.
Lemma others_valid j b : j <> i -> b ∈ valid (ctx_of s j) -> b ∈ table s \/
  (exists k, k <> j /\ k <> i /\ b ∈ pending (ctx_of s k)) \/ b ∈ pending c.
Proof.
  intros Hj Hb. destruct (ok_valid s Hok j b Hb) as [_ [H1|(k & H1 & H2)]]; [by left|right].
  destruct (decide (k = i)) as [->|Hk]; [right; by rewrite <- Hc|left; by exists k].
Qed.

Lemma table_owned b : b ∈ table s -> b ∉ owned c.
Proof. intros Hb Ho. by apply self_owned in Ho as (_ & [] & _). Qed.

End events.

Lemma ok_enter i c k b s :
  locks_ok s -> threads s !! i = Some (c, Do (Enter b) k) -> b ∉ live s ->
  locks_ok (State (threads (set_thread i (after (Enter b) c) k s)) (table s) ({[ b ]} ∪ live s)).
Proof.
  intros Hok Hi Hb. pose proof (ok_disciplined s Hok i _ _ Hi) as [_ Hd]%andb_true_iff.
  pose proof (ctx_of_lookup s i _ _ Hi) as Hc. pose proof (ok_table s Hok) as HT.
  assert (Ho : owned (after (Enter b) c) ≡ₚ b :: owned c).
  { unfold owned. cbn. rewrite !app_assoc. by rewrite <- Permutation_middle. }
  assert (Hnew : forall j, b ∉ owned (ctx_of s j)) by (intros j Hj; by apply (ok_owned s Hok) in Hj as [? _]).
  eapply ok_update; try done.
  - intros l Hl. by left.
  - exact (self_seen s i c Hok Hc).
  - exact (self_valid s i c Hok Hc).
  - intros b'. rewrite Ho, elem_of_cons. intros [->|Hb'].
    + split; [set_solver|]. split; [set_solver|]. intros j _. apply Hnew.
    + apply (self_owned s i c Hok Hc) in Hb' as (H1 & H2 & H3). split; [set_solver|done].
  - rewrite Ho. constructor; [rewrite <- Hc; apply Hnew|by apply (self_once s i c)].
  - intros j Hj b'. by eapply ok_seen.
  - intros j b' Hj. exact (others_valid s i c Hok Hc j b' Hj).
  - intros j Hj b' Hb'. apply (ok_owned s Hok) in Hb'. set_solver.
  - set_solver.
Qed.

Lemma ok_link i c k b s :
  locks_ok s -> threads s !! i = Some (c, Do (Link b) k) ->
  locks_ok (State (threads (set_thread i (after (Link b) c) k s)) ({[ b ]} ∪ table s) (live s)).
Proof.
  intros Hok Hi. pose proof (ok_disciplined s Hok i _ _ Hi) as [Ha Hd]%andb_true_iff.
  cbn [allowed] in Ha. apply andb_true_iff in Ha as [Ht%holds_spec Hb%bool_decide_eq_true].
  pose proof (ctx_of_lookup s i _ _ Hi) as Hc. pose proof (ok_table s Hok) as HT.
  assert (Ho : owned c ≡ₚ b :: owned (after (Link b) c)).
  { unfold owned. cbn. rewrite (remove_one_perm b (fresh c)) at 1 by done.
    rewrite !app_assoc. by rewrite <- Permutation_middle. }
  pose proof (self_once s i c Hok Hc) as Hn. rewrite Ho in Hn. apply NoDup_cons in Hn as [Hn1 Hn2].
  assert (Hown : b ∈ owned c) by (rewrite Ho; by left).
  eapply (self_owned s i c Hok Hc) in Hown as (Hlive & Htab & Hoth).
  eapply ok_update; try done.
  - intros l Hl. by left.
  - intros b' Hb'. apply (self_seen s i c Hok Hc) in Hb' as [H1 H2]. split; [done|set_solver].
  - intros b' Hb'. apply (self_valid s i c Hok Hc) in Hb' as [H1 H2]. split; [done|set_solver].
  - intros b' Hb'. assert (b' <> b) by congruence.
    assert (Hb2 : b' ∈ owned c) by (rewrite Ho; by right).
    apply (self_owned s i c Hok Hc) in Hb2 as (H1 & H2 & H3). split; [done|]. split; [set_solver|done].
  - intros j Hj b' Hb'. apply (ok_seen s Hok) in Hb'. set_solver.
  - intros j b' Hj Hb'. cbn. apply (others_valid s i c Hok Hc j b' Hj) in Hb'. set_solver.
  - intros j Hj b' Hb'. pose proof (ok_owned s Hok _ _ Hb') as [H1 H2]. split; [done|].
    apply not_elem_of_union. split; [|done]. intros ->%elem_of_singleton. by eapply Hoth.
  - set_solver.
Qed.

Lemma ok_erase i c k b s :
  locks_ok s -> threads s !! i = Some (c, Do (Erase b) k) ->
  locks_ok (State (threads (set_thread i (after (Erase b) c) k s)) (table s ∖ {[ b ]}) (live s)).
Proof.
  intros Hok Hi. pose proof (ok_disciplined s Hok i _ _ Hi) as [Ha Hd]%andb_true_iff.
  cbn [allowed] in Ha. apply bool_decide_eq_true in Ha.
  pose proof (ctx_of_lookup s i _ _ Hi) as Hc. pose proof (ok_table s Hok) as HT.
  destruct (self_seen s i c Hok Hc b Ha) as [Htl Htab].
  assert (Ho : owned (after (Erase b) c) ≡ₚ b :: owned c).
  { cbn. unfold after_erase, owned. case_decide; cbn; [|done]. by rewrite <- Permutation_middle. }
  assert (Hh : held (after (Erase b) c) = held c) by (cbn; unfold after_erase; by case_decide).
  assert (Hnew : forall j, b ∉ owned (ctx_of s j)) by (intros j Hj; by apply (ok_owned s Hok) in Hj as [_ ?]).
  eapply ok_update; try done.
  - intros l Hl. rewrite Hh in Hl. by left.
  - intros b' Hb'. rewrite Hh. assert (Hw : b' ∈ without b (seen c))
      by (revert Hb'; cbn; unfold after_erase; by case_decide).
    apply list_elem_of_filter in Hw as [Hne Hw]. apply (self_seen s i c Hok Hc) in Hw as [H1 H2]. set_solver.
  - intros b' Hb'. rewrite Hh. assert (Hw : b' ∈ without b (valid c))
      by (revert Hb'; cbn; unfold after_erase; by case_decide).
    apply list_elem_of_filter in Hw as [Hne Hw]. apply (self_valid s i c Hok Hc) in Hw as [H1 H2]. set_solver.
  - intros b'. rewrite Ho, elem_of_cons. intros [->|Hb'].
    + split; [set_solver|]. split; [set_solver|]. intros j _. apply Hnew.
    + apply (self_owned s i c Hok Hc) in Hb' as (H1 & H2 & H3). set_solver.
  - rewrite Ho. constructor; [rewrite <- Hc; apply Hnew|by apply (self_once s i c)].
  - intros j Hj b' Hb'. destruct (ok_seen s Hok _ _ Hb') as [H1 _]. rewrite <- Hc in Htl.
    by destruct (Hj (ok_exclusive s Hok j i table_lock H1 Htl)).
  - intros j b' Hj Hb'. destruct (ok_valid s Hok _ _ Hb') as [H1 _].
    assert (Hcl : clients_lock ∉ held c).
    { intros H2. rewrite <- Hc in H2. by apply Hj, (ok_exclusive s Hok j i clients_lock). }
    cbn. unfold after_erase. rewrite decide_False by done. cbn.
    destruct (others_valid s i c Hok Hc j b' Hj Hb') as [H2|[H2|H2]]; [|set_solver..]. destruct (decide (b' = b)); set_solver.
  - intros j Hj b' Hb'. apply (ok_owned s Hok) in Hb'. set_solver.
  - set_solver.
Qed.

Lemma ok_free i c k b s :
  locks_ok s -> threads s !! i = Some (c, Do (Free b) k) ->
  locks_ok (State (threads (set_thread i (after (Free b) c) k s)) (table s) (live s ∖ {[ b ]})).
Proof.
  intros Hok Hi. pose proof (ok_disciplined s Hok i _ _ Hi) as [Ha Hd]%andb_true_iff.
  cbn [allowed] in Ha. apply bool_decide_eq_true in Ha.
  pose proof (ctx_of_lookup s i _ _ Hi) as Hc. pose proof (ok_table s Hok) as HT.
  assert (Ho : owned c ≡ₚ b :: owned (after (Free b) c)).
  { unfold owned. cbn. rewrite (remove_one_perm b (ready c)) at 1 by done.
    cbn [app]. by rewrite <- Permutation_middle. }
  pose proof (self_once s i c Hok Hc) as Hn. rewrite Ho in Hn. apply NoDup_cons in Hn as [Hn1 Hn2].
  assert (Hown : b ∈ owned c) by (rewrite Ho; by left).
  eapply (self_owned s i c Hok Hc) in Hown as (Hlive & Htab & Hoth).
  eapply ok_update; try done.
  - intros l Hl. by left.
  - exact (self_seen s i c Hok Hc).
  - exact (self_valid s i c Hok Hc).
  - intros b' Hb'. assert (b' <> b) by congruence.
    assert (Hb2 : b' ∈ owned c) by (rewrite Ho; by right).
    apply (self_owned s i c Hok Hc) in Hb2 as (H1 & H2 & H3). split; [set_solver|done].
  - intros j Hj b' Hb'. by eapply ok_seen.
  - intros j b' Hj. exact (others_valid s i c Hok Hc j b' Hj).
  - intros j Hj b' Hb'. pose proof (ok_owned s Hok _ _ Hb') as [H1 H2]. split; [|done].
    apply elem_of_difference. split; [done|]. intros ->%elem_of_singleton. by eapply Hoth.
  - set_solver.
Qed.

Lemma ok_found i c b found missing s :
  locks_ok s -> threads s !! i = Some (c, Look b found missing) -> b ∈ table s ->
  locks_ok (set_thread i (found_event b c) found s).
Proof.
  intros Hok Hi Hb. pose proof (ok_disciplined s Hok i _ _ Hi) as Hd. cbn [disciplined] in Hd.
  apply andb_true_iff in Hd as [[Hl%holds_spec Hd]%andb_true_iff _].
  pose proof (ctx_of_lookup s i _ _ Hi) as Hc.
  eapply ok_update; try done.
  - intros l Hl'. by left.
  - intros b'. cbn. rewrite elem_of_cons. intros [->|Hb']; [done|exact (self_seen s i c Hok Hc b' Hb')].
  - intros b'. cbn. case_decide as Hcl; [rewrite elem_of_cons; intros [->|Hb']; [auto|]|intros Hb'];
      by apply (self_valid s i c Hok Hc).
  - exact (self_owned s i c Hok Hc).
  - change (NoDup (owned c)). by apply (self_once s i c).
  - intros j Hj b'. by eapply ok_seen.
  - intros j b' Hj. exact (others_valid s i c Hok Hc j b' Hj).
  - intros j Hj b'. by eapply ok_owned.
  - by apply ok_table.
Qed.

Lemma ok_step i choice s s' : locks_ok s -> step i choice s = Some s' -> locks_ok s'.
Proof.
  intros Hok. unfold step. destruct (threads s !! i) as [[c p]|] eqn:Hi; [|done]. cbn.
  pose proof (ok_disciplined s Hok i _ _ Hi) as Hd.
  destruct p as [| | |a k|b found missing|p q]; [done| |done|..]; cbn [disciplined] in Hd.
  - destruct (held c) as [|l h] eqn:Eh; intros [= <-].
    + eapply ok_go_on; [done..|]. cbn. by rewrite bool_decide_eq_true.
    + by eapply ok_release.
  - apply andb_true_iff in Hd as [Ha Hd].
    destruct a as [l|l|f|b|b|b|b|b].
    + destruct (taken i l s) eqn:Et; cbn; [done|]. case_match; [done|]. intros [= <-]. by apply ok_acquire.
    + cbn in Ha. rewrite Ha. intros [= <-]. by eapply ok_release.
    + intros [= <-]. by eapply ok_go_on.
    + intros [= <-]. by eapply ok_go_on.
    + case_decide; intros [= <-]; [by eapply ok_go_on|by apply ok_enter].
    + intros [= <-]. by apply ok_link.
    + intros [= <-]. by apply ok_erase.
    + intros [= <-]. by apply ok_free.
  - apply andb_true_iff in Hd as [[Hl Hf]%andb_true_iff Hm]. intros [= <-].
    case_decide; [by eapply ok_found|by eapply ok_go_on].
  - apply andb_true_iff in Hd as [Hp Hq]. intros [= <-]. eapply ok_go_on; [done..|by destruct choice].
Qed.

Lemma ok_run schedule s s' : locks_ok s -> run schedule s = Some s' -> locks_ok s'.
Proof.
  revert s. induction schedule as [|e rest IH]; intros s Hok; cbn; [by intros [= <-]|].
  destruct (step e.1 e.2 s) as [s1|] eqn:E; [|done]. cbn. apply IH. by eapply ok_step.
Qed.

(** Threads that pass the check, from the start. *)
Definition all_disciplined (progs : list prog) : Prop :=
  forall i p, progs !! i = Some p -> disciplined i no_ctx p = true.

Lemma ctx_of_start events progs i : ctx_of (start events progs) i = no_ctx.
Proof. unfold ctx_of, start. cbn. rewrite list_lookup_fmap. by destruct (progs !! i). Qed.

Lemma start_ok events progs : all_disciplined progs -> locks_ok (start events progs).
Proof.
  intros Hd. split; try (intros *; rewrite ?ctx_of_start; cbn; by intros ?%elem_of_nil).
  - intros i c p. unfold start. cbn. rewrite list_lookup_fmap.
    destruct (progs !! i) as [q|] eqn:E; [|done]. cbn. intros [= <- <-]. by apply Hd.
  - intros i. rewrite ctx_of_start. constructor.
  - done.
Qed.

(** A thread that is not done takes a step, or waits for a shared lock that
    another thread holds. *)
Lemma steps_or_waits s i c p :
  locks_ok s -> threads s !! i = Some (c, p) -> finished p = false ->
  (forall choice, is_Some (step i choice s)) \/
  exists l k, p = Do (Acquire l) k /\ taken i l s = true /\ holds c l = false /\ private l = None.
Proof.
  intros Hok Hi Hf. pose proof (ok_disciplined s Hok i _ _ Hi) as Hd.
  unfold step. rewrite Hi. cbn. destruct p as [| | |a k|b found missing|p q]; try done; cbn in Hd.
  - left. intros _. by destruct (held c).
  - apply andb_true_iff in Hd as [Ha _].
    destruct a as [l|l|f|b|b|b|b|b]; try (by left); cbn in Ha.
    + destruct (taken i l s) eqn:Et; cbn.
      * right. exists l, k. destruct (taken_true i l s Et) as (j & Hj & _ & Hl).
        pose proof (ctx_of_lookup s i _ _ Hi) as Hc. destruct (holds c l) eqn:Eh.
        -- apply holds_spec in Eh. rewrite <- Hc in Eh. by destruct (Hj (ok_exclusive s Hok j i l Hl Eh)).
        -- destruct (private l) as [w|] eqn:Ep; [|done]. apply Nat.eqb_eq in Ha as ->.
           by destruct (Hj (eq_sym (ok_private s Hok j l i Hl Ep))).
      * left. intros _. destruct (holds c l); cbn; [|done]. by rewrite Ha.
    + left. by rewrite Ha.
    + left. intros _. by case_decide.
  - by left.
  - by left.
Qed.

(** Following the locks that threads wait for, their ranks go up. *)
Lemma someone_steps n s i c p :
  locks_ok s -> threads s !! i = Some (c, p) -> finished p = false ->
  (forall l k, p = Do (Acquire l) k -> max_rank < n + rank l) -> 0 < n ->
  exists j, forall choice, is_Some (step j choice s).
Proof.
  intros Hok. revert i c p. induction n as [|n IH]; intros i c p Hi Hf Hn H0; [lia|].
  destruct (steps_or_waits s i c p Hok Hi Hf) as [Hs|(l & k & -> & Ht & Hl & Hp)]; [by exists i|].
  destruct (taken_true i l s Ht) as (j & Hj & Hlen & Hjl).
  destruct (lookup_lt_is_Some_2 _ _ Hlen) as [[cj pj] Ej].
  pose proof (ctx_of_lookup s j _ _ Ej) as Hcj. rewrite Hcj in Hjl.
  pose proof (ok_disciplined s Hok j _ _ Ej) as Hd.
  assert (Hfj : finished pj = false).
  { destruct pj; try done; cbn in Hd; apply bool_decide_eq_true in Hd;
      [destruct Hd as [Hd _]|]; rewrite Hd in Hjl; by apply elem_of_nil in Hjl. }
  specialize (Hn l k eq_refl). pose proof (rank_bound l) as Hb.
  destruct (steps_or_waits s j cj pj Hok Ej Hfj) as [Hs|(l2 & k2 & -> & Ht2 & Hl2 & Hp2)]; [by exists j|].
  eapply (IH j); [exact Ej|done| |].
  - intros l' k' [= <- <-]. cbn in Hd. apply andb_true_iff in Hd as [Ha _].
    rewrite Hl2, Hp2 in Ha. pose proof (in_order_spec cj l2 l Ha Hjl Hp). lia.
  - cbn in Hd. apply andb_true_iff in Hd as [Ha _].
    rewrite Hl2, Hp2 in Ha. pose proof (in_order_spec cj l2 l Ha Hjl Hp). pose proof (rank_bound l2). lia.
Qed.

Lemma progress s : locks_ok s -> ended s = false -> exists i, forall choice, is_Some (step i choice s).
Proof.
  intros Hok He. unfold ended in He. apply not_true_iff_false in He.
  destruct (list_find (fun th => finished th.2 = false) (threads s)) as [[i [c p]]|] eqn:E.
  - apply list_find_Some in E as (Hi & Hf & _). eapply (someone_steps (S max_rank)); [done..| |lia].
    intros l k _. lia.
  - apply list_find_None in E. destruct He. apply forallb_forall. intros th Hth.
    rewrite Forall_forall in E. specialize (E th ltac:(by apply list_elem_of_In)).
    by destruct (finished th.2).
Qed.

(** Every step makes what is left smaller. *)
Fixpoint size (p : prog) : nat :=
  match p with
  | Done | Dead => 0
  | Throws => 1
  | Do _ k => S (S (size k))
  | Look _ p q | Either p q => S (size p + size q)
  end.
Definition weight (th : ctx * prog) : nat := 2 * size th.2 + length (held th.1).
Definition work (s : state) : nat := sum_list_with weight (threads s).

Lemma work_set i c p s th :
  threads s !! i = Some th -> work (set_thread i c p s) + weight th = work s + weight (c, p).
Proof. apply sum_list_with_insert. Qed.

Lemma length_held_after a c :
  length (held (after a c)) <= S (length (held c)).
Proof.
  destruct a; cbn; try lia.
  - unfold after_acquire. by case_decide.
  - pose proof (submseteq_length _ _ (remove_one_submseteq l (held c))). lia.
  - unfold after_erase. case_decide; cbn; lia.
Qed.

Lemma step_work i choice s s' : step i choice s = Some s' -> work s' < work s.
Proof.
  unfold step. destruct (threads s !! i) as [[c p]|] eqn:Hi; [|done]. cbn.
  assert (Hw : forall c' p', weight (c', p') < weight (c, p) -> work (set_thread i c' p' s) < work s).
  { intros c' p' Hlt. pose proof (work_set i c' p' s _ Hi). lia. }
  destruct p as [| | |a k|b found missing|p q]; [done| |done|..].
  - destruct (held c) as [|l h] eqn:Eh; intros [= <-]; apply Hw; unfold weight; cbn; [lia|].
    rewrite Eh. cbn. rewrite decide_True by done. lia.
  - assert (Hk : work (set_thread i (after a c) k s) < work s).
    { apply Hw. unfold weight. cbn [fst snd size]. pose proof (length_held_after a c). lia. }
    assert (Ht : work (set_thread i c Throws s) < work s) by (apply Hw; unfold weight; cbn; lia).
    destruct a; try (by intros [= <-]); try (case_match; by intros [= <-]).
  - intros [= <-]. case_decide; apply Hw; unfold weight; cbn; lia.
  - intros [= <-]. apply Hw. unfold weight. destruct choice; cbn; lia.
Qed.

Lemma run_work schedule s s' : run schedule s = Some s' -> length schedule + work s' <= work s.
Proof.
  revert s. induction schedule as [|e rest IH]; intros s; cbn; [intros [= <-]; lia|].
  destruct (step e.1 e.2 s) as [s1|] eqn:E; [|done]. cbn. intros Hr.
  apply step_work in E. apply IH in Hr. lia.
Qed.

(** ** What the server's theorems are made of *)

(** Every schedule ends, and only when all threads have. *)
Lemma never_stuck events progs schedule s :
  all_disciplined progs -> run schedule (start events progs) = Some s ->
  length schedule <= work (start events progs) /\
  (ended s = false -> exists i, forall choice, is_Some (step i choice s)).
Proof.
  intros Hd Hr. split; [apply run_work in Hr; lia|]. apply progress. eapply ok_run, Hr. by apply start_ok.
Qed.

(** The next thing that the thread [i] does. *)
Definition about_to (s : state) (i : nat) (a : action) : Prop :=
  exists c k, threads s !! i = Some (c, Do a k).

Lemma about_to_allowed s i a :
  locks_ok s -> about_to s i a -> allowed i (ctx_of s i) a = true.
Proof.
  intros Hok (c & k & Hi). rewrite (ctx_of_lookup s i _ _ Hi).
  pose proof (ok_disciplined s Hok i _ _ Hi) as [Ha _]%andb_true_iff. exact Ha.
Qed.

Lemma no_race s i j f :
  locks_ok s -> about_to s i (Access f) -> about_to s j (Access f) -> i = j.
Proof.
  intros Hok Hi%about_to_allowed Hj%about_to_allowed; [|done..]. cbn in Hi, Hj.
  apply holds_spec in Hi, Hj. by eapply ok_exclusive.
Qed.

Lemma no_fault s i b :
  locks_ok s -> about_to s i (Use b) \/ about_to s i (Free b) -> b ∈ live s.
Proof.
  intros Hok [Hi|Hi]; apply about_to_allowed in Hi; try done; cbn in Hi; apply bool_decide_eq_true in Hi.
  - apply (ok_valid s Hok) in Hi as [_ [Hb|(j & _ & Hb)]]; [by apply (ok_table s Hok)|].
    apply (ok_owned s Hok j b). unfold owned. set_solver.
  - apply (ok_owned s Hok i b). unfold owned. set_solver.
Qed.

(** Nobody uses an event that another thread is about to free. *)
Lemma no_use_while_freeing s i j b :
  locks_ok s -> about_to s i (Use b) -> about_to s j (Free b) -> False.
Proof.
  intros Hok Hi%about_to_allowed Hj%about_to_allowed; [|done..]. cbn in Hi, Hj.
  apply bool_decide_eq_true in Hi, Hj.
  assert (Hown : b ∈ owned (ctx_of s j)) by (unfold owned; set_solver).
  apply (ok_valid s Hok) in Hi as [_ [Hb|(k & Hk & Hb)]]; [by apply (ok_owned s Hok) in Hown as [_ ?]|].
  assert (k = j) as -> by (apply (ok_owner s Hok k j b); [unfold owned; set_solver|done]).
  pose proof (ok_once s Hok j) as Hn. unfold owned in Hn. apply NoDup_app in Hn as (_ & Hn & _).
  apply (Hn b Hb). set_solver.
Qed.

(** A thread that has ended holds no lock. *)
Lemma ended_holds_nothing s i c p :
  locks_ok s -> threads s !! i = Some (c, p) -> finished p = true -> held c = [].
Proof.
  intros Hok Hi Hf. pose proof (ok_disciplined s Hok i _ _ Hi) as Hd.
  destruct p; try done; cbn in Hd; apply bool_decide_eq_true in Hd; [by destruct Hd|done].
Qed.

End locks.
