(* ===== verification/NetLocks.v ===== *)
(** * The locks of the server

    Which mutexes the operations of [src/net/Server.cpp] and
    [src/net/SSLServer.cpp] take, and in which order: each operation is a tree
    of its steps ([Locks.v]), in which what depends on data is a choice.  What a
    handler does is a list of calls of the server, of the configuration, of the
    challenges of [src/plugins/letsencrypt/LetsEncrypt.cpp] and of the tables of
    [src/plugins/probchess/ProbabilityChess.cpp].  A worker is named by its
    index, which is also its thread; an event is the bufferevent of a connection. *)

From Stdlib Require Import Lia.
From stdpp Require Import base tactics option list gmap sets.
From S2P Require Import Prelude Locks.

Inductive lock :=
| LAcceptQueue (w : nat) | LRead (w : nat) | LCloseQueue (w : nat)
| LClients | LDescriptors | LWorkerMap | LSsls | LSslContext
| LConfigs | LChallenges | LChess.

#[export] Instance lock_eq_dec : EqDecision lock.
Proof. solve_decision. Defined.

(** The fields that are shared between threads; [FChess] stands for the tables of
    the chess plugin, which changes them without its own lock too: what guards them is
    the lock of the server's clients, under which every handler runs. *)
Inductive field :=
| FAcceptQueue (w : nat) | FReadBuffers (w : nat) | FCloseQueue (w : nat)
| FClients | FDescriptors | FAllClients | FFreePool
| FBufferEvents | FBufferEventDescriptors | FWorkerMap | FSsls | FSslContext
| FConfigs | FChallenges | FChess.

Definition guard_of (f : field) : lock :=
  match f with
  | FAcceptQueue w => LAcceptQueue w
  | FReadBuffers w => LRead w
  | FCloseQueue w => LCloseQueue w
  | FClients | FDescriptors | FAllClients | FFreePool => LClients
  | FBufferEvents | FBufferEventDescriptors => LDescriptors
  | FWorkerMap => LWorkerMap
  | FSsls => LSsls
  | FSslContext => LSslContext
  | FConfigs => LConfigs
  | FChallenges => LChallenges
  | FChess => LClients
  end.

(** The mutexes that are [std::recursive_mutex]. *)
Definition is_recursive (l : lock) : bool :=
  match l with
  | LAcceptQueue _ | LRead _ | LCloseQueue _ | LClients | LDescriptors | LWorkerMap | LChess => true
  | LSsls | LSslContext | LConfigs | LChallenges => false
  end.

(** The order in which they are taken; the lock of a worker's read buffers is
    taken by its own thread only. *)
Definition order (l : lock) : nat :=
  match l with
  | LAcceptQueue _ => 0
  | LClients => 1
  | LChallenges | LChess => 2
  | _ => 3
  end.

#[export, refine] Instance server_locks : Locking lock field := {
  recursive := is_recursive;
  private l := match l with LRead w => Some w | _ => None end;
  rank := order;
  max_rank := 3;
  guard := guard_of;
  table_lock := LDescriptors;
  clients_lock := LClients;
}.
Proof. intros []; cbn; lia. Defined.

Abbreviation thread := (@prog lock field).

(** ** Operations of the network server *)

Definition locked (l : lock) (body : thread -> thread) (k : thread) : thread :=
  Do (Acquire l) $ body $ Do (Release l) k.
Definition accesses (fs : list field) (k : thread) : thread :=
  fold_right (fun f k => Do (Access f) k) k fs.

(** [at] may throw [out_of_range], to [missing]. *)
Definition getDescriptor (found missing : thread) : thread :=
  Do (Acquire LClients) $ Do (Access FDescriptors) $
  Either (Do (Release LClients) found) (Do (Release LClients) missing).
Definition getBufferEvent (b : nat) (found missing : thread) : thread :=
  Do (Acquire LDescriptors) $ Do (Access FBufferEvents) $
  Look b (Do (Release LDescriptors) found) (Do (Release LDescriptors) missing).

Definition send (b : nat) (k : thread) : thread :=
  getDescriptor (getBufferEvent b (Do (Use b) k) k) k.

(** What a handler calls.  [Tell] and [Broadcast] are made by the chess plugin, in
    [joinMatch], [leaveMatch] and [handleClose] with its lock, in [handleConnect],
    [createMatch] and for a move without; a broadcast takes it, again or not. *)
Inductive chess_call := Tell (b : nat) | Broadcast (bs : list nat).
Inductive call :=
| Send (b : nat)
| Close (b : nat)
| GetOption
| Challenge (reply : list nat)
| Chess (lock_held : bool) (calls : list chess_call).

Definition sends (bs : list nat) (k : thread) : thread := fold_right send k bs.
Definition chess (c : chess_call) (k : thread) : thread :=
  match c with
  | Tell b => send b k
  | Broadcast bs => locked LChess (accesses [FChess] ∘ sends bs) k
  end.

Section server.
(** Whether it is an SSL server, and what the close handler calls. *)
Variable ssl : bool.
Variable closeHandler : nat -> list call.

Section with_remove.
Variable remove : nat -> thread -> thread.
Variable w : nat.

Definition queueClose (b : nat) (k : thread) : thread :=
  Do (Use b) $ Either (remove b k) (locked (LCloseQueue w) (accesses [FCloseQueue w]) k).

(** [close] of a client of the worker [w]. *)
Definition close (b : nat) (k : thread) : thread :=
  getDescriptor
    (getBufferEvent b
       (Do (Acquire LWorkerMap) $ Do (Access FWorkerMap) $
        Either (Do (Release LWorkerMap) $ queueClose b k) Throws) k) k.

Definition perform (c : call) (k : thread) : thread :=
  match c with
  | Send b => send b k
  | Close b => close b k
  | GetOption => locked LConfigs (accesses [FConfigs]) k
  | Challenge reply => locked LChallenges (accesses [FChallenges] ∘ sends reply) k
  | Chess lock_held calls =>
    (if lock_held then locked LChess else id) (accesses [FChess] ∘ fun k => fold_right chess k calls) k
  end.
Definition performs (calls : list call) (k : thread) : thread := fold_right perform k calls.
End with_remove.

(** [Worker::remove], and for [ssl] that of [SSLServer::Worker], which does the same
    and forgets the connection's [SSL]; the close handler may close other
    connections, to the given depth. *)
Fixpoint worker_remove (depth w b : nat) (k : thread) : thread :=
  match depth with
  | O => Throws
  | S d =>
    Do (Acquire LDescriptors) $ Do (Access FBufferEventDescriptors) $
    Look b
      (Do (Erase b) $ Do (Access FBufferEvents) $ Do (Release LDescriptors) $
       Do (Acquire LClients) $ Do (Access FClients) $ Either
         (performs (worker_remove d w) w (closeHandler b) $
          accesses [FAllClients; FFreePool; FDescriptors; FClients] $ Do (Release LClients) $
          locked (LRead w) (accesses [FReadBuffers w]) $
          locked LWorkerMap (accesses [FWorkerMap]) $
          (if ssl then locked LSsls (accesses [FSsls]) else fun k => k) $
          Do (Free b) k)
         Throws)
      Throws
  end.

Section callbacks.
Variable depth w : nat.
Definition remove (b : nat) : thread -> thread := worker_remove depth w b.

Definition removeDescriptor (b : nat) (k : thread) : thread := getBufferEvent b (remove b k) Throws.

Definition server_remove (b : nat) (k : thread) : thread :=
  Do (Acquire LWorkerMap) $ Do (Access FWorkerMap) $
  Either (Do (Release LWorkerMap) k) (Do (Release LWorkerMap) $ remove b k).

Definition queueAccept (w : nat) : thread -> thread := locked (LAcceptQueue w) (accesses [FAcceptQueue w]).

Definition handleWriteEmpty (b : nat) (k : thread) : thread :=
  Do (Acquire (LCloseQueue w)) $ Do (Access (FCloseQueue w)) $
  Either (Do (Access (FCloseQueue w)) $ Do (Release (LCloseQueue w)) $ remove b k)
    (Do (Release (LCloseQueue w)) k).

Definition handleEOF (b : nat) : thread -> thread := remove b.

(** What a piece of input leads to: a message outside line mode, lines, or a
    line that is too long. *)
Inductive piece :=
| Message (calls : list call)
| Lines (lines : list (list call))
| TooLong (calls : list call).

Definition read_piece (b : nat) (p : piece) (k : thread) : thread :=
  match p with
  | Message calls => performs remove w calls $ Do (Access (FReadBuffers w)) k
  | Lines lines =>
    Do (Access (FReadBuffers w)) $
    fold_right (fun calls k => performs remove w calls $ Do (Access FClients) k)
      (Do (Access (FReadBuffers w)) k) lines
  | TooLong calls => performs remove w calls $ removeDescriptor b k
  end.

(** [handleRead]: an exception it catches releases both locks first. *)
Definition handleRead (b : nat) (pieces : list piece) (k : thread) : thread :=
  let leave k := Do (Release LClients) $ Do (Release (LRead w)) k in
  Do (Acquire (LRead w)) $ Do (Access (FReadBuffers w)) $
  Do (Acquire LClients) $ Do (Access FClients) $ Either
    (Do (Access FAllClients) $ Either (leave k)
       (fold_right (fun p rest => read_piece b p (Either rest (leave $ remove b k))) (leave k) pieces))
    Throws.

(** [accept] of both servers; the handler [addClient] stores the client. *)
Definition accept (b : nat) (k : thread) : thread :=
  (if ssl then locked LSslContext (accesses [FSslContext]) else fun k => k) $
  locked LClients (accesses [FFreePool; FDescriptors; FClients]) $
  Do (Enter b) $
  Do (Acquire LDescriptors) $ Do (Access FBufferEvents) $ Either
    (Do (Link b) $ Do (Access FBufferEventDescriptors) $ Do (Release LDescriptors) $
     (if ssl then locked LSsls (accesses [FSsls]) else fun k => k) $
     locked LWorkerMap (accesses [FWorkerMap]) $
     locked LClients (accesses [FAllClients]) k)
    Throws.

(** An SSL server's filters may refuse the connection first. *)
Definition try_accept (b : nat) (k : thread) : thread :=
  if ssl then Either (accept b k) k else accept b k.

Definition worker_acceptcb (bs : list nat) (k : thread) : thread :=
  locked (LAcceptQueue w)
    (fun k => fold_right (fun b k => Do (Access (FAcceptQueue w)) $ try_accept b k)
       (Do (Access (FAcceptQueue w)) k) bs) k.

Inductive callback :=
| Readable (b : nat) (pieces : list piece)
| Writable (b : nat)
| Eof (b : nat)
| Broken (b : nat)
| Connections (bs : list nat).

Definition run_callback (c : callback) (k : thread) : thread :=
  match c with
  | Readable b pieces => handleRead b pieces k
  | Writable b => handleWriteEmpty b k
  | Eof b => handleEOF b k
  | Broken b => server_remove b k
  | Connections bs => worker_acceptcb bs k
  end.
Definition worker_thread (cs : list callback) : thread := fold_right run_callback Done cs.
End callbacks.

(** The other threads: the listener, the watcher of configurations, and the pool
    that asks for certificates. *)
Definition listener_thread (ws : list nat) : thread := fold_right queueAccept Done ws.
Definition watcher_thread (configs : nat) : thread :=
  Nat.iter configs (locked LConfigs (accesses [FConfigs])) Done.
Definition acme_thread (challenges : nat) : thread :=
  Nat.iter challenges (locked LChallenges (accesses [FChallenges])) Done.

(** A server: what is called back in each worker, the connections the listener
    gives to workers, and the work of the other threads. *)
Definition server (depth : nat) (workers : list (list callback)) (connections : list nat)
    (configs challenges : nat) : list thread :=
  imap (fun w cs => worker_thread depth w cs) workers ++
  [listener_thread connections; watcher_thread configs; acme_thread challenges].
End server.

(** ** The server's threads pass the check *)

(** What an operation keeps: the locks that are held, and the events that are
    erased or new; what has been looked up does not matter to what follows. *)
Definition same (c c' : @ctx lock) : Prop :=
  held c' = held c /\ pending c' = pending c /\ ready c' = ready c /\ fresh c' = fresh c.

(** From a context with [P], [h] keeps to the rules if what follows it does. *)
Definition orderly (t : nat) (P : list lock -> Prop) (h : thread -> thread) : Prop :=
  forall c k, P (held c) -> pending c = [] ->
    (forall c', same c c' -> disciplined t c' k = true) -> disciplined t c (h k) = true.

(** The shared locks that are held have ranks below [r]. *)
Definition room (r : nat) (h : list lock) : Prop :=
  Forall (fun l => match l with LRead _ => True | _ => order l < r end) h.
Definition calm (h : list lock) : Prop := room 2 h /\ LClients ∈ h.
Definition talking (h : list lock) : Prop := room 3 h /\ LClients ∈ h.
Definition playing (h : list lock) : Prop := talking h /\ (room 2 h \/ LChess ∈ h).

Lemma same_refl c : same c c.
Proof. done. Qed.

Lemma same_trans c1 c2 c3 : same c1 c2 -> same c2 c3 -> same c1 c3.
Proof. intros (?&?&?&?) (?&?&?&?). unfold same. split_and!; congruence. Qed.

Lemma room_weaken r r' h : r <= r' -> room r h -> room r' h.
Proof. intros Hr Hh. eapply Forall_impl; [exact Hh|]. intros []; cbn; lia || done. Qed.

Lemma room_cons r l h : order l < r -> room r h -> room r (l :: h).
Proof. intros Hl Hh. constructor; [by destruct l|done]. Qed.

Lemma room_in_order r c l :
  room r (held c) -> r <= order l -> in_order c l = true.
Proof.
  intros Hr Hl. unfold in_order. apply forallb_forall. intros l' Hl'.
  unfold room in Hr. rewrite Forall_forall in Hr. specialize (Hr l' ltac:(by apply list_elem_of_In)).
  change (rank (L := lock) (F := field)) with order.
  destruct l'; try done; cbn [private server_locks]; apply Nat.ltb_lt; cbn in Hr |- *; lia.
Qed.

(** When a lock may be taken. *)
Definition may_take (t : nat) (h : list lock) (l : lock) : Prop :=
  (l ∈ h /\ is_recursive l = true) \/
  (l ∉ h /\ match l with LRead w => w = t | _ => room (order l) h end).

Lemma may_take_allowed t c l : may_take t (held c) l -> allowed t c (Acquire l) = true.
Proof.
  intros [[Hl Hr]|[Hl Hr]]; cbn; destruct (holds c l) eqn:E; try done.
  - by apply holds_spec in Hl; congruence.
  - by apply holds_spec in E.
  - destruct l; cbn; try (by eapply room_in_order; [exact Hr|done]). subst. by rewrite Nat.eqb_refl.
Qed.

(** A lock of rank 3 is free when those that are held have lower ranks. *)
Lemma room_not_held r h l : room r h -> r <= order l -> (forall w, l <> LRead w) -> l ∉ h.
Proof.
  intros Hr Hl Hn Hin. unfold room in Hr. rewrite Forall_forall in Hr. specialize (Hr l Hin).
  destruct l; cbn in *; try lia. by eapply Hn.
Qed.

Lemma room_may_take t h l : room (order l) h -> (forall w, l <> LRead w) -> may_take t h l.
Proof.
  intros Hr Hn. right. split; [by eapply room_not_held|].
  destruct l; try exact Hr. by destruct (Hn w).
Qed.

Lemma read_may_take t h : may_take t h (LRead t).
Proof. destruct (decide (LRead t ∈ h)); [by left|by right]. Qed.

(** Steps one by one. *)
Lemma do_acquire t c l k :
  may_take t (held c) l -> disciplined t (after_acquire l c) k = true ->
  disciplined t c (Do (Acquire l) k) = true.
Proof. intros Hl Hk. cbn [disciplined]. apply andb_true_iff. split; [by apply may_take_allowed|exact Hk]. Qed.

Lemma do_access t c f k :
  guard_of f ∈ held c -> disciplined t c k = true -> disciplined t c (Do (Access f) k) = true.
Proof. intros Hf Hk. cbn. apply andb_true_iff. split; [by apply holds_spec|done]. Qed.

Lemma do_release t c l h k :
  held c = l :: h -> disciplined t (after_release l c) k = true ->
  disciplined t c (Do (Release l) k) = true.
Proof.
  intros Hl Hk. cbn. apply andb_true_iff. split; [|done]. apply holds_spec. rewrite Hl. by left.
Qed.

Lemma do_either t c p q :
  disciplined t c p = true -> disciplined t c q = true -> disciplined t c (Either p q) = true.
Proof. intros Hp Hq. cbn. by rewrite Hp, Hq. Qed.

Lemma do_look t c b found missing :
  LDescriptors ∈ held c -> disciplined t (found_event b c) found = true ->
  disciplined t c missing = true -> disciplined t c (Look b found missing) = true.
Proof.
  intros Hl Hf Hm. cbn [disciplined]. apply andb_true_iff. split; [|exact Hm].
  apply andb_true_iff. split; [by apply holds_spec|exact Hf].
Qed.

Lemma held_acquire l c : held (after_acquire l c) = l :: held c.
Proof. unfold after_acquire. by case_decide. Qed.

Lemma held_release l c h : held c = l :: h -> held (after_release l c) = h.
Proof. intros Hl. cbn. rewrite Hl. cbn. by rewrite decide_True. Qed.

(** Taking a lock, doing something orderly under it and releasing it. *)
Lemma after_locked l c c' :
  pending c = [] -> same (after_acquire l c) c' -> same c (after_release l c').
Proof.
  intros Hp (H1 & H2 & H3 & H4). rewrite held_acquire in H1. unfold same. rewrite (held_release l c' _ H1).
  revert H2 H3 H4. unfold after_acquire. case_decide; cbn; rewrite ?Hp; intros -> -> ->; done.
Qed.

Lemma valid_locked l c :
  LClients ∈ held c -> valid (after_release l (after_acquire l c)) = valid c.
Proof.
  intros Hc. set (c' := after_acquire l c).
  change (valid (after_release l c')) with
    (if decide (LClients ∈ held (after_release l c')) then valid c' else []).
  rewrite (held_release l c' (held c) (held_acquire l c)), decide_True by done.
  unfold c', after_acquire. by case_decide.
Qed.

Lemma pending_acquire l c : pending c = [] -> pending (after_acquire l c) = [].
Proof. unfold after_acquire. by case_decide. Qed.

Lemma locked_orderly t (P Q : list lock -> Prop) l f :
  (forall h, P h -> may_take t h l) -> (forall h, P h -> Q (l :: h)) -> orderly t Q f ->
  orderly t P (locked l f).
Proof.
  intros Hm HQ Hf c k HP Hp Hk. unfold locked. apply do_acquire; [by apply Hm|].
  apply Hf; [rewrite held_acquire; by apply HQ|by apply pending_acquire|].
  intros c' Hc'. pose proof Hc' as (H1 & _). rewrite held_acquire in H1.
  eapply do_release; [exact H1|]. apply Hk. by apply after_locked.
Qed.

Lemma accesses_orderly t (P : list lock -> Prop) fs :
  (forall h f, P h -> f ∈ fs -> guard_of f ∈ h) -> orderly t P (accesses fs).
Proof.
  intros Hg c k HP Hp Hk. induction fs as [|f fs IH]; cbn [accesses fold_right]; [by apply Hk|].
  apply do_access; [apply (Hg _ f); [done|by left]|]. apply IH. intros h f' Hh Hf. apply Hg; [done|by right].
Qed.

Lemma orderly_compose t P f g : orderly t P f -> orderly t P g -> orderly t P (f ∘ g).
Proof.
  intros Hf Hg c k HP Hp Hk. apply Hf; [done..|]. intros c1 H1. pose proof H1 as (E1 & E2 & _).
  apply Hg; [by rewrite E1|by rewrite E2|]. intros c2 H2. apply Hk. by eapply same_trans.
Qed.

Lemma orderly_id t P : orderly t P (fun k => k).
Proof. intros c k _ _ Hk. apply Hk, same_refl. Qed.

Lemma orderly_fold {A} t P (f : A -> thread -> thread) xs :
  (forall x, orderly t P (f x)) -> orderly t P (fun k => fold_right f k xs).
Proof.
  intros Hf. induction xs as [|x xs IH]; [apply orderly_id|].
  exact (orderly_compose t P (f x) (fun k => fold_right f k xs) (Hf x) IH).
Qed.

Lemma orderly_weaken t (P Q : list lock -> Prop) f :
  (forall h, Q h -> P h) -> orderly t P f -> orderly t Q f.
Proof. intros HQ Hf c k HP. apply Hf. by apply HQ. Qed.

Lemma calm_talking h : calm h -> talking h.
Proof. intros [Hr Hc]. split; [|done]. by eapply room_weaken; [|exact Hr]; lia. Qed.

Lemma same_held c c' : same c c' -> held c' = held c.
Proof. by intros (? & _). Qed.
Lemma same_pending c c' : same c c' -> pending c = [] -> pending c' = [].
Proof. intros (_ & -> & _). done. Qed.

Lemma getDescriptor_ok t c found missing :
  may_take t (held c) LClients -> pending c = [] ->
  (forall c', same c c' -> disciplined t c' found = true) ->
  (forall c', same c c' -> disciplined t c' missing = true) ->
  disciplined t c (getDescriptor found missing) = true.
Proof.
  intros Hm Hp Hf Hn. unfold getDescriptor. apply do_acquire; [done|].
  apply do_access; [rewrite held_acquire; by left|].
  apply do_either; (eapply do_release; [apply held_acquire|]).
  - apply Hf. apply after_locked; [done|apply same_refl].
  - apply Hn. apply after_locked; [done|apply same_refl].
Qed.

(** The event that has been found may be used while the clients' lock is held. *)
Lemma getBufferEvent_ok t c b found missing :
  talking (held c) -> pending c = [] ->
  (forall c', same c c' -> b ∈ valid c' -> disciplined t c' found = true) ->
  (forall c', same c c' -> disciplined t c' missing = true) ->
  disciplined t c (getBufferEvent b found missing) = true.
Proof.
  intros [Hr Hc] Hp Hf Hn. unfold getBufferEvent. apply do_acquire; [by apply room_may_take|].
  apply do_access; [rewrite held_acquire; by left|].
  apply do_look.
  - rewrite held_acquire. by left.
  - eapply (do_release _ _ _ (held c)); [apply held_acquire|]. apply Hf.
    + apply after_locked; [done|]. by repeat split.
    + cbn. rewrite held_acquire. cbn [remove_one]. repeat case_decide; set_solver.
  - eapply do_release; [apply held_acquire|]. apply Hn. apply after_locked; [done|apply same_refl].
Qed.

Lemma clients_may_take t h : LClients ∈ h -> may_take t h LClients.
Proof. by left. Qed.

Lemma do_use t c b k :
  b ∈ valid c -> disciplined t c k = true -> disciplined t c (Do (Use b) k) = true.
Proof. intros Hb Hk. cbn. apply andb_true_iff. split; [by rewrite bool_decide_eq_true|done]. Qed.

Lemma send_orderly t b : orderly t talking (send b).
Proof.
  intros c k [Hr Hc] Hp Hk. apply getDescriptor_ok; [by apply clients_may_take|done| |exact Hk].
  intros c1 H1. pose proof (same_held _ _ H1) as E1. apply getBufferEvent_ok.
  - by rewrite E1.
  - by eapply same_pending.
  - intros c2 H2 Hb. apply do_use; [done|]. apply Hk. by eapply same_trans.
  - intros c2 H2. apply Hk. by eapply same_trans.
Qed.

Lemma sends_orderly t bs : orderly t talking (sends bs).
Proof. apply (orderly_fold t talking send bs). apply send_orderly. Qed.

Lemma chess_orderly t c : orderly t playing (chess c).
Proof.
  destruct c as [b|bs]; cbn [chess].
  - eapply orderly_weaken; [|apply send_orderly]. by intros h [H _].
  - apply (locked_orderly t playing playing).
    + intros h [_ [Hh|Hh]]; [by apply room_may_take|by left].
    + intros h [[Hr Hc] Hh]. split; [split|]; [by apply room_cons; [cbn; lia|]|by right|right; by left].
    + apply orderly_compose.
      * apply accesses_orderly. intros h f [[_ Hh] _] Hf. apply list_elem_of_singleton in Hf as ->. done.
      * eapply orderly_weaken; [|apply sends_orderly]. by intros h [H _].
Qed.

Lemma played_orderly t calls : orderly t playing (accesses [FChess] ∘ fun k => fold_right chess k calls).
Proof.
  apply orderly_compose.
  - apply accesses_orderly. intros h f [[_ Hh] _] Hf. by apply list_elem_of_singleton in Hf as ->.
  - apply (orderly_fold t playing chess). apply chess_orderly.
Qed.

Section orderly_calls.
Context (w : nat) (remove : nat -> thread -> thread).
Hypothesis Hremove : forall b, orderly w calm (remove b).

Lemma queueClose_ok b c k :
  calm (held c) -> pending c = [] -> b ∈ valid c ->
  (forall c', same c c' -> disciplined w c' k = true) ->
  disciplined w c (queueClose remove w b k) = true.
Proof.
  intros Hc Hp Hb Hk. apply do_use; [done|]. apply do_either; [by apply Hremove|].
  pose proof (calm_talking _ Hc) as [Hr _].
  apply (locked_orderly w (room 3) (fun h => LCloseQueue w ∈ h)); [|by left| |done..].
  - intros h Hh. by apply room_may_take.
  - apply accesses_orderly. intros h f Hh Hf. by apply list_elem_of_singleton in Hf as ->.
Qed.

Lemma close_orderly b : orderly w calm (close remove w b).
Proof.
  intros c k Hc Hp Hk. pose proof (calm_talking _ Hc) as [Hr Hcl].
  apply getDescriptor_ok; [by apply clients_may_take|done| |exact Hk].
  intros c1 H1. pose proof (same_held _ _ H1) as E1. pose proof (same_pending _ _ H1 Hp) as Hp1.
  apply getBufferEvent_ok; [by rewrite E1|done| |].
  - intros c2 H2 Hb. pose proof (same_held _ _ H2) as E2. rewrite E1 in E2.
    pose proof (same_pending _ _ H2 Hp1) as Hp2.
    apply do_acquire; [rewrite E2; by apply room_may_take|].
    apply do_access; [rewrite held_acquire; by left|]. apply do_either; [|done].
    eapply do_release; [apply held_acquire|].
    assert (Hs : same c2 (after_release LWorkerMap (after_acquire LWorkerMap c2)))
      by (apply after_locked; [done|apply same_refl]).
    apply queueClose_ok.
    + by rewrite (same_held _ _ Hs), E2.
    + by eapply same_pending.
    + by rewrite valid_locked by by rewrite E2.
    + intros c3 H3. apply Hk. by repeat (eapply same_trans; [eassumption|]).
  - intros c2 H2. apply Hk. by eapply same_trans.
Qed.

Lemma perform_orderly c : orderly w calm (perform remove w c).
Proof.
  destruct c as [b|b| |reply|[] calls]; cbn [perform].
  - eapply orderly_weaken; [exact calm_talking|apply send_orderly].
  - apply close_orderly.
  - apply (locked_orderly w calm (fun h => LConfigs ∈ h)).
    + intros h [Hr _]%calm_talking. by apply room_may_take.
    + by left.
    + apply accesses_orderly. intros h f Hh Hf. by apply list_elem_of_singleton in Hf as ->.
  - apply (locked_orderly w calm (fun h => talking h /\ LChallenges ∈ h)).
    + intros h [Hr _]. by apply room_may_take.
    + intros h [Hr Hc]%calm_talking. split; [split|]; [by apply room_cons; [cbn; lia|]|by right|by left].
    + apply orderly_compose.
      * apply accesses_orderly. intros h f [_ Hh] Hf. by apply list_elem_of_singleton in Hf as ->.
      * eapply orderly_weaken; [|apply sends_orderly]. by intros h [H _].
  - apply (locked_orderly w calm playing).
    + intros h [Hr _]. by apply room_may_take.
    + intros h [Hr Hc]%calm_talking. split; [split|]; [by apply room_cons; [cbn; lia|]|by right|right; by left].
    + apply played_orderly.
  - eapply orderly_weaken; [|apply played_orderly]. intros h Hh. split; [by apply calm_talking|left; by destruct Hh].
Qed.

Lemma performs_orderly calls : orderly w calm (performs remove w calls).
Proof. apply (orderly_fold w calm (perform remove w)). apply perform_orderly. Qed.

End orderly_calls.

(** Taking an event out of the table and then the clients' lock. *)
Definition erased (b : nat) (c : @ctx lock) : ctx :=
  after_acquire LClients (after_release LDescriptors
    (after_erase b (found_event b (after_acquire LDescriptors c)))).

Lemma erased_ctx b c :
  pending c = [] ->
  held (erased b c) = LClients :: held c /\ pending (erased b c) = [] /\
  ready (erased b c) = b :: ready c /\ fresh (erased b c) = fresh c.
Proof.
  intros Hp. unfold erased. set (c1 := after_erase b _).
  assert (Hh : held c1 = LDescriptors :: held c).
  { unfold c1, after_erase. case_decide; cbn; by rewrite held_acquire. }
  rewrite held_acquire, (held_release _ _ _ Hh). split; [done|].
  unfold after_acquire at 1 2 3. rewrite decide_True by done. cbn.
  unfold c1, after_erase. case_decide; cbn; unfold after_acquire; case_decide; by rewrite ?Hp.
Qed.

(** The locks under which a connection may be removed: those of a handler, or
    none that is shared with other operations. *)
Definition removing (h : list lock) : Prop := calm h \/ room 1 h.

Lemma removing_room h : removing h -> room 3 h.
Proof. intros [[Hr _]|Hr]; (eapply room_weaken; [|exact Hr]; lia). Qed.

Lemma removing_clients t h : removing h -> may_take t h LClients.
Proof. intros [[_ Hc]|Hr]; [by left|by apply room_may_take]. Qed.

Lemma removing_calm h : removing h -> calm (LClients :: h).
Proof.
  intros Hh. split; [|by left]. apply room_cons; [cbn; lia|].
  destruct Hh as [[Hr _]|Hr]; [done|]. eapply room_weaken; [|exact Hr]. lia.
Qed.

Lemma do_free t c b r k :
  ready c = b :: r ->
  disciplined t (Ctx (held c) (seen c) (valid c) (pending c) r (fresh c)) k = true ->
  disciplined t c (Do (Free b) k) = true.
Proof.
  intros Hr Hk. cbn. rewrite Hr. cbn. rewrite decide_True by done.
  apply andb_true_iff. split; [|exact Hk]. rewrite bool_decide_eq_true. by left.
Qed.

Lemma leaf_orderly t l fs :
  order l = 3 -> (forall w, l <> LRead w) -> Forall (fun f => guard_of f = l) fs ->
  orderly t (room 3) (locked l (accesses fs)).
Proof.
  intros Hl Hn Hf. apply (locked_orderly t (room 3) (fun h => l ∈ h)); [|by left|].
  - intros h Hh. apply room_may_take; [by rewrite Hl|done].
  - apply accesses_orderly. intros h f Hh Hin. rewrite Forall_forall in Hf. by rewrite (Hf f Hin).
Qed.

Lemma read_orderly w fs :
  Forall (fun f => guard_of f = LRead w) fs -> orderly w (room 3) (locked (LRead w) (accesses fs)).
Proof.
  intros Hf. apply (locked_orderly w (room 3) (fun h => LRead w ∈ h)); [|by left|].
  - intros h _. apply read_may_take.
  - apply accesses_orderly. intros h f Hh Hin. rewrite Forall_forall in Hf. by rewrite (Hf f Hin).
Qed.

(** What [remove] does after the clients' lock. *)
Lemma forget_orderly (ssl : bool) w :
  orderly w (room 3) (locked (LRead w) (accesses [FReadBuffers w]) ∘
    locked LWorkerMap (accesses [FWorkerMap]) ∘
    (if ssl then locked LSsls (accesses [FSsls]) else fun k => k)).
Proof.
  apply orderly_compose; [apply orderly_compose|].
  - apply read_orderly. by repeat constructor.
  - apply leaf_orderly; [done..|]. by repeat constructor.
  - destruct ssl; [|apply orderly_id]. apply leaf_orderly; [done..|]. by repeat constructor.
Qed.

Lemma worker_remove_orderly ssl closeHandler depth w b :
  orderly w removing (worker_remove ssl closeHandler depth w b).
Proof.
  revert b. induction depth as [|d IH]; intros b c k Hc Hp Hk; [done|].
  assert (IHc : forall b, orderly w calm (worker_remove ssl closeHandler d w b)).
  { intros b'. eapply orderly_weaken; [|apply IH]. by left. }
  cbn [worker_remove]. apply do_acquire; [by apply room_may_take; [apply removing_room|]|].
  apply do_access; [rewrite held_acquire; by left|].
  apply do_look; [rewrite held_acquire; by left| |done].
  set (c1 := found_event b _). assert (Hh1 : held c1 = LDescriptors :: held c) by apply held_acquire.
  change (disciplined w c1 (Do (Erase b) ?k)) with (bool_decide (b ∈ seen c1) && disciplined w (after_erase b c1) k).
  rewrite bool_decide_eq_true_2 by by left. cbn [andb].
  assert (Hh2 : held (after_erase b c1) = LDescriptors :: held c) by (unfold after_erase; by case_decide).
  apply do_access; [rewrite Hh2; by left|].
  eapply do_release; [exact Hh2|].
  apply do_acquire; [rewrite (held_release _ _ _ Hh2); by apply removing_clients|].
  change (after_acquire LClients _) with (erased b c).
  destruct (erased_ctx b c Hp) as (E1 & E2 & E3 & E4). set (c4 := erased b c) in *.
  apply do_access; [rewrite E1; by left|]. apply do_either; [|done].
  assert (Hcalm : calm (held c4)) by (rewrite E1; by apply removing_calm).
  apply performs_orderly; [exact IHc|done..|]. intros c5 H5. pose proof (same_held _ _ H5) as E5.
  rewrite E1 in E5. pose proof (same_pending _ _ H5 E2) as Hp5.
  apply (accesses_orderly w (fun h => LClients ∈ h)); [|rewrite E5; by left|done|].
  { intros h f Hh Hf. by repeat (apply elem_of_cons in Hf as [->|Hf]; [done|]); apply elem_of_nil in Hf. }
  intros c6 H6. assert (E6 : held c6 = LClients :: held c) by (rewrite <- E5; apply H6).
  eapply do_release; [exact E6|]. pose proof (held_release _ _ _ E6) as E7.
  set (c7 := after_release LClients c6) in *. pose proof (removing_room _ Hc) as Hr3.
  assert (H7 : pending c7 = [] /\ ready c7 = b :: ready c /\ fresh c7 = fresh c).
  { destruct H5 as (_ & P5 & R5 & F5). destruct H6 as (_ & P6 & R6 & F6). cbn.
    by rewrite P6, R6, F6, P5, R5, F5. }
  destruct H7 as (P7 & R7 & F7).
  apply (forget_orderly ssl w c7); [by rewrite E7|done|]. intros c8 (H8 & P8 & R8 & F8).
  eapply do_free; [by rewrite R8|]. apply Hk. unfold same. cbn. split_and!; congruence.
Qed.

Definition nothing (h : list lock) : Prop := h = [].

Lemma nothing_removing h : nothing h -> removing h.
Proof. intros ->. right. constructor. Qed.

Section worker.
Context (ssl : bool) (closeHandler : nat -> list call) (depth w : nat).
Abbreviation remove := (remove ssl closeHandler depth w).
Abbreviation performs := (performs remove w).

Lemma remove_orderly b : orderly w removing (remove b).
Proof. apply worker_remove_orderly. Qed.

Lemma remove_calm b : orderly w calm (remove b).
Proof. eapply orderly_weaken; [|apply remove_orderly]. by left. Qed.

Lemma server_remove_orderly b : orderly w nothing (server_remove ssl closeHandler depth w b).
Proof.
  intros c k Hc Hp Hk. assert (Hr : room 3 (held c)) by (rewrite Hc; constructor).
  apply do_acquire; [by apply room_may_take|]. apply do_access; [rewrite held_acquire; by left|].
  pose proof (after_locked LWorkerMap c _ Hp (same_refl _)) as Hs.
  apply do_either; (eapply do_release; [apply held_acquire|]); [by apply Hk|].
  apply remove_orderly.
  - apply nothing_removing. by rewrite (same_held _ _ Hs).
  - by eapply same_pending.
  - intros c' Hc'. apply Hk. by eapply same_trans.
Qed.

Lemma handleWriteEmpty_orderly b : orderly w nothing (handleWriteEmpty ssl closeHandler depth w b).
Proof.
  intros c k Hc Hp Hk. assert (Hr : room 3 (held c)) by (rewrite Hc; constructor).
  apply do_acquire; [by apply room_may_take|]. apply do_access; [rewrite held_acquire; by left|].
  pose proof (after_locked (LCloseQueue w) c _ Hp (same_refl _)) as Hs.
  apply do_either; [apply do_access; [rewrite held_acquire; by left|]|];
    (eapply do_release; [apply held_acquire|]); [|by apply Hk].
  apply remove_orderly.
  - apply nothing_removing. by rewrite (same_held _ _ Hs).
  - by eapply same_pending.
  - intros c' Hc'. apply Hk. by eapply same_trans.
Qed.

(** In [handleRead] the worker holds the lock of its buffers and the clients'. *)
Definition reading (h : list lock) : Prop := h = [LClients; LRead w].

Lemma reading_calm h : reading h -> calm h.
Proof. intros ->. split; [|by left]. by repeat ((apply room_cons; [cbn; lia|]) || constructor). Qed.

Lemma calls_orderly calls : orderly w calm (performs calls).
Proof. apply performs_orderly. apply remove_calm. Qed.

Lemma removeDescriptor_orderly b : orderly w calm (removeDescriptor ssl closeHandler depth w b).
Proof.
  intros c k Hc Hp Hk. apply getBufferEvent_ok; [by apply calm_talking|done| |done].
  intros c' Hs _. apply remove_calm.
  - by rewrite (same_held _ _ Hs).
  - by eapply same_pending.
  - intros c2 H2. apply Hk. by eapply same_trans.
Qed.

Lemma access_orderly f (P : list lock -> Prop) :
  (forall h, P h -> guard_of f ∈ h) -> orderly w P (Do (Access f)).
Proof.
  intros Hf. apply (accesses_orderly w P [f]). intros h f' Hh Hin.
  apply list_elem_of_singleton in Hin as ->. by apply Hf.
Qed.

Lemma read_piece_orderly b p : orderly w reading (read_piece ssl closeHandler depth w b p).
Proof.
  assert (Hcalls : forall calls, orderly w reading (performs calls)).
  { intros calls. eapply orderly_weaken; [exact reading_calm|apply calls_orderly]. }
  assert (Hbuf : orderly w reading (Do (Access (FReadBuffers w)))).
  { apply access_orderly. intros h ->. right. by left. }
  destruct p as [calls|lines|calls].
  - exact (orderly_compose _ _ _ _ (Hcalls calls) Hbuf).
  - apply (orderly_compose _ _ _ _ Hbuf).
    refine (orderly_compose _ _ (fun k => fold_right _ k lines) _ _ Hbuf).
    apply (orderly_fold w reading (fun calls k => performs calls $ Do (Access FClients) k)). intros calls.
    refine (orderly_compose _ _ _ _ (Hcalls calls) _). apply access_orderly. intros h ->. by left.
  - refine (orderly_compose _ _ _ _ (Hcalls calls) _).
    eapply orderly_weaken; [exact reading_calm|apply removeDescriptor_orderly].
Qed.

(** Leaving [handleRead], from where it reads. *)
Lemma leave_ok c k :
  reading (held c) -> pending c = [] ->
  (forall c', held c' = [] -> pending c' = [] -> ready c' = ready c -> fresh c' = fresh c ->
    disciplined w c' k = true) ->
  disciplined w c (Do (Release LClients) $ Do (Release (LRead w)) k) = true.
Proof.
  intros Hc Hp Hk. eapply do_release; [exact Hc|].
  pose proof (held_release _ _ _ Hc) as H1. eapply do_release; [exact H1|].
  apply Hk; [|done..]. exact (held_release _ _ _ H1).
Qed.

Lemma handleRead_orderly b pieces : orderly w nothing (handleRead ssl closeHandler depth w b pieces).
Proof.
  intros c k Hc Hp Hk. unfold nothing in Hc. unfold handleRead.
  apply do_acquire; [apply read_may_take|]. apply do_access; [rewrite held_acquire; by left|].
  pose proof (held_acquire (LRead w) c) as E1. rewrite Hc in E1.
  apply do_acquire.
  { rewrite E1. apply room_may_take; [|done]. by repeat constructor. }
  set (c2 := after_acquire LClients _). assert (E2 : reading (held c2)) by (unfold c2, reading; by rewrite held_acquire, E1).
  assert (H2 : pending c2 = [] /\ ready c2 = ready c /\ fresh c2 = fresh c).
  { unfold c2, after_acquire. repeat case_decide; cbn; by rewrite ?Hp. }
  assert (Hend : forall c', same c2 c' -> disciplined w c' (Do (Release LClients) $ Do (Release (LRead w)) k) = true).
  { intros c' (S1 & S2 & S3 & S4). destruct H2 as (P2 & R2 & F2). apply leave_ok; [by rewrite S1|by rewrite S2|].
    intros c3 T1 T2 T3 T4. apply Hk. unfold same. split_and!; congruence. }
  assert (Hcaught : forall c', same c2 c' ->
    disciplined w c' (Do (Release LClients) $ Do (Release (LRead w)) $ remove b k) = true).
  { intros c' (S1 & S2 & S3 & S4). destruct H2 as (P2 & R2 & F2). apply leave_ok; [by rewrite S1|by rewrite S2|].
    intros c3 T1 T2 T3 T4. apply remove_orderly; [by apply nothing_removing|done|].
    intros c4 (U1 & U2 & U3 & U4). apply Hk. unfold same. split_and!; congruence. }
  apply do_access; [rewrite E2; by left|]. apply do_either; [|done].
  apply do_access; [rewrite E2; by left|]. apply do_either; [by apply Hend, same_refl|].
  assert (Hloop : forall c', same c2 c' -> disciplined w c' (fold_right (fun p k' =>
    read_piece ssl closeHandler depth w b p (Either k' (Do (Release LClients) $ Do (Release (LRead w)) $ remove b k)))
    (Do (Release LClients) $ Do (Release (LRead w)) k) pieces) = true).
  { induction pieces as [|p ps IH]; [exact Hend|]. intros c' Hs. cbn [fold_right].
    apply read_piece_orderly; [by rewrite (same_held _ _ Hs)|eapply same_pending; [exact Hs|by destruct H2]|].
    intros c3 H3. apply do_either; [apply IH|apply Hcaught]; by eapply same_trans. }
  apply Hloop, same_refl.
Qed.

End worker.

Section accepting.
Context (ssl : bool) (w : nat).
Definition accepting (h : list lock) : Prop := h = [LAcceptQueue w].

Lemma accepting_room h r : accepting h -> 0 < r -> room r h.
Proof. intros -> Hr. apply room_cons; [exact Hr|constructor]. Qed.

Lemma accept_lock l fs :
  0 < order l -> (forall v, l <> LRead v) -> Forall (fun f => guard_of f = l) fs ->
  orderly w accepting (locked l (accesses fs)).
Proof.
  intros Hl Hn Hf. apply (locked_orderly w accepting (fun h => l ∈ h)); [|by left|].
  - intros h Hh. apply room_may_take; [by apply accepting_room|done].
  - apply accesses_orderly. intros h f Hh Hin. rewrite Forall_forall in Hf. by rewrite (Hf f Hin).
Qed.

Lemma if_ssl_orderly l fs :
  0 < order l -> (forall v, l <> LRead v) -> Forall (fun f => guard_of f = l) fs ->
  orderly w accepting (if ssl then locked l (accesses fs) else fun k => k).
Proof. intros Hl Hn Hf. destruct ssl; [by apply accept_lock|apply orderly_id]. Qed.

(** What [accept] does once the event is in the table. *)
Lemma linked_orderly :
  orderly w accepting ((if ssl then locked LSsls (accesses [FSsls]) else fun k => k) ∘
    locked LWorkerMap (accesses [FWorkerMap]) ∘ locked LClients (accesses [FAllClients])).
Proof.
  apply orderly_compose; [apply orderly_compose|].
  - apply if_ssl_orderly; [cbn; lia|done|by repeat constructor].
  - apply accept_lock; [cbn; lia|done|by repeat constructor].
  - apply accept_lock; [cbn; lia|done|by repeat constructor].
Qed.

(** The new event, from its allocation to the table. *)
Lemma enter_ok b c k :
  accepting (held c) -> pending c = [] -> (forall c', same c c' -> disciplined w c' k = true) ->
  disciplined w c (Do (Enter b) $ Do (Acquire LDescriptors) $ Do (Access FBufferEvents) $ Either
    (Do (Link b) $ Do (Access FBufferEventDescriptors) $ Do (Release LDescriptors) k) Throws) = true.
Proof.
  intros Hc Hp Hk. set (c1 := after (Enter b) c).
  change (disciplined w c (Do (Enter b) ?k)) with (disciplined w c1 k).
  apply do_acquire; [apply room_may_take; [apply accepting_room; [exact Hc|cbn; lia]|done]|].
  set (c2 := after_acquire LDescriptors c1). assert (E2 : held c2 = LDescriptors :: held c) by exact (held_acquire LDescriptors c1).
  apply do_access; [rewrite E2; by left|]. apply do_either; [|done].
  assert (F2 : fresh c2 = b :: fresh c /\ ready c2 = ready c /\ pending c2 = []).
  { unfold c2, after_acquire. by case_decide. }
  destruct F2 as (F2 & R2 & P2). set (c3 := after (Link b) c2).
  assert (F3 : fresh c3 = fresh c) by (unfold c3; cbn; rewrite F2; cbn; by rewrite decide_True).
  change (disciplined w c2 (Do (Link b) ?k)) with (allowed w c2 (Link b) && disciplined w c3 k).
  apply andb_true_iff. split.
  { cbn. apply andb_true_iff. rewrite F2. split; [apply holds_spec; rewrite E2; by left|].
    rewrite bool_decide_eq_true. by left. }
  assert (E3 : held c3 = LDescriptors :: held c) by exact E2.
  apply do_access; [rewrite E3; by left|]. eapply do_release; [exact E3|]. apply Hk. unfold same.
  rewrite (held_release _ c3 _ E3). cbn. split_and!; [done|by rewrite P2|by rewrite R2|exact F3].
Qed.

Lemma accept_orderly b : orderly w accepting (accept ssl b).
Proof.
  intros c k Hc Hp Hk. unfold accept.
  apply (orderly_compose w accepting _ _ (if_ssl_orderly LSslContext [FSslContext] ltac:(cbn; lia) ltac:(done)
           ltac:(by repeat constructor))
         (accept_lock LClients [FFreePool; FDescriptors; FClients] ltac:(cbn; lia) ltac:(done)
           ltac:(by repeat constructor))); [done..|].
  intros c1 H1. apply enter_ok; [by rewrite (same_held _ _ H1)|by eapply same_pending|].
  intros c2 H2. assert (Hs : same c c2) by by eapply same_trans.
  apply linked_orderly; [by rewrite (same_held _ _ Hs)|by eapply same_pending|].
  intros c3 H3. apply Hk. by eapply same_trans.
Qed.

Lemma try_accept_orderly b : orderly w accepting (try_accept ssl b).
Proof.
  intros c k Hc Hp Hk. unfold try_accept. pose proof (accept_orderly b c k Hc Hp Hk) as Ha.
  destruct ssl; [|exact Ha]. apply do_either; [exact Ha|by apply Hk].
Qed.

Lemma worker_acceptcb_orderly bs : orderly w nothing (worker_acceptcb ssl w bs).
Proof.
  apply (locked_orderly w nothing accepting).
  - intros h ->. apply room_may_take; [constructor|done].
  - by intros h ->.
  - assert (Ha : orderly w accepting (Do (Access (FAcceptQueue w)))).
    { apply access_orderly. intros h ->. by left. }
    refine (orderly_compose _ _ (fun k => fold_right _ k bs) _ _ Ha).
    apply (orderly_fold w accepting (fun b k => Do (Access (FAcceptQueue w)) $ try_accept ssl b k)). intros b.
    exact (orderly_compose _ _ _ _ Ha (try_accept_orderly b)).
Qed.
End accepting.

(** Every thread of the server. *)
Lemma orderly_done t P f :
  P [] -> orderly t P f -> disciplined t no_ctx (f Done) = true.
Proof.
  intros HP Hf. apply Hf; [done..|]. intros c (H1 & H2 & H3 & _). cbn in *.
  by rewrite bool_decide_eq_true, H1, H2, H3.
Qed.

Lemma run_callback_orderly ssl closeHandler depth w c :
  orderly w nothing (run_callback ssl closeHandler depth w c).
Proof.
  destruct c as [b pieces|b|b|b|bs].
  - apply handleRead_orderly.
  - apply handleWriteEmpty_orderly.
  - eapply orderly_weaken; [exact nothing_removing|apply remove_orderly].
  - apply server_remove_orderly.
  - apply worker_acceptcb_orderly.
Qed.

Lemma worker_thread_ok ssl closeHandler depth w cs :
  disciplined w no_ctx (worker_thread ssl closeHandler depth w cs) = true.
Proof.
  apply (orderly_done w nothing (fun k => fold_right (run_callback ssl closeHandler depth w) k cs)); [done|].
  apply (orderly_fold w nothing (run_callback ssl closeHandler depth w)). apply run_callback_orderly.
Qed.

Lemma leaf_nothing t l fs :
  (forall w, l <> LRead w) -> Forall (fun f => guard_of f = l) fs ->
  orderly t nothing (locked l (accesses fs)).
Proof.
  intros Hn Hf. apply (locked_orderly t nothing (fun h => l ∈ h)); [|by left|].
  - intros h ->. apply room_may_take; [constructor|done].
  - apply accesses_orderly. intros h f Hh Hin. rewrite Forall_forall in Hf. by rewrite (Hf f Hin).
Qed.

Lemma listener_thread_ok t ws : disciplined t no_ctx (listener_thread ws) = true.
Proof.
  apply (orderly_done t nothing (fun k => fold_right queueAccept k ws)); [done|].
  apply (orderly_fold t nothing queueAccept). intros w. apply leaf_nothing; [done|by repeat constructor].
Qed.

Lemma iter_orderly t P n f : orderly t P f -> orderly t P (Nat.iter n f).
Proof.
  intros Hf. induction n as [|n IH]; [apply orderly_id|]. exact (orderly_compose t P f (Nat.iter n f) Hf IH).
Qed.

Lemma server_disciplined ssl closeHandler depth workers connections configs challenges :
  all_disciplined (server ssl closeHandler depth workers connections configs challenges).
Proof.
  intros i p. unfold server. rewrite lookup_app_Some. intros [Hi|[Hlen Hi]].
  - rewrite list_lookup_imap in Hi. destruct (workers !! i) as [cs|]; [|done].
    injection Hi as <-. apply worker_thread_ok.
  - apply list_elem_of_lookup_2 in Hi.
    repeat (apply elem_of_cons in Hi as [->|Hi]); [..|by apply elem_of_nil in Hi].
    + apply listener_thread_ok.
    + eapply (orderly_done _ nothing); [done|]. apply iter_orderly, leaf_nothing; [done|by repeat constructor].
    + eapply (orderly_done _ nothing); [done|]. apply iter_orderly, leaf_nothing; [done|by repeat constructor].
Qed.

(** ** Theorems *)

(** C7: whatever is called back in the workers and whatever their handlers send,
    close (connections of their own worker), look up and broadcast, the threads of
    the server never deadlock: every schedule is finite, and until all threads
    have ended one of them can take a step. *)
Theorem server_never_deadlocks ssl closeHandler depth workers connections configs challenges
    events schedule s :
  let threads := server ssl closeHandler depth workers connections configs challenges in
  run schedule (start events threads) = Some s ->
  length schedule <= work (start events threads) /\
  (ended s = false -> exists i, forall choice, is_Some (step i choice s)).
Proof. intros threads Hr. eapply never_stuck; [apply server_disciplined|exact Hr]. Qed.

(** C8: under every schedule, no two threads are about to touch the same table or
    queue, a connection's event that is about to be used or freed has not been
    freed, and nobody uses an event that another thread is about to free. *)
Theorem shared_state_guarded ssl closeHandler depth workers connections configs challenges
    events schedule s :
  run schedule (start events (server ssl closeHandler depth workers connections configs challenges))
    = Some s ->
  (forall i j f, about_to s i (Access f) -> about_to s j (Access f) -> i = j) /\
  (forall i b, about_to s i (Use b) \/ about_to s i (Free b) -> b ∈ live s) /\
  (forall i j b, about_to s i (Use b) -> about_to s j (Free b) -> False).
Proof.
  intros Hr. assert (Hok : locks_ok s) by (eapply ok_run, Hr; apply start_ok, server_disciplined).
  split_and!; intros *; [by apply no_race|by apply no_fault|by apply no_use_while_freeing].
Qed.

(** A message handler of the worker [w]. *)
Definition in_handler (w : nat) (h : thread -> thread) : thread :=
  Do (Acquire (LRead w)) $ Do (Acquire LClients) $ h $
  Do (Release LClients) $ Do (Release (LRead w)) Done.

Definition steps_of (n i : nat) : list (nat * bool) := repeat (i, true) n.

(** A handler that closes a connection of another worker, with nothing left to
    send, waits for that worker's read lock while it holds the clients' lock; if
    the other worker is about to handle a message, neither goes on. *)
Lemma closing_across_workers_deadlocks :
  exists s, run (steps_of 1 1 ++ steps_of 30 0)
      (start {[ 7 ]} [in_handler 0 (close (worker_remove false (fun _ => []) 1 1) 1 7);
                      in_handler 1 (fun k => k)]) = Some s /\
    ended s = false /\ forall i choice, step i choice s = None.
Proof.
  eexists. split; [vm_compute; reflexivity|]. split; [reflexivity|]. intros [|[|i]] choice; reflexivity.
Qed.

(** Outside the handlers, [send] may use an event after it has been freed. *)
Lemma unlocked_send_uses_freed :
  exists s, run (steps_of 8 0 ++ steps_of 21 1)
      (start {[ 7 ]} [send 7 Done; worker_remove false (fun _ => []) 1 1 7 Done]) = Some s /\
    about_to s 0 (Use 7) /\ 7 ∉ live s.
Proof.
  eexists. split; [vm_compute; reflexivity|]. split; [by eexists _, _|].
  refine (bool_decide_unpack _ _). vm_compute. exact I.
Qed.

(** Two workers: one is sent a message that is broadcast and answered, and
    accepts a connection; in the other a connection ends. *)
Definition two_workers : list (list callback) :=
  [[Readable 7 [Lines [[Chess false [Tell 7; Broadcast [7; 8]]; Close 7]]]; Connections [9]]; [Eof 8]].

Lemma two_workers_run :
  exists s, run (steps_of 6 1 ++ steps_of 6 0 ++ [(0, false)] ++ steps_of 30 0)
    (start {[ 7; 8 ]} (server true (fun _ => [Send 7]) 2 two_workers [0] 1 1)) = Some s /\ ended s = false.
Proof. eexists. split; [vm_compute; reflexivity|reflexivity]. Qed.

Lemma server_never_deadlocks_witness :
  exists s, ended s = false /\ exists i, forall choice, is_Some (step (L := lock) (F := field) i choice s).
Proof.
  destruct two_workers_run as (s & Hr & He). exists s. split; [exact He|].
  exact (proj2 (server_never_deadlocks true (fun _ => [Send 7]) 2 two_workers [0] 1 1 {[ 7; 8 ]} _ s Hr) He).
Defined.

(** A worker about to use the event it answers on. *)
Lemma using_run :
  exists s, run (steps_of 6 0 ++ [(0, false)] ++ steps_of 8 0)
    (start {[ 7 ]} (server false (fun _ => []) 1 [[Readable 7 [Message [Send 7]]]] [] 0 0)) = Some s /\
    about_to s 0 (Use 7).
Proof. eexists. split; [vm_compute; reflexivity|by eexists _, _]. Qed.

Lemma shared_state_guarded_witness :
  exists s : @state lock field, about_to s 0 (Use 7) /\ 7 ∈ live s.
Proof.
  destruct using_run as (s & Hr & Hu). exists s. split; [exact Hu|].
  destruct (shared_state_guarded false (fun _ => []) 1 [[Readable 7 [Message [Send 7]]]] [] 0 0 {[ 7 ]} _ s Hr)
    as (_ & Hlive & _).
  exact (Hlive 0 7 (or_introl Hu)).
Defined.
