(* ===== verification/Lifecycle.v ===== *)
(** * The life of the network server

    [src/net/Server.cpp]: the address it binds to, the start and the end of its
    threads and of the library's loops, and its destructor with that of its threads,
    over the tables of [NetServer.v].  What the loops do while they run are the steps of that file;
    here they begin and end. *)

From Stdlib Require Import ZArith Lia Ascii String.
From stdpp Require Import base tactics option list strings gmap sets.
From S2P Require Import Prelude Util NetServer.

(** ** The address *)

Inductive address_family := AF_INET | AF_INET6 | OtherFamily (af : Z).
Inductive sockaddr :=
| SockaddrIn (sin_port : Z) (sin_addr : bytes)
| SockaddrIn6 (sin6_port : Z) (sin6_addr : bytes).

(** The two bytes of a port swapped, on a machine whose integers begin with
    their low byte. *)
Definition htons (port : Z) : Z := Z.lor (Z.shiftl (Z.land port 255) 8) (Z.land (Z.shiftr port 8) 255).

(** [inet_pton], which is given the text up to its first null. *)
Definition makeName (inet_pton : address_family -> bytes -> option bytes)
    (af : address_family) (ip : bytes) (port : Z) : outcome sockaddr :=
  match af with
  | AF_INET | AF_INET6 =>
    match inet_pton af (c_str ip) with
    | Some address =>
      Ret (match af with AF_INET => SockaddrIn (htons port) address | _ => SockaddrIn6 (htons port) address end)
    | None => Throw (InvalidArgument (lit "Couldn't parse IP address " ++ [dquote] ++ ip ++ [dquote]))
    end
  | OtherFamily af =>
    Throw (InvalidArgument (lit "Unsupported or invalid address family: " ++ to_dec af))
  end.

(** ** Threads and loops *)

(** The pointer to the main loop's base: null, or to a base that lives or that
    has been freed. *)
Inductive event_base := NoBase | LiveBase | FreedBase.

(** [l_threads] counts the threads of the workers, and [l_accepting] is whether there
    is a thread that accepts, all of them to be joined yet; a worker is its number. *)
Record life (C : Type) := Life {
  l_connected : bool;
  l_name : option sockaddr;
  l_base : event_base;
  l_threads : nat;
  l_accepting : bool;
  l_workers : list nat;
  l_stopped : list nat;
  l_net : net C;
}.
Arguments Life {C}.
Arguments l_connected {C}.
Arguments l_name {C}.
Arguments l_base {C}.
Arguments l_threads {C}.
Arguments l_accepting {C}.
Arguments l_workers {C}.
Arguments l_stopped {C}.
Arguments l_net {C}.

Section life.
Context {C : Type} `{GC : GenericClient C}.
Implicit Types s : life C.

Definition set_connected s : life C :=
  Life true (l_name s) (l_base s) (l_threads s) (l_accepting s) (l_workers s) (l_stopped s) (l_net s).
Definition set_name (a : sockaddr) s : life C :=
  Life (l_connected s) (Some a) (l_base s) (l_threads s) (l_accepting s) (l_workers s) (l_stopped s) (l_net s).
Definition set_base (b : event_base) s : life C :=
  Life (l_connected s) (l_name s) b (l_threads s) (l_accepting s) (l_workers s) (l_stopped s) (l_net s).
Definition add_worker (i : nat) s : life C :=
  Life (l_connected s) (l_name s) (l_base s) (S (l_threads s)) (l_accepting s) (l_workers s ++ [i]) (l_stopped s) (l_net s).
Definition clear_workers s : life C :=
  Life (l_connected s) (l_name s) (l_base s) 0 false [] (l_stopped s) (l_net s).
Definition set_accepting s : life C :=
  Life (l_connected s) (l_name s) (l_base s) (l_threads s) true (l_workers s) (l_stopped s) (l_net s).
Definition set_net (n : net C) s : life C :=
  Life (l_connected s) (l_name s) (l_base s) (l_threads s) (l_accepting s) (l_workers s) (l_stopped s) n.
Definition stop_workers s : life C :=
  Life (l_connected s) (l_name s) (l_base s) (l_threads s) (l_accepting s) (l_workers s) (l_stopped s ++ l_workers s) (l_net s).

Variable inet_pton : address_family -> bytes -> option bytes.

(** [run], up to the point where it waits for the threads. *)
Definition run_begin (af : address_family) (ip : bytes) (port : Z) (threadCount : nat) : M (life C) () :=
  s ← get;
  if negb (l_threads s =? 0) then throw (RuntimeError (lit "Cannot run server: already running"))
  else
    modify set_connected ;;
    a ← lift (makeName inet_pton af ip port);
    modify (set_name a) ;;
    modify set_accepting ;;
    for_each (seq 0 threadCount) (fun i => modify (add_worker i)).

(** [mainLoop], which the accepting thread runs: its beginning, with whether the
    library made a base and a listener, and what it does when the loop is over. *)
Definition mainLoop_begin (has_base has_listener : bool) : M (life C) () :=
  if negb has_base then
    modify (set_base NoBase) ;; throw (RuntimeError (lit "Couldn't initialize libevent"))
  else
    modify (set_base LiveBase) ;;
    if negb has_listener then
      modify (set_base FreedBase) ;; throw (RuntimeError (lit "Couldn't initialize libevent listener"))
    else mret tt.
Definition mainLoop_end : M (life C) () := modify (set_base FreedBase).

(** The end of [run]: all threads have been joined. *)
Definition run_end : M (life C) () := modify clear_workers.

(** The library accepts a null pointer; a freed base is undefined. *)
Definition event_base_loopbreak : M (life C) () :=
  s ← get; match l_base s with FreedBase => undefined | _ => mret tt end.

Definition stop : M (life C) () := event_base_loopbreak ;; modify stop_workers.

(** ** The destructor *)

Variable closeHandler : option (Z -> M (net C) ()).

(** [begin()] of the map, which is ordered by descriptors. *)
Definition first_entry (m : gmap Z Z) : option (Z * Z) :=
  foldr (fun x best => match best with
                       | Some y => Some (if (x.1 <=? y.1)%Z then x else y)
                       | None => Some x
                       end) None (map_to_list m).

Definition on_net {A} (m : M (net C) A) : M (life C) A := fun s =>
  let '(r, n) := m (l_net s) in (r, set_net n s).

(** [while (!bufferEvents.empty())]; the part of a server with TLS has been
    destroyed already. *)
Fixpoint remove_all (fuel : nat) : M (net C) () :=
  n ← get;
  match first_entry (e_bufferEvents (n_et n)) with
  | None => mret tt
  | Some (_, b) =>
    match fuel with
    | O => diverge
    | S f => _ ← server_remove closeHandler false b; remove_all f
    end
  end.

(** The destructor of a [std::thread] that has not been joined ends the process by
    [std::terminate]. *)
Inductive ending := Destroyed | Terminates.
Definition destroy_members s : ending :=
  if (l_threads s =? 0) && negb (l_accepting s) then Destroyed else Terminates.

(** [Server::~Server], and the destructors of the members. *)
Definition destroy : M (life C) ending :=
  s ← get;
  on_net (remove_all (size (e_bufferEvents (n_et (l_net s))))) ;;
  stop ;;
  s ← get;
  mret (destroy_members s).
End life.

(** ** Theorems: the address *)

Lemma code_of z : (0 <= z < 256)%Z -> code (chr z) = z.
Proof. intros H. by rewrite code_chr, Z.mod_small. Qed.

(** The bytes of a port as they lie in memory are its high and its low byte. *)
Lemma htons_network_order port :
  (0 <= port < 2 ^ 16)%Z ->
  (htons port mod 256 = port / 256)%Z /\ (htons port / 256 = port mod 256)%Z.
Proof.
  intros H. pose proof (Z.div_mod port 256 ltac:(done)) as E.
  pose proof (Z.mod_pos_bound port 256 ltac:(done)) as Hl.
  assert (0 <= port / 256 < 256)%Z as Hh by (split; [apply Z.div_pos; lia|apply Z.div_lt_upper_bound; lia]).
  revert E Hl Hh. generalize (port mod 256)%Z (port / 256)%Z. intros low high -> Hl Hh.
  rewrite <- (code_of low), <- (code_of high) by done.
  pose proof (byte_forall2 (fun h l => (htons (256 * code h + code l) mod 256 =? code h)%Z &&
                                       (htons (256 * code h + code l) / 256 =? code l)%Z)
                ltac:(vm_compute; reflexivity) (chr high) (chr low)) as Hall.
  cbv beta in Hall. apply andb_true_iff in Hall as [H1%Z.eqb_eq H2%Z.eqb_eq]. done.
Qed.

(** ** Theorems: the destructor *)

Lemma first_entry_spec m :
  match first_entry m with
  | Some (k, v) => m !! k = Some v /\ forall k', is_Some (m !! k') -> (k <= k')%Z
  | None => m = ∅
  end.
Proof.
  unfold first_entry.
  assert (H : forall l, (l : list (Z * Z)) = [] /\ foldr (fun x best => match best with
                       | Some y => Some (if (x.1 <=? y.1)%Z then x else y)
                       | None => Some x
                       end) None l = None \/
            exists y, foldr (fun x best => match best with
                       | Some y => Some (if (x.1 <=? y.1)%Z then x else y)
                       | None => Some x
                       end) None l = Some y /\ y ∈ l /\ forall x, x ∈ l -> (y.1 <= x.1)%Z).
  { induction l as [|x l IH]; [by left|right]. cbn [foldr]. destruct IH as [[-> ->]|(y & -> & Hy & Hmin)].
    - exists x. split; [done|]. split; [by left|]. intros z ->%list_elem_of_singleton. lia.
    - destruct (Z.leb_spec x.1 y.1).
      + exists x. split; [done|]. split; [by left|]. intros z [->|Hz]%elem_of_cons; [lia|]. specialize (Hmin z Hz). lia.
      + exists y. split; [done|]. split; [by right|]. intros z [->|Hz]%elem_of_cons; [lia|]. by apply Hmin. }
  destruct (H (map_to_list m)) as [[E ->]|([k v] & -> & Hin & Hmin)].
  - by apply map_to_list_empty_iff in E.
  - apply elem_of_map_to_list in Hin. split; [done|]. intros k' [v' Hk'].
    apply elem_of_map_to_list in Hk'. by apply (Hmin _ Hk').
Qed.

Section destructor.
Context {C : Type} `{GC : GenericClient C}.
Variable closeHandler : option (Z -> M (net C) ()).
Hypothesis Hquiet : quiet closeHandler.
Implicit Types n : net C.

(** Nothing is left of any connection, and every identifier is in the pool. *)
Record emptied n : Prop := {
  em_clients : t_clients (n_ct n) = ∅;
  em_descriptors : t_descriptors (n_ct n) = ∅;
  em_allClients : t_allClients (n_ct n) = ∅;
  em_pool id : id ∈ t_freePool (n_ct n) <-> (0 <= id <= t_lastClient (n_ct n))%Z;
  em_events : e_bufferEvents (n_et n) = ∅;
  em_eventDescriptors : e_bufferEventDescriptors (n_et n) = ∅;
  em_workers : e_workerMap (n_et n) = ∅;
  em_outputs : v_output (n_ev n) = ∅;
  em_inputs : v_input (n_ev n) = ∅;
}.

Lemma none_is_empty {V} (m : gmap Z V) : (forall k, ~ is_Some (m !! k)) -> m = ∅.
Proof. intros H. apply map_empty. intros k. by apply eq_None_not_Some. Qed.

Lemma wf_emptied n : wf n -> e_bufferEvents (n_et n) = ∅ -> emptied n.
Proof.
  intros Hwf E.
  assert (Hbd : forall b, ~ is_Some (e_bufferEventDescriptors (n_et n) !! b)).
  { intros b [fd Hb]. apply (wf_events _ Hwf) in Hb. by rewrite E, lookup_empty in Hb. }
  assert (Hc : forall fd, ~ is_Some (t_clients (n_ct n) !! fd)).
  { intros fd H. apply (wf_same_descriptors _ Hwf) in H as [b H]. by rewrite E, lookup_empty in H. }
  assert (Hd : forall id, ~ is_Some (t_descriptors (n_ct n) !! id)).
  { intros id [fd H]. apply (wf_clients _ Hwf) in H. apply (Hc fd). eauto. }
  constructor; try done; try (apply none_is_empty; done).
  - apply none_is_empty. intros id H. by apply (wf_instances _ Hwf), Hd in H.
  - intros id. rewrite <- (wf_pool _ Hwf). specialize (Hd id). tauto.
  - apply none_is_empty. intros b H. by apply (wf_workers _ Hwf), Hbd in H.
  - apply none_is_empty. intros b H. by apply (wf_outputs _ Hwf), Hbd in H.
  - apply none_is_empty. intros b H. by apply (wf_inputs _ Hwf), Hbd in H.
Qed.

Lemma remove_all_spec k : forall n,
  wf n -> size (e_bufferEvents (n_et n)) = k -> exists n',
    remove_all closeHandler k n = (Ret tt, n') /\ wf n' /\ emptied n' /\
    t_lastClient (n_ct n') = t_lastClient (n_ct n).
Proof.
  induction k as [|k IH]; intros n Hwf Hk; cbn [remove_all].
  - apply map_size_empty_inv in Hk. exists n. mrun. rewrite Hk. by split; [|split; [|split; [apply wf_emptied|]]].
  - mrun. pose proof (first_entry_spec (e_bufferEvents (n_et n))) as Hf.
    destruct (first_entry _) as [[fd b]|]; [|by rewrite Hf, map_size_empty in Hk].
    destruct Hf as [Hfd _]. assert (Hb := proj1 (wf_events _ Hwf fd b) Hfd).
    destruct (proj2 (wf_workers _ Hwf b)) as [w Hw]; [eauto|].
    destruct (worker_remove_spec closeHandler Hquiet false w b fd n Hwf Hb) as (id & n1 & Hid & E & R).
    pose proof (removed_wf false w b fd id n n1 Hwf Hb Hid R) as Hwf1.
    destruct R as (R1 & R2 & _).
    destruct (IH n1 Hwf1) as (n2 & E2 & H1 & H2 & H3).
    { rewrite R2. cbn [forget_worker forget_event e_bufferEvents].
      rewrite map_size_delete_Some by eauto. lia. }
    exists n2. unfold server_remove. mrun. rewrite Hw, E, E2.
    split; [done|]. split; [done|]. split; [done|]. rewrite H3, R1. done.
Qed.

(** The destructor removes the connections that are left, and then stops. *)
Lemma destroy_spec (s : life C) :
  wf (l_net s) -> exists n',
    emptied n' /\ t_lastClient (n_ct n') = t_lastClient (n_ct (l_net s)) /\
    destroy closeHandler s =
      match l_base s with
      | FreedBase => (Undef, set_net n' s)
      | _ => (Ret (destroy_members s), stop_workers (set_net n' s))
      end.
Proof.
  intros Hwf. destruct (remove_all_spec _ (l_net s) Hwf eq_refl) as (n' & E & _ & He & Hl).
  exists n'. split; [done|]. split; [done|]. unfold destroy, on_net, stop, event_base_loopbreak. mrun.
  rewrite E. cbn [l_base set_net]. by destruct (l_base s).
Qed.

(** A server that has not run is destroyed. *)
Lemma never_run_destroyed (s : life C) :
  wf (l_net s) -> l_base s = NoBase -> l_threads s = 0 -> l_accepting s = false ->
  (destroy closeHandler s).1 = Ret Destroyed.
Proof.
  intros Hwf Hb Ht Ha. destruct (destroy_spec s Hwf) as (n' & _ & _ & ->). rewrite Hb.
  unfold destroy_members. by rewrite Ht, Ha.
Qed.

(** One that runs ends the process. *)
Lemma running_terminates (s : life C) :
  wf (l_net s) -> l_base s = LiveBase -> l_accepting s = true -> (destroy closeHandler s).1 = Ret Terminates.
Proof.
  intros Hwf Hb Ha. destruct (destroy_spec s Hwf) as (n' & _ & _ & ->). rewrite Hb.
  unfold destroy_members. by rewrite Ha, andb_false_r.
Qed.

Variable inet_pton : address_family -> bytes -> option bytes.

(** A run from its start to its end: the loops change the tables until the server is
    stopped. *)
Definition whole_run (af : address_family) (ip : bytes) (port : Z) (threadCount : nat) n : M (life C) () :=
  run_begin inet_pton af ip port threadCount ;;
  mainLoop_begin true true ;;
  modify (set_net n) ;;
  stop ;;
  mainLoop_end ;;
  run_end.

Lemma add_workers_run l : forall s : life C, exists t,
  for_each l (fun i => modify (add_worker i)) s =
    (Ret tt, Life (l_connected s) (l_name s) (l_base s) t (l_accepting s) (l_workers s ++ l) (l_stopped s) (l_net s)).
Proof.
  induction l as [|i l IH]; intros s.
  - exists (l_threads s). cbn. rewrite app_nil_r. by destruct s.
  - cbn [for_each]. mrun. destruct (IH (add_worker i s)) as [t E]. exists t.
    etransitivity; [exact E|]. cbn. by rewrite <- app_assoc.
Qed.

Lemma whole_run_spec af ip port threadCount n address (s : life C) :
  l_threads s = 0 -> makeName inet_pton af ip port = Ret address ->
  whole_run af ip port threadCount n s =
    (Ret tt, Life true (Some address) FreedBase 0 false [] (l_stopped s ++ l_workers s ++ seq 0 threadCount) n).
Proof.
  intros Ht Ha. unfold whole_run, run_begin. mrun. rewrite Ht, Ha. cbn [Nat.eqb negb].
  destruct (add_workers_run (seq 0 threadCount) (set_accepting (set_name address (set_connected s)))) as [t E].
  revert E. mrun. by intros ->.
Qed.

(** C37: a server that has run is not destroyed.  Its run comes to its end with every
    worker told to stop and every thread joined, whatever tables it leaves; then the
    destructor removes each connection that is left, so that nothing of any is left
    in any table or in the library and every identifier that was ever given out is in
    the pool; but the thread that accepts has freed the base of its loop and left the
    pointer, which the [stop] at the end of the destructor uses. *)
Theorem destroy_after_run af ip port threadCount n address (s : life C) :
  l_threads s = 0 -> makeName inet_pton af ip port = Ret address -> wf n ->
  exists s' s'', whole_run af ip port threadCount n s = (Ret tt, s') /\
    l_threads s' = 0 /\ l_accepting s' = false /\ l_workers s' = [] /\ l_name s' = Some address /\
    l_stopped s' = l_stopped s ++ l_workers s ++ seq 0 threadCount /\
    destroy closeHandler s' = (Undef, s'') /\
    emptied (l_net s'') /\ t_lastClient (n_ct (l_net s'')) = t_lastClient (n_ct n).
Proof.
  intros Ht Ha Hwf. rewrite (whole_run_spec af ip port threadCount n address s Ht Ha).
  match goal with |- context [(Ret tt, ?r)] => destruct (destroy_spec r Hwf) as (n' & He & Hl & E) end.
  do 2 eexists. split; [reflexivity|]. do 5 (split; [reflexivity|]). split; [exact E|]. by split.
Qed.
End destructor.

(** ** Witnesses *)

Definition unborn (n : net (list bytes)) : life (list bytes) := Life false None NoBase 0 false [] [] n.
Definition any_address (af : address_family) (ip : bytes) : option bytes := Some (repeat nul 4).

Lemma destroy_after_run_witness :
  exists s' s'', whole_run any_address AF_INET (lit "0.0.0.0") 80 8 one_connection (unborn initial) = (Ret tt, s') /\
    l_name s' = Some (SockaddrIn 20480 (repeat nul 4)) /\ l_stopped s' = seq 0 8 /\
    destroy http_close s' = (Undef, s'') /\ t_clients (n_ct (l_net s'')) = ∅ /\ 0%Z ∈ t_freePool (n_ct (l_net s'')).
Proof.
  destruct (destroy_after_run http_close (http_closeHandler_quiet false) any_address AF_INET (lit "0.0.0.0") 80 8
              one_connection (SockaddrIn 20480 (repeat nul 4)) (unborn initial) eq_refl eq_refl one_connection_wf)
    as (s' & s'' & E & _ & _ & _ & Hn & Hs & Hd & He & Hl).
  exists s', s''. split; [exact E|]. split; [exact Hn|]. split; [exact Hs|]. split; [exact Hd|].
  split; [exact (em_clients _ He)|]. apply (em_pool _ He). rewrite Hl. vm_compute. split; discriminate.
Defined.
