(* ===== verification/Running.v ===== *)
(** * Starting and stopping the network server

    [src/net/Server.cpp]: the thread that has called [run], the thread that
    accepts, the threads of the workers and a thread (or a signal) that calls
    [stop], each of which takes its steps whenever a schedule says so.
    [Lifecycle.v] has the same functions one after the other.

    What is used of the library: [event_base_loopbreak] has no effect on a loop
    that does not run, [event_base_loopexit] makes the loop stop that runs or that
    begins next, and a base must not be used after it has been freed, neither by
    the freeing of its events.  What a worker does with its connections is in
    [NetThreads.v]; here they are counted: those in its queue, and the open ones,
    each of which refers to it from [workerMap]. *)

From Stdlib Require Import Lia.
From stdpp Require Import base tactics option list sets.
From S2P Require Import Prelude NetServer Lifecycle.

(** [run]: before it makes the thread that accepts, the [i]th worker, and its
    thread; waiting for the [i]th thread; waiting for the one that accepts. *)
Inductive runner := RSpawn | RMake (i : nat) | RThread (i : nat) | RJoin (i : nat) | RJoinAccept | RClear | RDone.
(** [mainLoop]: making the base, the listener, entering the loop, in the loop;
    freeing the listener, the event and the base. *)
Inductive accepter := ANone | ABase | AListen | ADispatch | ALoop | AFree | AFreePipe | AFreeBase | AEnd.
(** A worker: its thread, whether its loop has been told to exit, and how many
    connections are in its queue and how many are open. *)
Inductive worker_thread := WNone | WEnter | WLoop | WEnd.
Record worker := Worker { w_thread : worker_thread; w_exit : bool; w_queued : nat; w_open : nat }.
(** [stop]: before [event_base_loopbreak], before the loop over the workers, and
    in that loop, which ends where the list ended when it began. *)
Inductive stopper := SBreak | SBegin | SWorkers (j n : nat) | SDone.

(** The process ends by an exception that nothing catches, or its behaviour is
    undefined. *)
Inductive crash := Terminated | Undefined.

#[export] Instance wthread_eq_dec : EqDecision worker_thread.
Proof. solve_decision. Defined.

(** Whether the listener and the event of [mainLoop] live; the workers whose
    destructor has run, and those that a connection still refers to; how many
    connections have been removed, and how many descriptors have been left behind in
    the queue of a worker that is gone. *)
Record objects := Objects {
  o_listener : bool;
  o_pipe : bool;
  o_destroyed : list nat;
  o_kept : list (nat * worker);
  o_closed : nat;
  o_lost : nat;
}.

Record state := State {
  s_runner : runner;
  s_accepter : accepter;
  s_stopper : stopper;
  s_workers : list worker;
  s_base : event_base;
  s_break : bool;
  s_cursor : nat;
  s_incoming : nat;
  s_crashed : option crash;
  s_objects : objects;
}.

Definition set_runner (r : runner) (s : state) : state :=
  State r (s_accepter s) (s_stopper s) (s_workers s) (s_base s) (s_break s) (s_cursor s) (s_incoming s) (s_crashed s) (s_objects s).
Definition set_accepter (a : accepter) (s : state) : state :=
  State (s_runner s) a (s_stopper s) (s_workers s) (s_base s) (s_break s) (s_cursor s) (s_incoming s) (s_crashed s) (s_objects s).
Definition set_stopper (x : stopper) (s : state) : state :=
  State (s_runner s) (s_accepter s) x (s_workers s) (s_base s) (s_break s) (s_cursor s) (s_incoming s) (s_crashed s) (s_objects s).
Definition set_workers (ws : list worker) (s : state) : state :=
  State (s_runner s) (s_accepter s) (s_stopper s) ws (s_base s) (s_break s) (s_cursor s) (s_incoming s) (s_crashed s) (s_objects s).
Definition set_base (b : event_base) (s : state) : state :=
  State (s_runner s) (s_accepter s) (s_stopper s) (s_workers s) b (s_break s) (s_cursor s) (s_incoming s) (s_crashed s) (s_objects s).
Definition set_break (b : bool) (s : state) : state :=
  State (s_runner s) (s_accepter s) (s_stopper s) (s_workers s) (s_base s) b (s_cursor s) (s_incoming s) (s_crashed s) (s_objects s).
Definition taken (cursor : nat) (s : state) : state :=
  State (s_runner s) (s_accepter s) (s_stopper s) (s_workers s) (s_base s) (s_break s) cursor
    (pred (s_incoming s)) (s_crashed s) (s_objects s).
Definition set_crashed (c : crash) (s : state) : state :=
  State (s_runner s) (s_accepter s) (s_stopper s) (s_workers s) (s_base s) (s_break s) (s_cursor s) (s_incoming s) (Some c) (s_objects s).
Definition set_objects (o : objects) (s : state) : state :=
  State (s_runner s) (s_accepter s) (s_stopper s) (s_workers s) (s_base s) (s_break s) (s_cursor s) (s_incoming s) (s_crashed s) o.
Definition set_live (listener pipe : bool) (s : state) : state :=
  let o := s_objects s in set_objects (Objects listener pipe (o_destroyed o) (o_kept o) (o_closed o) (o_lost o)) s.
Definition count_closed (s : state) : state :=
  let o := s_objects s in
  set_objects (Objects (o_listener o) (o_pipe o) (o_destroyed o) (o_kept o) (S (o_closed o)) (o_lost o)) s.

(** Whose step is next. *)
Inductive who :=
  Runner | Accepter | WorkerThread (i : nat) | Serving (i : nat) (accepts : bool) | Stopper | Connection.

#[export] Instance who_eq_dec : EqDecision who.
Proof. solve_decision. Defined.

Section threads.
(** How many workers there are, and whether the address can be listened on. *)
Variable threadCount : nat.
Variable can_listen : bool.

(** [Worker::Worker], whose base and events are made before it is used; its thread
    is made afterwards. *)
Definition new_worker : worker := Worker WNone false 0 0.
Definition start_thread (w : worker) : worker := Worker WEnter (w_exit w) (w_queued w) (w_open w).
(** [Worker::stop]. *)
Definition stop_worker (w : worker) : worker := Worker (w_thread w) true (w_queued w) (w_open w).
(** [Worker::queueAccept]. *)
Definition queue_accept (w : worker) : worker := Worker (w_thread w) (w_exit w) (S (w_queued w)) (w_open w).

(** [workers.clear()]: a worker to which no connection refers is destroyed, with what
    is in its queue; the others are kept by [workerMap]. *)
Definition clear_workers (s : state) : state :=
  let o := s_objects s in
  let ws := imap pair (s_workers s) in
  let gone := filter (fun x : nat * worker => w_open x.2 = 0) ws in
  set_workers [] (set_objects (Objects (o_listener o) (o_pipe o) (o_destroyed o ++ gone.*1)
    (o_kept o ++ filter (fun x : nat * worker => w_open x.2 <> 0) ws) (o_closed o)
    (o_lost o + sum_list_with (fun x => w_queued x.2) gone)) s).

Definition run_step (s : state) : option state :=
  match s_runner s with
  | RSpawn => Some (set_accepter ABase (set_runner (RMake 0) s))
  | RMake i =>
    if i <? threadCount then Some (set_workers (s_workers s ++ [new_worker]) (set_runner (RThread i) s))
    else Some (set_runner (RJoin 0) s)
  | RThread i => Some (set_workers (alter start_thread i (s_workers s)) (set_runner (RMake (S i)) s))
  | RJoin i =>
    if i <? threadCount then
      match s_workers s !! i with
      | Some (Worker WEnd _ _ _) => Some (set_runner (RJoin (S i)) s)
      | _ => None
      end
    else Some (set_runner RJoinAccept s)
  | RJoinAccept => match s_accepter s with AEnd => Some (set_runner RClear s) | _ => None end
  | RClear => Some (clear_workers (set_runner RDone s))
  | RDone => None
  end.

(** Freeing what is not there, or is of a base that has been freed, is undefined. *)
Definition freeing (live : bool) (s s' : state) : state :=
  match s_base s with LiveBase => if live then s' else set_crashed Undefined s | _ => set_crashed Undefined s end.

Definition mainLoop_step (s : state) : option state :=
  let o := s_objects s in
  match s_accepter s with
  | ANone => None
  | ABase => Some (set_live (o_listener o) true (set_base LiveBase (set_accepter AListen s)))
  | AListen =>
    Some (if can_listen then set_live true (o_pipe o) (set_accepter ADispatch s) else set_crashed Terminated s)
  | ADispatch => Some (set_break false (set_accepter ALoop s))
  | ALoop => if s_break s then Some (set_accepter AFree s) else None
  | AFree => Some (freeing (o_listener o) s (set_live false (o_pipe o) (set_accepter AFreePipe s)))
  | AFreePipe => Some (freeing (o_pipe o) s (set_live (o_listener o) false (set_accepter AFreeBase s)))
  | AFreeBase => Some (freeing true s (set_base FreedBase (set_accepter AEnd s)))
  | AEnd => None
  end.

(** [Worker::work]. *)
Definition work_step (i : nat) (s : state) : option state :=
  w ← s_workers s !! i;
  let go t := Some (set_workers (<[i := Worker t (w_exit w) (w_queued w) (w_open w)]> (s_workers s)) s) in
  match w_thread w with
  | WNone | WEnd => None
  | WEnter => go WLoop
  | WLoop => if w_exit w then go WEnd else None
  end.

(** In its loop a worker accepts what is in its queue, which it keeps locked
    meanwhile, or removes a connection. *)
Definition serve_step (i : nat) (accepts : bool) (s : state) : option state :=
  w ← s_workers s !! i;
  let go queued opened := set_workers (<[i := Worker WLoop (w_exit w) queued opened]> (s_workers s)) s in
  match w_thread w, accepts, w_queued w, w_open w with
  | WLoop, true, S q, opened => Some (go 0 (S q + opened))
  | WLoop, false, queued, S n => Some (count_closed (go queued n))
  | _, _, _, _ => None
  end.

Definition stop_step (s : state) : option state :=
  match s_stopper s with
  | SBreak =>
    match s_base s with
    | FreedBase => Some (set_crashed Undefined s)
    | _ => Some (set_break (match s_accepter s with ALoop => true | _ => s_break s end) (set_stopper SBegin s))
    end
  | SBegin => Some (set_stopper (SWorkers 0 (length (s_workers s))) s)
  | SWorkers j n =>
    if j <? n then
      if length (s_workers s) =? n then
        Some (set_workers (alter stop_worker j (s_workers s)) (set_stopper (SWorkers (S j) n) s))
      else Some (set_crashed Undefined s)
    else Some (set_stopper SDone s)
  | SDone => None
  end.

(** [listener_cb]; [at] throws in the thread that accepts. *)
Definition listener_step (s : state) : option state :=
  match s_accepter s, s_incoming s with
  | ALoop, S _ =>
    if s_cursor s <? length (s_workers s) then
      Some (taken ((s_cursor s + 1) mod threadCount) (set_workers (alter queue_accept (s_cursor s) (s_workers s)) s))
    else Some (set_crashed Terminated s)
  | _, _ => None
  end.


Definition step (x : who) (s : state) : option state :=
  match s_crashed s with
  | Some _ => None
  | None =>
    match x with
    | Runner => run_step s
    | Accepter => mainLoop_step s
    | WorkerThread i => work_step i s
    | Serving i accepts => serve_step i accepts s
    | Stopper => stop_step s
    | Connection => listener_step s
    end
  end.

Fixpoint run (schedule : list who) (s : state) : option state :=
  match schedule with
  | [] => Some s
  | x :: rest => s' ← step x s; run rest s'
  end.

Definition no_objects : objects := Objects false false [] [] 0 0.
Definition start (incoming : nat) : state := State RSpawn ANone SBreak [] NoBase false 0 incoming None no_objects.

(** The connections: those to come, those that have been removed or left behind, and
    those that a worker has. *)
Definition load (w : worker) : nat := w_queued w + w_open w.
Definition connections (s : state) : nat :=
  s_incoming s + o_closed (s_objects s) + o_lost (s_objects s) + sum_list_with load (s_workers s) +
  sum_list_with (fun x => load x.2) (o_kept (s_objects s)).

(** ** A server that is up *)

(** [run] waits for the workers, all of which have been started, the loop that
    accepts runs, and nobody has begun to stop the server. *)
Record up (s : state) : Prop := {
  up_runner : s_runner s = RJoin 0;
  up_accepter : s_accepter s = ALoop;
  up_stopper : s_stopper s = SBreak;
  up_length : length (s_workers s) = threadCount;
  up_workers w : w ∈ s_workers s -> w_exit w = false /\ (w_thread w = WEnter \/ w_thread w = WLoop);
  up_base : s_base s = LiveBase;
  up_break : s_break s = false;
  up_cursor : s_cursor s < threadCount;
  up_crashed : s_crashed s = None;
  up_live : o_listener (s_objects s) = true /\ o_pipe (s_objects s) = true;
  up_all : o_destroyed (s_objects s) = [] /\ o_kept (s_objects s) = [];
}.

(** ** What a server that is stopped keeps *)

Definition told (s : state) : nat :=
  match s_stopper s with SBreak | SBegin => 0 | SWorkers j _ => j | SDone => threadCount end.

Definition ended (w : worker) : Prop := w_thread w = WEnd.

Record stopping (s : state) : Prop := {
  st_alive : s_crashed s = None;
  st_cursor : s_cursor s < threadCount;
  st_length : s_runner s <> RDone -> length (s_workers s) = threadCount;
  st_runner : match s_runner s with
              | RJoin i => i <= threadCount /\ forall k w, k < i -> s_workers s !! k = Some w -> ended w
              | RJoinAccept => forall w, w ∈ s_workers s -> ended w
              | RClear => (forall w, w ∈ s_workers s -> ended w) /\ s_accepter s = AEnd
              | RDone => s_workers s = [] /\ s_accepter s = AEnd /\ told s = threadCount
              | _ => False
              end;
  st_worker k w : s_workers s !! k = Some w ->
    (w_exit w = true <-> k < told s) /\ w_thread w <> WNone /\ (ended w -> w_exit w = true);
  st_stopper : match s_stopper s with
               | SBreak => s_accepter s = ALoop /\ s_break s = false
               | SWorkers j n => n = threadCount /\ j <= n
               | _ => True
               end;
  st_break : s_stopper s <> SBreak -> s_break s = true;
  st_accepter : match s_accepter s with
                | ALoop | AFree => s_base s = LiveBase /\ o_listener (s_objects s) = true /\ o_pipe (s_objects s) = true
                | AFreePipe => s_base s = LiveBase /\ o_listener (s_objects s) = false /\ o_pipe (s_objects s) = true
                | AFreeBase => s_base s = LiveBase /\ o_listener (s_objects s) = false /\ o_pipe (s_objects s) = false
                | AEnd => s_base s = FreedBase /\ o_listener (s_objects s) = false /\ o_pipe (s_objects s) = false
                | _ => False
                end;
  st_cleared : match s_runner s with
               | RDone => (o_destroyed (s_objects s) ++ (o_kept (s_objects s)).*1 ≡ₚ seq 0 threadCount) /\
                          forall i w, (i, w) ∈ o_kept (s_objects s) -> 0 < w_open w
               | _ => o_destroyed (s_objects s) = [] /\ o_kept (s_objects s) = []
               end;
}.

Lemma up_stopping s : up s -> stopping s.
Proof.
  intros [H1 H2 H3 H4 H5 H6 H7 H8 H9 H10 H11]. split; rewrite ?H1, ?H2, ?H3; try done.
  - split; [lia|]. intros k w Hk. lia.
  - intros k w Hk. destruct (H5 w) as [He Ht]; [by eapply list_elem_of_lookup_2|]. unfold told, ended. rewrite H3, He.
    split; [split; [done|lia]|]. destruct Ht as [->| ->]; done.
Qed.

Lemma elem_of_insert_worker (i : nat) (w' w : worker) (ws : list worker) :
  w ∈ <[i := w']> ws -> w = w' \/ w ∈ ws.
Proof.
  intros [k Hk]%list_elem_of_lookup. rewrite list_lookup_insert in Hk. case_decide.
  - injection Hk as <-. by left.
  - right. by eapply list_elem_of_lookup_2.
Qed.

Lemma alter_insert_worker (f : worker -> worker) (j : nat) (ws : list worker) w : ws !! j = Some w -> alter f j ws = <[j := f w]> ws.
Proof.
  intros Hj. apply list_eq. intros k. rewrite list_lookup_insert.
  destruct (decide (j = k)) as [<-|Hne].
  - rewrite list_lookup_alter_eq, Hj, decide_True; [done|]. split; [done|]. by eapply lookup_lt_Some.
  - rewrite list_lookup_alter_ne by done. by rewrite decide_False by (intros [? _]; congruence).
Qed.

(** A worker is replaced by one that has ended if it had, and that knows what it
    has been told. *)
Lemma stopping_worker s i w w' t x cursor incoming o :
  stopping s -> s_workers s !! i = Some w ->
  let s' := State (s_runner s) (s_accepter s) t (<[i := w']> (s_workers s)) (s_base s) x cursor incoming None o in
  (o_listener o = o_listener (s_objects s) /\ o_pipe o = o_pipe (s_objects s) /\
   o_destroyed o = o_destroyed (s_objects s) /\ o_kept o = o_kept (s_objects s)) ->
  (ended w -> ended w') -> cursor < threadCount ->
  (forall k v, k <> i -> s_workers s !! k = Some v -> (k < told s <-> k < told s')) ->
  (w_exit w' = true <-> i < told s') -> w_thread w' <> WNone -> (ended w' -> w_exit w' = true) ->
  match t with
  | SBreak => s_accepter s = ALoop /\ x = false
  | SWorkers j n => n = threadCount /\ j <= n
  | _ => True
  end -> (t <> SBreak -> x = true) -> stopping s'.
Proof.
  intros [A B C D E F G H I] Hi s' (O1 & O2 & O3 & O4) He Hc Hothers Hexit Hnone Hend Ht Hx.
  split; try done; cbn; rewrite ?O1, ?O2, ?O3, ?O4; try done.
  - intros Hr. rewrite length_insert. by apply C.
  - destruct (s_runner s) as [|?|?|j| | |] eqn:Er; try done.
    + destruct D as [D1 D2]. split; [done|]. intros k v Hk. rewrite list_lookup_insert. case_decide as Hd.
      * destruct Hd as [-> _]. intros [= <-]. apply He. by apply (D2 k).
      * by apply D2.
    + intros v [->|Hv]%elem_of_insert_worker; [|by apply D]. apply He, D. by eapply list_elem_of_lookup_2.
    + destruct D as [D1 D2]. split; [|done]. intros v [->|Hv]%elem_of_insert_worker; [|by apply D1].
      apply He, D1. by eapply list_elem_of_lookup_2.
    + destruct D as (D1 & _). by rewrite D1 in Hi.
  - intros k v. rewrite list_lookup_insert. case_decide as Hd.
    + destruct Hd as [<- _]. intros [= <-]. by split.
    + intros Hk. destruct (E k v Hk) as (E1 & E2 & E3). split; [|by split]. rewrite E1.
      apply (Hothers k v); [|done]. intros ->. apply Hd. split; [done|]. by eapply lookup_lt_Some.
Qed.

Lemma all_told s : 0 < threadCount -> stopping s -> length (s_workers s) = threadCount ->
  (forall w, w ∈ s_workers s -> ended w) -> told s = threadCount.
Proof.
  intros Hpos Hs Hl Hend. destruct (lookup_lt_is_Some_2 (s_workers s) (threadCount - 1) ltac:(lia)) as [w Hw].
  destruct (st_worker s Hs _ w Hw) as (H1 & _ & H3).
  assert (threadCount - 1 < told s) by (apply H1, H3, Hend; by eapply list_elem_of_lookup_2).
  pose proof (st_stopper s Hs) as Hst. unfold told in *. destruct (s_stopper s); lia.
Qed.

(** What is known of [run] when the other threads take their steps. *)
Lemma runner_part s a tl :
  stopping s -> (s_accepter s = AEnd -> a = AEnd) -> (s_runner s = RDone -> tl = threadCount) ->
  match s_runner s with
  | RJoin i => i <= threadCount /\ forall k w, k < i -> s_workers s !! k = Some w -> ended w
  | RJoinAccept => forall w, w ∈ s_workers s -> ended w
  | RClear => (forall w, w ∈ s_workers s -> ended w) /\ a = AEnd
  | RDone => s_workers s = [] /\ a = AEnd /\ tl = threadCount
  | _ => False
  end.
Proof.
  intros Hs Ha Ht. pose proof (st_runner s Hs) as D. destruct (s_runner s); try done.
  - destruct D as [D1 D2]. split; [done|by apply Ha].
  - destruct D as (D1 & D2 & D3). split; [done|]. split; [by apply Ha|by apply Ht].
Qed.

(** [run] has not returned when a worker has still to be told. *)
Lemma not_done s : stopping s -> told s < threadCount -> s_runner s <> RDone.
Proof. intros Hs Ht Er. pose proof (st_runner s Hs) as D. rewrite Er in D. destruct D as (_ & _ & D). lia. Qed.

Lemma told_same s n : stopping s -> told s = n -> forall k w, s_workers s !! k = Some w ->
  (w_exit w = true <-> k < n) /\ w_thread w <> WNone /\ (ended w -> w_exit w = true).
Proof. intros Hs <-. apply (st_worker s Hs). Qed.

Lemma imap_pair_fst {A} (l : list A) : (imap pair l).*1 = seq 0 (length l).
Proof.
  apply list_eq. intros i. rewrite list_lookup_fmap, list_lookup_imap.
  destruct (l !! i) as [x|] eqn:E; cbn.
  - apply lookup_lt_Some in E. symmetry. by apply lookup_seq.
  - apply lookup_ge_None in E. symmetry. by apply lookup_seq_ge.
Qed.

(** Clearing the list of workers destroys each or leaves it to its connections. *)
Lemma clear_keeps s : stopping s -> s_runner s = RClear -> length (s_workers s) = threadCount ->
  let o := s_objects (clear_workers (set_runner RDone s)) in
  (o_destroyed o ++ (o_kept o).*1 ≡ₚ seq 0 threadCount) /\ forall i w, (i, w) ∈ o_kept o -> 0 < w_open w.
Proof.
  intros Hs Er Hl. pose proof (st_cleared s Hs) as I. rewrite Er in I. destruct I as [I1 I2].
  unfold clear_workers. cbn -[filter imap]. rewrite I1, I2. split.
  - cbn [app]. rewrite <- fmap_app, <- Hl, <- imap_pair_fst. apply fmap_Permutation, filter_app_complement.
  - intros i w [H _]%list_elem_of_filter. cbn in H. lia.
Qed.

Lemma run_keeps s s' : 0 < threadCount -> stopping s -> run_step s = Some s' -> stopping s'.
Proof.
  intros Hpos Hs. pose proof Hs as [A B C D E F G H I]. unfold run_step.
  destruct (s_runner s) as [|?|?|i| | |] eqn:Er; try done.
  - destruct D as [D1 D2]. destruct (Nat.ltb_spec i threadCount) as [Hlt|Hge].
    + destruct (s_workers s !! i) as [[[] ex qu op]|] eqn:Ei; try done. intros [= <-]. split; cbn; try done.
      * intros _. by apply C.
      * split; [lia|]. intros k w Hk. destruct (decide (k = i)) as [->|]; [rewrite Ei; by intros [= <-]|].
        apply D2. lia.
    + intros [= <-]. split; cbn; try done; [intros _; by apply C|].
      intros w [k Hk]%list_elem_of_lookup. apply (D2 k); [|done]. apply lookup_lt_Some in Hk. rewrite C in Hk by done. lia.
  - destruct (s_accepter s) eqn:Ea; try done. intros [= <-]. split; cbn; rewrite ?Ea; try done. intros _. by apply C.
  - destruct D as [D1 D2]. intros [= <-]. assert (Hl : length (s_workers s) = threadCount) by (by apply C).
    split; cbn -[filter imap]; try done.
    + split; [done|]. split; [done|]. by apply (all_told s).
    + by apply clear_keeps.
Qed.

(** A step of [mainLoop] behind its loop. *)
Lemma mainLoop_frees s s' a : stopping s -> s_accepter s <> AEnd ->
  s_runner s' = s_runner s -> s_stopper s' = s_stopper s -> s_workers s' = s_workers s -> s_cursor s' = s_cursor s ->
  s_break s' = s_break s -> s_crashed s' = None -> s_accepter s' = a ->
  o_destroyed (s_objects s') = o_destroyed (s_objects s) -> o_kept (s_objects s') = o_kept (s_objects s) ->
  (s_stopper s = SBreak -> False) ->
  match a with
  | AFree => s_base s' = LiveBase /\ o_listener (s_objects s') = true /\ o_pipe (s_objects s') = true
  | AFreePipe => s_base s' = LiveBase /\ o_listener (s_objects s') = false /\ o_pipe (s_objects s') = true
  | AFreeBase => s_base s' = LiveBase /\ o_listener (s_objects s') = false /\ o_pipe (s_objects s') = false
  | AEnd => s_base s' = FreedBase /\ o_listener (s_objects s') = false /\ o_pipe (s_objects s') = false
  | _ => False
  end -> stopping s'.
Proof.
  intros Hs Hne E1 E2 E3 E4 E5 E6 E7 E8 E9 Hst Ha. pose proof Hs as [A B C D E F G H I].
  split; unfold told; rewrite ?E1, ?E2, ?E3, ?E4, ?E5, ?E6, ?E7, ?E8, ?E9; try done.
  - apply runner_part; [done|done|]. intros Er. rewrite Er in D. by destruct D as (_ & ? & _).
  - by destruct (s_stopper s).
  - by destruct a.
Qed.

Lemma mainLoop_keeps s s' : stopping s -> mainLoop_step s = Some s' -> stopping s'.
Proof.
  intros Hs. pose proof Hs as [A B C D E F G H I]. unfold mainLoop_step, freeing.
  assert (Hst : s_accepter s <> ALoop -> s_stopper s = SBreak -> False)
    by (intros Hn Es; rewrite Es in F; by destruct F).
  destruct (s_accepter s) eqn:Ea; try done.
  - destruct (s_break s) eqn:Eb; [|done]. intros [= <-]. apply (mainLoop_frees s _ AFree); try done; [by rewrite Ea|].
    intros Es. rewrite Es in F. by destruct F as [_ ?].
  - destruct H as (H1 & H2 & H3). rewrite H1, H2. intros [= <-].
    apply (mainLoop_frees s _ AFreePipe); try done; [by rewrite Ea|by apply Hst].
  - destruct H as (H1 & H2 & H3). rewrite H1, H3. intros [= <-].
    apply (mainLoop_frees s _ AFreeBase); try done; [by rewrite Ea|by apply Hst].
  - destruct H as (H1 & H2 & H3). rewrite H1. intros [= <-].
    apply (mainLoop_frees s _ AEnd); try done; [by rewrite Ea|by apply Hst].
Qed.

Lemma work_keeps i s s' : stopping s -> work_step i s = Some s' -> stopping s'.
Proof.
  intros Hs. pose proof Hs as [A B C D E F G H I]. unfold work_step.
  destruct (s_workers s !! i) as [w|] eqn:Ei; [|done]. cbn. destruct (E i w Ei) as (E1 & E2 & E3).
  destruct (w_thread w) eqn:Ew; try done.
  - intros [= <-]. unfold set_workers. rewrite A. apply (stopping_worker s i w); try done. intros He. unfold ended in He. congruence.
  - destruct (w_exit w) eqn:Ex; [|done]. intros [= <-]. unfold set_workers. rewrite A. by apply (stopping_worker s i w).
Qed.

Lemma serve_keeps i accepts s s' : stopping s -> serve_step i accepts s = Some s' -> stopping s'.
Proof.
  intros Hs. pose proof Hs as [A B C D E F G H I]. unfold serve_step.
  destruct (s_workers s !! i) as [w|] eqn:Ei; [|done]. cbn. destruct (E i w Ei) as (E1 & E2 & E3).
  assert (Hw : w_thread w = WLoop -> ended w -> False) by (unfold ended; congruence).
  destruct (w_thread w) eqn:Ew; try done.
  destruct accepts; [destruct (w_queued w) as [|q]|destruct (w_open w) as [|n]]; try done; intros [= <-];
    unfold count_closed, set_objects, set_workers; rewrite A;
    apply (stopping_worker s i w); try done; intros He; by destruct (Hw eq_refl).
Qed.

Lemma stop_keeps s s' : 0 < threadCount -> stopping s -> stop_step s = Some s' -> stopping s'.
Proof.
  intros Hpos Hs. pose proof Hs as [A B C D E F G H I]. unfold stop_step. destruct (s_stopper s) as [| |j n|] eqn:Es; try done.
  - destruct F as [F1 F2]. rewrite F1 in *. rewrite (proj1 H). intros [= <-].
    split; cbn; rewrite ?F1; try done.
    + apply runner_part; [done|congruence|]. intros Er. rewrite Er in D. by destruct D as (_ & ? & _).
    + apply told_same; [done|]. unfold told. by rewrite Es.
  - intros [= <-]. assert (Hr : s_runner s <> RDone) by (apply not_done; [done|unfold told; by rewrite Es]).
    split; cbn; try done.
    + by apply runner_part.
    + apply told_same; [done|]. unfold told. by rewrite Es.
    + split; [by apply C|lia].
    + intros _. by apply G.
  - destruct F as [-> F2]. destruct (Nat.ltb_spec j threadCount) as [Hlt|Hge].
    + assert (Hr : s_runner s <> RDone) by (apply not_done; [done|unfold told; by rewrite Es]).
      rewrite (C Hr), Nat.eqb_refl. intros [= <-].
      destruct (lookup_lt_is_Some_2 (s_workers s) j ltac:(rewrite C by done; lia)) as [w Hw].
      destruct (E j w Hw) as (E1 & E2 & E3). rewrite (alter_insert_worker _ _ _ w Hw).
      unfold set_workers, set_stopper. cbn. rewrite A.
      apply (stopping_worker s j w); try done; unfold told; cbn; rewrite ?Es; try lia.
      intros _. by apply G.
    + intros [= <-]. assert (j = threadCount) as -> by lia. split; cbn; try done.
      * by apply runner_part.
      * apply told_same; [done|]. unfold told. by rewrite Es.
      * intros _. by apply G.
Qed.

Lemma listener_keeps s s' : stopping s -> listener_step s = Some s' -> stopping s'.
Proof.
  intros Hs. pose proof Hs as [A B C D E F G H I]. unfold listener_step.
  destruct (s_accepter s) eqn:Ea; try done. destruct (s_incoming s) as [|m] eqn:Em; [done|].
  assert (Hr : s_runner s <> RDone) by (intros Er; rewrite Er in D; by destruct D as (_ & ? & _)).
  rewrite (C Hr). destruct (Nat.ltb_spec (s_cursor s) threadCount); [|lia]. intros [= <-].
  destruct (lookup_lt_is_Some_2 (s_workers s) (s_cursor s) ltac:(rewrite C by done; lia)) as [w Hw].
  destruct (E _ w Hw) as (E1 & E2 & E3). rewrite (alter_insert_worker _ _ _ w Hw).
  unfold taken, set_workers. cbn. rewrite A.
  apply (stopping_worker s (s_cursor s) w); try done.
  - apply Nat.mod_upper_bound. lia.
  - by rewrite Ea.
Qed.

Lemma stopping_step x s s' : 0 < threadCount -> stopping s -> step x s = Some s' -> stopping s'.
Proof.
  intros Hpos Hs. unfold step. rewrite (st_alive s Hs). destruct x.
  - by apply run_keeps.
  - by apply mainLoop_keeps.
  - by apply work_keeps.
  - by apply serve_keeps.
  - by apply stop_keeps.
  - by apply listener_keeps.
Qed.

Lemma stopping_run schedule s s' : 0 < threadCount -> stopping s -> run schedule s = Some s' -> stopping s'.
Proof.
  intros Hpos. revert s. induction schedule as [|x rest IH]; intros s Hs; cbn; [by intros [= <-]|].
  destruct (step x s) as [s1|] eqn:E; [|done]. cbn. apply IH. by eapply stopping_step.
Qed.

(** ** Nobody waits for ever *)

Lemma stuck_stopper s : stopping s -> stop_step s = None -> s_stopper s = SDone.
Proof.
  intros [A B C D E F G H I]. unfold stop_step. destruct (s_stopper s) as [| |j n|]; try done.
  - destruct F as [F1 F2]. rewrite F1 in H. by rewrite (proj1 H).
  - destruct (j <? n); [|done]. by destruct (_ =? _).
Qed.

Lemma stuck_worker s i w :
  stopping s -> told s = threadCount -> work_step i s = None -> s_workers s !! i = Some w ->
  length (s_workers s) = threadCount -> ended w.
Proof.
  intros Hs Ht Hn Hi Hl. unfold work_step in Hn. rewrite Hi in Hn. cbn in Hn.
  destruct (st_worker s Hs i w Hi) as (E1 & E2 & _).
  assert (He : w_exit w = true) by (apply E1; rewrite Ht, <- Hl; by eapply lookup_lt_Some).
  unfold ended. destruct (w_thread w); try done. by rewrite He in Hn.
Qed.

Lemma stuck_accepter s : stopping s -> s_break s = true -> mainLoop_step s = None -> s_accepter s = AEnd.
Proof.
  intros Hs Hbr. pose proof (st_accepter s Hs) as Ha. unfold mainLoop_step. rewrite Hbr.
  by destruct (s_accepter s).
Qed.

Lemma stuck_done s : stopping s -> (forall x, step x s = None) ->
  s_runner s = RDone /\ s_workers s = [] /\ s_base s = FreedBase /\
  o_listener (s_objects s) = false /\ o_pipe (s_objects s) = false /\
  (o_destroyed (s_objects s) ++ (o_kept (s_objects s)).*1 ≡ₚ seq 0 threadCount) /\
  (forall i w, (i, w) ∈ o_kept (s_objects s) -> 0 < w_open w).
Proof.
  intros Hs Hn. unfold step in Hn. rewrite (st_alive s Hs) in Hn.
  pose proof (stuck_stopper s Hs (Hn Stopper)) as Hst. pose proof (st_break s Hs ltac:(by rewrite Hst)) as Hbr.
  assert (Hold : told s = threadCount) by (unfold told; by rewrite Hst).
  pose proof (stuck_accepter s Hs Hbr (Hn Accepter)) as Ea.
  pose proof (st_accepter s Hs) as Ha. rewrite Ea in Ha. destruct Ha as (H1 & H2 & H3).
  pose proof (Hn Runner) as Hr. unfold run_step in Hr. rewrite Ea in Hr.
  pose proof (st_runner s Hs) as D. pose proof (st_cleared s Hs) as I.
  destruct (s_runner s) as [|?|?|i| | |] eqn:Er; try done; [|by destruct D as (-> & _)].
  assert (Hl : length (s_workers s) = threadCount) by (apply (st_length s Hs); by rewrite Er).
  destruct (Nat.ltb_spec i threadCount) as [Hlt|]; [|done].
  destruct (lookup_lt_is_Some_2 (s_workers s) i ltac:(lia)) as [w Hw]. rewrite Hw in Hr.
  pose proof (stuck_worker s i w Hs Hold (Hn (WorkerThread i)) Hw Hl) as He. unfold ended in He.
  destruct w as [t e q o]. cbn in He. by subst t.
Qed.

Definition runner_rank (r : runner) : nat :=
  match r with RJoin i => 3 + (threadCount - i) | RJoinAccept => 2 | RClear => 1 | _ => 0 end.
Definition accepter_rank (a : accepter) : nat :=
  match a with ALoop => 4 | AFree => 3 | AFreePipe => 2 | AFreeBase => 1 | _ => 0 end.
Definition stopper_rank (x : stopper) : nat :=
  match x with SBreak => 3 + threadCount | SBegin => 2 + threadCount | SWorkers j n => S (n - j) | SDone => 0 end.
Definition worker_rank (w : worker) : nat :=
  match w_thread w with WEnter => 2 | WLoop => 1 | _ => 0 end + (2 * w_queued w + w_open w).
Definition left_to_do (s : state) : nat :=
  runner_rank (s_runner s) + accepter_rank (s_accepter s) + stopper_rank (s_stopper s) +
  sum_list_with worker_rank (s_workers s) + 3 * s_incoming s.

Lemma stop_rank (j : nat) (ws : list worker) :
  sum_list_with worker_rank (alter stop_worker j ws) = sum_list_with worker_rank ws.
Proof. revert j. induction ws as [|w ws IH]; intros [|j]; cbn; [done..|]. f_equal. apply IH. Qed.

(** Replacing a worker takes what it counted for, and adds what the new one does. *)
Lemma replaced (f : worker -> nat) s i w v t :
  s_workers s !! i = Some w -> <[i := v]> (s_workers s) = t ->
  sum_list_with f t + f w = sum_list_with f (s_workers s) + f v.
Proof. intros Hi <-. pose proof (sum_list_with_insert f _ i w v Hi). lia. Qed.

Lemma worker_left s s' i w v :
  s_workers s !! i = Some w -> s_workers s' = <[i := v]> (s_workers s) ->
  s_runner s' = s_runner s -> s_accepter s' = s_accepter s -> s_stopper s' = s_stopper s ->
  worker_rank v + 3 * s_incoming s' < worker_rank w + 3 * s_incoming s -> left_to_do s' < left_to_do s.
Proof.
  intros Hi Hw H1 H2 H3 Hr. unfold left_to_do. rewrite H1, H2, H3, Hw.
  pose proof (replaced worker_rank s i w v _ Hi eq_refl). lia.
Qed.

Lemma step_left x s s' : stopping s -> stopping s' -> step x s = Some s' -> left_to_do s' < left_to_do s.
Proof.
  intros Hs Hs'. pose proof Hs as [A B C D E F G H I]. pose proof (st_alive s' Hs') as A'.
  unfold step. rewrite A. destruct x as [| |i|i accepts| |].
  - unfold run_step, left_to_do. destruct (s_runner s) as [|?|?|i| | |]; try done.
    + destruct (Nat.ltb_spec i threadCount).
      * destruct (s_workers s !! i) as [[[] ? ? ?]|]; try done. intros [= <-]. cbn -[Nat.mul]. lia.
      * intros [= <-]. cbn -[Nat.mul]. lia.
    + destruct (s_accepter s) eqn:Ea; try done. intros [= <-]. cbn -[Nat.mul]. rewrite Ea. cbn -[Nat.mul]. lia.
    + intros [= <-]. cbn -[Nat.mul imap filter]. lia.
  - unfold mainLoop_step, freeing, left_to_do. destruct (s_accepter s); try done.
    + destruct (s_break s); [|done]. intros [= <-]. cbn -[Nat.mul]. lia.
    + destruct H as (H1 & H2 & H3). rewrite H1, H2. intros [= <-]. cbn -[Nat.mul]. lia.
    + destruct H as (H1 & H2 & H3). rewrite H1, H3. intros [= <-]. cbn -[Nat.mul]. lia.
    + destruct H as (H1 & H2 & H3). rewrite H1. intros [= <-]. cbn -[Nat.mul]. lia.
  - unfold work_step. destruct (s_workers s !! i) as [w|] eqn:Ei; [|done]. cbn.
    destruct (w_thread w) eqn:Ew; try done; [|destruct (w_exit w); [|done]]; intros [= <-];
      eapply worker_left; [exact Ei|reflexivity|try done..]; unfold worker_rank; rewrite Ew; cbn -[Nat.mul]; lia.
  - unfold serve_step. destruct (s_workers s !! i) as [w|] eqn:Ei; [|done]. cbn -[Nat.mul].
    destruct (w_thread w) eqn:Ew; try done.
    destruct accepts; [destruct (w_queued w) as [|q] eqn:Eq|destruct (w_open w) as [|n] eqn:Eo]; try done; intros [= <-];
      eapply worker_left; [exact Ei|reflexivity|try done..]; unfold worker_rank; rewrite Ew, ?Eq, ?Eo; cbn -[Nat.mul]; lia.
  - unfold stop_step, left_to_do. destruct (s_stopper s) as [| |j n|]; try done.
    + destruct F as [F1 F2]. rewrite F1 in H. rewrite (proj1 H). intros [= <-]. cbn -[Nat.mul]. lia.
    + intros [= <-]. cbn -[Nat.mul].
      assert (length (s_workers s) <= threadCount); [|lia].
      destruct (s_runner s) eqn:Er; try done; try (rewrite C; done). destruct D as (-> & _). cbn. lia.
    + destruct (Nat.ltb_spec j n); [destruct (_ =? n)|]; intros [= <-]; [|done|]; cbn -[Nat.sub Nat.mul];
        rewrite ?stop_rank; lia.
  - unfold listener_step. destruct (s_accepter s) eqn:Ea; try done. destruct (s_incoming s) as [|m] eqn:Em; [done|].
    destruct (Nat.ltb_spec (s_cursor s) (length (s_workers s))) as [Hl|]; intros [= <-]; [|done].
    destruct (lookup_lt_is_Some_2 _ _ Hl) as [w Hw].
    apply (worker_left _ _ (s_cursor s) w (queue_accept w) Hw); try done.
    + cbn. by apply alter_insert_worker.
    + unfold worker_rank. cbn -[Nat.mul]. rewrite Em. lia.
Qed.

Lemma run_left schedule s s' :
  0 < threadCount -> stopping s -> run schedule s = Some s' -> length schedule + left_to_do s' <= left_to_do s.
Proof.
  intros Hpos. revert s. induction schedule as [|x rest IH]; intros s Hs; cbn; [intros [= <-]; lia|].
  destruct (step x s) as [s1|] eqn:E; [|done]. cbn. intros Hr.
  pose proof (stopping_step x s s1 Hpos Hs E) as Hs1. apply IH in Hr; [|done].
  pose proof (step_left x s s1 Hs Hs1 E). lia.
Qed.

(** ** Where the connections are *)

Lemma sum_filter {A} (f : A -> nat) (P : A -> Prop) `{!forall x, Decision (P x)} (l : list A) :
  sum_list_with f (filter P l) + sum_list_with f (filter (fun x => ~ P x) l) = sum_list_with f l.
Proof.
  induction l as [|x l IH]; [done|]. rewrite !filter_cons. cbn.
  destruct (decide (P x)), (decide (~ P x)); try done; cbn; lia.
Qed.

Lemma sum_imap {A} (f : A -> nat) (l : list A) : sum_list_with (fun x => f x.2) (imap pair l) = sum_list_with f l.
Proof.
  assert (H : forall g : nat -> nat, sum_list_with (fun x => f x.2) (imap (fun i => pair (g i)) l) = sum_list_with f l).
  { induction l as [|x l IH]; intros g; [done|]. cbn. f_equal. apply (IH (g ∘ S)). }
  apply (H id).
Qed.

Lemma gone_load (l : list (nat * worker)) :
  sum_list_with (fun x => load x.2) (filter (fun x => w_open x.2 = 0) l) =
  sum_list_with (fun x => w_queued x.2) (filter (fun x => w_open x.2 = 0) l).
Proof.
  induction l as [|x l IH]; [done|]. rewrite filter_cons. destruct (decide (w_open x.2 = 0)) as [E|]; [|done].
  cbn. unfold load at 1. lia.
Qed.

(** What is in the queue of a worker that is destroyed is left behind. *)
Lemma clear_connections s : connections (clear_workers s) = connections s.
Proof.
  unfold connections, clear_workers. cbn -[filter imap].
  rewrite sum_list_with_app, <- gone_load, <- (sum_imap load (s_workers s)).
  rewrite <- (sum_filter (fun x => load x.2) (fun x => w_open x.2 = 0) (imap pair (s_workers s))). lia.
Qed.

Lemma worker_connections s s' i w v :
  s_workers s !! i = Some w -> s_workers s' = <[i := v]> (s_workers s) ->
  o_lost (s_objects s') = o_lost (s_objects s) -> o_kept (s_objects s') = o_kept (s_objects s) ->
  load v + s_incoming s' + o_closed (s_objects s') = load w + s_incoming s + o_closed (s_objects s) ->
  connections s' = connections s.
Proof.
  intros Hi Hw H1 H2 Hr. unfold connections. rewrite H1, H2, Hw.
  pose proof (replaced load s i w v _ Hi eq_refl). lia.
Qed.

Lemma step_connections x s s' : stopping s -> stopping s' -> step x s = Some s' -> connections s' = connections s.
Proof.
  intros Hs Hs'. pose proof Hs as [A B C D E F G H I]. pose proof (st_alive s' Hs') as A'.
  unfold step. rewrite A. destruct x as [| |i|i accepts| |].
  - unfold run_step. destruct (s_runner s) as [|?|?|i| | |]; try done.
    + destruct (i <? threadCount); [destruct (s_workers s !! i) as [[[] ? ? ?]|]; try done|]; by intros [= <-].
    + destruct (s_accepter s); try done. by intros [= <-].
    + intros [= <-]. by rewrite clear_connections.
  - unfold mainLoop_step, freeing. destruct (s_accepter s); try done.
    + destruct (s_break s); [|done]. by intros [= <-].
    + destruct H as (H1 & H2 & H3). rewrite H1, H2. by intros [= <-].
    + destruct H as (H1 & H2 & H3). rewrite H1, H3. by intros [= <-].
    + destruct H as (H1 & H2 & H3). rewrite H1. by intros [= <-].
  - unfold work_step. destruct (s_workers s !! i) as [w|] eqn:Ei; [|done]. cbn.
    destruct (w_thread w) eqn:Ew; try done; [|destruct (w_exit w); [|done]]; intros [= <-];
      (eapply worker_connections; [exact Ei|reflexivity|done..]).
  - unfold serve_step. destruct (s_workers s !! i) as [w|] eqn:Ei; [|done]. cbn.
    destruct (w_thread w) eqn:Ew; try done.
    destruct accepts; [destruct (w_queued w) as [|q] eqn:Eq|destruct (w_open w) as [|n] eqn:Eo]; try done; intros [= <-];
      eapply worker_connections; [exact Ei|reflexivity|try done..]; unfold load; cbn; rewrite ?Eq, ?Eo; lia.
  - unfold stop_step. destruct (s_stopper s) as [| |j n|]; try done.
    + destruct (s_base s); intros [= <-]; done.
    + by intros [= <-].
    + destruct (j <? n); [destruct (_ =? n)|]; intros [= <-]; [|done|done].
      unfold connections. cbn. f_equal. f_equal.
      clear. revert j. induction (s_workers s) as [|w ws IH]; intros [|j]; cbn; [done..|]. f_equal. apply IH.
  - unfold listener_step. destruct (s_accepter s) eqn:Ea; try done. destruct (s_incoming s) as [|m] eqn:Em; [done|].
    destruct (Nat.ltb_spec (s_cursor s) (length (s_workers s))) as [Hl|]; intros [= <-]; [|done].
    destruct (lookup_lt_is_Some_2 _ _ Hl) as [w Hw].
    apply (worker_connections _ _ (s_cursor s) w (queue_accept w) Hw); try done.
    + cbn. by apply alter_insert_worker.
    + unfold load. cbn. rewrite Em. cbn. lia.
Qed.

Lemma run_connections schedule s s' :
  0 < threadCount -> stopping s -> run schedule s = Some s' -> connections s' = connections s.
Proof.
  intros Hpos. revert s. induction schedule as [|x rest IH]; intros s Hs; cbn; [by intros [= <-]|].
  destruct (step x s) as [s1|] eqn:E; [|done]. cbn. intros Hr.
  pose proof (stopping_step x s s1 Hpos Hs E) as Hs1. rewrite (IH s1 Hs1 Hr). by eapply step_connections.
Qed.

(** C9: a server that is up and is told to stop does stop: whatever order its
    threads, the connections that still arrive, what the workers do with theirs and
    the call of [stop] take their steps in, nothing is freed twice or used after it
    has been freed and no exception is lost, there are only so many steps, and no
    connection vanishes: each is still to come, or in a worker's queue, or open, or
    has been removed, or was left in the queue of a worker that was destroyed.  When no
    step is left [run] has returned, the listener, the event and the base have been
    freed, and each worker has been destroyed once or is kept, once, by connections
    that are still open. *)
Theorem server_stops s schedule s' :
  0 < threadCount -> up s -> run schedule s = Some s' ->
  s_crashed s' = None /\ length schedule <= left_to_do s /\ connections s' = connections s /\
  ((forall x, step x s' = None) ->
   s_runner s' = RDone /\ s_workers s' = [] /\ s_base s' = FreedBase /\
   o_listener (s_objects s') = false /\ o_pipe (s_objects s') = false /\
   (o_destroyed (s_objects s') ++ (o_kept (s_objects s')).*1 ≡ₚ seq 0 threadCount) /\
   (forall i w, (i, w) ∈ o_kept (s_objects s') -> 0 < w_open w)).
Proof.
  intros Hpos Hup Hr. pose proof (up_stopping s Hup) as Hs. pose proof (stopping_run _ _ _ Hpos Hs Hr) as Hs'.
  split; [exact (st_alive s' Hs')|]. split; [apply run_left in Hr; [lia|done|done]|].
  split; [by eapply run_connections|by apply stuck_done].
Qed.
End threads.

(** ** What a server that is not up makes of it *)

(** Told to stop before its loop runs, it forgets: the workers end, and [run] waits
    for the thread that accepts, which waits for connections. *)
Lemma early_stop_is_lost :
  exists schedule s, run 1 true schedule (start 0) = Some s /\ (forall x, step 1 true x s = None) /\
    s_runner s = RJoinAccept /\ s_accepter s = ALoop /\ s_stopper s = SDone.
Proof.
  exists [Runner; Runner; Runner; Runner; Stopper; Stopper; Stopper; Stopper; Accepter; Accepter; Accepter;
     WorkerThread 0; WorkerThread 0; Runner; Runner].
  eexists. split; [vm_compute; reflexivity|]. split; [|done].
  intros [| |[|i]|[|i] []| |]; vm_compute; reflexivity.
Qed.

(** Told to stop while it makes its workers, it may walk through a list that is
    growing. *)
Lemma stop_while_starting :
  exists schedule s, run 2 true schedule (start 0) = Some s /\ s_crashed s = Some Undefined.
Proof.
  exists [Runner; Runner; Runner; Stopper; Stopper; Runner; Stopper]. eexists. split; [vm_compute; reflexivity|done].
Qed.

(** A connection that arrives before its worker has been made ends the process. *)
Lemma early_connection_terminates :
  exists schedule s, run 2 true schedule (start 1) = Some s /\ s_crashed s = Some Terminated.
Proof.
  exists [Runner; Accepter; Accepter; Accepter; Connection]. eexists. split; [vm_compute; reflexivity|done].
Qed.

(** So does an address that is taken: the exception is thrown in the thread that
    accepts, out of reach of the handler in [main]. *)
Lemma taken_address_terminates :
  exists schedule s, run 2 false schedule (start 0) = Some s /\ s_crashed s = Some Terminated.
Proof. exists [Runner; Accepter; Accepter]. eexists. split; [vm_compute; reflexivity|done]. Qed.

(** ** Witness *)

(** The schedule that brings a server of two workers up. *)
Definition coming_up : list who :=
  [Runner; Runner; Runner; Runner; Runner; Runner; Accepter; Accepter; Accepter; WorkerThread 0; Connection;
   Serving 0 true].

Definition example_up : state :=
  State (RJoin 0) ALoop SBreak [Worker WLoop false 0 1; Worker WEnter false 0 0] LiveBase false 1 1 None
    (Objects true true [] [] 0 0).

Lemma example_comes_up : run 2 true coming_up (start 2) = Some example_up /\ up 2 example_up.
Proof.
  split; [vm_compute; reflexivity|]. constructor; try reflexivity; [|cbn; lia|done|done].
  intros w [->|[->|[]%elem_of_nil]%elem_of_cons]%elem_of_cons; cbn; auto.
Qed.

(** The second worker is told to exit before it looks at its queue, the first one
    keeps its connection. *)
Definition going_down : list who :=
  [Connection; Stopper; Accepter; Stopper; Stopper; Stopper; Accepter; WorkerThread 1; WorkerThread 0; WorkerThread 1;
   Runner; Accepter; Runner; Runner; Accepter; Runner; Runner; Stopper].

(** What [run] leaves behind: a worker that its open connection keeps, and a
    descriptor that nobody closes. *)
Lemma server_stops_witness :
  exists s', run 2 true going_down example_up = Some s' /\ s_crashed s' = None /\ s_runner s' = RDone /\
    o_destroyed (s_objects s') = [1] /\ o_kept (s_objects s') = [(0, Worker WEnd true 0 1)] /\
    o_lost (s_objects s') = 1 /\ connections s' = connections example_up.
Proof.
  destruct (run 2 true going_down example_up) as [s'|] eqn:E; [|vm_compute in E; discriminate E].
  exists s'. split; [reflexivity|].
  destruct (server_stops 2 true example_up going_down s' ltac:(lia) (proj2 example_comes_up) E) as (Hc & _ & Hn & Hd).
  split; [exact Hc|]. split; [refine (proj1 (Hd _))|]; vm_compute in E; injection E as <-; [|done].
  by intros [| |i|i [] | |].
Defined.
