(* ===== verification/Process.v ===== *)
(** * The process

    [src/main.cpp], from the servers that the configuration has given (see
    [Core.start]) to the end: the thread of [main], which makes a thread for every
    server, waits for them and destroys the servers; the threads of the servers,
    those of [Running.v]; and the handler of [SIGINT], which stops one server after
    the other in whatever thread it runs.  One [SIGINT] arrives.  The tables that a
    destructor empties are in [Lifecycle.v]; here is what it does to the loop. *)

From Stdlib Require Import Lia.
From stdpp Require Import base tactics option list.
From S2P Require Import Prelude NetServer Lifecycle Running.

Record server := Srv { v_count : nat; v_listens : bool; v_spawned : bool; v_state : state }.

(** [main]: before [global_servers] is set, at the loops over it, and what it has
    returned. *)
Inductive main_phase := MMake | MSpawn (i : nat) | MJoin (i : nat) | MClear (i : nat) | MReturned (code : Z).

(** [p_signal] is where the handler is in the list. *)
Record process := Process {
  p_main : main_phase;
  p_servers : list server;
  p_signal : option nat;
  p_undefined : bool;
}.

Definition set_server (i : nat) (v : server) (p : process) : process :=
  Process (p_main p) (<[i := v]> (p_servers p)) (p_signal p) (p_undefined p).
Definition set_main (m : main_phase) (p : process) : process :=
  Process m (p_servers p) (p_signal p) (p_undefined p).
Definition set_signal (k : nat) (p : process) : process :=
  Process (p_main p) (p_servers p) (Some k) (p_undefined p).
Definition set_state (s : state) (v : server) : server := Srv (v_count v) (v_listens v) (v_spawned v) s.
Definition spawn (v : server) : server := Srv (v_count v) (v_listens v) true (v_state v).

Definition server_step (x : who) (v : server) : option server :=
  s ← step (v_count v) (v_listens v) x (v_state v); Some (set_state s v).

Definition main_step (p : process) : option process :=
  match p_main p with
  | MMake => Some (set_main (MSpawn 0) p)
  | MSpawn i =>
    match p_servers p !! i with
    | Some v => Some (set_main (MSpawn (S i)) (set_server i (spawn v) p))
    | None => Some (set_main (MJoin 0) p)
    end
  | MJoin i =>
    match p_servers p !! i with
    | Some v => match s_runner (v_state v) with RDone => Some (set_main (MJoin (S i)) p) | _ => None end
    | None => Some (set_main (MClear 0) p)
    end
  | MClear i =>
    match p_servers p !! i with
    | Some v =>
      match s_base (v_state v) with
      | FreedBase => Some (Process (p_main p) (p_servers p) (p_signal p) true)  (** [event_base_loopbreak] *)
      | _ => Some (set_main (MClear (S i)) p)
      end
    | None => Some (set_main (MReturned 0) p)
    end
  | MReturned _ => None
  end.

(** [for (auto &server: global_servers) server->stop();] *)
Definition handler_step (p : process) : option process :=
  k ← p_signal p; v ← p_servers p !! k;
  match s_stopper (v_state v) with
  | SDone => Some (set_signal (S k) p)
  | _ => v' ← server_step Stopper v; Some (set_server k v' p)
  end.

Definition interrupt (p : process) : option process :=
  match p_signal p with
  | None => Some (set_signal (match p_main p with MMake => length (p_servers p) | _ => 0 end) p)
  | Some _ => None
  end.

Definition server_thread (i : nat) (x : who) (p : process) : option process :=
  v ← p_servers p !! i;
  match x, v_spawned v with
  | Stopper, _ | _, false => None
  | _, true => v' ← server_step x v; Some (set_server i v' p)
  end.

Definition crashed (p : process) : bool :=
  p_undefined p || existsb (fun v => match s_crashed (v_state v) with Some _ => true | None => false end) (p_servers p).

Inductive actor := Main | Interrupt | SignalHandler | ServerThread (i : nat) (x : who).

Definition process_step (a : actor) (p : process) : option process :=
  if crashed p then None
  else match a with
       | Main => main_step p
       | Interrupt => interrupt p
       | SignalHandler => handler_step p
       | ServerThread i x => server_thread i x p
       end.

Fixpoint process_run (schedule : list actor) (p : process) : option process :=
  match schedule with
  | [] => Some p
  | a :: rest => p' ← process_step a p; process_run rest p'
  end.

(** ** What the shutting down keeps *)

Definition server_up (v : server) : Prop := v_spawned v = true /\ 0 < v_count v /\ up (v_count v) (v_state v).
Definition server_ok (v : server) : Prop := v_spawned v = true /\ 0 < v_count v /\ stopping (v_count v) (v_state v).
Definition server_left (v : server) : nat := left_to_do (v_count v) (v_state v).

Definition reached (p : process) : option nat :=
  match p_main p with MJoin i => Some i | MClear 0 => Some (length (p_servers p)) | _ => None end.

Record shutting (p : process) : Prop := {
  sh_server v : v ∈ p_servers p -> server_ok v;
  sh_signal : exists k, p_signal p = Some k /\ k <= length (p_servers p) /\
    forall j v, j < k -> p_servers p !! j = Some v -> s_stopper (v_state v) = SDone;
  sh_main : exists i, reached p = Some i /\ i <= length (p_servers p) /\
    forall j v, j < i -> p_servers p !! j = Some v -> s_runner (v_state v) = RDone;
  sh_undefined : p_undefined p = true -> p_main p = MClear 0;
  sh_some : p_servers p <> [];
}.

Definition process_left (p : process) : nat :=
  sum_list_with server_left (p_servers p) +
  (length (p_servers p) - default 0 (p_signal p)) +
  (length (p_servers p) - default 0 (reached p)) +
  (match p_main p with MJoin _ => 2 | _ => 1 end - (if p_undefined p then 1 else 0)).

(** Who changes what [run] and [stop] have come to. *)
Lemma step_fields n b x s s' : step n b x s = Some s' ->
  (x <> Stopper -> s_stopper s' = s_stopper s) /\ (x <> Runner -> s_runner s' = s_runner s).
Proof.
  unfold step. destruct (s_crashed s); [done|]. destruct x as [| |i|i accepts| |].
  - unfold run_step. destruct (s_runner s) as [|i|i|i| | |]; try done.
    + by intros [= <-].
    + destruct (_ <? _); by intros [= <-].
    + by intros [= <-].
    + destruct (_ <? _); [destruct (_ !! _) as [[[] ? ? ?]|]; try done|]; by intros [= <-].
    + destruct (s_accepter s); try done. by intros [= <-].
    + by intros [= <-].
  - unfold mainLoop_step, freeing. destruct (s_accepter s); try done; try by intros [= <-].
    + destruct b; by intros [= <-].
    + destruct (s_break s); [|done]. by intros [= <-].
    + destruct (s_base s), (o_listener (s_objects s)); by intros [= <-].
    + destruct (s_base s), (o_pipe (s_objects s)); by intros [= <-].
    + destruct (s_base s); by intros [= <-].
  - unfold work_step. destruct (s_workers s !! i) as [w|]; [|done]. cbn.
    destruct (w_thread w); try done; [|destruct (w_exit w); [|done]]; by intros [= <-].
  - unfold serve_step. destruct (s_workers s !! i) as [w|]; [|done]. cbn.
    destruct (w_thread w); try done.
    destruct accepts; [destruct (w_queued w)|destruct (w_open w)]; try done; by intros [= <-].
  - unfold stop_step. destruct (s_stopper s) as [| |j m|]; try done.
    + destruct (s_base s); by intros [= <-].
    + by intros [= <-].
    + destruct (j <? m); [destruct (_ =? _)|]; by intros [= <-].
  - unfold listener_step. destruct (s_accepter s); try done. destruct (s_incoming s); [done|].
    destruct (_ <? _); by intros [= <-].
Qed.

Lemma step_final n b x s s' : step n b x s = Some s' ->
  (s_stopper s = SDone -> s_stopper s' = SDone) /\ (s_runner s = RDone -> s_runner s' = RDone).
Proof.
  intros E. destruct (step_fields n b x s s' E) as [H1 H2]. split; intros Hd.
  - destruct (decide (x = Stopper)) as [->|Hx]; [|by rewrite H1].
    unfold step, stop_step in E. rewrite Hd in E. by destruct (s_crashed s).
  - destruct (decide (x = Runner)) as [->|Hx]; [|by rewrite H2].
    unfold step, run_step in E. rewrite Hd in E. by destruct (s_crashed s).
Qed.

Lemma server_step_ok x v v' : server_ok v -> server_step x v = Some v' ->
  server_ok v' /\ server_left v' < server_left v /\
  (s_stopper (v_state v) = SDone -> s_stopper (v_state v') = SDone) /\
  (s_runner (v_state v) = RDone -> s_runner (v_state v') = RDone).
Proof.
  intros (Hsp & Hpos & Hs) E. unfold server_step in E.
  destruct (step (v_count v) (v_listens v) x (v_state v)) as [s|] eqn:Es; [|done]. injection E as <-.
  pose proof (stopping_step _ _ _ _ _ Hpos Hs Es) as Hs'. split; [done|].
  split; [by eapply step_left|by eapply step_final].
Qed.

Lemma shutting_set i v v' p :
  shutting p -> p_servers p !! i = Some v -> server_ok v' ->
  (s_stopper (v_state v) = SDone -> s_stopper (v_state v') = SDone) ->
  (s_runner (v_state v) = RDone -> s_runner (v_state v') = RDone) -> shutting (set_server i v' p).
Proof.
  intros [A (k & B1 & B2 & B3) (m & C1 & C2 & C3) D E] Hi Hv Hst Hr.
  assert (Hl : forall j w, <[i := v']> (p_servers p) !! j = Some w ->
    (j = i /\ w = v') \/ p_servers p !! j = Some w).
  { intros j w. rewrite list_lookup_insert. case_decide as Hd; [|by right]. intros [= <-]. left. by destruct Hd. }
  split; cbn; rewrite ?length_insert.
  - intros w [j Hj]%list_elem_of_lookup. destruct (Hl j w Hj) as [[_ ->]|Hj']; [done|]. apply A. by eapply list_elem_of_lookup_2.
  - exists k. split; [done|]. split; [done|]. intros j w Hjk Hj. destruct (Hl j w Hj) as [[-> ->]|Hj']; [|by apply (B3 j)].
    apply Hst. by apply (B3 i).
  - exists m. unfold reached in *. cbn. rewrite length_insert. split; [done|]. split; [done|]. intros j w Hjm Hj.
    destruct (Hl j w Hj) as [[-> ->]|Hj']; [|by apply (C3 j)]. apply Hr. by apply (C3 i).
  - done.
  - intros Hn. apply E. apply length_zero_iff_nil. by rewrite <- (length_insert (p_servers p) i v'), Hn.
Qed.

Lemma left_set i v v' p : p_servers p !! i = Some v -> server_left v' < server_left v ->
  process_left (set_server i v' p) < process_left p.
Proof.
  intros Hi Hl. unfold process_left, reached. cbn. rewrite !length_insert.
  pose proof (sum_list_with_insert server_left _ i v v' Hi). lia.
Qed.

Lemma shutting_step a p p' : shutting p -> process_step a p = Some p' ->
  shutting p' /\ process_left p' < process_left p.
Proof.
  intros Hp. unfold process_step. destruct (crashed p) eqn:Ec; [done|].
  assert (Hu : p_undefined p = false) by (unfold crashed in Ec; by destruct (p_undefined p)).
  pose proof Hp as [A (k & B1 & B2 & B3) (m & C1 & C2 & C3) D E]. destruct a as [| | |i x].
  - unfold main_step. unfold reached in C1. destruct (p_main p) as [|i|i|i|] eqn:Em; try done.
    + injection C1 as ->. destruct (p_servers p !! m) as [v|] eqn:Ev.
      * destruct (s_runner (v_state v)) eqn:Er; try done. intros [= <-]. apply lookup_lt_Some in Ev as Hm. split.
        -- split; cbn; try done; [by exists k| |by rewrite Hu]. exists (S m). split; [done|]. split; [lia|].
           intros j w Hj Hw. destruct (decide (j = m)) as [->|Hne]; [by simplify_eq|]. apply (C3 j); [lia|done].
        -- unfold process_left, reached. cbn. rewrite Em, Hu. cbn. lia.
      * intros [= <-]. apply lookup_ge_None in Ev. split.
        -- split; cbn; try done; [by exists k|]. exists (length (p_servers p)). split; [done|]. split; [done|].
           intros j w Hj Hw. apply (C3 j); [lia|done].
        -- unfold process_left, reached. cbn. rewrite Em, Hu. cbn. lia.
    + destruct i; [|done]. injection C1 as <-. destruct (p_servers p !! 0) as [v|] eqn:Ev.
      * assert (Hv : server_ok v) by (apply A; by eapply list_elem_of_lookup_2). apply lookup_lt_Some in Ev as H0.
        destruct Hv as (_ & Hpos & Hs). pose proof (st_runner _ _ Hs) as Hr. rewrite (C3 0 v H0 Ev) in Hr.
        destruct Hr as (_ & Ha & _). pose proof (st_accepter _ _ Hs) as Hb. rewrite Ha in Hb. rewrite (proj1 Hb).
        intros [= <-]. split.
        -- split; cbn; try done; [by exists k|]. unfold reached. cbn. by exists (length (p_servers p)).
        -- unfold process_left, reached. cbn. rewrite Em, Hu. cbn. lia.
      * intros _. destruct (p_servers p); done.
  - unfold interrupt. by rewrite B1.
  - unfold handler_step. rewrite B1. cbn. destruct (p_servers p !! k) as [v|] eqn:Ev; [|done]. cbn.
    assert (Hv : server_ok v) by (apply A; by eapply list_elem_of_lookup_2). apply lookup_lt_Some in Ev as Hk.
    assert (Hdo : (v' ← server_step Stopper v; Some (set_server k v' p)) = Some p' ->
      shutting p' /\ process_left p' < process_left p).
    { destruct (server_step Stopper v) as [v'|] eqn:Es; [|done]. intros [= <-].
      destruct (server_step_ok _ v v' Hv Es) as (H1 & H2 & H3 & H4).
      split; [by eapply shutting_set|by eapply left_set]. }
    destruct (s_stopper (v_state v)) eqn:Est; try exact Hdo. intros [= <-]. split.
    + split; cbn; try done; [|by exists m]. exists (S k). split; [done|]. split; [lia|].
      intros j w Hj Hw. destruct (decide (j = k)) as [->|Hne]; [by simplify_eq|]. apply (B3 j); [lia|done].
    + unfold process_left, reached. cbn. rewrite B1. cbn. lia.
  - unfold server_thread. destruct (p_servers p !! i) as [v|] eqn:Ev; [|done]. cbn.
    assert (Hv : server_ok v) by (apply A; by eapply list_elem_of_lookup_2).
    assert (Hdo : (v' ← server_step x v; Some (set_server i v' p)) = Some p' ->
      shutting p' /\ process_left p' < process_left p).
    { destruct (server_step x v) as [v'|] eqn:Es; [|done]. intros [= <-].
      destruct (server_step_ok _ v v' Hv Es) as (H1 & H2 & H3 & H4).
      split; [by eapply shutting_set|by eapply left_set]. }
    destruct x; try done; destruct (v_spawned v); try done; exact Hdo.
Qed.

Lemma shutting_run schedule p p' : shutting p -> process_run schedule p = Some p' ->
  shutting p' /\ length schedule + process_left p' <= process_left p.
Proof.
  revert p. induction schedule as [|a rest IH]; intros p Hp; cbn; [intros [= <-]; by split|].
  destruct (process_step a p) as [p1|] eqn:E; [|done]. cbn. intros Hr.
  destruct (shutting_step a p p1 Hp E) as [H1 H2]. destruct (IH p1 H1 Hr) as [H3 H4]. split; [done|lia].
Qed.

(** ** Nobody waits for ever *)

Lemma servers_alive p : shutting p -> crashed p = p_undefined p.
Proof.
  intros Hp. unfold crashed. destruct (existsb _ _) eqn:E; [|by rewrite orb_false_r].
  apply existsb_exists in E as (v & Hv & Hc). apply list_elem_of_In in Hv.
  destruct (sh_server p Hp v Hv) as (_ & _ & Hs). by rewrite (st_alive _ _ Hs) in Hc.
Qed.

Lemma stuck_server p i v : shutting p -> (forall a, process_step a p = None) -> crashed p = false ->
  p_servers p !! i = Some v -> s_stopper (v_state v) = SDone /\ s_runner (v_state v) = RDone /\ s_workers (v_state v) = [].
Proof.
  intros Hp Hn Hc Hi. destruct (sh_signal p Hp) as (k & Hk & Hle & Hdone).
  assert (Hs : forall j w, p_servers p !! j = Some w -> server_ok w)
    by (intros j w Hj; apply (sh_server p Hp); by eapply list_elem_of_lookup_2).
  assert (Hst : s_stopper (v_state v) = SDone).
  { apply (Hdone i); [|done]. apply lookup_lt_Some in Hi as Hlt. enough (k = length (p_servers p)) by lia.
    pose proof (Hn SignalHandler) as Hh. unfold process_step, handler_step in Hh. rewrite Hc, Hk in Hh. cbn in Hh.
    destruct (p_servers p !! k) as [w|] eqn:Ew; [|apply lookup_ge_None in Ew; lia]. cbn in Hh.
    destruct (Hs k w Ew) as (_ & _ & Hw). unfold server_step, step in Hh. rewrite (st_alive _ _ Hw) in Hh.
    destruct (stop_step (v_state w)) eqn:Est; [by destruct (s_stopper (v_state w))|].
    by rewrite (stuck_stopper _ _ Hw Est) in Hh. }
  split; [done|]. destruct (Hs i v Hi) as (Hsp & _ & Hv).
  assert (Hnone : forall x, step (v_count v) (v_listens v) x (v_state v) = None).
  { intros x. destruct (decide (x = Stopper)) as [->|Hx].
    - unfold step, stop_step. rewrite Hst. by destruct (s_crashed _).
    - pose proof (Hn (ServerThread i x)) as Hx'. unfold process_step, server_thread in Hx'. rewrite Hc, Hi in Hx'.
      cbn in Hx'. rewrite Hsp in Hx'. unfold server_step in Hx'.
      destruct (step (v_count v) (v_listens v) x (v_state v)) as [s|]; [|done]. by destruct x. }
  destruct (stuck_done _ _ _ Hv Hnone) as (H1 & H2 & _). by split.
Qed.

Lemma stuck_process p : shutting p -> (forall a, process_step a p = None) -> p_undefined p = true.
Proof.
  intros Hp Hn. destruct (p_undefined p) eqn:Hu; [done|]. exfalso.
  assert (Hc : crashed p = false) by by rewrite servers_alive.
  pose proof (Hn Main) as Hm. unfold process_step, main_step in Hm. rewrite Hc in Hm.
  destruct (sh_main p Hp) as (m & Hr & Hle & Hd). unfold reached in Hr. destruct (p_main p) as [|i|i|i|]; try done.
  - injection Hr as ->. destruct (p_servers p !! m) as [v|] eqn:Ev; [|done].
    destruct (stuck_server p m v Hp Hn Hc Ev) as (_ & E & _). by rewrite E in Hm.
  - destruct i; [|done]. destruct (p_servers p !! 0) as [v|]; [|done]. by destruct (s_base (v_state v)).
Qed.

Lemma up_shutting servers : Forall server_up servers -> servers <> [] ->
  shutting (Process (MJoin 0) servers (Some 0) false).
Proof.
  intros Hs Hne. split; cbn; try done.
  - intros v Hv. rewrite Forall_forall in Hs. destruct (Hs v Hv) as (H1 & H2 & H3). split; [done|]. split; [done|].
    by apply up_stopping.
  - exists 0. split; [done|]. split; [lia|]. intros j v Hj. lia.
  - exists 0. split; [done|]. split; [lia|]. intros j v Hj. lia.
Qed.

(** C10: what [SIGINT] does to a process whose servers are up, whatever order all its
    threads, the handler and the connections that still arrive take their steps in.
    No thread of a server uses anything that has been freed, ends by an exception or
    waits for ever; every schedule ends; and at its end every server has been
    stopped and has returned from [run], its workers are gone and [main] has joined
    its thread.  There the destructor of the first server stops it once more and
    uses the loop that is gone: the process never gets to its [return 0]. *)
Theorem interrupt_shuts_down servers schedule p :
  Forall server_up servers -> servers <> [] ->
  process_run schedule (Process (MJoin 0) servers (Some 0) false) = Some p ->
  (forall v, v ∈ p_servers p -> s_crashed (v_state v) = None) /\
  length schedule <= process_left (Process (MJoin 0) servers (Some 0) false) /\
  ((forall a, process_step a p = None) ->
    p_main p = MClear 0 /\ p_undefined p = true /\
    forall v, v ∈ p_servers p -> s_runner (v_state v) = RDone /\ s_workers (v_state v) = []).
Proof.
  intros Hs Hne Hr. destruct (shutting_run _ _ _ (up_shutting servers Hs Hne) Hr) as [Hp Hl].
  split; [|split; [lia|]].
  - intros v Hv. destruct (sh_server p Hp v Hv) as (_ & _ & H). apply (st_alive _ _ H).
  - intros Hn. pose proof (stuck_process p Hp Hn) as Hu. pose proof (sh_undefined p Hp Hu) as Hm.
    split; [done|]. split; [done|]. intros v Hv. destruct (sh_main p Hp) as (m & Hm' & _ & Hd).
    unfold reached in Hm'. rewrite Hm in Hm'. injection Hm' as <-.
    apply list_elem_of_lookup in Hv as [j Hj]. assert (Hrun : s_runner (v_state v) = RDone).
    { apply (Hd j); [by eapply lookup_lt_Some|done]. }
    split; [done|]. destruct (sh_server p Hp v) as (_ & _ & H); [by eapply list_elem_of_lookup_2|].
    pose proof (st_runner _ _ H) as E. rewrite Hrun in E. by destruct E.
Qed.

(** A [SIGINT] that arrives before [global_servers] is set is lost: the handler
    finds no servers, and they come up and run. *)
Lemma early_interrupt_is_lost :
  exists schedule p, process_run schedule (Process MMake [Srv 1 true false (start 0)] None false) = Some p /\
    (forall a, process_step a p = None) /\ p_signal p = Some 1 /\ p_main p = MJoin 0 /\
    exists v, p_servers p = [v] /\ s_accepter (v_state v) = ALoop /\ s_stopper (v_state v) = SBreak.
Proof.
  exists ([Interrupt; Main; Main; Main] ++ repeat (ServerThread 0 Runner) 4 ++ repeat (ServerThread 0 Accepter) 3 ++
    [ServerThread 0 (WorkerThread 0)]).
  eexists. split; [vm_compute; reflexivity|].
  split; [intros [| | |[|i] [| |[|j]|[|j] []| |]]; vm_compute; reflexivity|]. split; [done|]. split; [done|]. by eexists.
Qed.

(** ** Witness *)

Definition two_servers : list server := [Srv 2 true true example_up; Srv 2 true true example_up].
Definition whole_shutdown : list actor :=
  repeat SignalHandler 12 ++
  concat (map (fun i => map (ServerThread i) [Connection; Accepter; Accepter; Accepter; Accepter; Serving 0 false; WorkerThread 0;
     WorkerThread 1; WorkerThread 1; Runner; Runner; Runner; Runner; Runner]) [1; 0]) ++ repeat Main 4.

Lemma interrupt_shuts_down_witness :
  exists p, process_run whole_shutdown (Process (MJoin 0) two_servers (Some 0) false) = Some p /\
    p_main p = MClear 0 /\ p_undefined p = true.
Proof.
  match goal with |- exists p, ?R = Some p /\ _ => destruct R as [p|] eqn:E; [|vm_compute in E; discriminate E] end.
  exists p. split; [reflexivity|].
  destruct (interrupt_shuts_down two_servers whole_shutdown p) as (_ & _ & Hd).
  - assert (server_up (Srv 2 true true example_up)) by (split; [reflexivity|]; split; [cbn; lia|exact (proj2 example_comes_up)]).
    constructor; [assumption|]. constructor; [assumption|constructor].
  - discriminate.
  - exact E.
  - assert (Hn : forall a, process_step a p = None) by (vm_compute in E; injection E as <-; by intros [| | |i x]).
    destruct (Hd Hn) as (H1 & H2 & _). by split.
Defined.
