(* ===== verification/ModuleCache.v ===== *)
(** * The cache of compiled modules

    [src/plugins/fileserv/ModuleCache.cpp]: loaded libraries by the path of
    their object, of which the least recently used one makes room for a new
    one.  The loader and the clock are arguments; an operation is one
    step here, [ModuleLocks.v] has its locks. *)

From Stdlib Require Import ZArith Lia Ascii String.
From stdpp Require Import base tactics option list strings gmap.
From S2P Require Import Prelude FS.

Record item := Item { i_lastUsed : Z; i_handle : Z; i_function : Z }.

Record cache := Cache { m_maxSize : nat; m_items : gmap path item; m_open : list Z }.

Section cache.
(** [dlopen] and [dlsym] for the function every module exports. *)
Variable dlopen : path -> option Z.
Variable dlsym : Z -> option Z.

(** [dlclose]: the loader counts how often a library has been opened. *)
Definition Item_close (it : item) (open : list Z) : list Z := remove_one (i_handle it) open.

(** [Item::Item]: the handle has been checked by the caller. *)
Definition make_item (now handle : Z) : outcome item :=
  match dlsym handle with
  | Some f => Ret (Item now handle f)
  | None => Throw (RuntimeError (lit "Couldn't find algizModule symbol"))
  end.

(** [std::ranges::min_element]: the first of the smallest ones. *)
Fixpoint min_item (best : path * item) (l : list (path * item)) : path * item :=
  match l with
  | [] => best
  | x :: r => if (i_lastUsed x.2 <? i_lastUsed best.2)%Z then min_item x r else min_item best r
  end.

(** The item that makes room. *)
Definition oldest (c : cache) : option (path * item) :=
  if (size (m_items c) =? 0) || (size (m_items c) <? m_maxSize c) then None
  else match map_to_list (m_items c) with [] => None | x :: r => Some (min_item x r) end.

Definition makeSpace (c : cache) : cache :=
  match oldest c with
  | Some (p, it) => Cache (m_maxSize c) (delete p (m_items c)) (Item_close it (m_open c))
  | None => c
  end.

Definition make_room (c : cache) : cache :=
  if m_maxSize c <=? size (m_items c) then makeSpace c else c.

(** [operator[]] at the time [now]: the function of the module. *)
Definition cache_get (p : path) (now : Z) : M cache Z :=
  c ← get;
  match m_items c !! p with
  | Some it =>
    modify (fun c => Cache (m_maxSize c)
      (<[p := Item now (i_handle it) (i_function it)]> (m_items c)) (m_open c)) ;;
    mret (i_function it)
  | None =>
    modify make_room ;;
    match dlopen p with
    | None => throw (RuntimeError (lit "Couldn't dlopen " ++ path_string p))
    | Some handle =>
      modify (fun c => Cache (m_maxSize c) (m_items c) (handle :: m_open c)) ;;
      it ← lift (make_item now handle);
      modify (fun c => Cache (m_maxSize c) (<[p := it]> (m_items c)) (m_open c)) ;;
      mret (i_function it)
    end
  end.

Definition cache_remove (p : path) (c : cache) : bool * cache :=
  match m_items c !! p with
  | Some it => (true, Cache (m_maxSize c) (delete p (m_items c)) (Item_close it (m_open c)))
  | None => (false, c)
  end.

(** ** Theorems *)

Lemma min_item_spec best l :
  min_item best l ∈ best :: l /\
  forall x, x ∈ best :: l -> (i_lastUsed (min_item best l).2 <= i_lastUsed x.2)%Z.
Proof.
  revert best. induction l as [|y l IH]; intros best; cbn [min_item].
  - split; [by left|]. intros x [->|Hx]%elem_of_cons; [lia|set_solver].
  - destruct (Z.ltb_spec (i_lastUsed y.2) (i_lastUsed best.2)).
    + destruct (IH y) as [H1 H2]. split; [set_solver|].
      intros x [->|Hx]%elem_of_cons; [|by apply H2].
      specialize (H2 y ltac:(by left)). lia.
    + destruct (IH best) as [H1 H2]. split; [set_solver|].
      intros x [->|[->|Hx]%elem_of_cons]%elem_of_cons.
      * apply H2. by left.
      * specialize (H2 best ltac:(by left)). lia.
      * apply H2. by right.
Qed.

(** Making space in a full cache removes one module, one that has not been
    used since any of the others was. *)
Lemma oldest_full c :
  0 < size (m_items c) -> m_maxSize c <= size (m_items c) ->
  exists p it, oldest c = Some (p, it) /\ m_items c !! p = Some it /\
    forall q jt, m_items c !! q = Some jt -> (i_lastUsed it <= i_lastUsed jt)%Z.
Proof.
  intros H0 Hfull. unfold oldest.
  rewrite (proj2 (Nat.eqb_neq _ _)), (proj2 (Nat.ltb_ge _ _)) by lia. cbn [orb].
  destruct (map_to_list (m_items c)) as [|x r] eqn:E.
  - apply map_to_list_empty_iff in E. rewrite E, map_size_empty in H0. lia.
  - destruct (min_item_spec x r) as [Hin Hmin].
    destruct (min_item x r) as [p it]. exists p, it. rewrite <- E in Hin, Hmin.
    split; [done|]. split; [by apply elem_of_map_to_list|].
    intros q jt Hq. apply (Hmin (q, jt)). by apply elem_of_map_to_list.
Qed.

Lemma oldest_item c p it : oldest c = Some (p, it) -> m_items c !! p = Some it.
Proof.
  unfold oldest. destruct (_ || _); [done|]. destruct (map_to_list (m_items c)) as [|x r] eqn:E; [done|].
  intros [= Hm]. apply elem_of_map_to_list. rewrite E, <- Hm. apply min_item_spec.
Qed.

Lemma make_room_spec p c :
  0 < m_maxSize c -> size (m_items c) <= m_maxSize c -> m_items c !! p = None ->
  m_maxSize (make_room c) = m_maxSize c /\
  S (size (m_items (make_room c))) <= m_maxSize c /\ m_items (make_room c) !! p = None /\
  forall q it, m_items c !! q = Some it -> m_items (make_room c) !! q = None ->
    forall r jt, m_items (make_room c) !! r = Some jt -> (i_lastUsed it <= i_lastUsed jt)%Z.
Proof.
  intros Hmax Hsize Ep. unfold make_room.
  destruct (Nat.leb_spec (m_maxSize c) (size (m_items c))) as [Hle|Hlt].
  - destruct (oldest_full c ltac:(lia) Hle) as (q0 & it0 & E & Hq0 & Hmin).
    unfold makeSpace. rewrite E. cbn [m_maxSize m_items].
    split; [done|]. split; [rewrite map_size_delete_Some by eauto; lia|].
    split; [by rewrite lookup_delete_ne by congruence|].
    intros q it Hq Hnone r jt [_ Hr]%lookup_delete_Some. destruct (decide (q = q0)) as [->|Hne].
    + rewrite Hq0 in Hq. injection Hq as <-. eauto.
    + rewrite lookup_delete_ne in Hnone by done. congruence.
  - split; [done|]. split; [lia|]. split; [done|]. intros q it Hq Hnone. congruence.
Qed.

(** A module that is asked for is in the cache afterwards, the cache never
    holds more modules than its limit, and a module that is dropped for it has
    not been used more recently than any module that stays. *)
Theorem cache_get_bounded p now c f c' :
  0 < m_maxSize c -> size (m_items c) <= m_maxSize c ->
  cache_get p now c = (Ret f, c') ->
  (exists it, m_items c' !! p = Some it /\ i_function it = f) /\
  size (m_items c') <= m_maxSize c' /\ m_maxSize c' = m_maxSize c /\
  forall q it, m_items c !! q = Some it -> q <> p -> m_items c' !! q = None ->
    forall r jt, r <> p -> m_items c' !! r = Some jt -> (i_lastUsed it <= i_lastUsed jt)%Z.
Proof.
  intros Hmax Hsize. unfold cache_get. mrun.
  destruct (m_items c !! p) as [it0|] eqn:Ep.
  - intros [= <- <-]. cbn [m_items m_maxSize]. split; [|split; [|split; [done|]]].
    + eexists. split; [apply lookup_insert_eq|done].
    + rewrite map_size_insert_Some by eauto. done.
    + intros q it Hq Hne. rewrite lookup_insert_ne, Hq by done. discriminate.
  - destruct (make_room_spec p c Hmax Hsize Ep) as (Hc1 & Hs1 & Hp1 & Hlru).
    set (c1 := make_room c) in *.
    destruct (dlopen p) as [h|]; [|done]. unfold make_item.
    destruct (dlsym h) as [g|]; [|done]. intros [= <- <-]. cbn [m_items m_maxSize].
    split; [|split; [|split; [done|]]].
    + eexists. split; [apply lookup_insert_eq|done].
    + rewrite map_size_insert_None by done. lia.
    + intros q it Hq Hne Hnone r jt Hr Hrj.
      rewrite lookup_insert_ne in Hnone, Hrj by done. eauto.
Qed.
End cache.

(** A full cache of two modules. *)
Definition example_cache : cache :=
  Cache 2 {[ path_of (lit "/a.so") := Item 5 50 500; path_of (lit "/b.so") := Item 3 30 300 ]}
    [50; 30]%Z.

Lemma cache_get_bounded_witness :
  let c' := (cache_get (fun _ => Some 70%Z) (fun h => Some (10 * h)%Z) (path_of (lit "/c.so")) 9
               example_cache).2 in
  m_items c' !! path_of (lit "/b.so") = None /\ m_items c' !! path_of (lit "/a.so") <> None /\
  size (m_items c') <= 2.
Proof.
  intros c'.
  destruct (cache_get_bounded (fun _ => Some 70%Z) (fun h => Some (10 * h)%Z) (path_of (lit "/c.so")) 9
              example_cache 700 c') as (_ & H & _).
  - vm_compute. lia.
  - vm_compute. lia.
  - vm_compute. reflexivity.
  - split; [vm_compute; reflexivity|]. split; [vm_compute; discriminate|exact H].
Defined.
