(* ===== verification/ModuleLocks.v ===== *)
(** * The cache of compiled modules and its locks

    [src/plugins/fileserv/ModuleCache.cpp], whose operations take the mutex of the
    cache, shared to look and unique to change, and those of the items, which a
    caller holds shared while it runs the module's function.  A thread makes one
    request after another; a schedule says which thread takes the next step, and
    what the clock says then.  [ModuleCache.v] has the operations as one step: the
    specification that the threads are proved to implement. *)

From Stdlib Require Import ZArith Lia Ascii String.
From stdpp Require Import base tactics option list strings gmap.
From S2P Require Import Prelude FS ModuleCache.

(** A call of [operator[]] and then of the function it returns, or of [remove]. *)
Inductive request := Use (p : path) | Remove (p : path).
Definition target (q : request) : path := match q with Use p | Remove p => p end.
Definition is_use (q : request) : Prop := match q with Use _ => True | Remove _ => False end.

(** Where a request stands.  [Finding], [Touching] and [Pairing false] hold the
    mutex of the cache shared, those from [Searching] to [Inserting] and
    [Pairing true] hold it unique; [Unloading v] holds the mutex of the item [v]
    unique, [Running] that of its own item shared. *)
Inductive phase :=
| Starting | Finding | Touching | Missing | Searching
| Closing (v : path) | Unloading (v : path) | Erasing (v : path)
| Opening | Inserting (handle : Z) | Pairing (unique : bool) (f : Z) | Running (f : Z).
Record thread := Thread { t_requests : list request; t_phase : phase }.

Definition owns (ph : phase) : bool :=
  match ph with
  | Searching | Closing _ | Unloading _ | Erasing _ | Opening | Inserting _ | Pairing true _ => true
  | _ => false
  end.
Definition shares (ph : phase) : bool := match ph with Finding | Touching | Pairing false _ => true | _ => false end.
Definition holds (ph : phase) : bool := owns ph || shares ph.

(** Holding the mutex of the item of [p]. *)
Definition reads (p : path) (t : thread) : bool :=
  match t_requests t, t_phase t with q :: _, Running _ => bool_decide (target q = p) | _, _ => false end.
Definition writes (p : path) (t : thread) : bool :=
  match t_phase t with Unloading v => bool_decide (v = p) | _ => false end.

(** [s_log] is a history: the requests that have taken effect, when, and with what
    result ([remove] returns 0 or 1). *)
Record state := State {
  s_cache : cache;
  s_threads : list thread;
  s_log : list (request * Z * outcome Z);
}.

Definition touch (p : path) (now : Z) (it : item) (c : cache) : cache :=
  Cache (m_maxSize c) (<[p := Item now (i_handle it) (i_function it)]> (m_items c)) (m_open c).
Definition unload (it : item) (c : cache) : cache := Cache (m_maxSize c) (m_items c) (Item_close it (m_open c)).
Definition erase (p : path) (c : cache) : cache := Cache (m_maxSize c) (delete p (m_items c)) (m_open c).
Definition opened (h : Z) (c : cache) : cache := Cache (m_maxSize c) (m_items c) (h :: m_open c).
Definition insert_item (p : path) (it : item) (c : cache) : cache :=
  Cache (m_maxSize c) (<[p := it]> (m_items c)) (m_open c).

Section machine.
Variable dlopen : path -> option Z.
Variable dlsym : Z -> option Z.

(** Nobody has the mutex of the cache unique, or at all. *)
Definition unowned (s : state) : bool := forallb (fun t => negb (owns (t_phase t))) (s_threads s).
Definition unheld (s : state) : bool := forallb (fun t => negb (holds (t_phase t))) (s_threads s).

Definition step (i : nat) (now : Z) (s : state) : option state :=
  t ← s_threads s !! i;
  match t_requests t with
  | [] => None
  | q :: rest =>
    let p := target q in
    let c := s_cache s in
    let set ph := <[i := Thread (t_requests t) ph]> (s_threads s) in
    let next := <[i := Thread rest Starting]> (s_threads s) in
    let log r := s_log s ++ [(q, now, r)] in
    match t_phase t with
    | Starting =>
      match q with
      | Use _ => if unowned s then Some (State c (set Finding) (s_log s)) else None
      | Remove _ => if unheld s then Some (State c (set Searching) (s_log s)) else None
      end
    | Finding =>
      match m_items c !! p with
      | Some _ => Some (State c (set Touching) (s_log s))
      | None => Some (State c (set Missing) (s_log s))
      end
    | Touching =>
      match m_items c !! p with
      | Some it => Some (State (touch p now it c) (set (Pairing false (i_function it))) (log (Ret (i_function it))))
      | None => None
      end
    | Missing => if unheld s then Some (State c (set Searching) (s_log s)) else None
    | Searching =>
      match m_items c !! p, q with
      | Some it, Use _ => Some (State (touch p now it c) (set (Pairing true (i_function it))) (log (Ret (i_function it))))
      | Some _, Remove _ => Some (State c (set (Closing p)) (s_log s))
      | None, Use _ =>
        if m_maxSize c <=? size (m_items c) then
          match oldest c with
          | Some (v, _) => Some (State c (set (Closing v)) (s_log s))
          | None => Some (State c (set Opening) (s_log s))
          end
        else Some (State c (set Opening) (s_log s))
      | None, Remove _ => Some (State c next (log (Ret 0%Z)))
      end
    | Closing v =>
      if existsb (reads v) (s_threads s) then None else Some (State c (set (Unloading v)) (s_log s))
    | Unloading v =>
      match m_items c !! v with
      | Some it => Some (State (unload it c) (set (Erasing v)) (s_log s))
      | None => None
      end
    | Erasing v =>
      match q with
      | Use _ => Some (State (erase v c) (set Opening) (s_log s))
      | Remove _ => Some (State (erase v c) next (log (Ret 1%Z)))
      end
    | Opening =>
      match dlopen p with
      | Some h => Some (State (opened h c) (set (Inserting h)) (s_log s))
      | None => Some (State c next (log (Throw (RuntimeError (lit "Couldn't dlopen " ++ path_string p)))))
      end
    | Inserting h =>
      match make_item dlsym now h with
      | Ret it => Some (State (insert_item p it c) (set (Pairing true (i_function it))) (log (Ret (i_function it))))
      | r => Some (State c next (log (_ ← r; Ret 0%Z)))
      end
    | Pairing _ f =>
      if existsb (writes p) (s_threads s) then None else Some (State c (set (Running f)) (s_log s))
    | Running _ => Some (State c next (s_log s))
    end
  end.

Fixpoint run (schedule : list (nat * Z)) (s : state) : option state :=
  match schedule with
  | [] => Some s
  | (i, now) :: rest => s' ← step i now s; run rest s'
  end.

Definition start (c : cache) (programs : list (list request)) : state :=
  State c (map (fun requests => Thread requests Starting) programs) [].

(** ** The specification: the operations of [ModuleCache.v] one after the other *)

Definition perform (q : request) (now : Z) (c : cache) : outcome Z * cache :=
  match q with
  | Use p => cache_get dlopen dlsym p now c
  | Remove p => let '(b, c') := cache_remove p c in (Ret (if b then 1 else 0)%Z, c')
  end.

Fixpoint replay (c : cache) (ops : list (request * Z)) : cache * list (outcome Z) :=
  match ops with
  | [] => (c, [])
  | (q, now) :: rest => let '(r, c1) := perform q now c in let '(c2, rs) := replay c1 rest in (c2, r :: rs)
  end.

(** ** Handles: every module in the cache is loaded *)

Definition handles (m : gmap path item) : list Z := map (fun x => i_handle x.2) (map_to_list m).
Definition loaded (c : cache) : Prop := handles (m_items c) ⊆+ m_open c.

Lemma handles_some m p it : m !! p = Some it -> handles m ≡ₚ i_handle it :: handles (delete p m).
Proof. intros H. unfold handles. by rewrite <- (map_to_list_delete m p it H). Qed.

Lemma handles_insert m p it : handles (<[p := it]> m) ≡ₚ i_handle it :: handles (delete p m).
Proof.
  rewrite (handles_some _ p it) by apply lookup_insert_eq. by rewrite delete_insert_eq.
Qed.

Lemma loaded_item c p it : loaded c -> m_items c !! p = Some it -> i_handle it ∈ m_open c.
Proof.
  unfold loaded. intros Hc H. rewrite (handles_some _ _ _ H) in Hc. eapply elem_of_submseteq, Hc. by left.
Qed.

Lemma loaded_touch p now it c : loaded c -> m_items c !! p = Some it -> loaded (touch p now it c).
Proof.
  unfold loaded. intros Hc H. cbn. rewrite handles_insert. cbn. by rewrite <- (handles_some _ p it).
Qed.

Lemma loaded_unload v it c : loaded c -> m_items c !! v = Some it -> loaded (erase v (unload it c)).
Proof.
  unfold loaded. intros Hc H. cbn. pose proof (loaded_item c v it Hc H) as Hin.
  rewrite (handles_some _ _ _ H), (remove_one_perm _ _ Hin) in Hc. by apply (submseteq_app_inv_l _ _ [i_handle it]).
Qed.

Lemma loaded_insert p it c :
  loaded c -> m_items c !! p = None -> loaded (insert_item p it (opened (i_handle it) c)).
Proof. unfold loaded. intros Hc H. cbn. rewrite handles_insert, delete_id by done. by constructor. Qed.

Lemma loaded_opened h c : loaded c -> loaded (opened h c).
Proof. unfold loaded. intros H. cbn. by constructor. Qed.

(** Making room takes out the oldest item, if it is needed at all. *)
Lemma make_room_victim c v it :
  (m_maxSize c <=? size (m_items c)) = true -> oldest c = Some (v, it) -> make_room c = erase v (unload it c).
Proof. unfold make_room, makeSpace. by intros -> ->. Qed.

Lemma make_room_no_victim c :
  (m_maxSize c <=? size (m_items c)) = false \/ oldest c = None -> make_room c = c.
Proof. unfold make_room, makeSpace. intros [->| ->]; [done|]. by destruct (_ <=? _). Qed.

Lemma make_room_loaded c : loaded c -> loaded (make_room c).
Proof.
  intros Hc. destruct (m_maxSize c <=? size (m_items c)) eqn:E; [|by rewrite make_room_no_victim by auto].
  destruct (oldest c) as [[v it]|] eqn:Eo; [|by rewrite make_room_no_victim by auto].
  rewrite (make_room_victim c v it) by done. apply loaded_unload; [done|by apply oldest_item].
Qed.

Lemma make_room_lookup c p : m_items c !! p = None -> m_items (make_room c) !! p = None.
Proof.
  intros H. unfold make_room, makeSpace. destruct (_ <=? _); [|done]. destruct (oldest c) as [[v it]|]; [|done].
  cbn. rewrite lookup_delete_None. by right.
Qed.

(** The specification, case by case. *)
Lemma perform_found p now c it :
  m_items c !! p = Some it -> perform (Use p) now c = (Ret (i_function it), touch p now it c).
Proof. intros H. cbn. unfold cache_get. mrun. by rewrite H. Qed.

Lemma perform_missing p now c :
  m_items c !! p = None ->
  perform (Use p) now c =
    match dlopen p with
    | None => (Throw (RuntimeError (lit "Couldn't dlopen " ++ path_string p)), make_room c)
    | Some h =>
      match dlsym h with
      | Some f => (Ret f, insert_item p (Item now h f) (opened h (make_room c)))
      | None => (Throw (RuntimeError (lit "Couldn't find algizModule symbol")), opened h (make_room c))
      end
    end.
Proof.
  intros H. cbn. unfold cache_get. mrun. rewrite H. destruct (dlopen p) as [h|]; [|done].
  unfold make_item. by destruct (dlsym h).
Qed.

Lemma perform_remove p now c :
  perform (Remove p) now c =
    match m_items c !! p with
    | Some it => (Ret 1%Z, erase p (unload it c))
    | None => (Ret 0%Z, c)
    end.
Proof. cbn. unfold cache_remove. by destruct (m_items c !! p). Qed.

Lemma perform_loaded q now c : loaded c -> loaded (perform q now c).2.
Proof.
  intros Hc. destruct q as [p|p].
  - destruct (m_items c !! p) as [it|] eqn:E.
    + rewrite (perform_found p now c it E). by apply loaded_touch.
    + rewrite (perform_missing p now c E). pose proof (make_room_loaded c Hc) as Hr.
      destruct (dlopen p) as [h|]; [|done]. destruct (dlsym h) as [f|].
      * apply (loaded_insert p (Item now h f) (make_room c)); [done|by apply make_room_lookup].
      * by apply loaded_opened.
  - rewrite perform_remove. destruct (m_items c !! p) as [it|] eqn:E; [|done]. by apply loaded_unload.
Qed.

Lemma replay_cache_snoc c ops q now :
  replay c (ops ++ [(q, now)]) =
    let x := replay c ops in let y := perform q now x.1 in (y.2, x.2 ++ [y.1]).
Proof.
  revert c. induction ops as [|[q' n'] ops IH]; intros c.
  - cbn -[perform]. by destruct (perform q now c).
  - cbn [app replay]. destruct (perform q' n' c) as [r c1]. rewrite IH. by destruct (replay c1 ops).
Qed.

Lemma replay_loaded c ops : loaded c -> loaded (replay c ops).1.
Proof.
  revert c. induction ops as [|[q now] ops IH]; intros c Hc; [done|]. cbn [replay].
  pose proof (perform_loaded q now c Hc) as H1. destruct (perform q now c) as [r c1].
  specialize (IH c1 H1). by destruct (replay c1 ops).
Qed.

(** ** What every schedule keeps *)

Variable c0 : cache.

Definition replayed (s : state) : cache * list (outcome Z) := replay c0 (map fst (s_log s)).
Definition spec (s : state) : cache := (replayed s).1.

(** The cache while its owner is in the middle of an operation. *)
Definition during (ph : phase) (R : cache) : cache :=
  match ph with
  | Erasing v => match m_items R !! v with Some it => unload it R | None => R end
  | Opening => make_room R
  | Inserting h => opened h (make_room R)
  | _ => R
  end.

Definition chosen (R : cache) (q : request) (v : path) : Prop :=
  match q with
  | Use p => m_items R !! p = None /\ (m_maxSize R <=? size (m_items R)) = true /\ exists it, oldest R = Some (v, it)
  | Remove p => v = p /\ is_Some (m_items R !! p)
  end.

Definition fact (c R : cache) (q : request) (ph : phase) : Prop :=
  match ph with
  | Starting | Searching => True
  | Finding | Missing => is_use q
  | Touching => is_use q /\ is_Some (m_items c !! target q)
  | Closing v | Unloading v | Erasing v => chosen R q v
  | Opening => is_use q /\ m_items R !! target q = None
  | Inserting h => is_use q /\ m_items R !! target q = None /\ dlopen (target q) = Some h
  | Pairing _ f | Running f => is_use q /\ exists it, m_items c !! target q = Some it /\ i_function it = f
  end.

(** Closing the item [v], or having closed it. *)
Definition closes (v : path) (t : thread) : bool :=
  match t_phase t with Unloading x | Erasing x => bool_decide (x = v) | _ => false end.

Record ok (s : state) : Prop := {
  ok_excl i j ti tj : i <> j -> s_threads s !! i = Some ti -> s_threads s !! j = Some tj ->
    owns (t_phase ti) = true -> holds (t_phase tj) = false;
  ok_owner i t : s_threads s !! i = Some t -> owns (t_phase t) = true ->
    s_cache s = during (t_phase t) (spec s);
  ok_unowned : (forall i t, s_threads s !! i = Some t -> owns (t_phase t) = false) -> s_cache s = spec s;
  ok_idle i t : s_threads s !! i = Some t -> t_requests t = [] -> t_phase t = Starting;
  ok_fact i t q rest : s_threads s !! i = Some t -> t_requests t = q :: rest ->
    fact (s_cache s) (spec s) q (t_phase t);
  ok_readers i j ti tj v : s_threads s !! i = Some ti -> s_threads s !! j = Some tj ->
    closes v ti = true -> reads v tj = false;
  ok_results : (replayed s).2 = map snd (s_log s);
  ok_loaded : loaded (spec s);
}.

Lemma holds_owns ph : holds ph = false -> owns ph = false.
Proof. unfold holds. by intros [? _]%orb_false_iff. Qed.

(** What a thread without the mutex, or with a share of it, knows stays true when
    the items it knows of keep their functions. *)
Lemma fact_keep c c' R R' q ph :
  owns ph = false ->
  ((exists f, ph = Running f) \/ shares ph = true -> forall it, m_items c !! target q = Some it ->
     exists it', m_items c' !! target q = Some it' /\ i_function it' = i_function it) ->
  fact c R q ph -> fact c' R' q ph.
Proof.
  intros Ho Hk. destruct ph as [| | | | | | | | | |[]|]; cbn in Ho; try done; cbn [fact].
  - intros [Hu [it Hit]]. destruct (Hk ltac:(by right) it Hit) as (it' & E & _). split; [done|by exists it'].
  - intros [Hu (it & Hit & <-)]. destruct (Hk ltac:(by right) it Hit) as (it' & E & <-). split; [done|by exists it'].
  - intros [Hu (it & Hit & <-)]. destruct (Hk ltac:(by left; eexists) it Hit) as (it' & E & <-).
    split; [done|by exists it'].
Qed.

Section updates.
Context (s : state) (i : nat) (t t' : thread) (c' : cache) (log' : list (request * Z * outcome Z)).
Hypothesis Hok : ok s.
Hypothesis Hi : s_threads s !! i = Some t.
(** The other threads. *)
Definition other (P : thread -> Prop) : Prop := forall j tj, j <> i -> s_threads s !! j = Some tj -> P tj.
Hypothesis Hexcl : other (fun tj => (owns (t_phase t') = true -> holds (t_phase tj) = false) /\
                                    (holds (t_phase t') = true -> owns (t_phase tj) = false)).
Hypothesis Hidle : t_requests t' = [] -> t_phase t' = Starting.
Hypothesis Hread : other (fun tj => forall v, (closes v t' = true -> reads v tj = false) /\
                                              (reads v t' = true -> closes v tj = false)).

Lemma update_lookup j tj :
  <[i := t']> (s_threads s) !! j = Some tj -> (j = i /\ tj = t') \/ (j <> i /\ s_threads s !! j = Some tj).
Proof.
  rewrite list_lookup_insert. case_decide as Hd; [destruct Hd as [-> _]; intros [= <-]; by left|].
  intros Hj. right. split; [|done]. intros ->. apply Hd. split; [done|]. by eapply lookup_lt_Some.
Qed.

Lemma update_self : <[i := t']> (s_threads s) !! i = Some t'.
Proof. apply list_lookup_insert_eq. by eapply lookup_lt_Some. Qed.

Lemma update_other j tj : j <> i -> s_threads s !! j = Some tj -> <[i := t']> (s_threads s) !! j = Some tj.
Proof. intros Hne Hj. by rewrite list_lookup_insert_ne. Qed.

Lemma cache_ok_update :
  let s' := State c' (<[i := t']> (s_threads s)) log' in
  (owns (t_phase t') = true -> c' = during (t_phase t') (spec s')) ->
  (owns (t_phase t') = false -> other (fun tj => owns (t_phase tj) = false) -> c' = spec s') ->
  other (fun tj => owns (t_phase tj) = true -> c' = s_cache s /\ spec s' = spec s) ->
  (forall q rest, t_requests t' = q :: rest -> fact c' (spec s') q (t_phase t')) ->
  other (fun tj => forall q rest, t_requests tj = q :: rest -> owns (t_phase tj) = false ->
     fact (s_cache s) (spec s) q (t_phase tj) -> fact c' (spec s') q (t_phase tj)) ->
  (replayed s').2 = map snd log' -> loaded (spec s') -> ok s'.
Proof.
  intros s' Hown Hun Hstay Hfact Hkeep Hres Hload. split; [..|exact Hres|exact Hload].
  - intros j k tj tk Hjk [[-> ->]|[Hj Htj]]%update_lookup [[-> ->]|[Hk Htk]]%update_lookup Ho; [done|..].
    + by apply (proj1 (Hexcl k tk Hk Htk)).
    + destruct (holds (t_phase t')) eqn:Eh; [|done]. destruct (Hexcl j tj Hj Htj) as [_ H]. rewrite H in Ho by done. done.
    + by apply (ok_excl s Hok j k tj tk).
  - intros j tj [[-> ->]|[Hj Htj]]%update_lookup Ho; [by apply Hown|].
    destruct (Hstay j tj Hj Htj Ho) as [Hc HR]. change (s_cache s') with c'. rewrite Hc, HR. by apply (ok_owner s Hok j).
  - intros Hall. apply Hun; [by apply (Hall i), update_self|]. intros j tj Hj Htj. by apply (Hall j), update_other.
  - intros j tj [[-> ->]|[Hj Htj]]%update_lookup; [done|by apply (ok_idle s Hok j)].
  - intros j tj q rest [[-> ->]|[Hj Htj]]%update_lookup Hq; [by eapply Hfact|].
    pose proof (ok_fact s Hok j tj q rest Htj Hq) as Hf.
    destruct (owns (t_phase tj)) eqn:Eo; [|by eapply Hkeep].
    destruct (Hstay j tj Hj Htj Eo) as [Hc HR]. change (s_cache s') with c'. by rewrite Hc, HR.
  - intros j k tj tk v [[-> ->]|[Hj Htj]]%update_lookup [[-> ->]|[Hk Htk]]%update_lookup Hcl.
    + unfold closes in Hcl. unfold reads. destruct (t_requests t'); [done|]. by destruct (t_phase t').
    + by apply (Hread k tk).
    + destruct (reads v t') eqn:Er; [|done]. destruct (Hread j tj Hj Htj v) as [_ H]. rewrite H in Hcl by done. done.
    + by apply (ok_readers s Hok j k tj tk v).
Qed.
End updates.

Lemma during_unowned ph R : owns ph = false -> during ph R = R.
Proof. by destruct ph as [| | | | | | | | | |[]|]. Qed.

Lemma ok_cache s i t :
  ok s -> s_threads s !! i = Some t -> other s i (fun tj => owns (t_phase tj) = false) ->
  s_cache s = during (t_phase t) (spec s).
Proof.
  intros Hok Hi Ho. destruct (owns (t_phase t)) eqn:E; [by apply (ok_owner s Hok i)|].
  rewrite (during_unowned _ _ E). apply (ok_unowned s Hok). intros j tj Hj.
  destruct (decide (j = i)) as [->|Hne]; [congruence|by apply (Ho j)].
Qed.

Lemma owner_alone s i t :
  ok s -> s_threads s !! i = Some t -> owns (t_phase t) = true -> other s i (fun tj => holds (t_phase tj) = false).
Proof. intros Hok Hi Ho j tj Hj Htj. by apply (ok_excl s Hok i j t tj). Qed.

(** The items a thread's facts are about are still there, with their functions. *)
Definition same_items (c c' : cache) (tj : thread) : Prop := forall p it,
  reads p tj = true \/ shares (t_phase tj) = true -> m_items c !! p = Some it ->
  exists it', m_items c' !! p = Some it' /\ i_function it' = i_function it.

Lemma same_items_keep s c' R' i : other s i (same_items (s_cache s) c') ->
  other s i (fun tj => forall q rest, t_requests tj = q :: rest -> owns (t_phase tj) = false ->
     fact (s_cache s) (spec s) q (t_phase tj) -> fact c' R' q (t_phase tj)).
Proof.
  intros Hs j tj Hj Htj q rest Hq Ho. apply fact_keep; [done|]. intros Hk it Hit. apply (Hs j tj Hj Htj); [|done].
  destruct Hk as [[f Hf]|Hk]; [left|by right]. unfold reads. rewrite Hq, Hf. by apply bool_decide_eq_true.
Qed.

(** A step that changes neither the cache nor the log. *)
Lemma ok_move s i t t' :
  ok s -> s_threads s !! i = Some t ->
  other s i (fun tj => (owns (t_phase t') = true -> holds (t_phase tj) = false) /\
                       (holds (t_phase t') = true -> owns (t_phase tj) = false)) ->
  (t_requests t' = [] -> t_phase t' = Starting) ->
  other s i (fun tj => forall v, (closes v t' = true -> reads v tj = false) /\ (reads v t' = true -> closes v tj = false)) ->
  during (t_phase t) (spec s) = spec s -> during (t_phase t') (spec s) = spec s ->
  (forall q rest, t_requests t' = q :: rest -> fact (s_cache s) (spec s) q (t_phase t')) ->
  ok (State (s_cache s) (<[i := t']> (s_threads s)) (s_log s)).
Proof.
  intros Hok Hi Hexcl Hidle Hread Hd Hd' Hf. apply (cache_ok_update s i t t'); try done.
  - intros Ho. change (spec (State _ _ (s_log s))) with (spec s). rewrite Hd', <- Hd. apply (ok_cache s i); [done|done|].
    intros j tj Hj Htj. by apply holds_owns, (proj1 (Hexcl j tj Hj Htj)).
  - intros _ Ho. change (spec (State _ _ (s_log s))) with (spec s). rewrite <- Hd. by apply (ok_cache s i).
  - by intros j tj _ _ q rest _ _.
  - exact (ok_results s Hok).
  - exact (ok_loaded s Hok).
Qed.

(** A step of the owner in the middle of its operation. *)
Lemma ok_inside s i t t' c' :
  ok s -> s_threads s !! i = Some t -> owns (t_phase t) = true -> owns (t_phase t') = true ->
  t_requests t' <> [] -> other s i (fun tj => forall v, closes v t' = true -> reads v tj = false) ->
  c' = during (t_phase t') (spec s) -> other s i (same_items (s_cache s) c') ->
  (forall q rest, t_requests t' = q :: rest -> fact c' (spec s) q (t_phase t')) ->
  ok (State c' (<[i := t']> (s_threads s)) (s_log s)).
Proof.
  intros Hok Hi Ho Ho' Hne Hread Hc Hs Hf. pose proof (owner_alone s i t Hok Hi Ho) as Ha.
  apply (cache_ok_update s i t t'); try done.
  - intros j tj Hj Htj. pose proof (Ha j tj Hj Htj). split; [done|]. intros _. by apply holds_owns.
  - intros j tj Hj Htj v. split; [by apply (Hread j tj)|]. unfold reads. destruct (t_requests t') as [|q rest]; [done|].
    by destruct (t_phase t').
  - by rewrite Ho'.
  - intros j tj Hj Htj Hoj. pose proof (holds_owns _ (Ha j tj Hj Htj)). congruence.
  - by apply same_items_keep.
  - exact (ok_results s Hok).
  - exact (ok_loaded s Hok).
Qed.

(** A step with which a request takes effect. *)
Lemma ok_effect s i t t' q now r c' :
  ok s -> s_threads s !! i = Some t -> perform q now (spec s) = (r, c') ->
  other s i (fun tj => owns (t_phase tj) = false) ->
  (owns (t_phase t') = true -> owns (t_phase t) = true) ->
  (t_requests t' = [] -> t_phase t' = Starting) -> (forall f, t_phase t' <> Running f) ->
  (forall R, during (t_phase t') R = R) -> (forall v, closes v t' = false) ->
  other s i (same_items (s_cache s) c') ->
  (forall q rest, t_requests t' = q :: rest -> fact c' c' q (t_phase t')) ->
  ok (State c' (<[i := t']> (s_threads s)) (s_log s ++ [(q, now, r)])).
Proof.
  intros Hok Hi Hp Ha Ho Hidle Hnr Hd Hcl Hs Hf. set (s' := State _ _ _).
  assert (Hrep : replayed s' = (c', (replayed s).2 ++ [r])).
  { unfold replayed, s'. cbn [s_log]. rewrite map_app. cbn [map fst]. rewrite replay_cache_snoc. cbv zeta.
    change (perform q now (spec s)) with (perform q now (replay c0 (map fst (s_log s))).1) in Hp. by rewrite Hp. }
  assert (HR : spec s' = c') by (unfold spec; by rewrite Hrep).
  apply (cache_ok_update s i t t'); fold s'; rewrite ?HR; try done.
  - intros j tj Hj Htj. split; [|intros _; by apply (Ha j)]. intros Ho'. by apply (owner_alone s i t Hok Hi (Ho Ho') j).
  - intros j tj Hj Htj v. rewrite Hcl. split; [done|]. unfold reads. destruct (t_requests t'); [done|].
    destruct (t_phase t') as [| | | | | | | | | |b f|f] eqn:Ep; try done. by edestruct Hnr.
  - intros j tj Hj Htj Hoj. pose proof (Ha j tj Hj Htj). cbv beta in *. congruence.
  - by apply same_items_keep.
  - rewrite Hrep. cbn [snd s_log]. by rewrite map_app, (ok_results s Hok).
  - replace c' with (perform q now (spec s)).2 by by rewrite Hp. apply perform_loaded, (ok_loaded s Hok).
Qed.

Lemma unowned_other s i : unowned s = true -> other s i (fun tj => owns (t_phase tj) = false).
Proof.
  unfold unowned. rewrite forallb_forall. intros H j tj _ Hj. apply negb_true_iff, H.
  apply list_elem_of_In, list_elem_of_lookup. by exists j.
Qed.

Lemma unheld_other s i : unheld s = true -> other s i (fun tj => holds (t_phase tj) = false).
Proof.
  unfold unheld. rewrite forallb_forall. intros H j tj _ Hj. apply negb_true_iff, H.
  apply list_elem_of_In, list_elem_of_lookup. by exists j.
Qed.

Lemma existsb_other (P : thread -> bool) s i :
  existsb P (s_threads s) = false -> other s i (fun tj => P tj = false).
Proof.
  intros H j tj _ Hj. destruct (P tj) eqn:E; [|done]. rewrite <- H. symmetry. apply existsb_exists.
  exists tj. split; [|done]. apply list_elem_of_In, list_elem_of_lookup. by exists j.
Qed.

Lemma closes_owns v t : closes v t = true -> owns (t_phase t) = true.
Proof. unfold closes. by destruct (t_phase t). Qed.

Lemma chosen_item R q v : chosen R q v -> is_Some (m_items R !! v).
Proof.
  destruct q as [p|p]; cbn; [|by intros [-> ?]]. intros (_ & _ & it & Ho). apply oldest_item in Ho. by exists it.
Qed.

(** The steps of the thread [i], at the request [q] in the phase [ph]. *)
Section in_thread.
Context (s : state) (i : nat) (q : request) (rest : list request) (ph : phase).
Hypothesis Hok : ok s.
Hypothesis Hi : s_threads s !! i = Some (Thread (q :: rest) ph).
#[local] Abbreviation now_fact := (ok_fact s Hok i _ q rest Hi eq_refl).

Lemma others_unowned : holds ph = true -> other s i (fun tj => owns (t_phase tj) = false).
Proof.
  intros Hh j tj Hj Htj. destruct (owns (t_phase tj)) eqn:E; [|done].
  pose proof (ok_excl s Hok j i tj _ Hj Htj Hi E) as H. cbn in H. congruence.
Qed.

(** A step to a phase that is not [Unloading], [Erasing] or [Running]. *)
Lemma quiet_move ph' :
  (forall v, closes v (Thread (q :: rest) ph') = false) -> (forall f, ph' <> Running f) ->
  (owns ph' = true -> other s i (fun tj => holds (t_phase tj) = false)) ->
  (holds ph' = true -> other s i (fun tj => owns (t_phase tj) = false)) ->
  during ph (spec s) = spec s -> during ph' (spec s) = spec s -> fact (s_cache s) (spec s) q ph' ->
  ok (State (s_cache s) (<[i := Thread (q :: rest) ph']> (s_threads s)) (s_log s)).
Proof.
  intros Hcl Hr Ho Hh Hd Hd' Hf. apply (ok_move s i (Thread (q :: rest) ph)); try done.
  - intros j tj Hj Htj. cbn [t_phase]. split; intros H; [by apply (Ho H j)|by apply (Hh H j)].
  - intros j tj Hj Htj v. rewrite Hcl. split; [done|]. unfold reads. cbn. by destruct ph'; try done; edestruct Hr.
  - by intros q' rest' [= <- <-].
Qed.

(** A request that is over without an effect of its own. *)
Lemma next_move : during ph (spec s) = spec s ->
  ok (State (s_cache s) (<[i := Thread rest Starting]> (s_threads s)) (s_log s)).
Proof.
  intros Hd. apply (ok_move s i (Thread (q :: rest) ph)); try done.
  intros j tj Hj Htj v. split; [done|]. unfold reads. by destruct rest.
Qed.

Lemma start_use p : q = Use p -> ph = Starting -> unowned s = true ->
  ok (State (s_cache s) (<[i := Thread (q :: rest) Finding]> (s_threads s)) (s_log s)).
Proof.
  intros Hq Hph Hu. apply quiet_move; try done; [|by rewrite Hph|by rewrite Hq]. intros _. by apply unowned_other.
Qed.

Lemma take_unique : ph = Starting \/ ph = Missing -> unheld s = true ->
  ok (State (s_cache s) (<[i := Thread (q :: rest) Searching]> (s_threads s)) (s_log s)).
Proof.
  intros Hph Hu. pose proof (unheld_other s i Hu) as Ho.
  apply quiet_move; try done; try (by destruct Hph as [->| ->]).
  intros _ j tj Hj Htj. by apply holds_owns, (Ho j).
Qed.

Lemma found ph' : ph = Finding ->
  ph' = match m_items (s_cache s) !! target q with Some _ => Touching | None => Missing end ->
  ok (State (s_cache s) (<[i := Thread (q :: rest) ph']> (s_threads s)) (s_log s)).
Proof.
  intros Hph ->. pose proof now_fact as Hf. cbn in Hf. rewrite Hph in Hf.
  pose proof (others_unowned ltac:(by rewrite Hph)) as Ho.
  destruct (m_items (s_cache s) !! target q) as [it|] eqn:E; apply quiet_move; try done; try (by rewrite Hph).
Qed.

Lemma touch_same p now it tj : m_items (s_cache s) !! p = Some it -> same_items (s_cache s) (touch p now it (s_cache s)) tj.
Proof.
  intros E x jt _ Hx. cbn. destruct (decide (x = p)) as [->|Hne].
  - rewrite lookup_insert_eq. eexists. split; [done|]. cbn. congruence.
  - rewrite lookup_insert_ne by done. by exists jt.
Qed.

(** Finding the module, under either lock, takes effect at once. *)
Lemma touched p now it (b : bool) : q = Use p -> ph = (if b then Searching else Touching) ->
  m_items (s_cache s) !! p = Some it ->
  ok (State (touch p now it (s_cache s)) (<[i := Thread (q :: rest) (Pairing b (i_function it))]> (s_threads s))
        (s_log s ++ [(q, now, Ret (i_function it))])).
Proof.
  intros Hq Hph E. assert (Hh : holds ph = true) by (rewrite Hph; by destruct b).
  pose proof (others_unowned Hh) as Ho. pose proof (ok_cache s i _ Hok Hi Ho) as Hc. cbn in Hc.
  assert (HR : s_cache s = spec s) by (rewrite Hc, Hph; by destruct b).
  apply (ok_effect s i (Thread (q :: rest) ph)); try done.
  - rewrite Hq, <- HR. by apply perform_found.
  - cbn. rewrite Hph. by destruct b.
  - intros j tj _ _. by apply touch_same.
  - intros q' r' [= <- <-]. rewrite Hq. split; [done|]. cbn. rewrite lookup_insert_eq. by eexists.
Qed.

(** The steps of the owner. *)
Hypothesis Howns : owns ph = true.

Lemma owned_cache : s_cache s = during ph (spec s).
Proof. exact (ok_owner s Hok i _ Hi Howns). Qed.

Lemma alone : other s i (fun tj => holds (t_phase tj) = false).
Proof. exact (owner_alone s i _ Hok Hi Howns). Qed.

Lemma alone_unowned : other s i (fun tj => owns (t_phase tj) = false).
Proof. intros j tj Hj Htj. by apply holds_owns, (alone j). Qed.

(** The others know only of the items they read. *)
Lemma alone_same c' :
  (forall p it, m_items (s_cache s) !! p = Some it ->
     (other s i (fun tj => reads p tj = false)) \/ m_items c' !! p = Some it) ->
  other s i (same_items (s_cache s) c').
Proof.
  intros H j tj Hj Htj p it [Hr|Hs] Hit.
  - destruct (H p it Hit) as [Hn|E]; [|by exists it]. pose proof (Hn j tj Hj Htj). cbv beta in *. congruence.
  - pose proof (alone j tj Hj Htj) as Ha. unfold holds in Ha. apply orb_false_iff in Ha as [_ Ha]. congruence.
Qed.

Lemma choose ph' : ph = Searching -> m_items (s_cache s) !! target q = None -> is_use q ->
  ph' = (if (m_maxSize (s_cache s) <=? size (m_items (s_cache s))) then
           match oldest (s_cache s) with Some (v, _) => Closing v | None => Opening end
         else Opening) ->
  ok (State (s_cache s) (<[i := Thread (q :: rest) ph']> (s_threads s)) (s_log s)).
Proof.
  intros Hph E Hu ->. pose proof owned_cache as Hc. rewrite Hph in Hc. cbn in Hc.
  pose proof alone as Ha. pose proof alone_unowned as Hb.
  assert (Hopen : (m_maxSize (s_cache s) <=? size (m_items (s_cache s))) = false \/ oldest (s_cache s) = None ->
    ok (State (s_cache s) (<[i := Thread (q :: rest) Opening]> (s_threads s)) (s_log s))).
  { intros Hn. apply quiet_move; try done; [by rewrite Hph| |].
    - cbn. rewrite <- Hc. by apply make_room_no_victim.
    - split; [done|]. by rewrite <- Hc. }
  destruct (m_maxSize (s_cache s) <=? size (m_items (s_cache s))) eqn:Es; [|apply Hopen; by left].
  destruct (oldest (s_cache s)) as [[v it]|] eqn:Eo; [|apply Hopen; by right].
  apply quiet_move; try done; [by rewrite Hph|]. cbn [fact]. rewrite <- Hc. destruct q as [p|p]; [|done].
  split; [done|]. split; [done|]. by exists it.
Qed.

Lemma choose_removed p : ph = Searching -> q = Remove p -> is_Some (m_items (s_cache s) !! p) ->
  ok (State (s_cache s) (<[i := Thread (q :: rest) (Closing p)]> (s_threads s)) (s_log s)).
Proof.
  intros Hph Hq E. pose proof owned_cache as Hc. rewrite Hph in Hc. cbn in Hc.
  apply quiet_move; try done; [intros _; exact alone|intros _; exact alone_unowned|by rewrite Hph|].
  rewrite Hq. cbn. by rewrite <- Hc.
Qed.

Lemma lock_item v : ph = Closing v -> existsb (reads v) (s_threads s) = false ->
  ok (State (s_cache s) (<[i := Thread (q :: rest) (Unloading v)]> (s_threads s)) (s_log s)).
Proof.
  intros Hph Hr. apply (ok_move s i (Thread (q :: rest) ph)); try done.
  - intros j tj Hj Htj. pose proof (alone j tj Hj Htj). split; [done|]. intros _. by apply holds_owns.
  - intros j tj Hj Htj v'. split; [|done]. intros Hv. apply bool_decide_eq_true in Hv as <-.
    by apply (existsb_other _ s i Hr j).
  - cbn. by rewrite Hph.
  - intros q' r' [= <- <-]. pose proof now_fact as Hf. cbn in Hf. by rewrite Hph in Hf.
Qed.

Lemma unload_item v it : ph = Unloading v -> m_items (s_cache s) !! v = Some it ->
  ok (State (unload it (s_cache s)) (<[i := Thread (q :: rest) (Erasing v)]> (s_threads s)) (s_log s)).
Proof.
  intros Hph E. pose proof owned_cache as Hc. rewrite Hph in Hc. cbn in Hc.
  apply (ok_inside s i (Thread (q :: rest) ph)); try done.
  - intros j tj Hj Htj v' Hv. apply (ok_readers s Hok i j _ tj v' Hi Htj). unfold closes in *. cbn in *. by rewrite Hph.
  - cbn. rewrite <- Hc. by rewrite E.
  - apply alone_same. intros p jt Hp. by right.
  - intros q' r' [= <- <-]. pose proof now_fact as Hf. cbn in Hf. by rewrite Hph in Hf.
Qed.

(** The item has been closed: nobody runs it, and it is erased. *)
Lemma erased v : ph = Erasing v -> exists it, m_items (spec s) !! v = Some it /\
  erase v (s_cache s) = erase v (unload it (spec s)) /\ other s i (same_items (s_cache s) (erase v (s_cache s))).
Proof.
  intros Hph. pose proof now_fact as Hf. cbn in Hf. rewrite Hph in Hf. cbn in Hf.
  destruct (chosen_item _ _ v Hf) as [it E]. pose proof owned_cache as Hc. rewrite Hph in Hc. cbn in Hc. rewrite E in Hc.
  exists it. split; [done|]. split; [by rewrite Hc|]. apply alone_same. intros p jt Hp.
  destruct (decide (p = v)) as [->|Hne]; [left|right; cbn; by rewrite lookup_delete_ne].
  intros j tj Hj Htj. apply (ok_readers s Hok i j _ tj v Hi Htj). unfold closes. cbn. rewrite Hph.
  by apply bool_decide_eq_true.
Qed.

Lemma erase_for_use v p : ph = Erasing v -> q = Use p ->
  ok (State (erase v (s_cache s)) (<[i := Thread (q :: rest) Opening]> (s_threads s)) (s_log s)).
Proof.
  intros Hph Hq. destruct (erased v Hph) as (it & E & Hc & Hs).
  pose proof now_fact as Hf. cbn in Hf. rewrite Hph in Hf. cbn in Hf. rewrite Hq in Hf.
  destruct Hf as (Hn & Hfull & it' & Ho). pose proof (oldest_item _ _ _ Ho) as E'. assert (it' = it) as -> by congruence.
  apply (ok_inside s i (Thread (q :: rest) ph)); try done.
  - cbn. rewrite Hc. symmetry. by apply make_room_victim.
  - intros q' r' [= <- <-]. rewrite Hq. by split.
Qed.

Lemma erase_for_remove v p now : ph = Erasing v -> q = Remove p ->
  ok (State (erase v (s_cache s)) (<[i := Thread rest Starting]> (s_threads s)) (s_log s ++ [(q, now, Ret 1%Z)])).
Proof.
  intros Hph Hq. destruct (erased v Hph) as (it & E & Hc & Hs).
  pose proof now_fact as Hf. cbn in Hf. rewrite Hph in Hf. cbn in Hf. rewrite Hq in Hf. destruct Hf as [-> _].
  apply (ok_effect s i (Thread (q :: rest) ph)); try done.
  - rewrite Hq, perform_remove, E, Hc. done.
  - exact alone_unowned.
Qed.

Lemma absent p now : ph = Searching -> q = Remove p -> m_items (s_cache s) !! p = None ->
  ok (State (s_cache s) (<[i := Thread rest Starting]> (s_threads s)) (s_log s ++ [(q, now, Ret 0%Z)])).
Proof.
  intros Hph Hq E. pose proof owned_cache as Hc. rewrite Hph in Hc. cbn in Hc.
  apply (ok_effect s i (Thread (q :: rest) ph)); try done.
  - rewrite Hq, perform_remove, <- Hc, E. done.
  - exact alone_unowned.
  - apply alone_same. intros p' jt Hp. by right.
Qed.

Lemma opening_fact : ph = Opening -> exists p, q = Use p /\ m_items (spec s) !! p = None /\ s_cache s = make_room (spec s).
Proof.
  intros Hph. pose proof now_fact as Hf. cbn in Hf. rewrite Hph in Hf. destruct Hf as [Hu Hn].
  pose proof owned_cache as Hc. rewrite Hph in Hc. destruct q as [p|p]; [|done]. by exists p.
Qed.

Lemma open_library h : ph = Opening -> dlopen (target q) = Some h ->
  ok (State (opened h (s_cache s)) (<[i := Thread (q :: rest) (Inserting h)]> (s_threads s)) (s_log s)).
Proof.
  intros Hph E. destruct (opening_fact Hph) as (p & Hq & Hn & Hc).
  apply (ok_inside s i (Thread (q :: rest) ph)); try done.
  - cbn. by rewrite Hc.
  - apply alone_same. intros p' jt Hp. by right.
  - intros q' r' [= <- <-]. rewrite Hq in *. by split.
Qed.

Lemma open_fails now : ph = Opening -> dlopen (target q) = None ->
  ok (State (s_cache s) (<[i := Thread rest Starting]> (s_threads s))
        (s_log s ++ [(q, now, Throw (RuntimeError (lit "Couldn't dlopen " ++ path_string (target q))))])).
Proof.
  intros Hph E. destruct (opening_fact Hph) as (p & Hq & Hn & Hc).
  apply (ok_effect s i (Thread (q :: rest) ph)); try done.
  - rewrite Hq in *. cbn in E. rewrite perform_missing, E by done. by rewrite Hc.
  - exact alone_unowned.
  - apply alone_same. intros p' jt Hp. by right.
Qed.

Lemma inserting_fact h : ph = Inserting h -> exists p, q = Use p /\ m_items (spec s) !! p = None /\
  dlopen p = Some h /\ s_cache s = opened h (make_room (spec s)).
Proof.
  intros Hph. pose proof now_fact as Hf. cbn in Hf. rewrite Hph in Hf. destruct Hf as (Hu & Hn & Hd).
  pose proof owned_cache as Hc. rewrite Hph in Hc. destruct q as [p|p]; [|done]. by exists p.
Qed.

Lemma insert_module h f now : ph = Inserting h -> dlsym h = Some f ->
  ok (State (insert_item (target q) (Item now h f) (s_cache s))
        (<[i := Thread (q :: rest) (Pairing true f)]> (s_threads s)) (s_log s ++ [(q, now, Ret f)])).
Proof.
  intros Hph E. destruct (inserting_fact h Hph) as (p & Hq & Hn & Hd & Hc).
  apply (ok_effect s i (Thread (q :: rest) ph)); try done.
  - rewrite Hq, perform_missing, Hd, E by done. by rewrite Hc.
  - exact alone_unowned.
  - apply alone_same. intros p' jt Hp. right. rewrite Hq. cbn. rewrite lookup_insert_ne; [done|]. intros <-.
    rewrite Hc in Hp. cbn in Hp. by rewrite make_room_lookup in Hp.
  - intros q' r' [= <- <-]. rewrite Hq. split; [done|]. cbn. rewrite lookup_insert_eq. by eexists.
Qed.

Lemma insert_fails h now : ph = Inserting h -> dlsym h = None ->
  ok (State (s_cache s) (<[i := Thread rest Starting]> (s_threads s))
        (s_log s ++ [(q, now, Throw (RuntimeError (lit "Couldn't find algizModule symbol")))])).
Proof.
  intros Hph E. destruct (inserting_fact h Hph) as (p & Hq & Hn & Hd & Hc).
  apply (ok_effect s i (Thread (q :: rest) ph)); try done.
  - rewrite Hq, perform_missing, Hd, E by done. by rewrite Hc.
  - exact alone_unowned.
  - apply alone_same. intros p' jt Hp. by right.
Qed.
End in_thread.

(** The function runs; the mutex of the cache has been released. *)
Lemma run_module s i q rest b f :
  ok s -> s_threads s !! i = Some (Thread (q :: rest) (Pairing b f)) ->
  ok (State (s_cache s) (<[i := Thread (q :: rest) (Running f)]> (s_threads s)) (s_log s)).
Proof.
  intros Hok Hi. pose proof (others_unowned s i q rest _ Hok Hi ltac:(by destruct b)) as Ho.
  apply (ok_move s i (Thread (q :: rest) (Pairing b f))); try done.
  - intros j tj Hj Htj v. split; [done|]. intros _. destruct (closes v tj) eqn:E; [|done].
    apply closes_owns in E. pose proof (Ho j tj Hj Htj). cbv beta in *. congruence.
  - intros q' r' [= <- <-]. exact (ok_fact s Hok i _ q rest Hi eq_refl).
Qed.

Lemma cache_ok_step i now s s' : ok s -> step i now s = Some s' -> ok s'.
Proof.
  intros Hok. unfold step. destruct (s_threads s !! i) as [[requests ph]|] eqn:Hi; [|done]. cbn.
  destruct requests as [|q rest]; [done|]. destruct ph as [| | | | |v|v|v| |h|b f|f].
  - destruct q as [p|p].
    + destruct (unowned s) eqn:E; [|done]. intros [= <-]. by eapply start_use.
    + destruct (unheld s) eqn:E; [|done]. intros [= <-]. apply (take_unique s i _ rest Starting Hok Hi); auto.
  - destruct (m_items (s_cache s) !! target q) as [it|] eqn:E; intros [= <-];
      (eapply found; [done|done|done|by rewrite E]).
  - destruct (m_items (s_cache s) !! target q) as [it|] eqn:E; [|done]. intros [= <-].
    pose proof (ok_fact s Hok i _ q rest Hi eq_refl) as [Hu _]. destruct q as [p|p]; [|done].
    by apply (touched s i (Use p) rest Touching Hok Hi p now it false).
  - destruct (unheld s) eqn:E; [|done]. intros [= <-]. apply (take_unique s i q rest Missing Hok Hi); auto.
  - destruct (m_items (s_cache s) !! target q) as [it|] eqn:E.
    + destruct q as [p|p]; intros [= <-].
      * by apply (touched s i (Use p) rest Searching Hok Hi p now it true).
      * apply (choose_removed s i _ rest Searching Hok Hi eq_refl p); [done|done|by exists it].
    + destruct q as [p|p]; intros Hs.
      * assert (s' = State (s_cache s) (<[i := Thread (Use p :: rest)
           (if m_maxSize (s_cache s) <=? size (m_items (s_cache s)) then
              match oldest (s_cache s) with Some (v, _) => Closing v | None => Opening end
            else Opening)]> (s_threads s)) (s_log s)) as ->
          by (destruct (_ <=? _); [destruct (oldest (s_cache s)) as [[v it]|]|]; by injection Hs as <-).
        by eapply (choose s i (Use p) rest Searching Hok Hi eq_refl).
      * injection Hs as <-. by apply (absent s i (Remove p) rest Searching Hok Hi eq_refl p).
  - destruct (existsb (reads v) (s_threads s)) eqn:E; [done|]. intros [= <-].
    by apply (lock_item s i q rest (Closing v) Hok Hi eq_refl v).
  - destruct (m_items (s_cache s) !! v) as [it|] eqn:E; [|done]. intros [= <-].
    by apply (unload_item s i q rest (Unloading v) Hok Hi eq_refl v it).
  - destruct q as [p|p]; intros [= <-].
    + by apply (erase_for_use s i (Use p) rest (Erasing v) Hok Hi eq_refl v p).
    + by apply (erase_for_remove s i (Remove p) rest (Erasing v) Hok Hi eq_refl v p).
  - destruct (dlopen (target q)) as [h|] eqn:E; intros [= <-].
    + by apply (open_library s i q rest Opening Hok Hi eq_refl h).
    + by apply (open_fails s i q rest Opening Hok Hi eq_refl now).
  - unfold make_item. destruct (dlsym h) as [f|] eqn:E; intros [= <-].
    + by apply (insert_module s i q rest (Inserting h) Hok Hi eq_refl h f).
    + by apply (insert_fails s i q rest (Inserting h) Hok Hi eq_refl h).
  - destruct (existsb (writes (target q)) (s_threads s)) eqn:E; [done|]. intros [= <-]. by eapply run_module.
  - intros [= <-]. by apply (next_move s i q rest (Running f) Hok Hi).
Qed.

Lemma cache_ok_run schedule s s' : ok s -> run schedule s = Some s' -> ok s'.
Proof.
  revert s. induction schedule as [|[i now] rest IH]; intros s Hok; cbn; [by intros [= <-]|].
  destruct (step i now s) as [s1|] eqn:E; [|done]. cbn. apply IH. by eapply cache_ok_step.
Qed.

Lemma ok_start programs : loaded c0 -> ok (start c0 programs).
Proof.
  intros Hl. assert (Ht : forall i t, s_threads (start c0 programs) !! i = Some t -> t_phase t = Starting).
  { intros i t. cbn. rewrite list_lookup_fmap. destruct (programs !! i); [|done]. by intros [= <-]. }
  split; [..|done|done].
  - intros i j ti tj _ Hi%Ht _. by rewrite Hi.
  - intros i t Hi%Ht. by rewrite Hi.
  - done.
  - by intros i t Hi%Ht _.
  - intros i t q rest Hi%Ht _. by rewrite Hi.
  - intros i j ti tj v Hi%Ht _. unfold closes. by rewrite Hi.
Qed.

(** ** Somebody can always go on *)

(** A phase that waits for nobody. *)
Definition waits (ph : phase) : bool :=
  match ph with Starting | Missing | Closing _ | Pairing _ _ => true | _ => false end.

Lemma no_wait_steps s i t now :
  ok s -> s_threads s !! i = Some t -> t_requests t <> [] -> waits (t_phase t) = false ->
  is_Some (step i now s).
Proof.
  intros Hok Hi Hne Hw. unfold step. rewrite Hi. cbn. destruct t as [[|q rest] ph]; [done|]. cbn in *.
  pose proof (ok_fact s Hok i _ q rest Hi eq_refl) as Hf. cbn in Hf.
  destruct ph as [| | | | |v|v|v| |h|b f|f]; try done.
  - destruct (m_items (s_cache s) !! target q); by eexists.
  - destruct Hf as [_ [it Hf]]. rewrite Hf. by eexists.
  - destruct (m_items (s_cache s) !! target q); destruct q; try by eexists.
    destruct (_ <=? _); [|by eexists]. destruct (oldest (s_cache s)) as [[]|]; by eexists.
  - pose proof (ok_owner s Hok i _ Hi eq_refl) as Hc. cbn in Hc. destruct (chosen_item _ _ v Hf) as [it E].
    rewrite Hc, E. by eexists.
  - destruct q; by eexists.
  - destruct (dlopen (target q)); by eexists.
  - unfold make_item. destruct (dlsym h); by eexists.
Qed.

Lemma existsb_thread (P : thread -> bool) s :
  existsb P (s_threads s) = true -> exists j tj, s_threads s !! j = Some tj /\ P tj = true.
Proof.
  intros H. apply existsb_exists in H as (t & Hin & HP). apply list_elem_of_In, list_elem_of_lookup in Hin as [j Hj].
  by exists j, t.
Qed.

Lemma reads_requests v t : reads v t = true -> t_requests t <> [] /\ waits (t_phase t) = false.
Proof. unfold reads. destruct (t_requests t); [done|]. by destruct (t_phase t). Qed.

(** Whoever holds the mutex of the cache goes on, or waits for a function that
    runs. *)
Lemma holder_steps s i t now :
  ok s -> s_threads s !! i = Some t -> holds (t_phase t) = true -> exists j, is_Some (step j now s).
Proof.
  intros Hok Hi Hh. assert (Hne : t_requests t <> []).
  { intros E. by rewrite (ok_idle s Hok i t Hi E) in Hh. }
  destruct (waits (t_phase t)) eqn:Ew; [|exists i; by eapply no_wait_steps].
  destruct t as [[|q rest] ph]; [done|]. cbn in Hne, Ew, Hh. destruct ph as [| | | | |v|v|v| |h|b f|f]; try done.
  - destruct (existsb (reads v) (s_threads s)) eqn:E.
    + destruct (existsb_thread _ _ E) as (j & tj & Hj & Hr). destruct (reads_requests v tj Hr).
      exists j. by eapply no_wait_steps.
    + exists i. unfold step. rewrite Hi. cbn. rewrite E. by eexists.
  - exists i. unfold step. rewrite Hi. cbn. destruct (existsb (writes (target q)) (s_threads s)) eqn:E; [|by eexists].
    destruct (existsb_thread _ _ E) as (j & tj & Hj & Hw). unfold writes in Hw.
    assert (Hj' : owns (t_phase tj) = true) by by destruct (t_phase tj).
    destruct (decide (j = i)) as [->|Hji]; [rewrite Hi in Hj; by injection Hj as <-|].
    pose proof (ok_excl s Hok j i tj _ Hji Hj Hi Hj') as H. cbn in H. congruence.
Qed.

Lemma cache_progress s i t now :
  ok s -> s_threads s !! i = Some t -> t_requests t <> [] -> exists j, is_Some (step j now s).
Proof.
  intros Hok Hi Hne. destruct (waits (t_phase t)) eqn:Ew; [|exists i; by eapply no_wait_steps].
  destruct (unheld s) eqn:Eu.
  - assert (Hun : unowned s = true).
    { unfold unowned, unheld in *. rewrite forallb_forall in *. intros x Hx. specialize (Eu x Hx).
      apply negb_true_iff in Eu. apply negb_true_iff. by apply holds_owns. }
    destruct (holds (t_phase t)) eqn:Eh; [by eapply holder_steps|].
    exists i. unfold step. rewrite Hi. cbn. destruct t as [[|q rest] ph]; [done|]. cbn in *.
    destruct ph as [| | | | |v|v|v| |h|[]f|f]; try done; [|rewrite Eu; by eexists].
    destruct q; [rewrite Hun|rewrite Eu]; by eexists.
  - unfold unheld in Eu. assert (Hx : existsb (fun t => holds (t_phase t)) (s_threads s) = true).
    { destruct (existsb _ _) eqn:E; [done|]. rewrite <- Eu. apply forallb_forall. intros x Hx.
      apply negb_true_iff. destruct (holds (t_phase x)) eqn:E'; [|done]. rewrite <- E. symmetry. apply existsb_exists. by exists x. }
    destruct (existsb_thread _ _ Hx) as (j & tj & Hj & Hh). by eapply holder_steps.
Qed.

(** ** Every schedule comes to an end *)

Definition rank (ph : phase) : nat :=
  match ph with
  | Starting => 11 | Finding => 10 | Touching => 9 | Missing => 8 | Searching => 7
  | Closing _ => 6 | Unloading _ => 5 | Erasing _ => 4 | Opening => 3 | Inserting _ => 2
  | Pairing _ _ => 1 | Running _ => 0
  end.
Definition weight (t : thread) : nat :=
  match t_requests t with [] => 0 | _ :: rest => 12 * length rest + S (rank (t_phase t)) end.
Definition work (s : state) : nat := sum_list_with weight (s_threads s).

Lemma weight_next rest : weight (Thread rest Starting) = 12 * length rest.
Proof. destruct rest; cbn; lia. Qed.

(** A step replaces its thread by one that has less to do. *)
Lemma step_replaces i now s s' :
  step i now s = Some s' -> exists t t', s_threads s !! i = Some t /\
    s_threads s' = <[i := t']> (s_threads s) /\ weight t' < weight t.
Proof.
  unfold step. destruct (s_threads s !! i) as [[requests ph]|] eqn:Hi; [|done]. cbn [mbind option_bind t_requests t_phase].
  destruct requests as [|q rest]; [done|]. intros H.
  enough (exists t', s_threads s' = <[i := t']> (s_threads s) /\ weight t' < 12 * length rest + S (rank ph))
    as (t' & ? & ?) by by exists (Thread (q :: rest) ph), t'.
  destruct ph as [| | | | |v|v|v| |h|b f|f];
    repeat first [progress case_match | progress (unfold make_item in H)];
    try discriminate H; injection H as <-; eexists; (split; [reflexivity|]); rewrite ?weight_next; cbn; lia.
Qed.

Lemma cache_run_work schedule s s' : run schedule s = Some s' -> length schedule + work s' <= work s.
Proof.
  revert s. induction schedule as [|[i now] rest IH]; intros s; cbn; [intros [= <-]; lia|].
  destruct (step i now s) as [s1|] eqn:E; [|done]. cbn. intros Hr.
  destruct (step_replaces i now s s1 E) as (t & t' & Hi & Ht & Hw). apply IH in Hr.
  pose proof (sum_list_with_insert weight _ i t t' Hi) as Hsum. unfold work in *. rewrite Ht in Hr. lia.
Qed.

(** ** Theorems *)

Lemma unowned_spec s :
  unowned s = false -> exists j tj, s_threads s !! j = Some tj /\ owns (t_phase tj) = true.
Proof.
  intros H. apply existsb_thread. destruct (existsb _ _) eqn:E; [done|]. rewrite <- H.
  apply forallb_forall. intros x Hx. apply negb_true_iff. destruct (owns (t_phase x)) eqn:Ex; [|done].
  rewrite <- E. symmetry. apply existsb_exists. by exists x.
Qed.

(** The library of an item is open, unless the item is about to be erased. *)
Lemma item_open s p it :
  ok s -> (forall j tj, s_threads s !! j = Some tj -> closes p tj = false) ->
  m_items (s_cache s) !! p = Some it -> i_handle it ∈ m_open (s_cache s).
Proof.
  intros Hok Hcl Hit. pose proof (ok_loaded s Hok) as Hl. destruct (unowned s) eqn:Eu.
  - rewrite (ok_unowned s Hok) in *; [by apply (loaded_item _ p)| |].
    all: intros j tj Hj; by apply (unowned_other s (S j) Eu j tj (n_Sn j)).
  - destruct (unowned_spec s Eu) as (j & tj & Hj & Ho). pose proof (ok_owner s Hok j tj Hj Ho) as Hc.
    destruct tj as [[|q rest] ph]; cbn in Ho, Hc; [pose proof (ok_idle s Hok j _ Hj eq_refl) as Hs; cbn in Hs; by subst ph|].
    pose proof (ok_fact s Hok j _ q rest Hj eq_refl) as Hf. pose proof (Hcl j _ Hj) as Hcj. rewrite Hc in *.
    destruct ph as [| | | | |v|v|v| |h|b f|f]; cbn in Hit, Hf; try done; try (by apply (loaded_item _ p)).
    + cbn [during]. destruct (chosen_item _ _ v Hf) as [jt E]. rewrite E in *.
      apply (loaded_item (erase v (unload jt (spec s))) p); [by apply loaded_unload|]. cbn.
      rewrite lookup_delete_ne; [done|]. intros ->. unfold closes in Hcj. cbn in Hcj. by rewrite bool_decide_true in Hcj.
    + apply (loaded_item _ p); [by apply make_room_loaded|done].
    + apply (loaded_item _ p); [by apply loaded_opened, make_room_loaded|done].
Qed.

(** C16: a module is not unloaded while it runs: under every schedule of threads
    that use and remove modules, a function that is being run is the one the cache
    holds for the path that was asked for, and its library is open. *)
Theorem modules_stay_loaded programs schedule s i p rest f :
  loaded c0 -> run schedule (start c0 programs) = Some s ->
  s_threads s !! i = Some (Thread (Use p :: rest) (Running f)) ->
  exists it, m_items (s_cache s) !! p = Some it /\ i_function it = f /\ i_handle it ∈ m_open (s_cache s).
Proof.
  intros Hl Hr Hi. pose proof (cache_ok_run _ _ _ (ok_start programs Hl) Hr) as Hok.
  destruct (ok_fact s Hok i _ _ _ Hi eq_refl) as [_ (it & Hit & Hf)]. cbn [target] in Hit.
  exists it. split; [done|]. split; [done|]. apply (item_open s p it Hok); [|done].
  intros j tj Hj. destruct (closes p tj) eqn:E; [|done].
  pose proof (ok_readers s Hok j i tj _ p Hj Hi E) as Hn. cbn in Hn. by rewrite bool_decide_true in Hn.
Qed.

(** C17: the operations of the cache are atomic: under every schedule the results
    are those of the operations of [ModuleCache.v] carried out one after the other
    in some order, whenever nobody is in the middle of one the cache is the one
    that they leave, some thread can always go on until all have done, and every
    schedule comes to an end. *)
Theorem cache_operations_atomic programs schedule s now :
  loaded c0 -> run schedule (start c0 programs) = Some s ->
  map snd (s_log s) = (replay c0 (map fst (s_log s))).2 /\
  (unowned s = true -> s_cache s = (replay c0 (map fst (s_log s))).1) /\
  (forall i t, s_threads s !! i = Some t -> t_requests t <> [] -> exists j, is_Some (step j now s)) /\
  length schedule <= work (start c0 programs).
Proof.
  intros Hl Hr. pose proof (cache_ok_run _ _ _ (ok_start programs Hl) Hr) as Hok.
  split; [symmetry; exact (ok_results s Hok)|]. split.
  - intros Hu. apply (ok_unowned s Hok). intros i t Hi. by apply (unowned_other s (S i) Hu i t (n_Sn i)).
  - split; [intros i t; by apply cache_progress|]. apply cache_run_work in Hr. lia.
Qed.
End machine.

(** Two threads that find the same module both write the time of its last use,
    with the mutex of the cache shared: a data race. *)
Lemma timestamps_race :
  exists schedule s, run (fun _ => None) (fun _ => None) schedule
      (start example_cache [[Use (path_of (lit "/a.so"))]; [Use (path_of (lit "/a.so"))]]) = Some s /\
    map t_phase (s_threads s) = [Touching; Touching].
Proof. exists [(0, 0%Z); (0, 0%Z); (1, 0%Z); (1, 0%Z)]. eexists. split; [vm_compute; reflexivity|reflexivity]. Qed.

(** ** Witnesses *)

Definition example_dlopen (p : path) : option Z := Some 70%Z.
Definition example_dlsym (h : Z) : option Z := Some (10 * h)%Z.
Definition turns (n i : nat) (now : Z) : list (nat * Z) := repeat (i, now) n.
Definition example_programs : list (list request) := [[Use (path_of (lit "/b.so"))]; [Use (path_of (lit "/c.so"))]].

Lemma example_loaded : loaded example_cache.
Proof. refine (bool_decide_unpack _ _). vm_compute. exact I. Qed.

Definition example_run (schedule : list (nat * Z)) : option state :=
  run example_dlopen example_dlsym schedule (start example_cache example_programs).
Definition half_way : list (nat * Z) := turns 4 0 4 ++ turns 4 1 9.
Definition all_the_way : list (nat * Z) := half_way ++ turns 1 0 9 ++ turns 7 1 9.

(** The second thread waits to unload the module that the first one runs. *)
Lemma half_way_waits :
  (s_threads <$> example_run half_way) = Some
    [Thread [Use (path_of (lit "/b.so"))] (Running 300);
     Thread [Use (path_of (lit "/c.so"))] (Closing (path_of (lit "/b.so")))] /\
  bool_decide (is_Some (example_run half_way ≫= step example_dlopen example_dlsym 1 9)) = false.
Proof. split; [vm_compute; reflexivity|vm_compute; reflexivity]. Qed.

Lemma modules_stay_loaded_witness :
  exists s, example_run half_way = Some s /\ exists it,
    m_items (s_cache s) !! path_of (lit "/b.so") = Some it /\ i_handle it ∈ m_open (s_cache s).
Proof.
  pose proof (proj1 half_way_waits) as Ht. unfold example_run in *.
  destruct (run example_dlopen example_dlsym half_way (start example_cache example_programs)) as [s|] eqn:E;
    [|discriminate Ht].
  exists s. split; [reflexivity|]. injection Ht as Ht.
  destruct (modules_stay_loaded example_dlopen example_dlsym example_cache example_programs half_way s 0
    (path_of (lit "/b.so")) [] 300 example_loaded E ltac:(rewrite Ht; reflexivity)) as (it & Hit & _ & Ho).
  exists it. split; [exact Hit|exact Ho].
Defined.

Lemma all_the_way_log :
  (fun s => (map fst (s_log s), unowned s)) <$> example_run all_the_way =
    Some ([(Use (path_of (lit "/b.so")), 4%Z); (Use (path_of (lit "/c.so")), 9%Z)], true).
Proof. vm_compute. reflexivity. Qed.

Lemma cache_operations_atomic_witness :
  exists s, example_run all_the_way = Some s /\ map snd (s_log s) = [Ret 300%Z; Ret 700%Z] /\
    s_cache s = (replay example_dlopen example_dlsym example_cache
      [(Use (path_of (lit "/b.so")), 4%Z); (Use (path_of (lit "/c.so")), 9%Z)]).1.
Proof.
  pose proof all_the_way_log as Ht. unfold example_run in *.
  destruct (run example_dlopen example_dlsym all_the_way (start example_cache example_programs)) as [s|] eqn:E;
    [|discriminate Ht].
  exists s. split; [reflexivity|]. injection Ht as Hlog Hu.
  destruct (cache_operations_atomic example_dlopen example_dlsym example_cache example_programs all_the_way s 0
    example_loaded E) as (Hr & Hc & _ & _).
  rewrite Hlog in Hr, Hc. split; [rewrite Hr; vm_compute; reflexivity|]. exact (Hc Hu).
Defined.
