(* ===== verification/Preprocessor.v ===== *)
(** * The preprocessor of modules

    [src/plugins/fileserv/Preprocessor.cpp]: a template of text and code between
    [<?] and [?>] becomes the source of a C++ function.  The lexer is a library;
    what the code hands to the compiler's tooling for its diagnostics has no
    effect on the result and is left out. *)

From Stdlib Require Import ZArith Lia Ascii String.
From stdpp Require Import base tactics option list strings.
From S2P Require Import Prelude Util FS.

(** ** The lexer *)

Inductive token_kind :=
| Question | Greater | GreaterGreater | GreaterEqual | GreaterGreaterEqual | GreaterGreaterGreater
| OtherToken.

Definition starts_greater (k : token_kind) : bool :=
  match k with Question | OtherToken => false | _ => true end.

(** A token with its length and the offset of the buffer behind it. *)
Record token := Token { tk_kind : token_kind; tk_length : nat; tk_end : nat }.

(** The tokens for which [LexFromRawLexer] does not say that it is at the end. *)
Class Lexer := { lex : bytes -> list token }.

Section preprocessor.
Context `{LX : Lexer}.

Definition CODE_START : bytes := lit "<?".
Definition CODE_END : bytes := lit "?>".

(** The loop of [findCodeEnd]; a failed assertion is undefined. *)
Fixpoint code_end_loop (source : bytes) (after_question : bool) (tokens : list token)
    : outcome (option nat) :=
  match tokens with
  | [] => Ret None
  | token :: rest =>
    let next := code_end_loop source (match tk_kind token with Question => true | _ => false end) rest in
    if after_question && starts_greater (tk_kind token) then
      if tk_end token <? tk_length token + 1 then Undef
      else
        let offset := tk_end token - (tk_length token + 1) in
        match source !! offset with
        | None => Ret None
        | Some c => if Ascii.eqb c "?" then Ret (Some offset) else next
        end
    else next
  end.
Definition findCodeEnd (source : bytes) : outcome (option nat) := code_end_loop source false (lex source).

(** [view.remove_prefix(n)]: more than there is is undefined. *)
Definition remove_prefix (n : nat) (view : bytes) : outcome bytes :=
  if n <=? length view then Ret (drop n view) else Undef.

Definition echo_text (text : bytes) : bytes :=
  lit "echo(" ++ [dquote] ++ escape text ++ [dquote] ++ lit ");" ++ [lf].

(** A piece of code: for the preamble, to be echoed, or for the body. *)
Inductive code_kind := Preamble | EchoShorthand | Plain.

Definition code_text (k : code_kind) (valid : bytes) : bytes :=
  match k with EchoShorthand => lit "echo(" ++ valid ++ lit ");" ++ [lf] | _ => valid ++ [lf] end.

Definition kind_of (view : bytes) : code_kind :=
  match view with
  | c :: _ => if Ascii.eqb c ":" then Preamble else if Ascii.eqb c "=" then EchoShorthand else Plain
  | [] => Plain
  end.

Fixpoint preprocess_loop (fuel : nat) (view preamble body : bytes) : outcome (bytes * bytes) :=
  match find_sub CODE_START view with
  | None => Ret (preamble, match view with [] => body | _ => body ++ echo_text view end)
  | Some code_start =>
    match fuel with
    | O => Diverge
    | S f =>
      let body := if code_start =? 0 then body else body ++ echo_text (take code_start view) in
      view ← remove_prefix (code_start + length CODE_START) view;
      let kind := kind_of view in
      let view := match kind with Plain => view | _ => drop 1 view end in
      let shortened := substr_to view (findLast view CODE_END) in
      found ← findCodeEnd shortened;
      let valid_size := match found with Some offset => offset | None => length shortened end in
      let text := code_text kind (take valid_size shortened) in
      view ← remove_prefix (valid_size + length CODE_END) view;
      match kind with
      | Preamble => preprocess_loop f view (preamble ++ text) body
      | _ => preprocess_loop f view preamble (body ++ text)
      end
    end
  end.

Definition line (s : string) : bytes := lit s ++ [lf].
Definition tabs (n : nat) : bytes := repeat tab n.

(** The text around the body. *)
Definition function_start : bytes :=
  [lf] ++ lit "#include " ++ [dquote] ++ lit "Module.h" ++ [dquote] ++ [lf] ++ [lf] ++
  line "#include <sstream>" ++ [lf] ++
  lit "extern " ++ [dquote] ++ lit "C" ++ [dquote] ++
  line " void algizModule(HTTP::Server::HandlerArgs &algiz_args, const std::filesystem::path &$path) {" ++
  tabs 1 ++ line "auto &[$http, $client, $request, $parts] = algiz_args;" ++
  tabs 1 ++ line "auto &$get = $request.parameters;" ++
  tabs 1 ++ line "auto &$post = $request.postParameters;" ++
  tabs 1 ++ line "int $code = 200;" ++
  tabs 1 ++ line "std::stringstream $stream;" ++ [lf] ++
  tabs 1 ++ line "auto echo = [&](auto &&...things) {" ++
  tabs 2 ++ line "($stream << ... << std::forward<decltype(things)>(things));" ++
  tabs 1 ++ line "};" ++ [lf] ++ tabs 2.
Definition function_end : bytes :=
  [lf] ++ [lf] ++
  tabs 1 ++ line "$client.send(HTTP::Response($code, std::move($stream).str()));" ++
  tabs 1 ++ line "// */" ++
  line "}" ++ tabs 2.

Definition preprocess (source : bytes) : outcome bytes :=
  '(preamble, body) ← preprocess_loop (length source) source [] [];
  Ret (preamble ++ function_start ++ body ++ function_end).

Definition preprocessFileservModule `{FSys : FileSystem} (p : path) : outcome bytes :=
  source ← readFile p; preprocess source.

(** ** Theorems *)

(** A template: pieces of text, each before a piece of code, and a last text. *)
Definition piece : Type := bytes * code_kind * bytes.
Definition mark (k : code_kind) : bytes :=
  match k with Preamble => lit ":" | EchoShorthand => lit "=" | Plain => [] end.
Definition piece_source (p : piece) : bytes :=
  p.1.1 ++ CODE_START ++ mark p.1.2 ++ p.2 ++ CODE_END.
Definition template_source (pieces : list piece) (last : bytes) : bytes :=
  concat (map piece_source pieces) ++ last.

(** What it is meant to become. *)
Definition text_echo (text : bytes) : bytes := match text with [] => [] | _ => echo_text text end.
Definition template_preamble (pieces : list piece) : bytes :=
  concat (map (fun p : piece => match p.1.2 with Preamble => code_text Preamble p.2 | _ => [] end) pieces).
Definition template_body (pieces : list piece) (last : bytes) : bytes :=
  concat (map (fun p : piece =>
    text_echo p.1.1 ++ match p.1.2 with Preamble => [] | k => code_text k p.2 end) pieces) ++ text_echo last.

(** The text before a piece of code starts no code itself, not even with the
    mark that follows it; a plain piece does not start with the sign of another
    kind. *)
Definition plain_piece (p : piece) : Prop :=
  find_sub CODE_START (p.1.1 ++ CODE_START) = Some (length p.1.1) /\
  (p.1.2 = Plain -> forall rest, kind_of (p.2 ++ CODE_END ++ rest) = Plain).

(** The lexer finds the end of each piece of code among what follows it up to
    the last end mark, which closes the last piece. *)
Fixpoint lexer_agrees (pieces : list piece) (last : bytes) : Prop :=
  match pieces with
  | [] => True
  | [p] => findCodeEnd p.2 = Ret None
  | p :: rest =>
    findCodeEnd (substr_to (p.2 ++ CODE_END ++ template_source rest last)
                   (findLast (p.2 ++ CODE_END ++ template_source rest last) CODE_END)) = Ret (Some (length p.2)) /\
    lexer_agrees rest last
  end.

Lemma is_prefix_shorter p a b :
  is_prefix p (a ++ b) = true -> length p <= length a -> is_prefix p a = true.
Proof.
  revert a. induction p as [|x p IH]; intros [|y a] H Hl; cbn [length] in Hl; try done; [lia|].
  cbn [is_prefix app] in *. apply andb_true_iff in H as [-> H]. cbn [andb]. apply IH; [done|lia].
Qed.

Lemma find_sub_extend p a b i : find_sub p a = Some i -> find_sub p (a ++ b) = Some i.
Proof.
  revert i. induction a as [|x a IH]; intros i H.
  - cbn [find_sub] in H. destruct (is_prefix p []) eqn:E; [|done]. injection H as <-.
    destruct p; [|done]. by destruct b.
  - cbn [find_sub app] in *. destruct (is_prefix p (x :: a)) eqn:E.
    + apply is_prefix_spec in E as [t Ht]. injection H as <-.
      change (x :: a ++ b) with ((x :: a) ++ b). rewrite Ht, <- app_assoc, is_prefix_app. done.
    + destruct (find_sub p a) as [j|] eqn:Ej; [|done]. injection H as <-.
      rewrite (IH j eq_refl). destruct (is_prefix p (x :: a ++ b)) eqn:E2; [|done]. exfalso.
      apply find_sub_Some in Ej as (_ & _ & Hle).
      change (x :: a ++ b) with ((x :: a) ++ b) in E2. apply is_prefix_shorter in E2; [congruence|].
      cbn [length]. lia.
Qed.

(** The last end mark lies behind or at any other. *)
Lemma findLast_at_least a b :
  exists i, findLast (a ++ CODE_END ++ b) CODE_END = Some i /\ length a <= i.
Proof.
  unfold findLast. rewrite bool_decide_false by done.
  assert (Hat : is_prefix CODE_END (drop (length a) (a ++ CODE_END ++ b)) = true)
    by (rewrite drop_app_length; apply is_prefix_app).
  assert (Hlen : length a < length (a ++ CODE_END ++ b)) by (rewrite !length_app; cbn; lia).
  destruct (find_end CODE_END (a ++ CODE_END ++ b)) as [i|] eqn:E.
  - exists i. split; [done|]. apply find_end_Some in E as (_ & _ & Hno).
    destruct (decide (length a <= i)) as [|Hlt]; [done|]. rewrite Hno in Hat by lia. done.
  - rewrite (find_end_None _ _ E) in Hat by done. done.
Qed.

Lemma findLast_last a b :
  find_end CODE_END b = None -> findLast (a ++ CODE_END ++ b) CODE_END = Some (length a).
Proof.
  intros Hb. unfold findLast. rewrite bool_decide_false by done.
  assert (H0 : find_end CODE_END (CODE_END ++ b) = Some 0).
  { change (CODE_END ++ b) with ("?"%char :: ">"%char :: b). cbn [find_end]. rewrite Hb. done. }
  induction a as [|x a IH]; [done|]. cbn [app find_end length]. by rewrite IH.
Qed.

Lemma remove_prefix_app a b : remove_prefix (length a) (a ++ b) = Ret b.
Proof.
  unfold remove_prefix. rewrite length_app. rewrite (proj2 (Nat.leb_le _ _)) by lia.
  by rewrite drop_app_length.
Qed.

Lemma after_mark k code rest :
  (k = Plain -> kind_of (code ++ rest) = Plain) ->
  kind_of (mark k ++ code ++ rest) = k /\
  (match k with Plain => mark k ++ code ++ rest | _ => drop 1 (mark k ++ code ++ rest) end) = code ++ rest.
Proof. destruct k; [done..|]. intros H. split; [by apply H|done]. Qed.

(** One round of the loop. *)
Lemma preprocess_round f text k code rest preamble body valid_size :
  plain_piece (text, k, code) ->
  let view := code ++ CODE_END ++ rest in
  (valid_size ← findCodeEnd (substr_to view (findLast view CODE_END));
   Ret (match valid_size with Some n => n | None => length (substr_to view (findLast view CODE_END)) end))
    = Ret valid_size ->
  valid_size = length code ->
  preprocess_loop (S f) (piece_source (text, k, code) ++ rest) preamble body =
  let body := body ++ text_echo text in
  match k with
  | Preamble => preprocess_loop f rest (preamble ++ code_text k code) body
  | _ => preprocess_loop f rest preamble (body ++ code_text k code)
  end.
Proof.
  intros [Hfind Hkind] view Hend ->. cbn [fst snd] in Hfind, Hkind. unfold piece_source. cbn [fst snd].
  rewrite <- !app_assoc. cbn [preprocess_loop].
  rewrite (app_assoc text CODE_START), (find_sub_extend _ _ _ _ Hfind).
  replace (length text + length CODE_START) with (length (text ++ CODE_START)) by apply length_app.
  rewrite remove_prefix_app. mrun.
  destruct (after_mark k code (CODE_END ++ rest)) as [E1 E2]; [intros ->; by apply Hkind|].
  rewrite E1, E2. fold view.
  assert (Hbody : (if length text =? 0 then body else body ++ echo_text (take (length text) ((text ++ CODE_START) ++
    mark k ++ view))) = body ++ text_echo text).
  { rewrite <- app_assoc, take_app_length. destruct text; cbn [length Nat.eqb text_echo]; [by rewrite app_nil_r|done]. }
  rewrite Hbody. revert Hend. mrun. destruct (findCodeEnd _) as [found| | |]; [|done..].
  intros [= Hv]. rewrite Hv. cbv zeta.
  destruct (findLast_at_least code rest) as (i & Hi & Hle). fold view in Hi. rewrite Hi. cbn [substr_to].
  rewrite take_take, Nat.min_l by done. unfold view at 1 2 3 4. rewrite take_app_length.
  replace (length code + length CODE_END) with (length (code ++ CODE_END)) by apply length_app.
  rewrite (app_assoc code CODE_END rest), remove_prefix_app.
  destruct k; cbv beta iota; rewrite <- ?app_assoc; reflexivity.
Qed.

Lemma preprocess_pieces pieces last : forall f preamble body,
  Forall plain_piece pieces -> lexer_agrees pieces last -> find_sub CODE_START last = None ->
  find_end CODE_END last = None -> length pieces <= f ->
  preprocess_loop f (template_source pieces last) preamble body =
  Ret (preamble ++ template_preamble pieces, body ++ template_body pieces last).
Proof.
  induction pieces as [|[[text k] code] rest IH]; intros f preamble body Hp Hl Hs He Hf.
  - unfold template_source, template_preamble, template_body. cbn [map concat app]. rewrite app_nil_r.
    destruct f; cbn [preprocess_loop]; rewrite Hs; destruct last; by rewrite ?app_nil_r.
  - destruct f as [|f]; [cbn [length] in Hf; lia|]. apply Forall_cons in Hp as [Hp1 Hp].
    cbn [length] in Hf. unfold template_source. cbn [map concat]. rewrite <- app_assoc.
    fold (template_source rest last).
    rewrite (preprocess_round f text k code (template_source rest last) preamble body (length code) Hp1).
    + assert (Hl' : lexer_agrees rest last) by (destruct rest; [done|apply Hl]).
      cbv zeta. unfold template_preamble, template_body. cbn [map concat fst snd].
      destruct k; rewrite IH by (done || lia);
        unfold template_preamble, template_body; by rewrite <- ?app_assoc.
    + destruct rest as [|q rest].
      * change (template_source [] last) with last. rewrite findLast_last by done. cbn [substr_to].
        rewrite take_app_length. cbn [lexer_agrees snd] in Hl. by rewrite Hl.
      * destruct Hl as [Hl _]. cbn [snd] in Hl. rewrite Hl. done.
    + done.
Qed.

(** A template becomes the function it is meant to: its code for the preamble
    first, then the fixed start, then for every piece its text as an [echo] of an
    escaped literal and its code, or an [echo] of it, in order, then the end.
    Required of the lexer is only that it ends each piece at its own end mark. *)
Theorem preprocess_template pieces last :
  Forall plain_piece pieces -> lexer_agrees pieces last -> find_sub CODE_START last = None ->
  find_end CODE_END last = None ->
  preprocess (template_source pieces last) =
  Ret (template_preamble pieces ++ function_start ++ template_body pieces last ++ function_end).
Proof.
  intros Hp Hl Hs He. unfold preprocess. rewrite (preprocess_pieces pieces last _ [] []); [done..|].
  unfold template_source. rewrite length_app. clear. induction pieces as [|p pieces IH]; [cbn; lia|].
  cbn [map concat length]. rewrite length_app. unfold piece_source at 1. rewrite !length_app.
  change (length CODE_START) with 2. lia.
Qed.

(** A template whose code is not closed is read behind its end: the step over
    the end mark that is not there leaves the view. *)
Theorem preprocess_unterminated text code :
  find_sub CODE_START (text ++ CODE_START) = Some (length text) -> kind_of code = Plain ->
  find_end CODE_END code = None -> findCodeEnd code = Ret None ->
  preprocess (text ++ CODE_START ++ code) = Undef.
Proof.
  intros Hs Hk He Hl. unfold preprocess.
  assert (Hlen : exists f, length (text ++ CODE_START ++ code) = S f).
  { rewrite !length_app. change (length CODE_START) with 2. exists (length text + S (length code)). lia. }
  destruct Hlen as [f ->]. cbn [preprocess_loop].
  rewrite (app_assoc text CODE_START), (find_sub_extend _ _ _ _ Hs).
  replace (length text + length CODE_START) with (length (text ++ CODE_START)) by apply length_app.
  rewrite remove_prefix_app. mrun. rewrite Hk.
  unfold findLast. rewrite bool_decide_false, He by done. cbn [substr_to]. rewrite Hl.
  unfold remove_prefix. change (length CODE_END) with 2.
  destruct (Nat.leb_spec (length code + 2) (length code)); [lia|done].
Qed.
End preprocessor.

(** ** Theorems: the literals in the result *)

(** A reader of string literals: the value up to the closing quote, and what
    follows it.  Octal escapes have up to three digits, hexadecimal ones as many
    as there are. *)
Definition simple_escape (c : ascii) : option ascii :=
  match Ascii.eqb c "t", Ascii.eqb c "r", Ascii.eqb c "n", Ascii.eqb c "v", Ascii.eqb c "b",
        Ascii.eqb c "a", Ascii.eqb c "f", Ascii.eqb c backslash, Ascii.eqb c dquote with
  | true, _, _, _, _, _, _, _, _ => Some tab
  | _, true, _, _, _, _, _, _, _ => Some cr
  | _, _, true, _, _, _, _, _, _ => Some lf
  | _, _, _, true, _, _, _, _, _ => Some vt
  | _, _, _, _, true, _, _, _, _ => Some bs
  | _, _, _, _, _, true, _, _, _ => Some bel
  | _, _, _, _, _, _, true, _, _ => Some ff
  | _, _, _, _, _, _, _, true, _ => Some backslash
  | _, _, _, _, _, _, _, _, true => Some dquote
  | _, _, _, _, _, _, _, _, _ => None
  end.

Definition octal (c : ascii) : option Z :=
  let k := code c in if ((48 <=? k) && (k <=? 55))%Z then Some (k - 48)%Z else None.
Fixpoint octal_value (digits : nat) (acc : Z) (s : bytes) : Z * bytes :=
  match digits, s with
  | S n, c :: r => match octal c with Some d => octal_value n (acc * 8 + d) r | None => (acc, s) end
  | _, _ => (acc, s)
  end.
Fixpoint hex_value (acc : Z) (s : bytes) : Z * bytes :=
  match s with
  | c :: r => if isxdigit c then hex_value (acc * 16 + xdigit_value c) r else (acc, s)
  | [] => (acc, s)
  end.

Fixpoint literal (fuel : nat) (s : bytes) : option (bytes * bytes) :=
  match fuel, s with
  | S f, c :: r =>
    if Ascii.eqb c dquote then Some ([], r)
    else if Ascii.eqb c lf then None
    else if Ascii.eqb c backslash then
      match r with
      | e :: r' =>
        match simple_escape e with
        | Some x => '(v, rest) ← literal f r'; Some (x :: v, rest)
        | None =>
          if Ascii.eqb e "x" then
            let '(n, r'') := hex_value 0 r' in
            if (n <? 256)%Z then '(v, rest) ← literal f r''; Some (chr n :: v, rest) else None
          else
            match octal e with
            | Some _ => let '(n, r'') := octal_value 3 0 r in
                        if (n <? 256)%Z then '(v, rest) ← literal f r''; Some (chr n :: v, rest) else None
            | None => None
            end
        end
      | [] => None
      end
    else '(v, rest) ← literal f r; Some (c :: v, rest)
  | _, _ => None
  end.

(** How one byte is written. *)
Definition written (c : ascii) : bool :=
  match escape_char c with
  | [x] => Ascii.eqb x c && negb (Ascii.eqb x dquote || Ascii.eqb x lf || Ascii.eqb x backslash)
  | [b; e] => Ascii.eqb b backslash && bool_decide (simple_escape e = Some c)
  | _ => false
  end.

Lemma written_bytes c : c <> nul -> c <> esc -> written c = true.
Proof.
  intros H1 H2. assert (H : forall d, (written d || Ascii.eqb d nul || Ascii.eqb d esc) = true)
    by (apply byte_forall; vm_compute; reflexivity).
  specialize (H c). apply orb_true_iff in H as [H|H]; [apply orb_true_iff in H as [H|H]; [done|]|];
    apply Ascii.eqb_eq in H; congruence.
Qed.

(** The literal a text becomes has that text as its value, for every text
    without null and escape bytes.  Those two are written with as few digits as
    they have, and a digit that follows becomes part of them: text with an escape
    byte before a hexadecimal digit is no literal or another one. *)
Theorem text_literal text rest :
  (nul ∉ text) -> (esc ∉ text) ->
  literal (S (length text)) (escape text ++ dquote :: rest) = Some (text, rest) /\
  literal 3 (escape [esc; "0"%char] ++ dquote :: rest) = None /\
  literal 3 (escape [nul; "1"%char] ++ dquote :: rest) = Some ([chr 1], rest).
Proof.
  intros Hn He. split; [|split; [|done]].
  - induction text as [|c text IH]; [done|].
    apply not_elem_of_cons in Hn as [Hn1 Hn], He as [He1 He]. specialize (IH Hn He).
    change (escape (c :: text)) with (escape_char c ++ escape text). rewrite <- app_assoc.
    pose proof (written_bytes c ltac:(done) ltac:(done)) as Hw. unfold written in Hw.
    destruct (escape_char c) as [|x [|e [|? ?]]]; try done.
    + apply andb_true_iff in Hw as [->%Ascii.eqb_eq Hw]. apply negb_true_iff in Hw.
      apply orb_false_iff in Hw as [Hw Hb]. apply orb_false_iff in Hw as [Hq Hl].
      cbn [app literal]. rewrite Hq, Hl, Hb. change (length (c :: text)) with (S (length text)).
      rewrite IH. done.
    + apply andb_true_iff in Hw as [->%Ascii.eqb_eq Hw]. apply bool_decide_eq_true in Hw.
      cbn [app literal]. change (Ascii.eqb backslash dquote) with false.
      change (Ascii.eqb backslash lf) with false. change (Ascii.eqb backslash backslash) with true.
      cbv iota. rewrite Hw. change (length (c :: text)) with (S (length text)). rewrite IH. done.
  - cbn. done.
Qed.

(** ** Witnesses *)

(** A lexer whose tokens are single bytes, all but the last of the text. *)
#[local] Instance byte_lexer : Lexer := {
  lex := fun source =>
    imap (fun i c => Token (if Ascii.eqb c "?" then Question else if Ascii.eqb c ">" then Greater
                            else OtherToken) 1 (S i)) (removelast source);
}.

Definition example_pieces : list piece :=
  [(lit "a", Preamble, lit " int x; "); (lit "b", EchoShorthand, lit " x "); ([], Plain, lit " f(); ")].

Lemma preprocess_template_witness :
  preprocess (lit "a<?: int x; ?>b<?= x ?><? f(); ?>c") =
  Ret (template_preamble example_pieces ++ function_start ++ template_body example_pieces (lit "c") ++
       function_end).
Proof.
  apply (preprocess_template example_pieces (lit "c")).
  - unfold example_pieces. repeat constructor; done.
  - cbn [lexer_agrees example_pieces snd]. repeat split; vm_compute; reflexivity.
  - reflexivity.
  - reflexivity.
Defined.

Lemma preprocess_unterminated_witness : preprocess (lit "a<? f();") = Undef.
Proof.
  apply (preprocess_unterminated (lit "a") (lit " f();")); [reflexivity|reflexivity|reflexivity|].
  vm_compute. reflexivity.
Defined.

Lemma text_literal_witness : literal 6 (escape (lit "a\b" ++ [tab; dquote]) ++ [dquote]) = Some (lit "a\b" ++ [tab; dquote], []).
Proof.
  apply (text_literal (lit "a\b" ++ [tab; dquote]) []);
    refine (bool_decide_unpack (_ ∉ _) _); vm_compute; exact I.
Defined.
