(* ===== verification/Fileserv.v ===== *)
(** * The file server plugin

    [src/plugins/fileserv/Fileserv.cpp]: how a request becomes a path below
    the web root, the checks that guard it, and the sending of files, ranges
    of files and modules.  Templates, the preprocessor, the compiler and the
    dynamic loader are arguments. *)

From Stdlib Require Import ZArith Lia Ascii String.
From stdpp Require Import base tactics option list strings gmap.
From S2P Require Import Prelude Util Mime Response Request PluginHost Client FS HttpServer ModuleCache.

Record fileserv (J : Type) := Fileserv {
  f_hostnames : option (list bytes);
  f_root : option path;
  f_enableModules : bool;
  f_chunkSize : Z;
  f_config : J;
  f_moduleCache : cache;
  f_rng : list ascii;   (* the letters the generator is going to draw *)
}.
Arguments Fileserv {J}.
Arguments f_hostnames {J}.
Arguments f_root {J}.
Arguments f_enableModules {J}.
Arguments f_chunkSize {J}.
Arguments f_config {J}.
Arguments f_moduleCache {J}.
Arguments f_rng {J}.

(** The conversion of a path in a request to a path of the file system. *)
Definition expand `{FS : FileSystem} (web_root : path) (request_path : bytes) : outcome path :=
  base ← fs_canonical (path_c_str web_root);
  relative ← unescape request_path true;
  Ret (lexically_normal (path_append base (path_of (lit "./" ++ relative)))).

(** ** Reading a file in pieces *)

(** A stream's position, and whether an earlier read met the end of the file:
    from then on neither reads nor seeks have an effect. *)
Record rstream := RStream { s_pos : Z; s_failed : bool }.

Definition seekg (st : rstream) (pos : Z) : rstream :=
  if s_failed st then st else RStream pos false.

(** [stream.read(buffer, n)]: what is not read keeps its old value. *)
Definition stream_read (contents : bytes) (st : rstream) (buffer : bytes) (n : nat)
    : rstream * bytes :=
  if s_failed st then (st, buffer)
  else
    let got := take n (if (s_pos st <=? Z.of_nat (length contents))%Z
                       then drop (Z.to_nat (s_pos st)) contents else []) in
    (RStream (s_pos st + Z.of_nat (length got)) (length got <? n),
     got ++ drop (length got) buffer).

Definition zeros (n : Z) : bytes := repeat nul (Z.to_nat n).

Section fileserv.
Context {J N : Type} `{JO : JsonOps J} `{NO : NetOps N} {HH : @Handlers J N} `{FSys : FileSystem}.
Abbreviation state := (fileserv J * (HandlerArgs * (client * @world J N)))%type.

Variable sha1 : bytes -> bytes.
Variable std_sort : (Z * Z -> Z * Z -> bool) -> list (Z * Z) -> outcome (list (Z * Z)).
Variable format_time : Z -> bytes.
Variable renderTemplate : bytes -> option (gmap bytes bytes) -> outcome bytes.
(** Functions of the executable that replace a check. *)
Variable filter_function : bytes -> option (path -> M state bool).
(** Modules and their compilation. *)
Variable module_function : Z -> path -> M state ().
Variable dlopen : path -> option Z.
Variable dlsym : Z -> option Z.
Variable now : Z.
Variable mkstemps : option bytes.
Variable preprocess_module : path -> outcome bytes.
Variable write_ok : bool.
Variable run_command : list bytes -> Z * Z * bytes.
Variable what : exn -> bytes.

Definition on_client {A} (m : M (client * @world J N) A) : M state A := fun s =>
  let '(r, x) := m s.2.2 in (r, (s.1, (s.2.1, x))).
Definition get_fileserv : M state (fileserv J) := s ← get; mret s.1.
Definition get_request : M state request := s ← get; mret (a_request s.2.1).
Definition get_http : M state (http_server J) := s ← get; mret s.2.2.2.1.
Definition set_args_request (q : request) : M state () :=
  modify (fun s => (s.1, (MkHandlerArgs q (a_parts s.2.1), s.2.2))).

Definition fsend (message : bytes) : M state () := on_client (send_to message).
Definition client_close : M state () := on_client (@Client.close _ (http_ServerOps sha1)).

Definition getRoot (f : fileserv J) (h : http_server J) : path :=
  match f_root f with Some r => r | None => h_webRoot h end.

Definition hostMatches (f : fileserv J) (q : request) : bool :=
  match f_hostnames f with
  | Some hostnames =>
    match q_headers q !! lit "host" with
    | Some host => existsb (fun n => bool_decide (n = host)) hostnames
    | None => false
    end
  | None => negb (bool_decide (is_Some (q_headers q !! lit "host")))
  end.

(** ** The checks *)

Definition doFilter (p : path) (function_name : bytes) (default_action : M state bool)
    : M state bool :=
  match filter_function function_name with
  | Some function => function p
  | None => default_action
  end.

(** The part of [authFailed] in its [try] block. *)
Definition check_credentials (auth : J) : M state bool :=
  q ← get_request;
  u ← lift (json_at auth (lit "username")); username ← lift (json_get_string u);
  p ← lift (json_at auth (lit "password")); password ← lift (json_get_string p);
  auth_result ← lift (checkAuthentication q username password);
  if bool_decide (auth_result = AuthMissing) then
    realm ← (if json_contains auth (lit "realm") then
               r ← lift (json_at auth (lit "realm")); lift (json_get_string r)
             else mret []);
    on_client (http_send401_realm realm) ;; mret true
  else if negb (bool_decide (auth_result = AuthSuccess)) then
    on_client http_send401 ;; mret true
  else mret false.

Definition authFailed (full_path : path) : M state bool :=
  h ← get_http;
  auth ← lift (getOption Ret h full_path (lit "auth"));
  failed ← match auth with
           | Some auth => catch (check_credentials auth)
               (fun e => match e with JsonOutOfRange => Some (mret false) | _ => None end)
           | None => mret false
           end;
  if (failed : bool) then mret true
  else if bool_decide (filename full_path = lit ".algiz") then
    on_client http_send401 ;; mret true
  else mret false.

Definition getModulesEnabled (p : path) : M state bool :=
  f ← get_fileserv;
  if f_enableModules f then mret true
  else
    h ← get_http;
    option ← lift (getOption json_get_bool h p (lit "enableModules"));
    mret (default false option).

Definition shouldServeModule (p : path) : M state bool :=
  enabled ← getModulesEnabled p;
  if negb enabled then mret false
  else if bool_decide (extension p = lit ".cpp") then
    x ← lift (canExecute p); mret (x || bool_decide (extension p = lit ".alg"))
  else mret (bool_decide (extension p = lit ".alg")).

(** The lambda [module_filter]. *)
Definition module_filter (p : path) : M state bool :=
  enabled ← getModulesEnabled p;
  if (enabled : bool) && bool_decide (extension p = lit ".so") then
    x ← lift (canExecute p);
    if (x : bool) then
      let subextension := extension_of (stem_of (filename p)) in
      mret (negb (bool_decide (subextension = lit ".alg")
                  || bool_decide (subextension = lit ".cpp")))
    else mret true
  else mret true.

Definition filter (p : path) : M state bool :=
  auth_ok ← doFilter p (lit "algizAuthCheck") (b ← authFailed p; mret (negb b));
  if negb auth_ok then
    doFilter p (lit "algizAuthCheckFailed")
      (fsend (render (make_response 401 (lit "Unauthorized"))) ;; mret false)
  else
    module_ok ← doFilter p (lit "algizCompiledModuleCheck") (module_filter p);
    if negb module_ok then
      doFilter p (lit "algizCompiledModuleCheckFailed")
        (fsend (render (make_response 401 (lit "Nice try."))) ;; mret false)
    else mret true.

Definition getDefaults (config : J) : outcome (list bytes) :=
  if json_contains config (lit "default") then
    defaults ← json_at config (lit "default");
    if json_is_string defaults then s ← json_get_string defaults; Ret [s]
    else if negb (json_is_array defaults) then
      Throw (RuntimeError
        (lit "httpfileserv.default is required to be a string or array of strings"))
    else json_get_strings defaults
  else Ret [].

Fixpoint find_default (full_path : path) (names : list bytes) : option path :=
  match names with
  | [] => None
  | name :: rest =>
    let new_path := path_append full_path (path_of name) in
    if fs_is_regular_file (path_c_str new_path) then Some new_path
    else find_default full_path rest
  end.

Definition findPath (config : J) (full_path : path) : outcome (option path) :=
  if fs_is_regular_file (path_c_str full_path) then Ret (Some full_path)
  else names ← getDefaults config; Ret (find_default full_path names).

(** ** Sending files *)

(** The loop that sends [remaining] bytes of a stream. *)
Fixpoint send_loop (fuel : nat) (chunkSize remaining : Z) (contents : bytes)
    (st : rstream) (buffer : bytes) : M state (rstream * bytes) :=
  if (0 <? remaining)%Z then
    match fuel with
    | O => diverge
    | S f =>
      let to_read := Z.min chunkSize remaining in
      let '(st, buffer) := stream_read contents st buffer (Z.to_nat to_read) in
      fsend (take (Z.to_nat to_read) buffer) ;;
      send_loop f chunkSize (remaining - to_read) contents st buffer
    end
  else mret (st, buffer).

(** More rounds than the loop can take. *)
Definition send_fuel (chunkSize remaining : Z) : nat := S (Z.to_nat (remaining / chunkSize)).

Definition serveFull (full_path : path) : M state () :=
  f ← get_fileserv;
  match fs_contents (path_c_str full_path) with
  | None => on_client http_send403
  | Some contents =>
    let mime := getMIME (extension full_path) in
    filesize ← lift (fs_file_size (path_c_str full_path));
    modified ← lift (lastWritten full_path);
    let response := set_at (setMIME (setAcceptRanges (setLastModified (make_response 200 [])
                      (format_time modified)) true) mime)
                      (lit "content-length") (to_dec filesize) in
    fsend (noContent response) ;;
    _ ← send_loop (send_fuel (f_chunkSize f) filesize) (f_chunkSize f) filesize contents
          (seekg (RStream 0 false) 0) (zeros (Z.min (f_chunkSize f) filesize));
    mret tt
  end.

Definition range_length (r : Z * Z) : Z := wrap64 (r.2 - r.1 + 1).

(** The lambda [send_start]. *)
Definition send_start (multi : bool) (boundary old_content_type : bytes) (start stop filesize : Z)
    : M state () :=
  when multi (fsend (boundary ++ crlf ++ lit "Content-Type: " ++ old_content_type ++ crlf
    ++ lit "Content-Range: " ++ to_dec start ++ lit "-" ++ to_dec stop ++ lit "/"
    ++ to_dec filesize ++ crlf ++ crlf)).

(** The ranges, one after the other; the buffer is made anew when its size
    changes. *)
Fixpoint send_ranges (chunkSize : Z) (multi : bool) (boundary old_content_type : bytes)
    (filesize : Z) (contents : bytes) (ranges : list (Z * Z)) (st : rstream)
    (buffer : option bytes) : M state rstream :=
  match ranges with
  | [] => mret st
  | (start, stop) :: rest =>
    send_start multi boundary old_content_type start stop filesize ;;
    let remaining := range_length (start, stop) in
    let st := seekg st start in
    let buffer_length := Z.min chunkSize remaining in
    let buffer := match buffer with
                  | Some b => if (Z.of_nat (length b) =? buffer_length)%Z then b
                              else zeros buffer_length
                  | None => zeros buffer_length
                  end in
    r ← send_loop (send_fuel chunkSize remaining) chunkSize remaining contents st buffer;
    send_ranges chunkSize multi boundary old_content_type filesize contents rest r.1 (Some r.2)
  end.

(** The boundary of a multipart response: sixteen random letters. *)
Definition draw_boundary : M state bytes :=
  f ← get_fileserv;
  modify (fun s => (Fileserv (f_hostnames f) (f_root f) (f_enableModules f) (f_chunkSize f)
                      (f_config f) (f_moduleCache f) (drop 16 (f_rng f)), s.2)) ;;
  mret (lit "--" ++ take 16 (f_rng f)).

Definition serveRange (full_path : path) : M state () :=
  f ← get_fileserv;
  q ← get_request;
  filesize ← lift (fs_file_size (path_c_str full_path));
  v ← lift (valid std_sort filesize q);
  set_args_request v.2 ;;
  if negb v.1 then on_client http_send400
  else match fs_contents (path_c_str full_path) with
  | None => on_client http_send403
  | Some contents =>
    let q := v.2 in
    modified ← lift (lastWritten full_path);
    let length := foldl (fun n r => wrap64 (n + range_length r)) (q_suffixLength q) (q_ranges q) in
    let response := setLastModified (set_at (setAcceptRanges (make_response 206 []) true)
                      (lit "content-length") (to_dec length)) (format_time modified) in
    match q_ranges q with
    | [] => undefined
    | (start, stop) :: others =>
      let multi := negb (bool_decide (others = [])) in
      boundary ← (if multi then draw_boundary else mret (lit "--________________"));
      let response :=
        if multi then set_at response (lit "content-type") (lit "; boundary=" ++ drop 2 boundary)
        else set_at (set_at response (lit "content-type") []) (lit "content-range")
               (lit "bytes " ++ to_dec start ++ lit "-" ++ to_dec stop ++ lit "/"
                ++ to_dec filesize) in
      fsend (noContent response) ;;
      st ← send_ranges (f_chunkSize f) multi boundary [] filesize contents (q_ranges q)
             (RStream 0 false) None;
      when (negb (q_suffixLength q =? 0)%Z)
        (send_start multi boundary [] (filesize - q_suffixLength q) (filesize - 1) filesize ;;
         _ ← send_loop (send_fuel (f_chunkSize f) (q_suffixLength q)) (f_chunkSize f)
               (q_suffixLength q) contents (seekg st (filesize - q_suffixLength q))
               (zeros (Z.min (f_chunkSize f) (q_suffixLength q)));
         mret tt) ;;
      when multi (fsend boundary ;; fsend (lit "--"))
    end
  end.

(** ** Modules *)

(** What is thrown, and the text for the client. *)
Definition compileObject (source output : path) (preprocess : bool) : outcome () * option bytes :=
  let compile (source : bytes) :=
    let '(code, signal, err) := run_command
      [lit "c++"; lit "-std=c++23"; lit "-Iinclude"; lit "-Isubprojects/wahtwo/include"; lit "-g";
       lit "-fPIC"; source; lit "-shared"; lit "-o"; path_string output] in
    if negb (code =? 0)%Z || negb (signal =? -1)%Z then
      (Throw (RuntimeError (lit "Failed to compile " ++ source ++ lit " to " ++ path_string output)),
       if bool_decide (err = []) then None else Some err)
    else (Ret tt, None) in
  if preprocess then
    match mkstemps with
    | None => (Throw (RuntimeError
        (lit "Failed to make a temporary file for module preprocessing")), None)
    | Some temp =>
      match preprocess_module source with
      | Ret preprocessed =>
        if write_ok then compile temp
        else (Throw (RuntimeError (lit "Couldn't write preprocessed module")),
              Some (lit "Couldn't write preprocessed module"))
      | Throw e => (Throw e, Some (what e))
      | Undef => (Undef, None)
      | Diverge => (Diverge, None)
      end
    end
  else compile (path_string source).

Definition on_cache {A} (m : M cache A) : M state A := fun s =>
  let f := s.1 in
  let '(r, c) := m (f_moduleCache f) in
  (r, (Fileserv (f_hostnames f) (f_root f) (f_enableModules f) (f_chunkSize f)
         (f_config f) c (f_rng f), s.2)).

Definition serveModule (full_path : path) : M state () :=
  let object := replace_extension full_path (extension full_path ++ lit ".so") in
  stale ← (if negb (fs_exists (path_c_str object)) then mret true
           else lift (isNewerThan full_path object));
  failed ← (if (stale : bool) then
              _ ← on_cache (fun c => let '(b, c') := cache_remove object c in (Ret b, c'));
              match compileObject full_path object
                      (bool_decide (extension full_path = lit ".alg")) with
              | (Ret _, _) => mret false
              | (Throw _, err_text) =>
                fsend (render (setCharset (make_response_mime 500
                  (default (lit "Compilation failed") err_text) (lit "text/plain"))
                  (lit "utf-8"))) ;;
                mret true
              | (Undef, _) => undefined
              | (Diverge, _) => diverge
              end
            else mret false);
  if (failed : bool) then mret tt
  else
    function ← on_cache (cache_get dlopen dlsym object now);
    module_function function full_path.

(** ** The handlers *)

(** The choice between the ways to serve a file; [hackRanges] may change the
    request. *)
Definition serve_path (full_path : path) (post : option (gmap bytes bytes)) : M state () :=
  if bool_decide (extension full_path = lit ".t") then
    text ← lift (readFile full_path);
    rendered ← lift (renderTemplate text post);
    fsend (render (setMIME (make_response 200 rendered) (lit "text/html")))
  else
    is_module ← shouldServeModule full_path;
    if (is_module : bool) then serveModule full_path
    else
      q ← get_request;
      let '(hacked, q) := hackRanges q in
      set_args_request q ;;
      if negb hacked && (negb (bool_decide (q_ranges q = [])) || negb (q_suffixLength q =? 0)%Z)
      then serveRange full_path
      else serveFull full_path.

(** The [try] block that ends both handlers. *)
Definition respond (full_path : path) (post : option (gmap bytes bytes))
    : M state CancelableResult :=
  catch (serve_path full_path post ;; client_close ;; mret CApprove)
    (fun e => Some (fsend (render (make_response 403 (lit "Forbidden"))) ;; client_close ;;
                    mret CApprove)).

(** The path a request asks for, if it is below the root. *)
Definition locate (f : fileserv J) (h : http_server J) (q : request) : outcome (option path) :=
  let web_root := getRoot f h in
  full_path ← expand web_root (q_path q);
  let full_path := if fs_is_directory (path_c_str full_path)
                   then path_append full_path empty_path else full_path in
  inside ← isSubpath web_root full_path;
  Ret (if (inside : bool) then Some full_path else None).

Definition starts_with_dot (full_path : path) : bool :=
  bool_decide (head (filename full_path) = Some "."%char).

Definition Fileserv_handleGET (not_disabled : bool) : M state CancelableResult :=
  if negb not_disabled then mret CPass
  else
    f ← get_fileserv; q ← get_request; h ← get_http;
    if negb (hostMatches f q) then mret CPass
    else
      located ← lift (locate f h q);
      match located with
      | None => mret CPass
      | Some full_path =>
        ok ← filter full_path;
        if negb ok then client_close ;; mret CKill
        else
          h ← get_http;
          nodot ← lift (getOption json_get_bool h full_path (lit "nodot"));
          if default false nodot && starts_with_dot full_path then
            on_client http_send401 ;; client_close ;; mret CKill
          else
            found ← lift (findPath (f_config f) full_path);
            match found with
            | None => mret CPass
            | Some full_path => respond full_path None
            end
      end.

(** Here the presence of the option [nodot] decides, not its value. *)
Definition Fileserv_handlePOST (not_disabled : bool) : M state CancelableResult :=
  if negb not_disabled then mret CPass
  else
    f ← get_fileserv; q ← get_request; h ← get_http;
    if negb (hostMatches f q) then mret CPass
    else
      located ← lift (locate f h q);
      match located with
      | None => mret CPass
      | Some full_path =>
        ok ← filter full_path;
        if negb ok then client_close ;; mret CKill
        else
          h ← get_http;
          nodot ← lift (getOption json_get_bool h full_path (lit "nodot"));
          if bool_decide (is_Some nodot) && starts_with_dot full_path then
            on_client http_send401 ;; client_close ;; mret CKill
          else
            found ← lift (findPath (f_config f) full_path);
            match found with
            | None => mret CPass
            | Some full_path =>
              q ← get_request;
              respond full_path (Some (q_postParameters q))
            end
      end.
End fileserv.

(** ** Theorems: where a request leads *)

Section located.
Context {J : Type} `{FSys : FileSystem}.

(** The directory itself is a base of [isSubpath]. *)
Definition below (base p : path) : Prop :=
  base = p \/ p_root p = p_root base /\ p_names base <> [] /\ p_names base `prefix_of` p_names p.

Lemma isSubpath_below base p : isSubpath base p = Ret (bool_decide (below base p)).
Proof.
  unfold isSubpath, below. destruct (decide (base = p)) as [->|Hne].
  - rewrite !bool_decide_true; [done|by left|done].
  - rewrite (bool_decide_false (base = p)) by done. rewrite isSubpath_loop_spec by done.
    f_equal. apply bool_decide_ext. tauto.
Qed.

Lemma dotdot_strip names : dotdot ∉ names -> dotdot ∉ strip_separator names ++ [[]].
Proof.
  intros H. rewrite elem_of_app, list_elem_of_singleton. intros [Hin|Heq]; [|done].
  unfold strip_separator in Hin. destruct (bool_decide _); [|done].
  apply H. destruct (decide (names = [])) as [->|Hne]; [by apply not_elem_of_nil in Hin|].
  rewrite (app_removelast_last [] Hne), elem_of_app. by left.
Qed.

Lemma append_empty_safe p :
  p_root p = true -> dotdot ∉ p_names p ->
  p_root (path_append p empty_path) = true /\ dotdot ∉ p_names (path_append p empty_path).
Proof.
  intros Hr Hd. unfold path_append. cbn [p_root empty_path p_names]. split; [done|].
  destruct (bool_decide _); [by apply not_elem_of_nil|by apply dotdot_strip].
Qed.

(** C1: a request can only reach paths below the web root: the path that is
    served has a root directory, no name that leads upwards, and begins with
    all the names of the web root, whatever the request's path decodes to. *)
Theorem locate_confined (f : fileserv J) h q p :
  (forall s c, fs_canonical s = Ret c -> p_root c = true) ->
  locate f h q = Ret (Some p) ->
  p_root p = true /\ (dotdot ∉ p_names p) /\ below (getRoot f h) p.
Proof.
  intros Hcan. unfold locate, expand.
  destruct (fs_canonical _) as [base| | |] eqn:Eb; try done. apply Hcan in Eb.
  destruct (unescape _ _) as [relative| | |]; try done. mrun.
  set (full := lexically_normal _).
  assert (Hfull : p_root full = true /\ dotdot ∉ p_names full).
  { apply lexically_normal_rooted. unfold path_append.
    change (p_root (path_of (lit "./" ++ relative))) with false. cbv iota.
    by destruct (p_names (path_of (lit "./" ++ relative))). }
  destruct Hfull as [Hr Hd].
  set (p0 := if fs_is_directory _ then _ else _).
  assert (Hp0 : p_root p0 = true /\ dotdot ∉ p_names p0)
    by (subst p0; destruct (fs_is_directory _); [by apply append_empty_safe|done]).
  destruct Hp0 as [Hr0 Hd0]. rewrite isSubpath_below.
  case_bool_decide as Hb; [|done]. by intros [= <-].
Qed.

(** A name that stands for itself in the path of a request. *)
Definition plain_name (n : bytes) : Prop :=
  n <> [] /\ n <> lit "." /\ n <> lit ".." /\ ("/"%char ∉ n).

Lemma names_of_join names :
  names <> [] -> Forall plain_name names -> names_of (join names (lit "/")) [] = names.
Proof.
  intros Hne Hall. induction names as [|n names IH]; [done|].
  apply Forall_cons_1 in Hall as [(H1 & H2 & H3 & H4) Hall]. destruct names as [|n2 names].
  - change (join [n] (lit "/")) with (n ++ []). rewrite app_nil_r. by rewrite names_of_cur.
  - change (join (n :: n2 :: names) (lit "/")) with (n ++ "/"%char :: join (n2 :: names) (lit "/")).
    rewrite names_of_slash by done. f_equal. by apply IH.
Qed.

Lemma normal_names_plain names stack trailing rest :
  Forall plain_name names ->
  normal_names true (names ++ rest) stack trailing =
  normal_names true rest (rev names ++ stack) (if bool_decide (names = []) then trailing else false).
Proof.
  intros Hall. revert stack trailing. induction Hall as [|n names (H1 & H2 & H3 & H4) _ IH];
    intros stack trailing; [done|].
  cbn [app normal_names]. rewrite !bool_decide_false by done. cbn [orb].
  rewrite IH. cbn [rev]. rewrite <- app_assoc. f_equal. by destruct (bool_decide _).
Qed.

(** The names of a path that a normal path lies below. *)
Lemma expand_names root relative names :
  fs_canonical (path_c_str (Path true root)) = Ret (Path true root) -> Forall plain_name root ->
  unescape relative true = Ret (lit "/" ++ join names (lit "/")) ->
  names <> [] -> Forall plain_name names ->
  expand (Path true root) relative = Ret (Path true (root ++ names)).
Proof.
  intros Hc Hroot Hu Hne Hall. unfold expand. rewrite Hc, Hu. mrun. f_equal.
  assert (Hp : path_of (lit "./" ++ lit "/" ++ join names (lit "/")) = Path false (lit "." :: names)).
  { unfold path_of. change (is_prefix (lit "/") (lit "./" ++ lit "/" ++ join names (lit "/"))) with false.
    change (names_of (lit "./" ++ lit "/" ++ join names (lit "/")) [])
      with (lit "." :: names_of (join names (lit "/")) []).
    rewrite names_of_join by done. by rewrite bool_decide_false. }
  rewrite Hp. unfold path_append. cbn [p_root p_names].
  assert (Hs : strip_separator root = root).
  { unfold strip_separator. rewrite bool_decide_false; [done|]. intros Hl.
    apply last_Some_elem_of in Hl. rewrite List.Forall_forall in Hroot.
    rewrite list_elem_of_In in Hl. by destruct (Hroot _ Hl). }
  rewrite Hs. unfold lexically_normal, path_empty. cbn [p_root p_names negb andb].
  rewrite normal_names_plain by done.
  change (lit "." :: names) with ([lit "."] ++ names).
  change (normal_names true ([lit "."] ++ names) (rev root ++ [])
            (if bool_decide (root = []) then false else false))
    with (normal_names true names (rev root ++ []) true).
  rewrite <- (app_nil_r names) at 1. rewrite normal_names_plain by done.
  rewrite bool_decide_false by done. cbn [normal_names].
  by rewrite app_nil_r, rev_app_distr, !rev_involutive.
Qed.
End located.

Lemma strip_plain names : Forall plain_name names -> strip_separator names = names.
Proof.
  intros Hall. unfold strip_separator. rewrite bool_decide_false; [done|]. intros Hl.
  apply last_Some_elem_of in Hl. rewrite List.Forall_forall in Hall.
  rewrite list_elem_of_In in Hl. by destruct (Hall _ Hl).
Qed.

(** A request whose path decodes to plain names is answered with the file
    or directory of these names below the web root. *)
Theorem locate_plain {J} `{FSys : FileSystem} (f : fileserv J) h q root names :
  getRoot f h = Path true root -> root <> [] -> Forall plain_name root ->
  fs_canonical (path_c_str (Path true root)) = Ret (Path true root) ->
  names <> [] -> Forall plain_name names ->
  unescape (q_path q) true = Ret (lit "/" ++ join names (lit "/")) ->
  locate f h q = Ret (Some (Path true (root ++ names ++
    if fs_is_directory (path_c_str (Path true (root ++ names))) then [[]] else []))).
Proof.
  intros Hroot Hne Hplain Hcan Hnames Hall Hu. unfold locate. rewrite Hroot.
  rewrite (expand_names root (q_path q) names) by done. mrun.
  set (d := fs_is_directory _). rewrite isSubpath_below.
  assert (Hp : (if d then path_append (Path true (root ++ names)) empty_path
                else Path true (root ++ names)) = Path true (root ++ names ++ if d then [[]] else [])).
  { destruct d; [|by rewrite app_nil_r]. unfold path_append. cbn [p_root empty_path p_names].
    rewrite bool_decide_false by (by destruct root).
    rewrite strip_plain by (by apply Forall_app). by rewrite app_assoc. }
  rewrite Hp. rewrite bool_decide_true; [done|]. right. cbn [p_root p_names].
  split; [done|]. split; [done|]. by eexists.
Qed.

(** ** Theorems: the configuration files *)

Lemma c_str_app a b : nul ∉ a -> c_str (a ++ nul :: b) = a.
Proof.
  intros Ha. unfold c_str. rewrite find_char_app by done. simpl. by rewrite take_app_length.
Qed.

(** The path with a null byte behind its last name. *)
Definition nul_name (p : path) : path :=
  Path (p_root p) (removelast (p_names p) ++ [filename p ++ [nul]]).

Lemma join_snoc_app l x y : join (l ++ [x ++ y]) (lit "/") = join (l ++ [x]) (lit "/") ++ y.
Proof.
  destruct l as [|a l]; cbn [app join map concat]; [by rewrite !app_nil_r|].
  rewrite !map_app, !concat_app. cbn [map concat]. by rewrite !app_nil_r, <- !app_assoc.
Qed.

Lemma nul_name_c_str p :
  p_names p <> [] -> nul ∉ path_string p -> path_c_str (nul_name p) = path_c_str p.
Proof.
  intros Hne Hn. unfold path_c_str.
  assert (Hs : path_string (nul_name p) = path_string p ++ [nul]).
  { unfold path_string, nul_name. cbn [p_root p_names].
    rewrite join_snoc_app, app_assoc. f_equal. f_equal. f_equal. unfold filename.
    destruct (p_names p) as [|x l] eqn:E using rev_ind; [done|].
    by rewrite removelast_last, last_snoc. }
  rewrite Hs, c_str_app by done. unfold c_str.
  assert (find_char "000" (path_string p) = None) as -> by by apply find_char_None.
  done.
Qed.

Section config_file.
Context {J N : Type} `{JO : JsonOps J} `{NO : NetOps N} {HH : @Handlers J N} `{FSys : FileSystem}.

(** The guard of the configuration files compares names, but the system
    stops at a null byte: behind a path that ends in one, the guard lets the
    request through while every question put to the file system, and the text
    that is read, are those of the configuration file. *)
Theorem config_file_unguarded p (s : fileserv J * (HandlerArgs * (client * @world J N))) :
  filename p = lit ".algiz" -> (nul ∉ path_string p) ->
  getOption Ret s.2.2.2.1 (nul_name p) (lit "auth") = Ret None ->
  getOption Ret s.2.2.2.1 p (lit "auth") = Ret None ->
  (authFailed p s).1 <> Ret false /\
  authFailed (nul_name p) s = (Ret false, s) /\
  path_c_str (nul_name p) = path_c_str p /\ readFile (nul_name p) = readFile p /\
  extension (nul_name p) = [].
Proof.
  intros Hf Hn Ho1 Ho2.
  assert (Hne : p_names p <> []) by (intros E; unfold filename in Hf; by rewrite E in Hf).
  assert (Hname : filename (nul_name p) = lit ".algiz" ++ [nul]).
  { unfold filename at 1. unfold nul_name. cbn [p_names]. by rewrite last_snoc, Hf. }
  pose proof (nul_name_c_str p Hne Hn) as Hc.
  split; [|split; [|split; [done|split]]].
  - unfold authFailed, get_http, on_client, world in *. mrun. rewrite Ho2. cbn [fst snd].
    rewrite bool_decide_true by done.
    destruct (http_send401 s.2.2) as [[[]| | |] x]; by cbn [fst].
  - unfold authFailed, get_http, world in *. mrun. rewrite Ho1. cbn [fst snd].
    by rewrite Hname.
  - unfold readFile. by rewrite Hc.
  - unfold extension. by rewrite Hname.
Qed.
End config_file.

(** ** Theorems: what is sent *)

(** Reading inside a file gives the bytes asked for. *)
Lemma stream_read_inside contents pos buffer n :
  pos + n <= length contents ->
  stream_read contents (RStream (Z.of_nat pos) false) buffer n =
  (RStream (Z.of_nat (pos + n)) false, substr contents pos n ++ drop n buffer).
Proof.
  intros H. unfold stream_read. cbn [s_failed s_pos].
  destruct (Z.leb_spec (Z.of_nat pos) (Z.of_nat (length contents))); [|lia].
  rewrite Nat2Z.id. fold (substr contents pos n).
  assert (Hl : length (substr contents pos n) = n)
    by (unfold substr; rewrite length_take, length_drop; lia).
  rewrite Hl. rewrite (proj2 (Nat.ltb_ge n n)) by lia. do 2 f_equal. lia.
Qed.

(** Reading over the end of a file leaves the rest of the buffer as it was. *)
Lemma stream_read_over contents pos buffer n :
  pos <= length contents -> length contents < pos + n ->
  exists st, stream_read contents (RStream (Z.of_nat pos) false) buffer n =
    (st, drop pos contents ++ drop (length contents - pos) buffer).
Proof.
  intros H1 H2. unfold stream_read. cbn [s_failed s_pos].
  destruct (Z.leb_spec (Z.of_nat pos) (Z.of_nat (length contents))); [|lia].
  rewrite Nat2Z.id, take_ge by (rewrite length_drop; lia). rewrite length_drop. by eexists.
Qed.

Section sending.
Context {J N : Type} `{JO : JsonOps J} `{NO : NetOps N} `{NL : !NetLog N}
  {HH : @Handlers J N} `{FSys : FileSystem}.
Abbreviation state := (fileserv J * (HandlerArgs * (client * @world J N)))%type.
Implicit Types (f : fileserv J) (a : HandlerArgs) (c : client) (h : http_server J) (n : N).

Lemma fsend_logged message f a c h n :
  net_connected (c_id c) n -> exists n',
    fsend message ((f, (a, (c, (h, n)))) : state) = (Ret tt, (f, (a, (c, (h, n'))))) /\
    net_connected (c_id c) n' /\ net_sent (c_id c) n' = net_sent (c_id c) n ++ message.
Proof.
  intros Hc. destruct (send_to_logged message c h n Hc) as (n' & E & Hc' & S').
  exists n'. unfold fsend, on_client. cbn [fst snd]. rewrite E. cbn [fst snd]. auto.
Qed.

Lemma substr_split {A} (s : list A) (pos k m : nat) :
  take k (drop pos s) ++ take m (drop (pos + k) s) = take (k + m) (drop pos s).
Proof. by rewrite <- drop_drop, take_take_drop. Qed.

(** The loop sends exactly the part of the file it is asked for, in whatever
    pieces. *)
Lemma send_loop_sends fuel chunk remaining contents pos buffer f a c h n :
  (0 < chunk)%Z -> (0 <= remaining)%Z -> (remaining <= Z.of_nat fuel * chunk)%Z ->
  (Z.of_nat pos + remaining <= Z.of_nat (length contents))%Z ->
  net_connected (c_id c) n -> exists buffer' n',
    send_loop fuel chunk remaining contents (RStream (Z.of_nat pos) false) buffer
      ((f, (a, (c, (h, n)))) : state) =
    (Ret (RStream (Z.of_nat pos + remaining) false, buffer'), (f, (a, (c, (h, n'))))) /\
    net_connected (c_id c) n' /\
    net_sent (c_id c) n' = net_sent (c_id c) n ++ substr contents pos (Z.to_nat remaining).
Proof.
  intros Hchunk. revert remaining pos buffer n.
  assert (Hdone : forall (pos : nat) n,
    RStream (Z.of_nat pos) false = RStream (Z.of_nat pos + 0) false /\
    net_sent (c_id c) n = net_sent (c_id c) n ++ substr contents pos (Z.to_nat 0)).
  { intros pos n. rewrite Z.add_0_r. unfold substr. by rewrite take_0, app_nil_r. }
  induction fuel as [|fuel IH]; intros remaining pos buffer n Hr Hfuel Hin Hc;
    cbn [send_loop]; (destruct (Z.ltb_spec 0 remaining) as [Hpos|Hzero];
      [|assert (remaining = 0%Z) as -> by lia; destruct (Hdone pos n) as [H1 H2];
        exists buffer, n; split; [by mrun; rewrite <- H1|by split]]); [lia|].
  set (k := Z.to_nat (Z.min chunk remaining)).
  rewrite stream_read_inside by lia.
  set (piece := substr contents pos k).
  assert (Hlen : length piece = k)
    by (unfold piece, substr; rewrite length_take, length_drop; lia).
  rewrite take_app_length' by done.
  destruct (fsend_logged piece f a c h n Hc) as (n1 & E1 & Hc1 & S1).
  mrun. rewrite E1.
  destruct (IH (remaining - Z.min chunk remaining)%Z (pos + k) (piece ++ drop k buffer) n1)
    as (b' & n2 & E2 & Hc2 & S2); [lia|lia|lia|done|].
  replace (Z.of_nat (pos + k) + (remaining - Z.min chunk remaining))%Z
    with (Z.of_nat pos + remaining)%Z in E2 by lia.
  exists b', n2. rewrite E2. split; [done|]. split; [done|].
  rewrite S2, S1, <- app_assoc. f_equal. unfold piece, substr.
  rewrite substr_split. f_equal. lia.
Qed.
End sending.

Section serving.
Context {J N : Type} `{JO : JsonOps J} `{NO : NetOps N} `{NL : !NetLog N}
  {HH : @Handlers J N} `{FSys : FileSystem}.
Variable std_sort : (Z * Z -> Z * Z -> bool) -> list (Z * Z) -> outcome (list (Z * Z)).
Variable format_time : Z -> bytes.
Abbreviation state := (fileserv J * (HandlerArgs * (client * @world J N)))%type.
Implicit Types (f : fileserv J) (a : HandlerArgs) (c : client) (h : http_server J) (n : N).

Lemma send_fuel_covers chunk remaining :
  (0 < chunk)%Z -> (0 <= remaining)%Z -> (remaining <= Z.of_nat (send_fuel chunk remaining) * chunk)%Z.
Proof.
  intros Hc Hr. unfold send_fuel. rewrite Nat2Z.inj_succ, Z2Nat.id by (apply Z.div_pos; lia).
  pose proof (Z.mul_succ_div_gt remaining chunk Hc). nia.
Qed.

(** The header of a complete file. *)
Definition full_header (p : path) (modified filesize : Z) : bytes :=
  noContent (set_at (setMIME (setAcceptRanges (setLastModified (make_response 200 [])
    (format_time modified)) true) (getMIME (extension p))) (lit "content-length") (to_dec filesize)).

Lemma serveFull_logged p contents modified f a c h n :
  fs_contents (path_c_str p) = Some contents ->
  fs_file_size (path_c_str p) = Ret (Z.of_nat (length contents)) ->
  lastWritten p = Ret modified -> (0 < f_chunkSize f)%Z -> net_connected (c_id c) n ->
  exists n',
    serveFull format_time p ((f, (a, (c, (h, n)))) : state)
      = (Ret tt, (f, (a, (c, (h, n'))))) /\
    net_connected (c_id c) n' /\
    net_sent (c_id c) n' = net_sent (c_id c) n
      ++ full_header p modified (Z.of_nat (length contents)) ++ contents.
Proof.
  intros Hf Hs Hm Hc Hn.
  set (len := Z.of_nat (length contents)) in *.
  destruct (fsend_logged (full_header p modified len) f a c h n Hn) as (n1 & E1 & Hn1 & S1).
  destruct (send_loop_sends (send_fuel (f_chunkSize f) len) (f_chunkSize f) len contents 0
              (zeros (Z.min (f_chunkSize f) len)) f a c h n1)
    as (b & n2 & E2 & Hn2 & S2); [done|lia|by apply send_fuel_covers; lia|lia|done|].
  exists n2. split; [|split; [exact Hn2|]].
  - unfold serveFull, get_fileserv. mrun. rewrite Hf. cbn [fst snd]. rewrite Hs, Hm.
    fold (full_header p modified len). rewrite E1.
    change (seekg (RStream 0 false) 0) with (RStream (Z.of_nat 0) false). by rewrite E2.
  - rewrite S2, S1, <- app_assoc. do 2 f_equal. unfold substr, len.
    by rewrite Nat2Z.id, drop_0, take_ge by lia.
Qed.

(** A file is sent as a header with its type and its length, followed by
    its contents, however large it is and whatever the size of the pieces. *)
Theorem serveFull_sends p contents modified f a c h n :
  fs_contents (path_c_str p) = Some contents ->
  fs_file_size (path_c_str p) = Ret (Z.of_nat (length contents)) ->
  lastWritten p = Ret modified -> (0 < f_chunkSize f)%Z -> net_connected (c_id c) n ->
  exists n',
    serveFull format_time p ((f, (a, (c, (h, n)))) : state)
      = (Ret tt, (f, (a, (c, (h, n'))))) /\
    net_sent (c_id c) n' = net_sent (c_id c) n
      ++ full_header p modified (Z.of_nat (length contents)) ++ contents.
Proof.
  intros Hf Hs Hm Hc Hn.
  destruct (serveFull_logged p contents modified f a c h n Hf Hs Hm Hc Hn) as (n' & E & _ & S). by exists n'.
Qed.

(** The header of a single range. *)
Definition range_header (start stop modified filesize : Z) : bytes :=
  noContent (set_at (set_at (setLastModified (set_at (setAcceptRanges (make_response 206 []) true)
    (lit "content-length") (to_dec (stop - start + 1))) (format_time modified))
    (lit "content-type") [])
    (lit "content-range") (lit "bytes " ++ to_dec start ++ lit "-" ++ to_dec stop ++ lit "/"
                           ++ to_dec filesize)).

Lemma send_loop_over chunk remaining contents pos buffer f a c h n :
  (0 < remaining <= chunk)%Z -> pos <= length contents ->
  length contents < pos + Z.to_nat remaining -> length buffer = Z.to_nat remaining ->
  net_connected (c_id c) n -> exists r n',
    send_loop (send_fuel chunk remaining) chunk remaining contents
      (RStream (Z.of_nat pos) false) buffer ((f, (a, (c, (h, n)))) : state) =
    (Ret r, (f, (a, (c, (h, n'))))) /\
    net_connected (c_id c) n' /\
    net_sent (c_id c) n' = net_sent (c_id c) n ++ drop pos contents
                           ++ drop (length contents - pos) buffer.
Proof.
  intros Hr Hp Hover Hb Hc. unfold send_fuel. cbn [send_loop].
  rewrite (proj2 (Z.ltb_lt 0 remaining)), Z.min_r by lia.
  destruct (stream_read_over contents pos buffer (Z.to_nat remaining) Hp Hover) as [st Est].
  rewrite Est.
  set (piece := drop pos contents ++ drop (length contents - pos) buffer).
  assert (length piece = Z.to_nat remaining) as Hlen
    by (unfold piece; rewrite length_app, !length_drop; lia).
  rewrite take_ge by lia.
  destruct (fsend_logged piece f a c h n Hc) as (n1 & E1 & Hc1 & S1).
  mrun. rewrite E1, Z.sub_diag. exists (st, piece), n1. split; [|by split].
  by destruct (Z.to_nat (remaining / chunk)).
Qed.

(** The bytes a range stands for; past the end of the file there are zeros. *)
Definition range_bytes (contents : bytes) (start stop : Z) : bytes :=
  let part := substr contents (Z.to_nat start) (Z.to_nat (stop - start + 1)) in
  part ++ zeros (stop - start + 1 - Z.of_nat (length part)).

Lemma drop_zeros k (z : Z) : drop k (zeros z) = zeros (z - Z.of_nat k).
Proof.
  unfold zeros. replace (Z.to_nat (z - Z.of_nat k)) with (Z.to_nat z - k) by lia.
  generalize (Z.to_nat z). induction k as [|k IH]; intros [|m]; try done. apply IH.
Qed.

(** C34: a request for one range is answered with the header of that range and
    the bytes of the file from its start to its end, both included, whatever
    the size of the pieces.  The end may be the size of the file, one byte too
    many: what is sent then, in a range that fits one piece, ends in a zero
    byte that is not in the file. *)
Theorem serveRange_single p contents modified start stop f q parts c h n :
  q_ranges q = [(start, stop)] -> q_suffixLength q = 0%Z ->
  std_sort range_less [(start, stop)] = Ret [(start, stop)] ->
  fs_contents (path_c_str p) = Some contents ->
  fs_file_size (path_c_str p) = Ret (Z.of_nat (length contents)) ->
  lastWritten p = Ret modified -> (0 < f_chunkSize f)%Z -> net_connected (c_id c) n ->
  (0 <= start <= stop)%Z -> (stop <= Z.of_nat (length contents) < SIZE_MAX)%Z ->
  (stop < Z.of_nat (length contents) \/ stop - start + 1 <= f_chunkSize f)%Z ->
  exists n',
    serveRange std_sort format_time p ((f, (MkHandlerArgs q parts, (c, (h, n)))) : state)
      = (Ret tt, (f, (MkHandlerArgs q parts, (c, (h, n'))))) /\
    net_sent (c_id c) n' = net_sent (c_id c) n
      ++ range_header start stop modified (Z.of_nat (length contents))
      ++ range_bytes contents start stop.
Proof.
  intros Hq Hsuf Hsort Hf Hs Hm Hc Hn Hstart Hstop Hfit.
  set (len := Z.of_nat (length contents)) in *.
  set (a := MkHandlerArgs q parts).
  set (header := range_header start stop modified len).
  assert (Hlen : range_length (start, stop) = (stop - start + 1)%Z)
    by (apply wrap64_small; cbn [fst snd]; unfold SIZE_MAX in Hstop; lia).
  set (r := (stop - start + 1)%Z) in *.
  destruct (fsend_logged header f a c h n Hn) as (n1 & E1 & Hn1 & S1).
  assert (exists st n2,
    send_loop (send_fuel (f_chunkSize f) r) (f_chunkSize f) r contents (RStream start false)
      (zeros (Z.min (f_chunkSize f) r)) ((f, (a, (c, (h, n1)))) : state)
    = (Ret st, (f, (a, (c, (h, n2))))) /\
    net_sent (c_id c) n2 = net_sent (c_id c) n1 ++ range_bytes contents start stop)
    as (st & n2 & E2 & S2).
  { rewrite <- (Z2Nat.id start) by lia. unfold range_bytes. fold r.
    destruct (Z.lt_ge_cases stop len) as [Hin|Hover].
    - destruct (send_loop_sends (send_fuel (f_chunkSize f) r) (f_chunkSize f) r contents
                  (Z.to_nat start) (zeros (Z.min (f_chunkSize f) r)) f a c h n1)
        as (b & n2 & E2 & Hn2 & S2); [done|lia|by apply send_fuel_covers; lia|lia|done|].
      eexists _, n2. split; [exact E2|]. rewrite S2. f_equal. rewrite Nat2Z.id.
      replace (stop - Z.of_nat (Z.to_nat start) + 1)%Z with r by lia.
      set (part := substr contents _ _).
      assert (length part = Z.to_nat r) as ->
        by (unfold part, substr; rewrite length_take, length_drop; lia).
      replace (r - Z.of_nat (Z.to_nat r))%Z with 0%Z by lia.
      by rewrite app_nil_r.
    - destruct (send_loop_over (f_chunkSize f) r contents (Z.to_nat start)
                  (zeros (Z.min (f_chunkSize f) r)) f a c h n1)
        as (st & n2 & E2 & Hn2 & S2); [lia|lia|lia| |done|].
      { unfold zeros. rewrite repeat_length. lia. }
      exists st, n2. split; [exact E2|]. rewrite S2. f_equal. rewrite Nat2Z.id.
      replace (stop - Z.of_nat (Z.to_nat start) + 1)%Z with r by lia.
      unfold substr. rewrite take_ge by (rewrite length_drop; lia).
      f_equal. rewrite drop_zeros, length_drop. f_equal. lia. }
  exists n2. split; [|by rewrite S2, S1, <- app_assoc].
  unfold serveRange, get_fileserv, get_request, set_args_request. mrun. cbn [fst snd a_request a_parts a].
  fold a. rewrite Hs.
  assert (Hvalid : valid std_sort len q = Ret (true, q)).
  { rewrite (valid_one std_sort len start stop q) by (done || unfold SIZE_MAX in Hstop; lia).
    rewrite Hsuf. by rewrite (proj2 (Z.leb_le _ _)) by lia. }
  rewrite Hvalid. cbn [fst snd negb]. rewrite Hf, Hm, Hq, Hsuf. cbn [foldl].
  rewrite Hlen, Z.add_0_l, (wrap64_small r) by (unfold SIZE_MAX in Hstop; lia).
  rewrite bool_decide_true by done. cbn [negb fst snd].
  fold r. change (noContent _) with header. fold a. unfold world in *. rewrite E1.
  cbn [send_ranges]. unfold send_start. mrun. cbn [seekg s_failed]. rewrite Hlen. 
  rewrite E2. cbn [fst snd Z.eqb negb]. done.
Qed.
End serving.

(** ** Theorems: the guards of a handler *)

Section guards.
Context {J N : Type} `{JO : JsonOps J} `{NO : NetOps N} `{NL : !NetLog N}
  {HH : @Handlers J N} `{FSys : FileSystem}.
Variable sha1 : bytes -> bytes.
Variable std_sort : (Z * Z -> Z * Z -> bool) -> list (Z * Z) -> outcome (list (Z * Z)).
Variable format_time : Z -> bytes.
Variable renderTemplate : bytes -> option (gmap bytes bytes) -> outcome bytes.
Abbreviation state := (fileserv J * (HandlerArgs * (client * @world J N)))%type.
Variable module_function : Z -> path -> M state ().
Variable dlopen : path -> option Z.
Variable dlsym : Z -> option Z.
Variable now : Z.
Variable mkstemps : option bytes.
Variable preprocess_module : path -> outcome bytes.
Variable write_ok : bool.
Variable run_command : list bytes -> Z * Z * bytes.
Variable what : exn -> bytes.
Implicit Types (f : fileserv J) (a : HandlerArgs) (c : client) (h : http_server J) (n : N).

(** The handler in an executable that replaces no check. *)
Let handler : M state CancelableResult :=
  Fileserv_handleGET sha1 std_sort format_time renderTemplate (fun _ => None) module_function
    dlopen dlsym now mkstemps preprocess_module write_ok run_command what true.

(** What the configuration of a directory asks for. *)
Record protected_by (auth : J) (username password realm : bytes) : Prop := {
  auth_username u : json_at auth (lit "username") = Ret u -> json_get_string u = Ret username;
  auth_has_username : exists u, json_at auth (lit "username") = Ret u;
  auth_password u : json_at auth (lit "password") = Ret u -> json_get_string u = Ret password;
  auth_has_password : exists u, json_at auth (lit "password") = Ret u;
  auth_realm : (if json_contains auth (lit "realm") then
                  r ← json_at auth (lit "realm"); json_get_string r
                else Ret []) = Ret realm;
}.

(** The first response to a request without the credentials. *)
Definition challenge (r : AuthenticationResult) (realm : bytes) : bytes :=
  render (if bool_decide (r = AuthMissing) then
            set_at (make_response 401 (lit "Unauthorized")) (lit "www-authenticate")
              (lit "Basic realm=" ++ [dquote] ++ escapeQuotes realm ++ [dquote])
          else make_response 401 (lit "Unauthorized")).

Lemma check_credentials_refuses auth username password realm r f q parts c h n :
  protected_by auth username password realm ->
  checkAuthentication q username password = Ret r -> r <> AuthSuccess ->
  net_connected (c_id c) n -> exists n',
    check_credentials auth ((f, (MkHandlerArgs q parts, (c, (h, n)))) : state)
      = (Ret true, (f, (MkHandlerArgs q parts, (c, (h, n'))))) /\
    net_connected (c_id c) n' /\
    net_sent (c_id c) n' = net_sent (c_id c) n ++ challenge r realm.
Proof.
  intros [Hu [u Eu] Hp [p Ep] Hr] Hauth Hne Hc.
  destruct (fsend_logged (challenge r realm) f (MkHandlerArgs q parts) c h n Hc)
    as (n' & E & Hc' & S'). exists n'. split; [|by split].
  unfold check_credentials, get_request. mrun. cbn [fst snd a_request].
  rewrite Eu, (Hu _ Eu), Ep, (Hp _ Ep), Hauth.
  unfold challenge in E. case_bool_decide as Hmiss.
  - destruct (json_contains auth (lit "realm")).
    + revert Hr. mrun. destruct (json_at auth (lit "realm")); try done. intros ->.
      unfold fsend in E. unfold http_send401_realm. by rewrite E.
    + revert Hr. mrun. intros [= <-]. unfold fsend in E. unfold http_send401_realm. by rewrite E.
  - rewrite bool_decide_false by done. cbn [negb]. unfold fsend in E. unfold http_send401.
    by rewrite E.
Qed.

(** C2: a request for a path whose directory asks for credentials, and which
    does not carry them, never reaches the file: the handler kills the event,
    and all the client is sent are two responses with the code 401, the one of
    the check and a second one of the filter behind it. *)
Theorem handleGET_unauthorized p auth username password realm r f q parts c h n :
  hostMatches f q = true -> locate f h q = Ret (Some p) ->
  getOption Ret h p (lit "auth") = Ret (Some auth) ->
  protected_by auth username password realm ->
  checkAuthentication q username password = Ret r -> r <> AuthSuccess ->
  q_keepAlive (c_request c) = true -> net_connected (c_id c) n ->
  exists n',
    handler ((f, (MkHandlerArgs q parts, (c, (h, n)))) : state)
      = (Ret CKill, (f, (MkHandlerArgs q parts, (c, (h, n'))))) /\
    net_sent (c_id c) n' = net_sent (c_id c) n ++ challenge r realm
      ++ render (make_response 401 (lit "Unauthorized")).
Proof.
  intros Hh Hl Ho Hp Ha Hne Hk Hc.
  destruct (check_credentials_refuses auth username password realm r f q parts c h n Hp Ha Hne Hc)
    as (n1 & E1 & Hc1 & S1).
  destruct (fsend_logged (render (make_response 401 (lit "Unauthorized"))) f
              (MkHandlerArgs q parts) c h n1 Hc1) as (n2 & E2 & Hc2 & S2).
  exists n2. split; [|by rewrite S2, S1, <- app_assoc].
  unfold handler, Fileserv_handleGET, get_fileserv, get_request, get_http, world in *. mrun.
  cbn [fst snd a_request negb]. rewrite Hh, Hl. cbn [negb].
  unfold filter, doFilter, authFailed, get_http, world in *. mrun. cbn [fst snd]. rewrite Ho.
  revert E1. mrun. intros ->. cbn [negb].
  rewrite E2. unfold client_close, on_client, Client.close, get_client. mrun. cbn [fst snd negb].
  by rewrite Hk.
Qed.

(** A file that is served as it is: no credentials are asked for, it is neither a
    configuration nor hidden, nor a template, and modules are disabled. *)
Record plain_file (f : fileserv J) (h : http_server J) (p : path) (contents : bytes) (modified : Z) : Prop := {
  plain_auth : getOption Ret h p (lit "auth") = Ret None;
  plain_modules : f_enableModules f = false;
  plain_enable : exists o, getOption json_get_bool h p (lit "enableModules") = Ret o /\ default false o = false;
  plain_nodot : exists o, getOption json_get_bool h p (lit "nodot") = Ret o /\
    default false o && starts_with_dot p = false;
  plain_config : filename p <> lit ".algiz";
  plain_template : extension p <> lit ".t";
  plain_regular : fs_is_regular_file (path_c_str p) = true;
  plain_contents : fs_contents (path_c_str p) = Some contents;
  plain_size : fs_file_size (path_c_str p) = Ret (Z.of_nat (length contents));
  plain_written : lastWritten p = Ret modified;
}.

Lemma filter_plain p contents modified f a c h n :
  plain_file f h p contents modified ->
  filter (fun _ => None) p ((f, (a, (c, (h, n)))) : state) = (Ret true, (f, (a, (c, (h, n))))).
Proof.
  intros Hp. destruct (plain_enable _ _ _ _ _ Hp) as (o & Ho & Hd).
  unfold filter, doFilter, authFailed, module_filter, getModulesEnabled, get_http, get_fileserv, world in *. mrun.
  cbn [fst snd]. rewrite (plain_auth _ _ _ _ _ Hp). rewrite bool_decide_false by apply Hp. cbn [negb fst snd].
  rewrite (plain_modules _ _ _ _ _ Hp). cbn [fst snd]. by rewrite Ho, Hd.
Qed.

Lemma serve_path_plain p contents modified f q parts c h n :
  plain_file f h p contents modified -> q_ranges q = [] -> q_suffixLength q = 0%Z ->
  serve_path std_sort format_time renderTemplate module_function dlopen dlsym now mkstemps
    preprocess_module write_ok run_command what p None ((f, (MkHandlerArgs q parts, (c, (h, n)))) : state)
  = serveFull format_time p (f, (MkHandlerArgs q parts, (c, (h, n)))).
Proof.
  intros Hp Hr Hs. destruct (plain_enable _ _ _ _ _ Hp) as (o & Ho & Hd).
  unfold serve_path. rewrite bool_decide_false by apply Hp.
  unfold shouldServeModule, getModulesEnabled, get_http, get_fileserv, get_request, hackRanges, world in *. mrun.
  cbn [fst snd]. rewrite (plain_modules _ _ _ _ _ Hp). cbn [fst snd]. rewrite Ho, Hd. cbn [negb fst snd a_request].
  rewrite Hr. cbn [fst snd a_parts]. rewrite Hr, Hs. done.
Qed.

(** A GET for a plain file sends the header and the contents, and closes. *)
Lemma handleGET_plain p contents modified f q parts c h n :
  hostMatches f q = true -> locate f h q = Ret (Some p) -> plain_file f h p contents modified ->
  q_ranges q = [] -> q_suffixLength q = 0%Z -> (0 < f_chunkSize f)%Z -> net_connected (c_id c) n ->
  exists n',
    net_connected (c_id c) n' /\
    net_sent (c_id c) n' = net_sent (c_id c) n
      ++ full_header format_time p modified (Z.of_nat (length contents)) ++ contents /\
    forall s', client_close sha1 ((f, (MkHandlerArgs q parts, (c, (h, n')))) : state) = (Ret tt, s') ->
      handler ((f, (MkHandlerArgs q parts, (c, (h, n)))) : state) = (Ret CApprove, s').
Proof.
  intros Hh Hl Hp Hr Hs Hchunk Hc.
  destruct (serveFull_logged format_time p contents modified f (MkHandlerArgs q parts) c h n)
    as (n' & E & Hc' & S); [apply Hp..|done|done|].
  exists n'. split; [done|]. split; [done|]. intros s' Hclose.
  destruct (plain_nodot _ _ _ _ _ Hp) as (o & Ho & Hd).
  pose proof (filter_plain p contents modified f (MkHandlerArgs q parts) c h n Hp) as Hf.
  pose proof (serve_path_plain p contents modified f q parts c h n Hp Hr Hs) as Hserve. rewrite E in Hserve.
  unfold handler, Fileserv_handleGET, get_fileserv, get_request, get_http, findPath, world in *. mrun.
  cbn [fst snd a_request negb]. rewrite Hh, Hl. cbn [negb].
  revert Hf. mrun. intros ->. cbn [negb fst snd]. rewrite Ho, Hd.
  rewrite (plain_regular _ _ _ _ _ Hp). unfold respond. mrun. revert Hserve. mrun. intros ->.
  revert Hclose. mrun. by intros ->.
Qed.

(** A file server whose own root is not below the root of the HTTP server
    answers no request: the look-up of the directory's options throws, and the
    exception leaves the handler. *)
Theorem handleGET_foreign_root p f q parts c h n :
  hostMatches f q = true -> locate f h q = Ret (Some p) ->
  ~ below (h_webRoot h) p ->
  exists text,
    handler ((f, (MkHandlerArgs q parts, (c, (h, n)))) : state)
      = (Throw (InvalidArgument text), (f, (MkHandlerArgs q parts, (c, (h, n))))).
Proof.
  intros Hh Hl Hb. eexists.
  unfold handler, Fileserv_handleGET, get_fileserv, get_request, get_http, world in *. mrun.
  cbn [fst snd a_request negb]. rewrite Hh, Hl. cbn [negb].
  unfold filter, doFilter, authFailed, get_http, world in *. mrun. cbn [fst snd].
  unfold getOption. rewrite isSubpath_below, bool_decide_false by done. mrun. reflexivity.
Qed.

(** A module whose object is newer than its source is run from the cache, whatever
    the object has become since it was loaded: the file server of another server
    may have compiled it again. *)
Lemma serveModule_from_cache full_path it (f : fileserv J) (s : HandlerArgs * (client * @world J N)) :
  let object := replace_extension full_path (extension full_path ++ lit ".so") in
  fs_exists (path_c_str object) = true -> isNewerThan full_path object = Ret false ->
  m_items (f_moduleCache f) !! object = Some it ->
  exists f', serveModule module_function dlopen dlsym now mkstemps preprocess_module write_ok run_command what
      full_path (f, s) = module_function (i_function it) full_path (f', s).
Proof.
  intros object He Hn Hit. eexists. unfold serveModule. fold object. rewrite He, Hn. cbn [negb]. mrun.
  unfold on_cache. cbn [fst snd]. unfold cache_get. mrun. rewrite Hit. reflexivity.
Qed.
End guards.

(** ** Witnesses *)

(** Values of the JSON library that the examples need. *)
Inductive ejson := EStr (s : bytes) | EObj (l : list (bytes * ejson)).

Fixpoint member (l : list (bytes * ejson)) (name : bytes) : option ejson :=
  match l with
  | [] => None
  | (k, v) :: r => if bool_decide (k = name) then Some v else member r name
  end.

Definition at_name (j : ejson) (name : bytes) : outcome ejson :=
  match j with
  | EObj l => match member l name with Some v => Ret v | None => Throw JsonOutOfRange end
  | EStr _ => Throw JsonError
  end.
Definition text_of (j : ejson) : outcome bytes :=
  match j with EStr s => Ret s | EObj _ => Throw JsonError end.

#[local] Instance ejson_ops : JsonOps ejson := {
  json_parse := fun _ => None;
  json_contains := fun j name => match at_name j name with Ret _ => true | _ => false end;
  json_at := at_name;
  json_get_bool := fun j => s ← text_of j; Ret (bool_decide (s = lit "true"));
  json_get_size := fun j => s ← text_of j; parseUlong_view s;
  json_get_string := text_of;
  json_get_strings := fun j => s ← text_of j; Ret [s];
  json_is_string := fun j => match j with EStr _ => true | _ => false end;
  json_is_array := fun _ => false;
}.

(** A web root with one page and a configuration. *)
Definition example_contents (s : bytes) : option bytes :=
  if bool_decide (s = lit "/srv/www/a.txt") then Some (lit "hello")
  else if bool_decide (s = lit "/srv/www/.algiz") then Some (lit "secret")
  else None.

#[local] Instance example_files : FileSystem := {
  fs_is_regular_file := fun s => bool_decide (is_Some (example_contents s));
  fs_is_directory := fun s => bool_decide (s = lit "/srv/www");
  fs_exists := fun s => bool_decide (is_Some (example_contents s));
  fs_contents := example_contents;
  fs_file_size := fun s => match example_contents s with
                           | Some c => Ret (Z.of_nat (length c))
                           | None => Throw FilesystemError
                           end;
  fs_permissions := fun _ => Ret 8%Z;
  fs_stat := fun _ => Some (1001, 7)%Z;
  fs_last_write_time := fun _ => Ret 0%Z;
  fs_canonical := fun s => Ret (Path true (p_names (path_of s)));
  sys_getuid := 1000;
  sys_getpwuid := fun _ => Some (lit "www", 50)%Z;
  sys_getgrgid := fun _ => Some [lit "root"; lit "www"];
}.

#[local] Instance no_handlers : @Handlers ejson (list bytes) := {
  lock_handler := fun _ _ => None;
  lock_connection := fun _ _ => None;
  lock_message := fun _ _ => None;
  lock_close := fun _ _ => None;
  handler_live := fun _ => None;
}.

Definition example_server (config : list (bytes * ejson)) : http_server ejson :=
  HttpServer (EObj []) (path_of (lit "/srv/www")) [] [] [] ∅ ∅
    {[ path_of (lit "/srv/www") := EObj config ]}.

Definition example_fileserv (root : option path) : fileserv ejson :=
  Fileserv None root false 4 (EObj []) (Cache 64 ∅ []) [].

Definition get_of (target : bytes) : request := set_path target new_request.

Lemma locate_confined_witness :
  locate (example_fileserv None) (example_server []) (get_of (lit "/x/../a.txt"))
    = Ret (Some (path_of (lit "/srv/www/a.txt"))) /\
  below (path_of (lit "/srv/www")) (path_of (lit "/srv/www/a.txt")).
Proof.
  assert (E : locate (example_fileserv None) (example_server []) (get_of (lit "/x/../a.txt"))
              = Ret (Some (path_of (lit "/srv/www/a.txt")))) by (vm_compute; reflexivity).
  destruct (locate_confined (example_fileserv None) (example_server [])
              (get_of (lit "/x/../a.txt")) (path_of (lit "/srv/www/a.txt")))
    as (_ & _ & H).
  - intros s c [= <-]. reflexivity.
  - exact E.
  - split; [exact E|exact H].
Defined.

Lemma locate_plain_witness :
  locate (example_fileserv None) (example_server []) (get_of (lit "/%61.txt"))
  = Ret (Some (path_of (lit "/srv/www/a.txt"))).
Proof.
  refine (locate_plain (example_fileserv None) (example_server []) (get_of (lit "/%61.txt"))
            [lit "srv"; lit "www"] [lit "a.txt"] eq_refl _ _ eq_refl _ _ _).
  - discriminate.
  - refine (bool_decide_unpack _ _). vm_compute. exact I.
  - discriminate.
  - refine (bool_decide_unpack _ _). vm_compute. exact I.
  - vm_compute. reflexivity.
Defined.

Definition run_state (f : fileserv ejson) (config : list (bytes * ejson)) (q : request)
    : fileserv ejson * (HandlerArgs * (client * @world ejson (list bytes))) :=
  (f, (MkHandlerArgs q [], (new_client 3 [], (example_server config, [])))).

Lemma config_file_unguarded_witness :
  locate (example_fileserv None) (example_server []) (get_of (lit "/.algiz%00"))
    = Ret (Some (nul_name (path_of (lit "/srv/www/.algiz")))) /\
  authFailed (nul_name (path_of (lit "/srv/www/.algiz")))
    (run_state (example_fileserv None) [] (get_of (lit "/.algiz%00")))
  = (Ret false, run_state (example_fileserv None) [] (get_of (lit "/.algiz%00"))) /\
  readFile (nul_name (path_of (lit "/srv/www/.algiz"))) = Ret (lit "secret").
Proof.
  destruct (config_file_unguarded (path_of (lit "/srv/www/.algiz"))
              (run_state (example_fileserv None) [] (get_of (lit "/.algiz%00"))))
    as (_ & H1 & _ & H2 & _).
  - vm_compute. reflexivity.
  - refine (bool_decide_unpack _ _). vm_compute. exact I.
  - vm_compute. reflexivity.
  - vm_compute. reflexivity.
  - split; [vm_compute; reflexivity|]. split; [exact H1|]. rewrite H2. vm_compute. reflexivity.
Defined.

Lemma serveFull_sends_witness :
  exists n', serveFull (fun _ => lit "now") (path_of (lit "/srv/www/a.txt"))
      (run_state (example_fileserv None) [] new_request)
    = (Ret tt, (example_fileserv None, (MkHandlerArgs new_request [],
        (new_client 3 [], (example_server [], n'))))) /\
    net_sent 3 n' = full_header (fun _ => lit "now") (path_of (lit "/srv/www/a.txt")) 0 5
                    ++ lit "hello".
Proof.
  exact (serveFull_sends (fun _ => lit "now") (path_of (lit "/srv/www/a.txt")) (lit "hello") 0
           (example_fileserv None) (MkHandlerArgs new_request []) (new_client 3 [])
           (example_server []) [] eq_refl eq_refl eq_refl eq_refl I).
Defined.

(** One byte past the end of the file. *)
Lemma serveRange_single_witness :
  let q := set_ranges [(2, 5)]%Z new_request in
  exists n', serveRange (fun _ l => Ret l) (fun _ => lit "now") (path_of (lit "/srv/www/a.txt"))
      (run_state (example_fileserv None) [] q)
    = (Ret tt, (example_fileserv None, (MkHandlerArgs q [],
        (new_client 3 [], (example_server [], n'))))) /\
    net_sent 3 n' = range_header (fun _ => lit "now") 2 5 0 5 ++ (lit "llo" ++ [nul]).
Proof.
  refine (serveRange_single (fun _ l => Ret l) (fun _ => lit "now") (path_of (lit "/srv/www/a.txt"))
            (lit "hello") 0 2 5 (example_fileserv None) (set_ranges [(2, 5)]%Z new_request) []
            (new_client 3 []) (example_server []) [] eq_refl eq_refl eq_refl eq_refl eq_refl
            eq_refl eq_refl I _ _ _).
  - lia.
  - split; [vm_compute; discriminate|vm_compute; reflexivity].
  - right. vm_compute. discriminate.
Defined.

Definition example_auth : ejson :=
  EObj [(lit "username", EStr (lit "me")); (lit "password", EStr (lit "pw"))].

Lemma example_protected : protected_by example_auth (lit "me") (lit "pw") [].
Proof.
  constructor.
  - by intros u [= <-].
  - by eexists.
  - by intros u [= <-].
  - by eexists.
  - vm_compute. reflexivity.
Qed.

Lemma handleGET_unauthorized_witness :
  exists n',
    Fileserv_handleGET id (fun _ l => Ret l) (fun _ => []) (fun _ _ => Ret []) (fun _ => None)
      (fun _ _ => mret tt) (fun _ => None) (fun _ => None) 0 None (fun _ => Ret []) true
      (fun _ => (0, 0, [])%Z) (fun _ => []) true
      (run_state (example_fileserv None) [(lit "auth", example_auth)] (get_of (lit "/a.txt")))
    = (Ret CKill, (example_fileserv None, (MkHandlerArgs (get_of (lit "/a.txt")) [],
        (new_client 3 [], (example_server [(lit "auth", example_auth)], n'))))) /\
    net_sent 3 n' = challenge AuthMissing [] ++ render (make_response 401 (lit "Unauthorized")).
Proof.
  refine (handleGET_unauthorized id (fun _ l => Ret l) (fun _ => []) (fun _ _ => Ret [])
            (fun _ _ => mret tt) (fun _ => None) (fun _ => None) 0 None (fun _ => Ret []) true
            (fun _ => (0, 0, [])%Z) (fun _ => []) (path_of (lit "/srv/www/a.txt")) example_auth
            (lit "me") (lit "pw") [] AuthMissing (example_fileserv None) (get_of (lit "/a.txt")) []
            (new_client 3 []) (example_server [(lit "auth", example_auth)]) []
            _ _ _ example_protected _ _ _ I).
  - vm_compute. reflexivity.
  - vm_compute. reflexivity.
  - vm_compute. reflexivity.
  - vm_compute. reflexivity.
  - discriminate.
  - vm_compute. reflexivity.
Defined.

Lemma handleGET_foreign_root_witness :
  exists text,
    (Fileserv_handleGET id (fun _ l => Ret l) (fun _ => []) (fun _ _ => Ret []) (fun _ => None)
      (fun _ _ => mret tt) (fun _ => None) (fun _ => None) 0 None (fun _ => Ret []) true
      (fun _ => (0, 0, [])%Z) (fun _ => []) true
      (run_state (example_fileserv (Some (path_of (lit "/data")))) [] (get_of (lit "/a.txt")))).1
    = Throw (InvalidArgument text).
Proof.
  destruct (handleGET_foreign_root id (fun _ l => Ret l) (fun _ => []) (fun _ _ => Ret [])
            (fun _ _ => mret tt) (fun _ => None) (fun _ => None) 0 None (fun _ => Ret []) true
            (fun _ => (0, 0, [])%Z) (fun _ => []) (path_of (lit "/data/a.txt"))
            (example_fileserv (Some (path_of (lit "/data")))) (get_of (lit "/a.txt")) []
            (new_client 3 []) (example_server []) ([] : list bytes)) as [text H].
  - vm_compute. reflexivity.
  - vm_compute. reflexivity.
  - refine (bool_decide_unpack _ _). vm_compute. exact I.
  - exists text. exact (f_equal fst H).
Defined.
