(* ===== verification/GeoIP.v ===== *)
(** * Countries of addresses

    [src/util/GeoIP.cpp], [src/net/GenericClient.cpp] and
    [src/plugins/countryfilter/CountryFilter.cpp]: the look-up of an address in
    a database with its cache, the description of a client, and the filter of
    connections by country.  The database is a library, [GeoDatabase]. *)

From Stdlib Require Import ZArith Lia Ascii String.
From stdpp Require Import base tactics option list strings gmap.
From S2P Require Import Prelude NetServer.

(** The database: opened from a file, asked for the record of an address, and
    a record for a country's name. *)
Class GeoDatabase (Db R : Type) := {
  open_db : bytes -> outcome Db;
  lookup_raw : Db -> bytes -> outcome R;
  get_field : Db -> R -> outcome bytes;
}.

(** The library only returns or throws. *)
Definition defined {A} (o : outcome A) : Prop :=
  match o with Ret _ | Throw _ => True | _ => False end.
Class GeoLaws (Db R : Type) `{GeoDatabase Db R} := {
  lookup_raw_defined db ip : defined (lookup_raw db ip);
  get_field_defined db r : defined (get_field db r);
}.

Section geoip.
Context {Db R : Type} `{GD : GeoDatabase Db R}.

Record geoip := MkGeoIP { g_valid : bool; g_db : option Db; g_results : gmap bytes R }.

(** [GeoIP::get()]; the state is the singleton. *)
Definition get_geoip : M (option geoip) geoip :=
  s ← get;
  match s with
  | Some g => mret g
  | None => let g := MkGeoIP false None ∅ in put (Some g) ;; mret g
  end.

(** [GeoIP::get(path)]; [std::optional::emplace] is empty when the constructor throws. *)
Definition get_path (database_path : bytes) : M (option geoip) geoip :=
  s ← get;
  match s with
  | Some (MkGeoIP true db results) => mret (MkGeoIP true db results)
  | _ =>
    put None ;;
    db ← lift (open_db database_path);
    let g := MkGeoIP true (Some db) ∅ in put (Some g) ;; mret g
  end.

(** [getCountry] of the singleton. *)
Definition getCountry (ip : bytes) : M (option geoip) bytes :=
  s ← get;
  match s with
  | Some (MkGeoIP valid (Some db) results) =>
    r ← match results !! ip with
        | Some r => mret r
        | None =>
          let results := if 4096 <? size results then ∅ else results in
          put (Some (MkGeoIP valid (Some db) results)) ;;
          r ← lift (lookup_raw db ip);
          put (Some (MkGeoIP valid (Some db) (<[ip := r]> results))) ;;
          mret r
        end;
    lift (get_field db r)
  | _ => undefined
  end.

(** [GenericClient::describe]; [what] is the text of an exception. *)
Definition describe (what : exn -> bytes) (ip : bytes) : M (option geoip) bytes :=
  g ← get_geoip;
  if negb (g_valid g) then mret ip
  else
    catch (country ← getCountry ip; mret (ip ++ lit " (" ++ country ++ lit ")"))
      (fun e => Some (mret (ip ++ lit " (?: " ++ what e ++ lit ")"))).

(** ** The country filter *)

Record country_filter := CountryFilter {
  cf_whitelist : option (gset bytes);
  cf_blacklist : option (gset bytes);
  cf_message : option bytes;
}.

Definition allowed (f : country_filter) (country : bytes) : bool :=
  match cf_whitelist f with Some l => bool_decide (country ∈ l) | None => true end &&
  match cf_blacklist f with Some l => negb (bool_decide (country ∈ l)) | None => true end.

(** The state is the singleton and what has been written to descriptors. *)
Abbreviation filter_state := (option geoip * list (Z * bytes))%type.
Definition on_geoip {A} (m : M (option geoip) A) : M filter_state A := fun s =>
  let '(r, g) := m s.1 in (r, (g, s.2)).

Definition filter_client (f : country_filter) (ip : bytes) (fd : Z) : M filter_state bool :=
  geo ← on_geoip get_geoip;
  if g_valid geo then
    country ← catch (on_geoip (getCountry ip)) (fun _ => Some (mret (lit "Unknown")));
    if allowed f country then mret true
    else
      match cf_message f with
      | Some message => modify (fun s => (s.1, s.2 ++ [(fd, message)]))
      | None => mret tt
      end ;;
      mret false
  else mret true.

(** ** Theorems *)

(** The answer without a cache. *)
Definition country_of (db : Db) (ip : bytes) : outcome bytes :=
  r ← lookup_raw db ip; get_field db r.

(** The cache holds records of the database only, and not too many. *)
Definition cache_ok (db : Db) (results : gmap bytes R) : Prop :=
  (forall ip r, results !! ip = Some r -> lookup_raw db ip = Ret r) /\ size results <= 4097.
Definition geo_ok (s : option geoip) : Prop :=
  match s with
  | Some (MkGeoIP true db results) => exists d, db = Some d /\ cache_ok d results
  | _ => True
  end.

Lemma cache_ok_insert db results ip r :
  cache_ok db results -> lookup_raw db ip = Ret r -> results !! ip = None ->
  cache_ok db (<[ip := r]> (if 4096 <? size results then ∅ else results)).
Proof.
  intros [Hr Hs] Hl Hn. split.
  - intros ip' r' H. destruct (4096 <? size results);
      (destruct (decide (ip' = ip)) as [->|Hne];
       [rewrite lookup_insert_eq in H; congruence|rewrite lookup_insert_ne in H by done]).
    + by rewrite lookup_empty in H.
    + by apply Hr.
  - destruct (Nat.ltb_spec 4096 (size results)).
    + rewrite map_size_insert_None by apply lookup_empty. rewrite map_size_empty. lia.
    + rewrite map_size_insert_None by done. lia.
Qed.

Lemma cache_ok_cleared db results :
  cache_ok db results -> cache_ok db (if 4096 <? size results then ∅ else results).
Proof.
  intros H. destruct (_ <? _); [|done]. split; [|rewrite map_size_empty; lia].
  intros ip r Hr. by rewrite lookup_empty in Hr.
Qed.

Lemma getCountry_spec db results ip :
  cache_ok db results -> exists results',
    getCountry ip (Some (MkGeoIP true (Some db) results)) =
      (country_of db ip, Some (MkGeoIP true (Some db) results')) /\ cache_ok db results'.
Proof.
  intros Hok. unfold getCountry, country_of. mrun. destruct (results !! ip) as [r|] eqn:E.
  - rewrite (proj1 Hok _ _ E). by exists results.
  - pose proof (cache_ok_cleared db results Hok) as Hc.
    destruct (lookup_raw db ip) as [r| | |] eqn:El; try by eexists.
    eexists. split; [done|]. by apply cache_ok_insert.
Qed.

Lemma filter_spec f ip fd db results out `{!GeoLaws Db R} :
  cache_ok db results -> exists results',
    let country := match country_of db ip with Ret c => c | _ => lit "Unknown" end in
    filter_client f ip fd (Some (MkGeoIP true (Some db) results), out) =
      (Ret (allowed f country),
       (Some (MkGeoIP true (Some db) results'),
        out ++ if allowed f country then []
               else match cf_message f with Some m => [(fd, m)] | None => [] end)) /\
    cache_ok db results'.
Proof.
  intros Hok. destruct (getCountry_spec db results ip Hok) as (results' & E & Hok').
  exists results'. split; [|done]. unfold filter_client, on_geoip, get_geoip. mrun. cbn [fst snd g_valid].
  rewrite E. assert (Hd : defined (country_of db ip)).
  { unfold country_of. pose proof (lookup_raw_defined db ip) as H.
    destruct (lookup_raw db ip); try done. apply get_field_defined. }
  destruct (country_of db ip) as [c|e| |]; try done; cbn [fst snd];
    destruct (allowed f _); rewrite ?app_nil_r; try done; destruct (cf_message f);
    by rewrite ?app_nil_r.
Qed.
End geoip.
Arguments geoip Db R : clear implicits.

Section filter_theorem.
Context {Db R : Type} `{GL : GeoLaws Db R}.

(** The plugin's decisions about some connections, one after the other. *)
Fixpoint filter_all (f : country_filter) (connections : list (bytes * Z))
    : M (option (geoip Db R) * list (Z * bytes)) (list bool) :=
  match connections with
  | [] => mret []
  | (ip, fd) :: rest => b ← filter_client f ip fd; bs ← filter_all f rest; mret (b :: bs)
  end.

(** The country a decision is about: addresses the database has no answer for
    are all of one unknown country. *)
Definition known_country (db : Db) (ip : bytes) : bytes :=
  match country_of db ip with Ret c => c | _ => lit "Unknown" end.

Lemma filter_all_spec f db connections : forall results out,
  cache_ok db results -> exists results',
    filter_all f connections (Some (MkGeoIP true (Some db) results), out) =
      (Ret (map (fun x => allowed f (known_country db x.1)) connections),
       (Some (MkGeoIP true (Some db) results'),
        out ++ concat (map (fun x => if allowed f (known_country db x.1) then []
                                     else match cf_message f with Some m => [(x.2, m)] | None => [] end)
                         connections))) /\
    cache_ok db results'.
Proof.
  induction connections as [|[ip fd] rest IH]; intros results out Hok; cbn [filter_all].
  - exists results. mrun. cbn [map concat]. by rewrite app_nil_r.
  - destruct (filter_spec f ip fd db results out Hok) as (r1 & E1 & Hok1).
    cbn zeta in E1. fold (known_country db ip) in E1.
    edestruct (IH r1) as (r2 & E2 & Hok2); [exact Hok1|].
    exists r2. mrun. rewrite E1, E2. cbn [map concat fst snd]. by rewrite <- app_assoc.
Qed.

(** With a database open, each connection is decided by the country the
    database itself gives for its address, whatever was asked before: the cache
    changes no decision, holds only the database's records, and at most 4097 of
    them.  A refused connection is sent the message once, an allowed one nothing. *)
Theorem filter_decides f database_path db connections s out :
  open_db database_path = Ret db ->
  match s with Some g => g_valid g = false | None => True end ->
  exists results,
    (_ ← on_geoip (get_path database_path); filter_all f connections) (s, out) =
      (Ret (map (fun x => allowed f (known_country db x.1)) connections),
       (Some (MkGeoIP true (Some db) results),
        out ++ concat (map (fun x => if allowed f (known_country db x.1) then []
                                     else match cf_message f with Some m => [(x.2, m)] | None => [] end)
                         connections))) /\
    (forall ip r, results !! ip = Some r -> lookup_raw db ip = Ret r) /\ size results <= 4097.
Proof.
  intros Hopen Hs.
  destruct (filter_all_spec f db connections ∅ out) as (results & E & Hok).
  { split; [|rewrite map_size_empty; lia]. intros ip r Hr. by rewrite lookup_empty in Hr. }
  exists results. split; [|exact Hok]. unfold on_geoip, get_path. mrun. cbn [fst snd].
  destruct s as [[[] ? ?]|]; [done|..]; cbn [fst snd]; rewrite Hopen; cbn [fst snd]; exact E.
Qed.
End filter_theorem.

(** ** Witness *)

(** A database that knows one network; asking it for nothing throws. *)
#[local] Instance example_database : GeoDatabase () bytes := {
  open_db := fun _ => Ret tt;
  lookup_raw := fun _ ip => if bool_decide (ip = []) then Throw (RuntimeError []) else Ret (take 3 ip);
  get_field := fun _ r => Ret (if bool_decide (r = lit "10.") then lit "Utopia" else lit "Atlantis");
}.
#[local] Instance example_laws : GeoLaws () bytes.
Proof. split; [intros [] ip; cbn; by case_bool_decide|done]. Qed.

Lemma filter_decides_witness :
  exists results,
    (_ ← on_geoip (get_path (lit "db")); 
     filter_all (CountryFilter None (Some {[ lit "Utopia" ]}) (Some (lit "No.")))
       [(lit "10.0.0.1", 5%Z); (lit "11.0.0.1", 6%Z); ([], 7%Z)]) (None, []) =
      (Ret [false; true; true], (Some (MkGeoIP true (Some tt) results), [(5%Z, lit "No.")])) /\
    size results <= 4097.
Proof.
  destruct (filter_decides (GL := example_laws) (CountryFilter None (Some {[ lit "Utopia" ]}) (Some (lit "No.")))
    (lit "db") tt [(lit "10.0.0.1", 5%Z); (lit "11.0.0.1", 6%Z); ([], 7%Z)] None []
    ltac:(reflexivity) I) as (results & E & _ & Hs).
  exists results. split; [|exact Hs]. refine (eq_trans E _). vm_compute. reflexivity.
Defined.
