(* ===== verification/Plugins.v ===== *)
(** * The small plugins

    [src/plugins/calculator], [redirect], [default404], [logger] and [wsecho],
    with [src/util/Templates.cpp], and the configuration of [countryfilter] and
    [fileserv]: one Module per plugin, with the handler it
    registers, its [postinit] and its [cleanup].  A handler works on the
    arguments of the event, the client and the servers below it. *)

From Stdlib Require Import ZArith Lia Ascii String.
From stdpp Require Import base tactics option list strings gmap.
From S2P Require Import Prelude Util OrdMap Response Request PluginHost Client FS HttpServer Fileserv GeoIP.

(** ** What the plugins share *)

Section shared.
Context {J N : Type} `{JO : JsonOps J} `{NO : NetOps N}.
Abbreviation world := (@world J N).

(** Operations of the client and the servers, in a handler. *)
Definition below {Args A} (m : M (client * world) A) : M (Args * (client * world)) A := fun s =>
  let '(r, x) := m s.2 in (r, (s.1, x)).
Definition handler_args {Args} : M (Args * (client * world)) Args := s ← get; mret s.1.

(** [http.server->send(client.id, response)] and [http.server->close(client.id)]. *)
Definition reply {Args} (r : response) : M (Args * (client * world)) () := below (send_to (render r)).
Definition hang_up {Args} : M (Args * (client * world)) () := below close_client.

(** The lists of handlers a plugin enters itself into. *)
Definition set_getHandlers (l : list weak) (h : http_server J) : http_server J :=
  HttpServer (h_options h) (h_webRoot h) l (h_postHandlers h) (h_webSocketConnectionHandlers h)
    (h_webSocketMessageHandlers h) (h_webSocketCloseHandlers h) (h_configs h).
Definition set_postHandlers (l : list weak) (h : http_server J) : http_server J :=
  HttpServer (h_options h) (h_webRoot h) (h_getHandlers h) l (h_webSocketConnectionHandlers h)
    (h_webSocketMessageHandlers h) (h_webSocketCloseHandlers h) (h_configs h).
Definition set_connectionHandlers (l : list weak) (h : http_server J) : http_server J :=
  HttpServer (h_options h) (h_webRoot h) (h_getHandlers h) (h_postHandlers h) l
    (h_webSocketMessageHandlers h) (h_webSocketCloseHandlers h) (h_configs h).

Definition add_getHandler (w : weak) (h : http_server J) : http_server J :=
  set_getHandlers (h_getHandlers h ++ [w]) h.
Definition add_postHandler (w : weak) (h : http_server J) : http_server J :=
  set_postHandlers (h_postHandlers h ++ [w]) h.

(** What a weak pointer gives, when plugins are loaded and unloaded. *)
Variable live : weak -> option Z.
Definition erase_getHandler (w : weak) (h : http_server J) : http_server J :=
  set_getHandlers (erase live (h_getHandlers h) (live w)).2 h.
Definition erase_postHandler (w : weak) (h : http_server J) : http_server J :=
  set_postHandlers (erase live (h_postHandlers h) (live w)).2 h.
End shared.

(** ** The calculator *)

Module Calculator.

(** Signed overflow is undefined. *)
Definition int64 (z : Z) : outcome Z :=
  if ((INT64_MIN <=? z) && (z <=? INT64_MAX))%Z then Ret z else Undef.

(** The text for an operator and its operands; [None] for another operator. *)
Definition evaluate (oper : bytes) (left right : Z) : outcome (option bytes) :=
  if bool_decide (oper = lit "+") || bool_decide (oper = lit "plus") then
    v ← int64 (left + right); Ret (Some (to_dec v))
  else if bool_decide (oper = lit "-") || bool_decide (oper = lit "min") then
    v ← int64 (left - right); Ret (Some (to_dec v))
  else if bool_decide (oper = lit "*") || bool_decide (oper = lit "mult") then
    v ← int64 (left * right); Ret (Some (to_dec v))
  else if bool_decide (oper = lit "/") || bool_decide (oper = lit "div") then
    if (right =? 0)%Z then Ret (Some (lit "Division by zero"))
    else v ← int64 (Z.quot left right); Ret (Some (to_dec v))
  else Ret None.

Section calculator.
Context {J N : Type} `{JO : JsonOps J} `{NO : NetOps N}.
Abbreviation state := (HandlerArgs * (client * @world J N))%type.

(** The operands, in the [try] block. *)
Definition operands (a b : bytes) : M state (option (Z * Z)) :=
  catch (l ← lift (parseLong_string a); r ← lift (parseLong_string b); mret (Some (l, r)))
    (fun e => match e with InvalidArgument _ => Some (mret None) | _ => None end).

Definition handle (not_disabled : bool) : M state CancelableResult :=
  if negb not_disabled then mret CPass
  else
    args ← handler_args;
    match a_parts args with
    | [oper; a; b] =>
      numbers ← operands a b;
      match numbers with
      | None => mret CPass
      | Some (l, r) =>
        out ← lift (evaluate oper l r);
        match out with
        | None => mret CPass
        | Some out =>
          reply (setMIME (make_response 200 out) (lit "text/plain")) ;;
          hang_up ;;
          mret CApprove
        end
      end
    | _ => mret CPass
    end.

Definition postinit (handler : weak) (h : http_server J) : http_server J := add_getHandler handler h.
Definition cleanup (live : weak -> option Z) (handler : weak) (h : http_server J) : http_server J :=
  erase_getHandler live handler h.
End calculator.
End Calculator.

(** ** Redirections *)

Module Redirect.
Section redirect.
Context {J N : Type} `{JO : JsonOps J} `{NO : NetOps N} {HH : @Handlers J N}.
Abbreviation state := (HandlerArgs * (client * @world J N))%type.
Variable sha1 : bytes -> bytes.

(** The base [postinit] takes from the configuration. *)
Definition configured_base (config : J) : outcome bytes :=
  if json_contains config (lit "base") then
    v ← json_at config (lit "base");
    if json_is_string v then
      base ← json_get_string v;
      Ret (match base with
           | [] => lit "https"
           | _ => if bool_decide (last base = Some "/"%char) then removelast base else base
           end)
    else Ret (lit "https")
  else Ret (lit "https").

(** [postinit] has entered the handler when it looks at the configuration. *)
Definition postinit (handler : weak) (config : J) : M (http_server J) bytes :=
  modify (add_getHandler handler) ;; lift (configured_base config).
Definition cleanup (live : weak -> option Z) (handler : weak) (h : http_server J) : http_server J :=
  erase_getHandler live handler h.

Definition location (base : bytes) (q : request) : bytes :=
  let host := getHeader q (lit "host") in
  let base_view := if bool_decide (base = lit "https") && negb (bool_decide (host = []))
                   then lit "https://" ++ host else base in
  if bool_decide (head (q_path q) = Some "/"%char) then base_view ++ pathWithParameters q
  else base_view ++ lit "/" ++ pathWithParameters q.

Definition redirection (base : bytes) (q : request) : response :=
  setHeader (setNoContentType (make_response 301 []) true) (lit "location") (location base q).

Definition handle (base : bytes) (not_disabled : bool) : M state CancelableResult :=
  if negb not_disabled then mret CPass
  else
    args ← handler_args;
    reply (redirection base (a_request args)) ;;
    below (@Client.close _ (http_ServerOps sha1)) ;;
    mret CApprove.
End redirect.
End Redirect.

(** ** Templates *)

Module Templates.
(** [getMemoryUsage] and [formatTime] ask the system, [inja::render] is a
    library; an object of strings stands for the JSON object. *)
Definition renderTemplate (inja_render : bytes -> gmap bytes bytes -> outcome bytes)
    (usage : option (Z * Z)) (formatTime : bytes -> bytes)
    (input : bytes) (json : gmap bytes bytes) : outcome bytes :=
  let json := match usage with
              | None => <[lit "resident" := lit "???"]> (<[lit "virtual" := lit "???"]> json)
              | Some (virtual_memory, resident_memory) =>
                <[lit "resident" := to_dec resident_memory]>
                  (<[lit "virtual" := to_dec virtual_memory]> json)
              end in
  inja_render input
    (<[lit "date" := formatTime (lit "%B %e, %Y")]> (<[lit "time" := formatTime (lit "%H:%M:%S")]> json)).
End Templates.

(** ** The page for what is not found *)

Module Default404.
Section default404.
Context {J N : Type} `{JO : JsonOps J} `{NO : NetOps N} `{FSys : FileSystem}.
Abbreviation state := (HandlerArgs * (client * @world J N))%type.
Variable renderTemplate : bytes -> gmap bytes bytes -> outcome bytes.

(** The content that is configured. *)
Definition configured (config : J) (request_path : bytes) : outcome bytes :=
  if json_contains config (lit "file") then
    v ← json_at config (lit "file"); filename ← json_get_string v;
    content ← readFile (path_of filename);
    if bool_decide (extension (path_of filename) = lit ".t")
    then renderTemplate content {[ lit "path" := request_path ]}
    else Ret content
  else Ret [].

Definition handle (config : J) (not_disabled : bool) : M state CancelableResult :=
  if negb not_disabled then mret CPass
  else
    args ← handler_args;
    content ← lift (configured config (q_path (a_request args)));
    reply (setMIME (make_response 404 (match content with [] => lit "404 Not Found" | _ => content end))
             (lit "text/html")) ;;
    hang_up ;;
    mret CApprove.

Definition postinit (handler : weak) (h : http_server J) : http_server J := add_getHandler handler h.
Definition cleanup (live : weak -> option Z) (handler : weak) (h : http_server J) : http_server J :=
  erase_getHandler live handler h.
End default404.
End Default404.

(** ** The log of requests *)

Module Logger.
Inductive line := Info (text : bytes) | Warn (text : bytes).

Definition request_line (server_id description path : bytes) : line :=
  Info (lit "[" ++ server_id ++ lit " <- " ++ description ++ lit "] Received request for " ++
        (if length path <=? 2048 then [dquote] ++ escapeANSI path ++ [dquote]
         else lit "a really large path...")).

Definition header_lines (q : request) (upper lower : bytes) : list line :=
  match q_headers q !! lower with
  | Some value => [Info (lower ++ lit ": " ++ [dquote] ++ value ++ [dquote])]
  | None =>
    match q_headers q !! upper with
    | Some value => [Info (upper ++ lit ": " ++ [dquote] ++ value ++ [dquote])]
    | None => if bool_decide (lower = lit "host") then [Warn (lit "No Host header")] else []
    end
  end.

Definition lines (server_id description : bytes) (q : request) : list line :=
  request_line server_id description (q_path q) ::
  header_lines q (lit "Host") (lit "host") ++ header_lines q (lit "Range") (lit "range").

Section logger.
Context {J N Db R : Type} `{JO : JsonOps J} `{NO : NetOps N} `{GD : GeoDatabase Db R}.
Variable what : exn -> bytes.
(** The state with the lines that have been written and the database of countries,
    which the description of a client asks. *)
Abbreviation state := ((list line * option (geoip Db R)) * (HandlerArgs * (client * @world J N)))%type.

Definition describe_client : M state bytes := fun s =>
  let '(r, g) := describe what (c_ip s.2.2.1) s.1.2 in (r, ((s.1.1, g), s.2)).

Definition handle (not_disabled : bool) : M state CancelableResult :=
  description ← describe_client;
  modify (fun s => ((s.1.1 ++ lines (net_id s.2.2.2.2) description (a_request s.2.1), s.1.2), s.2)) ;;
  mret CPass.

Definition postinit (handler : weak) (h : http_server J) : http_server J :=
  add_postHandler handler (add_getHandler handler h).
Definition cleanup (live : weak -> option Z) (handler : weak) (h : http_server J) : http_server J :=
  erase_postHandler live handler (erase_getHandler live handler h).
End logger.
End Logger.

(** ** The filter of countries: its configuration *)

Module CountryFilter.
Section country_filter.
Context {J : Type} `{JO : JsonOps J}.

Definition optional_set (config : J) (name : bytes) : outcome (option (gset bytes)) :=
  if json_contains config name then
    v ← json_at config name; l ← json_get_strings v; Ret (Some (list_to_set l))
  else Ret None.

(** The state is the list of filters of the network server. *)
Definition postinit (filterer : weak) (config : J) : M (list weak) country_filter :=
  modify (fun filters => filters ++ [filterer]) ;;
  whitelist ← lift (optional_set config (lit "whitelist"));
  blacklist ← lift (optional_set config (lit "blacklist"));
  message ← lift (if json_contains config (lit "message") then
                    v ← json_at config (lit "message"); m ← json_get_string v; Ret (Some m)
                  else Ret None);
  mret (GeoIP.CountryFilter whitelist blacklist message).

Definition cleanup (live : weak -> option Z) (filterer : weak) (filters : list weak) : list weak :=
  (erase live filters (live filterer)).2.
End country_filter.
End CountryFilter.

(** ** The file server: its configuration *)

Module FileServer.
Section file_server.
Context {J : Type} `{JO : JsonOps J} `{FSys : FileSystem}.

(** The state is the HTTP server; what is not configured keeps its default. *)
Definition postinit (getHandler postHandler : weak) (f : fileserv J) : M (http_server J) (fileserv J) :=
  modify (add_getHandler getHandler) ;;
  modify (add_postHandler postHandler) ;;
  let config := f_config f in
  hostnames ← lift (if json_contains config (lit "hosts") then
                      v ← json_at config (lit "hosts"); l ← json_get_strings v; Ret (Some l)
                    else Ret (f_hostnames f));
  root ← lift (if json_contains config (lit "root") then
                 v ← json_at config (lit "root"); s ← json_get_string v;
                 p ← fs_canonical (path_c_str (path_of s)); Ret (Some p)
               else Ret (f_root f));
  enableModules ← lift (if json_contains config (lit "enableModules") then
                          v ← json_at config (lit "enableModules"); json_get_bool v
                        else Ret (f_enableModules f));
  mret (Fileserv hostnames root enableModules (f_chunkSize f) config (f_moduleCache f) (f_rng f)).

Definition cleanup (live : weak -> option Z) (getHandler postHandler : weak) (h : http_server J) : http_server J :=
  erase_postHandler live postHandler (erase_getHandler live getHandler h).
End file_server.
End FileServer.

(** ** Echoes over WebSockets *)

Module WSEcho.
Section wsecho.
Context {J N : Type} `{JO : JsonOps J} `{NO : NetOps N} {HH : @Handlers J N}.
Variable sha1 : bytes -> bytes.

(** The pointers to message handlers the plugin owns, and the one the next
    handler it makes will have. *)
Record wsecho := MkWSEcho { ws_owned : list weak; ws_next : weak }.
Abbreviation state := (wsecho * (WebSocketConnectionArgs * (client * @world J N)))%type.

Definition handleConnect (not_disabled : bool) : M state CancelableResult :=
  if negb not_disabled then mret CPass
  else
    s ← get;
    let '(p, (args, (c, w))) := s in
    if bool_decide (lit "echo" ∈ wa_protocols args) then
      let handler := ws_next p in
      put (MkWSEcho (ws_owned p ++ [handler]) (handler + 1)%Z,
           (MkConnectionArgs (wa_args args) (wa_protocols args) (lit "echo"),
            (c, (registerWebSocketMessageHandler (c_id c) handler w.1, w.2)))) ;;
      mret CApprove
    else mret CPass.

Definition handleMessage (message : bytes) (not_disabled : bool)
    : M (client * @world J N) CancelableResult :=
  if negb not_disabled then mret CPass
  else @sendWebSocket _ (http_ServerOps sha1) message false 255 ;; mret CApprove.

Definition postinit (handler : weak) (h : http_server J) : http_server J :=
  set_connectionHandlers (h_webSocketConnectionHandlers h ++ [handler]) h.

(** The pointers to the handlers expire with [webSocketMessageHandlers.clear()]. *)
Definition expired (owned : list weak) : @Handlers J N := {|
  lock_handler := lock_handler;
  lock_connection := lock_connection;
  lock_message := fun w s => if bool_decide (w ∈ owned) then None else lock_message w s;
  lock_close := lock_close;
  handler_live := fun w => if bool_decide (w ∈ owned) then None else handler_live w;
|}.

Definition cleanup (handler : weak) (p : wsecho) (h : http_server J) : wsecho * http_server J :=
  let h := set_connectionHandlers
             (erase handler_live (h_webSocketConnectionHandlers h) (handler_live handler)).2 h in
  (MkWSEcho [] (ws_next p), @cleanWebSocketHandlers J N (expired (ws_owned p)) h).
End wsecho.
End WSEcho.

(** ** Theorems: entering and leaving *)

Section registration.
Context {J : Type} `{JO : JsonOps J} `{FSys : FileSystem}.
Variable live : weak -> option Z.

(** A handler that is alive and that no other pointer of a list leads to. *)
Definition alone (w : weak) (l : list weak) : Prop :=
  is_Some (live w) /\ Forall (fun x => live x <> live w) l.

Lemma erase_appended w l : alone w l -> erase live (l ++ [w]) (live w) = (true, l).
Proof.
  intros [_ H]. induction H as [|x l Hx _ IH]; cbn [erase app].
  - by rewrite bool_decide_true.
  - rewrite bool_decide_false by done. by rewrite IH.
Qed.

Lemma get_cycle w (h : http_server J) :
  alone w (h_getHandlers h) -> erase_getHandler live w (add_getHandler w h) = h.
Proof.
  intros H. unfold erase_getHandler, add_getHandler. cbn [set_getHandlers h_getHandlers].
  rewrite erase_appended by done. by destruct h.
Qed.

Lemma post_cycle w (h : http_server J) :
  alone w (h_postHandlers h) -> erase_postHandler live w (add_postHandler w h) = h.
Proof.
  intros H. unfold erase_postHandler, add_postHandler. cbn [set_postHandlers h_postHandlers].
  rewrite erase_appended by done. by destruct h.
Qed.

Lemma both_cycle w w' (h : http_server J) :
  alone w (h_getHandlers h) -> alone w' (h_postHandlers h) ->
  erase_postHandler live w' (erase_getHandler live w (add_postHandler w' (add_getHandler w h))) = h.
Proof.
  intros Hg Hp. unfold erase_getHandler, erase_postHandler, add_getHandler, add_postHandler.
  cbn [set_getHandlers set_postHandlers h_getHandlers h_postHandlers].
  rewrite !erase_appended by done. cbn [set_getHandlers set_postHandlers h_getHandlers h_postHandlers].
  by destruct h.
Qed.

(** Unloading a plugin undoes what loading it did to the server.  A handler
    that is alive and that no other pointer leads to is entered at the end of the
    server's lists when the plugin is initialised, whether its configuration is
    accepted or not, and cleaning up leaves every list as it was. *)
Theorem cleanup_undoes_postinit w w' (h : http_server J) (f : fileserv J) config filters :
  alone w (h_getHandlers h) -> alone w (h_postHandlers h) -> alone w' (h_postHandlers h) ->
  alone w filters ->
  Calculator.cleanup live w (Calculator.postinit w h) = h /\
  Default404.cleanup live w (Default404.postinit w h) = h /\
  Redirect.cleanup live w (Redirect.postinit w config h).2 = h /\
  Logger.cleanup live w (Logger.postinit w h) = h /\
  FileServer.cleanup live w w' (FileServer.postinit w w' f h).2 = h /\
  CountryFilter.cleanup live w (CountryFilter.postinit w config filters).2 = filters.
Proof.
  intros Hg Hp Hp' Hf. repeat split.
  - by apply get_cycle.
  - by apply get_cycle.
  - unfold Redirect.cleanup, Redirect.postinit. mrun.
    destruct (Redirect.configured_base config); by apply get_cycle.
  - by apply both_cycle.
  - transitivity (FileServer.cleanup live w w' (add_postHandler w' (add_getHandler w h)));
      [f_equal|by apply both_cycle].
    unfold FileServer.postinit. mrun.
    repeat match goal with |- context [if ?b then _ else _] => destruct b end;
    repeat match goal with
           | |- context [match ?x with Ret _ => _ | Throw _ => _ | Undef => _ | Diverge => _ end] => destruct x
           end; done.
  - unfold CountryFilter.cleanup. transitivity (erase live (filters ++ [w]) (live w)).2;
      [f_equal; f_equal|by rewrite erase_appended].
    unfold CountryFilter.postinit. mrun.
    destruct (CountryFilter.optional_set config (lit "whitelist")); [|done..].
    destruct (CountryFilter.optional_set config (lit "blacklist")); [|done..].
    repeat match goal with |- context [if ?b then _ else _] => destruct b end;
    repeat match goal with
           | |- context [match ?x with Ret _ => _ | Throw _ => _ | Undef => _ | Diverge => _ end] => destruct x
           end; done.
Qed.
End registration.

(** ** Theorems: the calculator *)

Lemma length_dec_digits fuel : forall n acc, length (dec_digits fuel n acc) <= S fuel + length acc.
Proof.
  induction fuel as [|f IH]; intros n acc; cbn [dec_digits]; [done|].
  destruct (n <? 10)%Z; [cbn; lia|]. pose proof (IH (n / 10)%Z (chr (48 + n mod 10) :: acc)) as H.
  cbn [length] in H. lia.
Qed.

Lemma length_to_dec_int64 n : (INT64_MIN <= n <= INT64_MAX)%Z -> length (to_dec n) <= 65.
Proof.
  intros [H1 H2]. unfold INT64_MIN, INT64_MAX in *. unfold to_dec.
  assert (Hl : forall m, (0 <= m <= 2 ^ 63)%Z -> Z.to_nat (Z.log2 m) <= 63).
  { intros m Hm. pose proof (Z.log2_le_mono m (2 ^ 63) ltac:(lia)) as Hx.
    rewrite Z.log2_pow2 in Hx by lia. lia. }
  destruct (Z.ltb_spec n 0); cbn [length].
  - pose proof (length_dec_digits (Z.to_nat (Z.log2 (- n))) (- n) []) as H0. cbn [length] in H0.
    pose proof (Hl (- n)%Z ltac:(lia)). lia.
  - pose proof (length_dec_digits (Z.to_nat (Z.log2 n)) n []) as H0. cbn [length] in H0.
    pose proof (Hl n ltac:(lia)). lia.
Qed.

Lemma to_dec_nonempty n : to_dec n <> [].
Proof.
  unfold to_dec. destruct (Z.ltb_spec n 0); [done|].
  destruct (to_dec_spec n) as (Hne & _); [lia|]. unfold to_dec in Hne.
  by rewrite (proj2 (Z.ltb_ge n 0)) in Hne by lia.
Qed.

Lemma length_escapeURL s : length (escapeURL s) <= 3 * length s.
Proof.
  induction s as [|c s IH]; [done|].
  change (escapeURL (c :: s)) with (escapeURL_char c ++ escapeURL s). rewrite length_app.
  assert (length (escapeURL_char c) <= 3).
  { apply Nat.leb_le. revert c. apply byte_forall. vm_compute. reflexivity. }
  cbn [length]. lia.
Qed.

Module CalculatorSpec.
(** The operators and the exact results; [None]: the result does not fit. *)
Inductive operator := Plus | Minus | Times | Over.
Definition named (oper : bytes) : option operator :=
  list_to_map (M := gmap bytes operator)
    [(lit "+", Plus); (lit "plus", Plus); (lit "-", Minus); (lit "min", Minus);
     (lit "*", Times); (lit "mult", Times); (lit "/", Over); (lit "div", Over)] !! oper.
Definition exact (op : operator) (a b : Z) : option Z :=
  match op with
  | Plus => Some (a + b)%Z
  | Minus => Some (a - b)%Z
  | Times => Some (a * b)%Z
  | Over => if (b =? 0)%Z then None else Some (Z.quot a b)
  end.
Definition fits (z : Z) : bool := ((INT64_MIN <=? z) && (z <=? INT64_MAX))%Z.
(** The outcome the plugin owes: a text, or nothing defined. *)
Definition answer (op : operator) (a b : Z) : option bytes :=
  match exact op a b with
  | None => Some (lit "Division by zero")
  | Some z => if fits z then Some (to_dec z) else None
  end.
End CalculatorSpec.
Import CalculatorSpec.

Lemma evaluate_spec oper op a b :
  named oper = Some op ->
  Calculator.evaluate oper a b = match answer op a b with Some t => Ret (Some t) | None => Undef end.
Proof.
  intros H. unfold named in H. apply elem_of_list_to_map_2 in H.
  repeat (apply elem_of_cons in H as [[= -> ->]|H]);
    try (by apply elem_of_nil in H); unfold answer, exact, fits;
    first
      [ change (Calculator.evaluate _ a b)
          with (v ← Calculator.int64 (a + b); Ret (Some (to_dec v)) : outcome (option bytes))
      | change (Calculator.evaluate _ a b)
          with (v ← Calculator.int64 (a - b); Ret (Some (to_dec v)) : outcome (option bytes))
      | change (Calculator.evaluate _ a b)
          with (v ← Calculator.int64 (a * b); Ret (Some (to_dec v)) : outcome (option bytes))
      | change (Calculator.evaluate _ a b)
          with (if (b =? 0)%Z then Ret (Some (lit "Division by zero"))
                else v ← Calculator.int64 (Z.quot a b); Ret (Some (to_dec v)) : outcome (option bytes));
        destruct (b =? 0)%Z; [done|] ];
    unfold Calculator.int64; by destruct (_ && _).
Qed.

Section calculator_theorem.
Context {J N : Type} `{JO : JsonOps J} `{NO : NetOps N} {HH : @Handlers J N}.
Variable sha1 : bytes -> bytes.

Lemma calculator_handle oper op a b q (s : client * @world J N) :
  named oper = Some op -> (INT64_MIN <= a <= INT64_MAX)%Z -> (INT64_MIN <= b <= INT64_MAX)%Z ->
  Calculator.handle true (MkHandlerArgs q [oper; to_dec a; to_dec b], s) =
  match answer op a b with
  | Some text =>
    (reply (setMIME (make_response 200 text) (lit "text/plain")) ;; hang_up ;; mret CApprove)
      (MkHandlerArgs q [oper; to_dec a; to_dec b], s)
  | None => (Undef, (MkHandlerArgs q [oper; to_dec a; to_dec b], s))
  end.
Proof.
  intros Hop Ha Hb. unfold Calculator.handle, Calculator.operands, handler_args. mrun.
  cbn [negb fst snd a_parts]. rewrite !parseLong_string_dec by done.
  rewrite (evaluate_spec oper op a b Hop). by destruct (answer op a b).
Qed.

(** The path of a calculation, with its parts percent-encoded. *)
Definition calculation_path (oper : bytes) (a b : Z) : bytes :=
  lit "/" ++ join (map escapeURL [oper; to_dec a; to_dec b]) (lit "/").

Lemma calculation_parts oper op a b :
  named oper = Some op -> (INT64_MIN <= a <= INT64_MAX)%Z -> (INT64_MIN <= b <= INT64_MAX)%Z ->
  getParts (calculation_path oper a b) = Ret [oper; to_dec a; to_dec b].
Proof.
  intros Hop Ha Hb. apply getParts_escaped; [done|].
  assert (Hn : oper <> [] /\ length oper <= 4).
  { unfold named in Hop. apply elem_of_list_to_map_2 in Hop.
    assert (Hall : Forall (fun x : bytes * operator => x.1 <> [] /\ length x.1 <= 4)
      [(lit "+", Plus); (lit "plus", Plus); (lit "-", Minus); (lit "min", Minus);
       (lit "*", Times); (lit "mult", Times); (lit "/", Over); (lit "div", Over)]).
    { repeat constructor; cbn; done || lia. }
    rewrite Forall_forall in Hall. exact (Hall _ Hop). }
  pose proof (length_escapeURL oper). pose proof (length_escapeURL (to_dec a)).
  pose proof (length_escapeURL (to_dec b)). pose proof (length_to_dec_int64 a Ha).
  pose proof (length_to_dec_int64 b Hb). assert (W64 = 18446744073709551616)%Z by reflexivity.
  destruct Hn. repeat constructor; (done || apply to_dec_nonempty || lia).
Qed.

(** A GET whose first handler is live and final does what that handler does. *)
Lemma handleGET_first w rest parts a (m : M (client * @world J N) ()) s f :
  wants_webSocket (c_request s.1) = false -> validatePath (q_path (c_request s.1)) = true ->
  getParts (q_path (c_request s.1)) = Ret parts -> h_getHandlers s.2.1 = w :: rest ->
  lock_handler w (MkHandlerArgs (c_request s.1) parts, s) = Some f ->
  f true (MkHandlerArgs (c_request s.1) parts, s) =
    (below m ;; mret a) (MkHandlerArgs (c_request s.1) parts, s) -> final a = true ->
  handleGET sha1 s = m s.
Proof.
  intros Hw Hv Hp Hh Hl Hf Ha. unfold handleGET, world in *. mrun. rewrite Hv, Hw. cbn [negb].
  unfold run_handlers, with_args, world in *. mrun. rewrite Hp, Hh. cbn [beforeMulti]. mrun.
  rewrite Hl, Hf. unfold below. mrun. cbn [fst snd].
  destruct (m s) as [[[]|e| |] s']; try done. by destruct a.
Qed.

Lemma calculator_get oper op a b w rest (s : client * @world J N) :
  (forall x, lock_handler w x = Some Calculator.handle) -> h_getHandlers s.2.1 = w :: rest ->
  named oper = Some op -> (INT64_MIN <= a <= INT64_MAX)%Z -> (INT64_MIN <= b <= INT64_MAX)%Z ->
  q_path (c_request s.1) = calculation_path oper a b -> wants_webSocket (c_request s.1) = false ->
  handleGET sha1 s =
  match answer op a b with
  | Some text => (send_to (render (setMIME (make_response 200 text) (lit "text/plain"))) ;;
                  close_client) s
  | None => (Undef, s)
  end.
Proof.
  intros Hl Hh Hop Ha Hb Hpath Hw.
  assert (Hv : validatePath (q_path (c_request s.1)) = true) by by rewrite Hpath.
  pose proof (calculation_parts oper op a b Hop Ha Hb) as Hp. rewrite <- Hpath in Hp.
  pose proof (calculator_handle oper op a b (c_request s.1) s Hop Ha Hb) as E.
  set (m := match answer op a b with
            | Some text => send_to (render (setMIME (make_response 200 text) (lit "text/plain"))) ;;
                           close_client
            | None => undefined
            end : M (client * @world J N) ()).
  transitivity (m s).
  - eapply (handleGET_first w rest _ CApprove); [done..| |done]. refine (eq_trans E _). unfold m.
    destruct (answer op a b) as [text|]; [|done]. unfold reply, hang_up, below. mrun. cbn [fst snd].
    by destruct (send_to _ s) as [[[]|e| |] s'].
  - unfold m. by destruct (answer op a b).
Qed.

(** A calculation asked for by its path, with any of the eight names of the
    operators percent-encoded and operands over the whole range of 64-bit
    integers, is answered with the exact result in decimal and the connection is
    closed; division by zero has its own answer; and the behaviour is undefined
    exactly when the result does not fit. *)
Theorem calculator_answers oper op a b w rest (s : client * @world J N) :
  (forall x, lock_handler w x = Some Calculator.handle) -> h_getHandlers s.2.1 = w :: rest ->
  named oper = Some op -> (INT64_MIN <= a <= INT64_MAX)%Z -> (INT64_MIN <= b <= INT64_MAX)%Z ->
  q_path (c_request s.1) = calculation_path oper a b -> wants_webSocket (c_request s.1) = false ->
  handleGET sha1 s =
  match answer op a b with
  | Some text => (send_to (render (setMIME (make_response 200 text) (lit "text/plain"))) ;;
                  close_client) s
  | None => (Undef, s)
  end.
Proof. apply calculator_get. Qed.
End calculator_theorem.

(** The plus sign cannot be asked for as it is: the decoder of the path makes a
    space of it, which names no operator. *)
Lemma plus_sign_is_a_space a b :
  getParts (lit "/+/1/2") = Ret [lit " "; lit "1"; lit "2"] /\
  Calculator.evaluate (lit " ") a b = Ret None.
Proof. split; [vm_compute; reflexivity|done]. Qed.

(** ** Theorems: redirections *)

Section redirect_theorems.
Context {J N : Type} `{JO : JsonOps J} `{NO : NetOps N} {HH : @Handlers J N}.
Variable sha1 : bytes -> bytes.

(** Where a request is sent: the configured base, or the request's own host. *)
Definition target_base (base : bytes) (q : request) : bytes :=
  match q_headers q !! lit "host" with
  | Some ((_ :: _) as host) => if bool_decide (base = lit "https") then lit "https://" ++ host else base
  | _ => base
  end.

Lemma location_spec base q :
  head (q_path q) = Some "/"%char ->
  Redirect.location base q = target_base base q ++ pathWithParameters q.
Proof.
  intros H. unfold Redirect.location, target_base, getHeader. rewrite (bool_decide_true _ H).
  destruct (q_headers q !! lit "host") as [[|c host]|]; case_bool_decide; done.
Qed.

Lemma redirection_headers base q :
  rendered_headers (Redirect.redirection base q) =
  [(lit "Content-Length", lit "0"); (lit "connection", lit "close");
   (lit "location", Redirect.location base q)].
Proof.
  unfold rendered_headers, Redirect.redirection. generalize (Redirect.location base q) as l. intros l.
  unfold setHeader, setNoContentType, make_response, make_response_mime, setClose, with_headers.
  cbn [r_headers r_code r_mime r_content r_charset r_noContentType negb andb app].
  change (toLower (lit "location")) with (lit "location").
  change (toLower (lit "Connection")) with (lit "connection").
  rewrite bool_decide_false.
  - reflexivity.
  - intros [x Hx]. rewrite lookup_insert_ne in Hx by done. by vm_compute in Hx.
Qed.

Lemma escapeURL_no_ampersand s : "&"%char ∉ escapeURL s.
Proof.
  induction s as [|c s IH]; [by apply not_elem_of_nil|].
  change (escapeURL (c :: s)) with (escapeURL_char c ++ escapeURL s). rewrite elem_of_app.
  assert (Hc : forall d, bool_decide ("&"%char ∉ escapeURL_char d) = true)
    by (apply byte_forall; vm_compute; reflexivity).
  specialize (Hc c). apply bool_decide_eq_true in Hc. tauto.
Qed.

(** A path with one parameter, as a client writes it. *)
Definition query (k v : bytes) : bytes := lit "/?" ++ k ++ lit "=" ++ escapeURL v.

Lemma query_read k v :
  clean_parameter (k, []) -> v <> [] -> (Z.of_nat (length (escapeURL v)) < W64)%Z ->
  getPath (query k v) = lit "/" /\ getParameters (query k v) true = Ret {[ k := v ]}.
Proof.
  intros Hk Hv Hlen. destruct (clean_parameter_chars _ Hk) as (H1 & H2 & H3 & H4 & _). cbn [fst] in *.
  destruct Hk as [Hne _]. cbn [fst] in Hne. split; [done|].
  unfold getParameters. change (find_char "?" (query k v)) with (Some 1). cbn [mbind].
  change (drop (1 + 1) (query k v)) with (k ++ lit "=" ++ escapeURL v).
  assert (Hamp : "&"%char ∉ k ++ lit "=" ++ escapeURL v).
  { rewrite !elem_of_app. intros [H|[H|H]]; [done| |by apply escapeURL_no_ampersand in H].
    revert H. refine (bool_decide_unpack (_ ∉ _) _). vm_compute. exact I. }
  assert (Hadd : add_parameter ∅ (k ++ lit "=" ++ escapeURL v) = Ret {[ k := v ]}).
  { unfold add_parameter. rewrite bool_decide_false by (intros H; by apply app_eq_nil in H as [? _]).
    rewrite find_equals by done. replace (length k + 1) with (length (k ++ lit "=")) by (by rewrite length_app).
    rewrite take_app_length, app_assoc, drop_app_length, unescape_plain by done.
    by rewrite unescape_of_escapeURL. }
  destruct (length (k ++ lit "=" ++ escapeURL v)); cbn [parameters_loop];
    by rewrite (proj2 (find_char_None _ _) Hamp).
Qed.

Lemma header_lines_split name v k w :
  header_line name (v ++ crlf ++ k ++ lit ": " ++ w) = header_line name v ++ header_line k w.
Proof. unfold header_line. by rewrite <- !app_assoc. Qed.

Lemma redirection_render base q headers :
  concat (map (fun kv => header_line kv.1 kv.2) headers) =
    header_line (lit "location") (Redirect.location base q) ->
  Forall clean_header headers ->
  parse_message (render (Redirect.redirection base q)) =
    Some (301%Z, lit "Moved Permanently",
          [(lit "Content-Length", lit "0"); (lit "connection", lit "close")] ++ headers, []).
Proof.
  intros Hl Hc. unfold render.
  assert (Hd : codeDescriptions !! r_code (Redirect.redirection base q) = Some (lit "Moved Permanently"))
    by (vm_compute; reflexivity).
  rewrite (noContent_lines _ _ Hd), redirection_headers.
  change (r_content (Redirect.redirection base q)) with (@nil ascii).
  change (r_code (Redirect.redirection base q)) with 301%Z. rewrite app_nil_r.
  rewrite <- (parse_message_lines 301 (lit "Moved Permanently")
    ([(lit "Content-Length", lit "0"); (lit "connection", lit "close")] ++ headers) []).
  - rewrite map_app, concat_app, Hl, app_nil_r. cbn [map concat fst snd]. rewrite app_nil_r.
    by rewrite <- !app_assoc.
  - lia.
  - refine (bool_decide_unpack _ _). vm_compute. exact I.
  - apply Forall_app. split; [|done]. unfold clean_header.
    repeat constructor; refine (bool_decide_unpack (_ ∉ _) _); vm_compute; exact I.
Qed.

(** Every request for a path is redirected to that path of the base, with its
    parameters; the reader finds the location as the only header that depends on
    the request, provided there is no carriage return in it. *)
Lemma redirect_target base q :
  head (q_path q) = Some "/"%char -> (cr ∉ target_base base q ++ pathWithParameters q) ->
  parse_message (render (Redirect.redirection base q)) =
    Some (301%Z, lit "Moved Permanently",
          [(lit "Content-Length", lit "0"); (lit "connection", lit "close");
           (lit "location", target_base base q ++ pathWithParameters q)], []).
Proof.
  intros Hp Hc.
  apply (redirection_render base q [(lit "location", target_base base q ++ pathWithParameters q)]).
  - cbn [map concat fst snd]. by rewrite app_nil_r, location_spec.
  - apply Forall_singleton. split; [|split; [|done]]; refine (bool_decide_unpack (_ ∉ _) _);
      vm_compute; exact I.
Qed.

(** The decoded parameters of a request are written into the location as they
    are.  A client that asks for a path with a percent-encoded line break gets a
    response in which a reader of HTTP finds a header of the client's choice. *)
Theorem redirect_splits base k name value w rest (s : client * @world J N) :
  let q := c_request s.1 in
  let path := query k (crlf ++ name ++ lit ": " ++ value) in
  (forall x, lock_handler w x = Some (Redirect.handle sha1 base)) -> h_getHandlers s.2.1 = w :: rest ->
  wants_webSocket q = false -> q_path q = getPath path -> Ret (q_parameters q) = getParameters path true ->
  clean_parameter (k, []) -> (Z.of_nat (length path) < W64)%Z ->
  clean_header (name, value) -> (cr ∉ target_base base q) -> (cr ∉ k) ->
  exists response,
    handleGET sha1 s = (send_to response ;; @Client.close _ (http_ServerOps sha1)) s /\
    parse_message response =
      Some (301%Z, lit "Moved Permanently",
            [(lit "Content-Length", lit "0"); (lit "connection", lit "close");
             (lit "location", target_base base q ++ lit "/?" ++ k ++ lit "="); (name, value)], []).
Proof.
  intros q path Hl Hh Hw Hpath Hparams Hk Hlen Hclean Hb Hkcr.
  set (v := crlf ++ name ++ lit ": " ++ value) in *.
  destruct (query_read k v) as [E1 E2]; [done|done| |].
  { unfold path, query in Hlen. rewrite !length_app in Hlen. lia. }
  fold path in E1, E2. rewrite E1 in Hpath. rewrite E2 in Hparams. injection Hparams as Hparams.
  exists (render (Redirect.redirection base q)). split.
  - eapply (handleGET_first sha1 w rest [] CApprove _ s (Redirect.handle sha1 base)); try done.
    + change (validatePath (q_path q) = true). by rewrite Hpath.
    + change (getParts (q_path q) = Ret []). by rewrite Hpath.
    + unfold Redirect.handle, reply, below, handler_args. mrun. cbn [negb fst snd a_request].
      by destruct (send_to _ s) as [[[]|e| |] s'].
  - apply (redirection_render base q
      [(lit "location", target_base base q ++ lit "/?" ++ k ++ lit "="); (name, value)]).
    + cbn [map concat fst snd]. rewrite app_nil_r, <- header_lines_split, location_spec by by rewrite Hpath.
      f_equal. unfold pathWithParameters. rewrite Hpath, Hparams.
      assert (entries {[ k := v ]} = [(k, v)]) as ->.
      { unfold entries. by rewrite map_to_list_singleton. }
      cbn [map concat]. rewrite app_nil_r. unfold parameter_text. cbn [fst snd].
      rewrite bool_decide_false by done. unfold v. by rewrite <- !app_assoc.
    + repeat apply Forall_cons_2; [|done|done].
      split; [|split; [refine (bool_decide_unpack (_ ∉ _) _); vm_compute; exact I|]]; cbn [fst snd].
      * refine (bool_decide_unpack (_ ∉ _) _). vm_compute. exact I.
      * rewrite !elem_of_app. intros [H|[H|[H|H]]]; [done| |done|];
          revert H; refine (bool_decide_unpack (_ ∉ _) _); vm_compute; exact I.
Qed.
End redirect_theorems.

(** ** Theorems: echoes *)

Section wsecho_theorem.
Import WSEcho.
Context {J N : Type} `{JO : JsonOps J} `{NO : NetOps N} `{NL : !NetLog N} {HH : @Handlers J N}.
Variable sha1 : bytes -> bytes.

(** A client that offers the protocol is given it and a handler; each of its
    messages then comes back in one text frame that a reader of RFC 6455 reads;
    and once the plugin is cleaned up its messages go nowhere. *)
Theorem wsecho_echoes args (c : client) (h : http_server J) (n : N) p handler message :
  lit "echo" ∈ wa_protocols args -> h_webSocketMessageHandlers h !! c_id c = None ->
  net_connected (c_id c) n -> (Z.of_nat (length message) < W64)%Z ->
  (forall x, lock_message (ws_next p) x = Some (WSEcho.handleMessage sha1)) ->
  exists args' p' h',
    WSEcho.handleConnect true (p, (args, (c, (h, n)))) = (Ret CApprove, (p', (args', (c, (h', n))))) /\
    wa_acceptedProtocol args' = lit "echo" /\
    (exists n' frame,
       handleWebSocketMessage message (c, (h', n)) = (Ret tt, (c, (h', n'))) /\
       net_sent (c_id c) n' = net_sent (c_id c) n ++ frame /\
       forall rest, parse_frame (frame ++ rest) = Some (true, 1%Z, message, rest)) /\
    let h'' := (WSEcho.cleanup (N := N) handler p' h').2 in
    handleWebSocketMessage message (c, (h'', n)) = (Ret tt, (c, (h'', n))).
Proof.
  intros Hoffer Hnone Hconn Hlen Hlock.
  set (h' := registerWebSocketMessageHandler (c_id c) (ws_next p) h).
  assert (Hreg : h_webSocketMessageHandlers h' !! c_id c = Some [ws_next p]).
  { cbn. by rewrite lookup_insert_eq, Hnone. }
  exists (MkConnectionArgs (wa_args args) (wa_protocols args) (lit "echo")),
    (MkWSEcho (ws_owned p ++ [ws_next p]) (ws_next p + 1)%Z), h'.
  split; [|split; [done|split]].
  - unfold WSEcho.handleConnect. mrun. cbn [negb fst snd]. by rewrite bool_decide_true.
  - destruct (sendWebSocket_sends (SO := http_ServerOps sha1) (SL := world_SendLog sha1)
                message false 255 c (h', n)) as ([h1 n'] & frame & E & Hs & Hp); [done|done|done|].
    exists n', frame. cbn [sent world_SendLog snd] in Hs.
    assert (h1 = h') as ->.
    { revert E. unfold sendWebSocket, Client.send, get_client, on_world.
      cbn [server_send http_ServerOps]. unfold on_net. mrun. cbn [fst snd].
      destruct (net_send _ _ n) as [[[]|e| |] n1]; try done; cbn [fst snd].
      destruct (net_send _ _ n1) as [[[]|e| |] n2]; try done. by intros [= -> ->]. }
    split; [|done]. unfold handleWebSocketMessage. mrun. cbn [fst snd]. rewrite Hreg.
    cbn [beforeMulti]. mrun. unfold message_lock. rewrite Hlock. cbn [fmap option_fmap option_map].
    unfold WSEcho.handleMessage. mrun. cbn [negb]. unfold world in *. by rewrite E.
  - cbn zeta. unfold handleWebSocketMessage. mrun. cbn [fst snd].
    assert (h_webSocketMessageHandlers
      (WSEcho.cleanup (N := N) handler (MkWSEcho (ws_owned p ++ [ws_next p]) (ws_next p + 1)%Z) h').2
      !! c_id c = None) as ->; [|done].
    unfold WSEcho.cleanup, cleanWebSocketHandlers, cleanWebSocketCloseHandlers,
      cleanWebSocketMessageHandlers, set_close_handlers, set_message_handlers, set_connectionHandlers.
    cbn [snd h_webSocketMessageHandlers]. rewrite clean_table_lookup. cbn. rewrite lookup_insert_eq, Hnone.
    cbn [default mbind option_bind app]. cbn [handler_live WSEcho.expired ws_owned].
    rewrite filter_cons_False; [done|]. rewrite bool_decide_true by set_solver. by intros [].
Qed.
End wsecho_theorem.

(** ** Witnesses *)

(** No handlers, and one handler behind every pointer. *)
Definition no_handlers : @Handlers (gmap bytes bytes) (list bytes) := {|
  lock_handler := fun _ _ => None;
  lock_connection := fun _ _ => None;
  lock_message := fun _ _ => None;
  lock_close := fun _ _ => None;
  handler_live := fun _ => None;
|}.
Definition one_handler
    (h : bool -> M (HandlerArgs * (client * @world (gmap bytes bytes) (list bytes))) CancelableResult)
    : @Handlers (gmap bytes bytes) (list bytes) := {|
  lock_handler := fun _ _ => Some h;
  lock_connection := fun _ _ => None;
  lock_message := fun _ _ => Some (WSEcho.handleMessage (HH := no_handlers) id);
  lock_close := fun _ _ => None;
  handler_live := Some;
|}.

Definition asked (q : request) : client * @world (gmap bytes bytes) (list bytes) :=
  (set_request q (new_client 3 []),
   (HttpServer ∅ (path_of (lit "/srv/www")) [1%Z] [] [] ∅ ∅ ∅, [])).

Lemma calculator_answers_witness :
  handleGET (HH := one_handler Calculator.handle) id
    (asked (set_path (lit "/%2b/20/%2d62") new_request))
  = (Ret tt, ((asked (set_path (lit "/%2b/20/%2d62") new_request)).1,
              ((asked new_request).2.1,
               [render (setMIME (make_response 200 (lit "-42")) (lit "text/plain")); lit "close"]))).
Proof.
  refine (eq_trans (calculator_answers (HH := one_handler Calculator.handle) id (lit "+") Plus 20 (-62)
    1%Z [] (asked (set_path (lit "/%2b/20/%2d62") new_request)) _ _ _ _ _ _ _) _);
    try reflexivity; try (unfold INT64_MIN, INT64_MAX; lia); vm_compute; reflexivity.
Defined.

Definition split_request : request :=
  set_parameters {[ lit "q" := crlf ++ lit "set-cookie: id=1" ]} (set_path (lit "/") new_request).

Lemma redirect_splits_witness :
  exists response,
    handleGET (HH := one_handler (Redirect.handle (HH := no_handlers) id (lit "https://example.org"))) id
      (asked split_request)
    = (Ret tt, ((asked split_request).1, ((asked split_request).2.1, [response]))) /\
    parse_message response =
      Some (301%Z, lit "Moved Permanently",
            [(lit "Content-Length", lit "0"); (lit "connection", lit "close");
             (lit "location", lit "https://example.org/?q="); (lit "set-cookie", lit "id=1")], []).
Proof.
  destruct (redirect_splits
    (HH := one_handler (Redirect.handle (HH := no_handlers) id (lit "https://example.org"))) id
    (lit "https://example.org") (lit "q") (lit "set-cookie") (lit "id=1") 1%Z [] (asked split_request))
    as (response & E & H).
  - intros x. reflexivity.
  - reflexivity.
  - reflexivity.
  - vm_compute. reflexivity.
  - vm_compute. reflexivity.
  - unfold clean_parameter. refine (conj _ (conj _ _)); [discriminate|..]; intros c Hc;
      apply list_elem_of_In in Hc; cbn in Hc; intuition subst; cbn [fst snd] in *;
      revert H; refine (bool_decide_unpack (_ ∉ _) _); vm_compute; exact I.
  - reflexivity.
  - unfold clean_header. refine (bool_decide_unpack _ _). vm_compute. exact I.
  - refine (bool_decide_unpack (_ ∉ _) _). vm_compute. exact I.
  - refine (bool_decide_unpack (_ ∉ _) _). vm_compute. exact I.
  - exists response. split; [|exact H]. refine (eq_trans E _). reflexivity.
Defined.

Lemma wsecho_echoes_witness :
  exists h', handleWebSocketMessage (HH := one_handler Calculator.handle) (lit "hi")
    ((asked new_request).1, (h', [])) =
    (Ret tt, ((asked new_request).1, (h', [[chr 129; chr 2]; lit "hi"]))).
Proof.
  destruct (wsecho_echoes (HH := one_handler Calculator.handle) (N := list bytes) id
    (MkConnectionArgs (MkHandlerArgs new_request []) [lit "chat"; lit "echo"] [])
    (asked new_request).1 (asked new_request).2.1 [] (WSEcho.MkWSEcho [] 9%Z) 4%Z (lit "hi"))
    as (args' & p' & h' & E1 & _ & (n' & frame & E2 & _) & _).
  - refine (bool_decide_unpack (_ ∈ _) _). vm_compute. exact I.
  - reflexivity.
  - exact I.
  - reflexivity.
  - intros x. reflexivity.
  - exists h'. revert E2. injection E1 as <- <- <-. intros _. vm_compute. reflexivity.
Defined.

Lemma cleanup_undoes_postinit_witness :
  let h := example_server [] in
  let postinit := FileServer.postinit (JO := ejson_ops) (FSys := example_files) 5%Z 6%Z (example_fileserv None) in
  h_getHandlers (postinit h).2 = [5%Z] /\ h_postHandlers (postinit h).2 = [6%Z] /\
  FileServer.cleanup Some 5%Z 6%Z (postinit h).2 = h.
Proof.
  cbv zeta. split; [reflexivity|]. split; [reflexivity|].
  refine (proj1 (proj2 (proj2 (proj2 (proj2 (cleanup_undoes_postinit (JO := ejson_ops) (FSys := example_files)
    Some 5%Z 6%Z (example_server []) (example_fileserv None) (EObj []) [] _ _ _ _))))));
    (split; [by eexists|constructor]).
Defined.
