(* ===== verification/Core.v ===== *)
(** * The start of the servers

    [src/Core.cpp], [src/main.cpp], the constructor and the destructor of
    [src/http/Server.cpp] and the constructors of [src/net/Server.cpp] and
    [src/net/SSLServer.cpp]: from the arguments of the program and its
    configuration to the servers with their plugins.  What the plugins do when
    they are loaded and initialised is the world of [PluginHost.v]; sockets and
    TLS contexts are arguments. *)

From Stdlib Require Import ZArith Lia Ascii String.
From stdpp Require Import base tactics option list strings gmap.
From S2P Require Import Prelude Util Response Request PluginHost Client FS HttpServer GeoIP.

(** What start-up asks of the JSON library besides [JsonOps]. *)
Class ConfigOps (J : Type) := {
  json_items : J -> list (bytes * J);
  json_index : J -> nat -> outcome J;
}.

Definition DEFAULT_THREAD_COUNT : Z := 8.
Definition SHARED_SUFFIX : bytes := lit ".so".

(** ** The servers *)

(** What [makeHTTP] is given: the fields of the network server it takes over. *)
Record Server := MkServer {
  sv_id : bytes;
  sv_ssl : bool;
  sv_inet6 : bool;
  sv_ip : bytes;
  sv_port : Z;
  sv_threadCount : Z;
  sv_chunkSize : Z;
}.

(** An HTTP server with its network server, its plugins, whether the message
    handler of the network server is set, and whether its watcher runs. *)
Record ApplicationServer (J : Type) := App {
  a_server : Server;
  a_http : http_server J;
  a_plugins : list PluginTuple;
  a_configs : gmap plugin J;
  a_messageHandler : bool;
}.
Arguments App {J}.
Arguments a_server {J}.
Arguments a_http {J}.
Arguments a_plugins {J}.
Arguments a_configs {J}.
Arguments a_messageHandler {J}.

Section core.
Context {J W : Type} `{JO : JsonOps J} `{CO : ConfigOps J} `{FSys : FileSystem} `{PW : PluginWorld W}.

(** The directory the program works in, what a directory contains, and a bound
    on how deep directories are nested. *)
Variable current_path : path.
Variable list_directory : path -> outcome (list (path * bool)).
Variable depth : nat.

(** [Server::Server]. *)
Definition new_Server (ssl inet6 : bool) (ip : bytes) (port threadCount chunkSize : Z) : outcome Server :=
  if (threadCount <? 1)%Z then
    Throw (InvalidArgument (lit "Cannot instantiate a Server with a thread count of zero"))
  else Ret (MkServer (lit "server") ssl inet6 ip port threadCount chunkSize).

(** [SSLServer::SSLServer]: [tls] is what the library makes of a file of the
    certificate, the key and the chain. *)
Inductive tls_file := Certificate | PrivateKey | Chain.
Variable tls_context : bool.
Variable tls_use : tls_file -> bytes -> bool.

Definition new_SSLServer (inet6 : bool) (ip : bytes) (port : Z) (cert key chain : bytes)
    (threadCount chunkSize : Z) : outcome Server :=
  server ← new_Server true inet6 ip port threadCount chunkSize;
  if negb tls_context then
    Throw (RuntimeError (lit "SSLServer OpenSSL context initialization failed"))
  else if negb (bool_decide (cert = [])) && negb (tls_use Certificate cert) then
    Throw (RuntimeError (lit "SSLServer OpenSSL certificate initialization failed"))
  else if negb (bool_decide (key = [])) && negb (tls_use PrivateKey key) then
    Throw (RuntimeError (lit "SSLServer OpenSSL private key initialization failed"))
  else if negb (bool_decide (chain = [])) && negb (tls_use Chain chain) then
    Throw (RuntimeError (lit "SSLServer OpenSSL certificate chain initialization failed"))
  else Ret server.

(** [std::filesystem::absolute]. *)
Definition absolute (p : path) : path := path_append current_path p.
Definition getWebRoot (web_root : bytes) : path :=
  lexically_normal (absolute (path_of (if bool_decide (web_root = []) then lit "./www" else web_root))).

(** An optional text. *)
Definition text_or_empty (suboptions : J) (name : bytes) : outcome bytes :=
  if json_contains suboptions name then v ← json_at suboptions name; json_get_string v else Ret [].

(** [HTTP::Server::Server]. *)
Definition new_http (server : Server) (options : J) : outcome (ApplicationServer J) :=
  root ← text_or_empty options (lit "root");
  let webRoot := getWebRoot root in
  configs ← crawlConfigs list_directory depth webRoot ∅;
  Ret (App server (HttpServer options webRoot [] [] [] ∅ ∅ configs) [] ∅ false).

(** The function [onModify] of the watcher. *)
Definition onModify (p : path) (h : http_server J) : outcome (http_server J) :=
  if bool_decide (filename p = config_name) then addConfig p h else Ret h.

(** The thread that watches the web root: for every round whether the server is
    being destroyed, and how the call of the watcher ends.  [true] when the
    thread is over. *)
Inductive watched := Returned | WahtwoError (what : bytes) | OtherException.
Fixpoint watcherThread (rounds : list (bool * watched)) : bool :=
  match rounds with
  | [] => false
  | (dying, result) :: rest =>
    if (dying : bool) then true
    else match result with
         | Returned => watcherThread rest
         | WahtwoError what => if is_prefix (lit "select failed:") what then watcherThread rest else true
         | OtherException => true
         end
  end.

(** ** [makeHTTP] *)

(** A plugin's name: a text, or the first entry of a pair with its configuration. *)
Definition plugin_path (name : bytes) : bytes := lit "plugin/" ++ name ++ SHARED_SUFFIX.

Definition load_item (value : J) : M (@host W * gmap plugin J) () := fun s =>
  if json_is_string value then
    let '(r, h) := (name ← lift (json_get_string value); _ ← loadPlugin (plugin_path name); mret tt) s.1 in
    (r, (h, s.2))
  else
    let '(r, h) := (v ← lift (json_index value 0); name ← lift (json_get_string v);
                    loadPlugin (plugin_path name)) s.1 in
    match r with
    | Ret tuple =>
      match json_index value 1 with
      | Ret config => (Ret tt, (h, <[tuple_plugin tuple := config]> s.2))
      | Throw e => (Throw e, (h, s.2))
      | Undef => (Undef, (h, s.2))
      | Diverge => (Diverge, (h, s.2))
      end
    | Throw e => (Throw e, (h, s.2))
    | Undef => (Undef, (h, s.2))
    | Diverge => (Diverge, (h, s.2))
    end.

(** [PluginHost::preinitPlugins] of a host with configurations. *)
Definition on_host_of {A} (m : M (@host W) A) : M (@host W * gmap plugin J) A := fun s =>
  let '(r, h) := m s.1 in (r, (h, s.2)).

(** The [try] block. *)
Definition configure (suboptions : J) : M (@host W * gmap plugin J) () :=
  lift (ip ← json_at suboptions (lit "ip"); _ ← json_get_string ip;
        _ ← json_at suboptions (lit "port"); Ret tt) ;;
  (if json_contains suboptions (lit "plugins") then
     plugins ← lift (json_at suboptions (lit "plugins"));
     for_each (json_items plugins) (fun item => load_item item.2) ;;
     on_host_of preinitPlugins
   else mret tt).

(** [HTTP::Server::~Server]: an exception that leaves a destructor ends the
    program, which no outcome stands for. *)
Definition delete_http (h : @host W) : outcome () * W :=
  let '(r, h') := unloadPlugins (length h.1) h in
  (match r with Throw _ => Undef | _ => r end, h'.2).

(** The state is the world. *)
Definition configure_http (http : ApplicationServer J) (suboptions : J) : M W (ApplicationServer J) := fun w =>
  match configure suboptions (([], w), ∅) with
  | (Ret tt, ((plugins, w'), configs)) => (Ret (App (a_server http) (a_http http) plugins configs true), w')
  | (Throw e, (h, _)) => let '(r, w') := delete_http h in (_ ← r; Throw e, w')
  | (Undef, (h, _)) => (Undef, h.2)
  | (Diverge, (h, _)) => (Diverge, h.2)
  end.

Definition makeHTTP (server : option Server) (suboptions : J) : M W (ApplicationServer J) :=
  match server with
  | None => throw (RuntimeError (lit "Server argument to makeHTTP must not be null"))
  | Some server => http ← lift (new_http server suboptions); configure_http http suboptions
  end.

(** ** [Core] *)

(** [uint16_t] of a number: the JSON library casts. *)
Definition get_port (v : J) : outcome Z := n ← json_get_size v; Ret (n mod 2 ^ 16)%Z.

Definition is_inet6 (ip : bytes) : bool := bool_decide (is_Some (find_char ":" ip)).

Definition thread_count (suboptions : J) : outcome Z :=
  if json_contains suboptions (lit "threads") then
    v ← json_at suboptions (lit "threads"); json_get_size v
  else Ret DEFAULT_THREAD_COUNT.

Definition with_id (id : bytes) (s : Server) : Server :=
  MkServer id (sv_ssl s) (sv_inet6 s) (sv_ip s) (sv_port s) (sv_threadCount s) (sv_chunkSize s).

Definition http_section (suboptions : J) : outcome Server :=
  i ← json_at suboptions (lit "ip"); ip ← json_get_string i;
  p ← json_at suboptions (lit "port"); port ← get_port p;
  threads ← thread_count suboptions;
  server ← new_Server false (is_inet6 ip) ip port threads 1024;
  Ret (with_id (lit "http") server).

Definition https_section (suboptions : J) : outcome Server :=
  p ← json_at suboptions (lit "port"); port ← get_port p;
  i ← json_at suboptions (lit "ip"); ip ← json_get_string i;
  cert ← text_or_empty suboptions (lit "cert");
  key ← text_or_empty suboptions (lit "key");
  chain ← text_or_empty suboptions (lit "chain");
  threads ← thread_count suboptions;
  server ← new_SSLServer (is_inet6 ip) ip port cert key chain threads 1024;
  Ret (with_id (lit "https") server).

(** The state: the servers and the world. *)
Definition core : Type := list (ApplicationServer J) * W.

Definition on_plugin_world {A} (m : M W A) : M core A := fun s =>
  let '(r, w) := m s.2 in (r, (s.1, w)).

(** One of the two sections of the configuration. *)
Definition add_server (json : J) (name : bytes) (section : J -> outcome Server) : M core () :=
  if json_contains json name then
    suboptions ← lift (json_at json name);
    server ← lift (section suboptions);
    http ← on_plugin_world (makeHTTP (Some server) suboptions);
    modify (fun s => (s.1 ++ [http], s.2))
  else mret tt.

(** [host->postinitPlugins()]: the plugins only change the world. *)
Definition postinit_server (a : ApplicationServer J) : M core () :=
  on_plugin_world (fun w => let '(r, h) := postinitPlugins (a_plugins a, w) in (r, h.2)).

Definition run (json : J) : M core () :=
  s ← get;
  match s.1 with
  | _ :: _ => throw (RuntimeError (lit "Can't run: servers already present"))
  | [] =>
    add_server json (lit "http") http_section ;;
    add_server json (lit "https") https_section ;;
    s ← get;
    for_each s.1 postinit_server
  end.

Definition getSSLServer (servers : list (ApplicationServer J)) : option (ApplicationServer J) :=
  find (fun a => sv_ssl (a_server a)) servers.

(** ** [main] *)

(** The directory to change to, and the file of the configuration. *)
Definition home_directory (argv : list bytes) : option bytes :=
  match argv with
  | _ :: flag :: home :: _ => if bool_decide (flag = lit "--home") then Some home else None
  | _ => None
  end.
Definition config_file (argv : list bytes) : bytes :=
  match argv with
  | _ :: arg :: _ => if bool_decide (arg = lit "dbg") then lit "algiz.json" else arg
  | _ => lit "algiz.json"
  end.

Context {Db R : Type} `{GD : GeoDatabase Db R}.

Definition on_core {A} (m : M core A) : M (option (geoip Db R) * core) A := fun s =>
  let '(r, c) := m s.2 in (r, (s.1, c)).
Definition on_countries {A} (m : M (option (geoip Db R)) A) : M (option (geoip Db R) * core) A := fun s =>
  let '(r, g) := m s.1 in (r, (g, s.2)).

(** What [main] does before the servers run: with the exit status when there is
    an exception.  The file system is the one seen from the directory that
    [change_directory] ends in. *)
Variable change_directory : bytes -> outcome ().
Definition start (argv : list bytes) : M (option (geoip Db R) * core) (option Z) :=
  catch
    (lift (match home_directory argv with Some home => change_directory home | None => Ret tt end) ;;
     text ← lift (readFile (path_of (config_file argv)));
     options ← lift (match json_parse text with Some j => Ret j | None => Throw JsonError end);
     (if json_contains options (lit "geoip") then
        v ← lift (json_at options (lit "geoip"));
        database_path ← lift (json_get_string v);
        _ ← on_countries (get_path database_path); mret tt
      else mret tt) ;;
     on_core (run options) ;;
     mret None)
    (fun _ => Some (mret (Some 1%Z))).

(** ** Theorems *)

(** Directories that are nested less deeply than [depth] are crawled to the end. *)
Lemma crawlConfigs_ends (rank : path -> nat) fuel :
  (forall p, list_directory p <> Diverge) ->
  (forall p l d, list_directory p = Ret l -> (d, true) ∈ l -> rank d < rank p) ->
  forall base m, rank base < fuel -> crawlConfigs list_directory fuel base m <> Diverge.
Proof.
  intros Hd Hr. induction fuel as [|fuel IH]; intros base m Hf; [lia|]. cbn [crawlConfigs].
  destruct (fs_is_directory (path_c_str base)); cbn [negb]; [|done]. mrun.
  destruct (list_directory base) as [entries| | |] eqn:El; [|done|done|by destruct (Hd base)].
  assert (Hall : forall d, (d, true) ∈ entries -> rank d < fuel)
    by (intros d Hin; specialize (Hr _ _ _ El Hin); lia).
  clear El. revert m. induction entries as [|[p []] rest IHe]; intros m; cbn [crawl_entries]; [done|..].
  - mrun. destruct (crawlConfigs list_directory fuel p m) eqn:E; [|done|done|].
    + apply IHe. intros d Hin. apply Hall. by right.
    + exfalso. eapply IH; [|exact E]. apply Hall. left.
  - assert (Hrest : forall m, crawl_entries (crawlConfigs list_directory fuel) base rest m <> Diverge)
      by (apply IHe; intros d Hin; apply Hall; by right).
    mrun. case_bool_decide; [|apply Hrest]. unfold readFile.
    destruct (fs_contents (path_c_str p)); [|done]. destruct (json_parse _); apply Hrest.
Qed.

(** An exception of a handler of the watcher, such as that of a configuration
    that cannot be read, ends the thread whatever comes later. *)
Lemma watcher_ends before after :
  Forall (fun x => x = (false, Returned)) before ->
  watcherThread (before ++ (false, OtherException) :: after) = true.
Proof. induction 1 as [|x before -> _ IH]; [done|exact IH]. Qed.

(** The name of a plugin's entry in the configuration, and the entries. *)
Definition item_name (value : J) : outcome bytes :=
  if json_is_string value then json_get_string value
  else v ← json_index value 0; json_get_string v.
Definition items_of (suboptions : J) : outcome (list (bytes * J)) :=
  if json_contains suboptions (lit "plugins") then json_items <$> json_at suboptions (lit "plugins")
  else Ret [].
Definition loaded_as (item : bytes * J) (t : PluginTuple) : Prop :=
  exists name w, item_name item.2 = Ret name /\ canonical (plugin_path name) w = Ret (tuple_path t).

(** A server that is ready to run: it has what its section says, a plugin for
    every entry in the order of the entries, and its message handler. *)
Definition ready (section : J -> outcome Server) (suboptions : J) (a : ApplicationServer J) : Prop :=
  section suboptions = Ret (a_server a) /\ h_options (a_http a) = suboptions /\
  a_messageHandler a = true /\
  exists items, items_of suboptions = Ret items /\ Forall2 loaded_as items (a_plugins a).

Lemma loadPlugin_cases path (h : @host W) :
  match loadPlugin path h with
  | (Ret t, h') => canonical path h.2 = Ret (tuple_path t) /\ h'.1 = h.1 ++ [t]
  | (_, h') => h'.1 = h.1
  end.
Proof.
  unfold loadPlugin, world_op, host, PluginTuple in *. mrun. destruct (canonical path h.2) as [c| | |]; [|done..].
  destruct (exists_ c h.2); cbn [negb]; [|done]. destruct (dlopen c h.2) as [[lib|] w]; cbn [fst snd]; [|done].
  by destruct (make_plugin lib w) as [[p|] w2].
Qed.

Lemma load_item_cases item s r s' :
  load_item item.2 s = (r, s') ->
  (s'.1.1 = s.1.1 /\ r <> Ret tt) \/ exists t, s'.1.1 = s.1.1 ++ [t] /\ loaded_as item t.
Proof.
  unfold load_item, loaded_as, item_name. destruct (json_is_string item.2).
  - mrun. destruct (json_get_string item.2) as [name| | |]; [|intros [= <- <-]; by left..].
    pose proof (loadPlugin_cases (plugin_path name) s.1) as Hl.
    destruct (loadPlugin (plugin_path name) s.1) as [[t| | |] h]; intros [= <- <-]; [right|by left..].
    destruct Hl as [Hc Hh]. exists t. split; [exact Hh|]. by exists name, s.1.2.
  - mrun. destruct (json_index item.2 0) as [v| | |]; [|intros [= <- <-]; by left..].
    destruct (json_get_string v) as [name| | |]; [|intros [= <- <-]; by left..].
    pose proof (loadPlugin_cases (plugin_path name) s.1) as Hl.
    destruct (loadPlugin (plugin_path name) s.1) as [[t| | |] h]; [|intros [= <- <-]; by left..].
    destruct Hl as [Hc Hh].
    destruct (json_index item.2 1); intros [= <- <-]; right; exists t; (split; [exact Hh|]);
      by exists name, s.1.2.
Qed.

(** The plugins that have been loaded are those of the first entries. *)
Lemma load_items_cases items : forall s r s',
  for_each items (fun item => load_item item.2) s = (r, s') ->
  exists ts, s'.1.1 = s.1.1 ++ ts /\ Forall2 loaded_as (take (length ts) items) ts /\
    (r = Ret tt -> length ts = length items).
Proof.
  induction items as [|item items IH]; intros s r s'; cbn [for_each].
  - mrun. intros [= <- <-]. exists []. by rewrite app_nil_r.
  - mrun. destruct (load_item item.2 s) as [r1 s1] eqn:E.
    apply load_item_cases in E as [[E Hr]|(t & E & Ht)].
    + destruct r1 as [[]|e| |]; [done|intros [= <- <-]; exists []; by rewrite app_nil_r..].
    + destruct r1 as [[]|e| |]; [|intros [= <- <-]; exists [t]; split; [done|]; split; [|done];
        cbn [length take]; rewrite ?take_0; by repeat constructor..].
      intros H. apply IH in H as (ts & E2 & Hts & Hlen). exists (t :: ts).
      split; [by rewrite E2, E, <- app_assoc|]. cbn [length take]. split; [by constructor|].
      intros Hr. f_equal. by apply Hlen.
Qed.

(** Calls of plugins leave the table alone. *)
Lemma for_each_world_op (f : PluginTuple -> W -> outcome () * W) l : forall (h : @host W),
  (for_each l (fun t => world_op (f t)) h).2.1 = h.1.
Proof.
  induction l as [|t l IH]; intros h; [done|]. cbn [for_each]. unfold world_op, host in *. mrun.
  destruct (f t h.2) as [[[]| | |] w]; [|done..]. apply (IH (h.1, w)).
Qed.

Lemma configure_cases suboptions s r s' :
  configure suboptions s = (r, s') -> s.1.1 = [] ->
  (exists items, items_of suboptions = Ret items /\ Forall2 loaded_as (take (length s'.1.1) items) s'.1.1 /\
     (r = Ret tt -> length s'.1.1 = length items)) \/ (s'.1.1 = [] /\ r <> Ret tt).
Proof.
  unfold configure, items_of. mrun.
  destruct (json_at suboptions (lit "ip")) as [ip| | |]; [|intros [= <- <-]; by right..].
  destruct (json_get_string ip); [|intros [= <- <-]; by right..].
  destruct (json_at suboptions (lit "port")); [|intros [= <- <-]; by right..].
  destruct (json_contains suboptions (lit "plugins")).
  - destruct (json_at suboptions (lit "plugins")) as [plugins| | |]; [|intros [= <- <-]; by right..].
    intros H Hs. left. exists (json_items plugins). split; [done|].
    destruct (for_each _ _ s) as [r1 s1] eqn:E.
    apply load_items_cases in E as (ts & E & Hts & Hlen). rewrite Hs in E. cbn [app] in E.
    destruct r1 as [[]|e| |]; [|revert H; intros [= <- <-]; rewrite E; by split..].
    revert H. unfold on_host_of, preinitPlugins. mrun.
    pose proof (for_each_world_op (fun t => preinit (tuple_plugin t)) s1.1.1 s1.1) as Hk.
    destruct (for_each _ _ s1.1) as [r2 h]. cbn [snd] in Hk. intros [= -> <-]. cbn [fst].
    rewrite Hk, E. split; [done|]. intros _. by apply Hlen.
  - intros [= <- <-] Hs. left. exists []. split; [done|]. by rewrite Hs.
Qed.

Lemma configure_ok suboptions s s' :
  configure suboptions s = (Ret tt, s') -> s.1.1 = [] ->
  exists items, items_of suboptions = Ret items /\ Forall2 loaded_as items s'.1.1.
Proof.
  intros H Hs. destruct (configure_cases _ _ _ _ H Hs) as [(items & Hi & Hf & Hlen)|[_ Hn]]; [|done].
  exists items. split; [done|]. by rewrite Hlen, firstn_all in Hf by done.
Qed.

Lemma makeHTTP_ok server suboptions w a w' :
  makeHTTP (Some server) suboptions w = (Ret a, w') ->
  a_server a = server /\ h_options (a_http a) = suboptions /\ a_messageHandler a = true /\
  exists items, items_of suboptions = Ret items /\ Forall2 loaded_as items (a_plugins a).
Proof.
  unfold makeHTTP, configure_http. mrun.
  destruct (new_http server suboptions) as [http| | |] eqn:En; [|done..].
  assert (Hn : a_server http = server /\ h_options (a_http http) = suboptions).
  { revert En. unfold new_http. mrun. destruct (text_or_empty suboptions (lit "root")); [|done..].
    destruct (crawlConfigs _ _ _ _); [|done..]. by intros [= <-]. }
  destruct (configure suboptions (([], w), ∅)) as [[[]|e| |] [[ps w1] cs]] eqn:E; [|by (destruct (delete_http _) as [[| | |] ?])|done..].
  intros [= <- <-]. apply configure_ok in E; [|done]. cbn. by destruct Hn as [-> ->].
Qed.

(** The sections of a configuration that ask for a server, with their names. *)
Definition sections (json : J) : list (bytes * (J -> outcome Server)) :=
  List.filter (fun x => json_contains json x.1)
    [(lit "http", http_section); (lit "https", https_section)].

Lemma add_server_cases json name section servers w r servers' w' :
  add_server json name section (servers, w) = (r, (servers', w')) ->
  (servers' = servers /\ (r = Ret tt -> json_contains json name = false)) \/
  exists suboptions a, r = Ret tt /\ json_contains json name = true /\
    json_at json name = Ret suboptions /\ ready section suboptions a /\ servers' = servers ++ [a].
Proof.
  unfold add_server. destruct (json_contains json name); [|mrun; intros [= <- <- <-]; by left].
  mrun. destruct (json_at json name) as [sub| | |]; [|intros [= <- <- <-]; by left..].
  destruct (section sub) as [server| | |] eqn:Es; [|intros [= <- <- <-]; by left..].
  unfold on_plugin_world. cbn [fst snd].
  destruct (makeHTTP (Some server) sub w) as [[a| | |] w1] eqn:E; intros [= <- <- <-]; [right|by left..].
  apply makeHTTP_ok in E as (Hs & Ho & Hm & Hi). exists sub, a. unfold ready. by rewrite Hs.
Qed.

Lemma postinit_keeps l : forall s : core, (for_each l postinit_server s).2.1 = s.1.
Proof.
  induction l as [|a l IH]; intros s; [done|]. cbn [for_each].
  unfold postinit_server, on_plugin_world, core in *. mrun.
  destruct (postinitPlugins (a_plugins a, s.2)) as [[[]| | |] h]; [|done..]. apply (IH (s.1, h.2)).
Qed.

(** The fields of a server, by the section that asked for it. *)
Lemma http_section_fields suboptions server :
  http_section suboptions = Ret server ->
  sv_id server = lit "http" /\ sv_ssl server = false /\ (0 <= sv_port server < 2 ^ 16)%Z /\
  (1 <= sv_threadCount server)%Z.
Proof.
  unfold http_section, get_port, new_Server. mrun.
  destruct (json_at suboptions (lit "ip")); [|done..]. destruct (json_get_string _); [|done..].
  destruct (json_at suboptions (lit "port")); [|done..]. destruct (json_get_size _) as [n| | |]; [|done..].
  destruct (thread_count suboptions) as [t| | |]; [|done..]. destruct (Z.ltb_spec t 1); [done|].
  intros [= <-]. pose proof (Z.mod_pos_bound n (2 ^ 16) ltac:(done)). repeat split; cbn [sv_port sv_threadCount with_id]; lia.
Qed.

Lemma https_section_fields suboptions server :
  https_section suboptions = Ret server ->
  sv_id server = lit "https" /\ sv_ssl server = true /\ (0 <= sv_port server < 2 ^ 16)%Z /\
  (1 <= sv_threadCount server)%Z.
Proof.
  unfold https_section, get_port, new_SSLServer, new_Server. mrun.
  destruct (json_at suboptions (lit "port")); [|done..]. destruct (json_get_size _) as [n| | |]; [|done..].
  destruct (json_at suboptions (lit "ip")); [|done..]. destruct (json_get_string _); [|done..].
  do 3 (destruct (text_or_empty suboptions _); [|done..]).
  destruct (thread_count suboptions) as [t| | |]; [|done..]. destruct (Z.ltb_spec t 1); [done|].
  repeat match goal with |- context [if ?b then _ else _] => destruct b; [done|] end.
  intros [= <-]. pose proof (Z.mod_pos_bound n (2 ^ 16) ltac:(done)). repeat split; cbn [sv_port sv_threadCount with_id]; lia.
Qed.

Definition started (json : J) (x : bytes * (J -> outcome Server)) (a : ApplicationServer J) : Prop :=
  exists suboptions, json_at json x.1 = Ret suboptions /\ ready x.2 suboptions a.
Definition sound_server (a : ApplicationServer J) : Prop :=
  (0 <= sv_port (a_server a) < 2 ^ 16)%Z /\ (1 <= sv_threadCount (a_server a))%Z.

Lemma run_servers json w r servers w' :
  run json ([], w) = (r, (servers, w')) ->
  Forall2 (started json) (take (length servers) (sections json)) servers /\
  (r = Ret tt -> length servers = length (sections json)).
Proof.
  unfold run, core in *. mrun. cbn [fst].
  destruct (add_server json (lit "http") http_section ([], w)) as [r1 [l1 w1]] eqn:E1.
  pose proof (add_server_cases _ _ _ _ _ _ _ _ E1) as H1. unfold sections. cbn [List.filter fst].
  destruct H1 as [[-> Hn1]|(sub1 & a1 & -> & Hc1 & Ha1 & Hr1 & ->)].
  - destruct r1 as [[]|e| |]; [|intros [= <- <- <-]; by split..]. rewrite (Hn1 eq_refl).
    destruct (add_server json (lit "https") https_section ([], w1)) as [r2 [l2 w2]] eqn:E2.
    apply add_server_cases in E2 as [[-> Hn2]|(sub2 & a2 & -> & Hc2 & Ha2 & Hr2 & ->)].
    + destruct r2 as [[]|e| |]; intros [= <- <- <-]; (split; [by constructor|]); [|done..].
      by rewrite (Hn2 eq_refl).
    + rewrite Hc2. cbn [fst app]. pose proof (postinit_keeps [a2] ([a2], w2)) as Hk.
      unfold core in *. destruct (for_each _ _ _) as [r3 [l3 w3]]. cbn [fst snd] in Hk. subst l3.
      intros [= <- <- <-]. split; [|done]. constructor; [by exists sub2|done].
  - rewrite Hc1. cbn [app].
    destruct (add_server json (lit "https") https_section ([a1], w1)) as [r2 [l2 w2]] eqn:E2.
    apply add_server_cases in E2 as [[-> Hn2]|(sub2 & a2 & -> & Hc2 & Ha2 & Hr2 & ->)].
    + assert (Hone : Forall2 (started json) [(lit "http", http_section)] [a1])
        by (constructor; [by exists sub1|done]).
      destruct r2 as [[]|e| |]; [|intros [= <- <- <-]; cbn [length take]; split; [by destruct (json_contains _ _)|done]..].
      rewrite (Hn2 eq_refl). pose proof (postinit_keeps [a1] ([a1], w2)) as Hk.
      unfold core in *. cbn [fst]. destruct (for_each _ _ _) as [r3 [l3 w3]]. cbn [fst snd] in Hk. subst l3.
      intros [= <- <- <-]. by split.
    + rewrite Hc2. cbn [fst app]. pose proof (postinit_keeps [a1; a2] ([a1; a2], w2)) as Hk.
      unfold core in *. destruct (for_each _ _ _) as [r3 [l3 w3]]. cbn [fst snd] in Hk. subst l3.
      intros [= <- <- <-]. split; [|done]. constructor; [by exists sub1|]. constructor; [by exists sub2|done].
Qed.

Lemma started_fields json x a :
  x ∈ sections json -> started json x a ->
  sv_id (a_server a) = x.1 /\ sv_ssl (a_server a) = bool_decide (x.1 = lit "https") /\ sound_server a.
Proof.
  intros Hx (sub & _ & Hs & _). unfold sections in Hx. rewrite list_elem_of_In, filter_In in Hx.
  destruct Hx as [[<-|[<-|[]]] _]; cbn [fst snd] in *.
  - destruct (http_section_fields _ _ Hs) as (H1 & H2 & H3). by rewrite H2.
  - destruct (https_section_fields _ _ Hs) as (H1 & H2 & H3). by rewrite H2.
Qed.

Lemma getSSLServer_started json servers :
  Forall2 (started json) (sections json) servers ->
  is_Some (getSSLServer servers) <-> json_contains json (lit "https") = true.
Proof.
  intros H. assert (Hf : Forall2 (fun x a => sv_ssl (a_server a) = bool_decide (x.1 = lit "https"))
                           (sections json) servers).
  { apply Forall2_same_length_lookup. split; [by eapply Forall2_length|]. intros i x a Hx Ha.
    eapply started_fields; [by eapply list_elem_of_lookup_2|]. by eapply Forall2_lookup_lr. }
  clear H. revert Hf. unfold sections. cbn [List.filter fst].
  destruct (json_contains json (lit "http")), (json_contains json (lit "https"));
    intros Hf; unfold getSSLServer;
    repeat match goal with H : Forall2 _ (_ :: _) _ |- _ => apply Forall2_cons_inv_l in H as (? & ? & ? & ? & ->)
           | H : Forall2 _ [] _ |- _ => apply Forall2_nil_inv_l in H as -> end;
    cbn [find]; repeat match goal with H : sv_ssl _ = _ |- _ => rewrite H; clear H end;
    cbn; split; try done; by intros [? ?].
Qed.

(** C24: whatever the configuration, and however far the start gets, the servers
    the core has are complete ones for its first sections, in the order http,
    https: each has what its section says, one plugin for every entry in their
    order, and its message handler; its port has 16 bits and it has a thread.  A
    start that returns has a server for every section, and the one with TLS is
    found exactly when it is configured.  Once there is a server, another start
    is refused and changes nothing. *)
Theorem run_all_or_nothing json w :
  let '(r, (servers, w')) := run json ([], w) in
  Forall2 (started json) (take (length servers) (sections json)) servers /\
  Forall sound_server servers /\
  (r = Ret tt -> length servers = length (sections json) /\
     (is_Some (getSSLServer servers) <-> json_contains json (lit "https") = true)) /\
  (servers <> [] -> forall json',
     run json' (servers, w') =
     (Throw (RuntimeError (lit "Can't run: servers already present")), (servers, w'))).
Proof.
  destruct (run json ([], w)) as [r [servers w']] eqn:E.
  destruct (run_servers _ _ _ _ _ E) as [Hs Hlen]. split; [done|]. split; [|split].
  - rewrite Forall_forall. intros a Ha. apply list_elem_of_lookup in Ha as [i Hi].
    destruct (Forall2_lookup_r _ _ _ _ _ Hs Hi) as (x & Hx & Hst).
    eapply started_fields; [|exact Hst]. apply list_elem_of_lookup_2 in Hx.
    by apply subseteq_take in Hx.
  - intros Hr. specialize (Hlen Hr). split; [done|]. apply getSSLServer_started.
    by rewrite Hlen, firstn_all in Hs.
  - intros Hne json'. by destruct servers.
Qed.

(** C38: when the configuration of a server fails, the plugins that had been loaded
    are those of its first entries, and each of them has been cleaned up and its
    library closed, in the order in which they were loaded, before the exception
    goes on; nothing else has been done to the world. *)
Theorem failed_start_unloads server http suboptions w plugins w1 configs e :
  (forall p w, (cleanup p w).1 = Ret tt) ->
  new_http server suboptions = Ret http ->
  configure suboptions (([], w), ∅) = (Throw e, ((plugins, w1), configs)) ->
  makeHTTP (Some server) suboptions w = (Throw e, foldl cleaned w1 plugins) /\
  (plugins = [] \/ exists items, items_of suboptions = Ret items /\
     Forall2 loaded_as (take (length plugins) items) plugins).
Proof.
  intros Hc Hn E. split.
  - unfold makeHTTP, configure_http, delete_http, host in *. mrun. rewrite Hn, E. cbn [fst].
    by rewrite unloadPlugins_all by done.
  - destruct (configure_cases _ _ _ _ E eq_refl) as [(items & Hi & Hf & _)|[Hnil _]]; [right|by left].
    by exists items.
Qed.

End core.
Arguments core J W : clear implicits.

(** ** The message handler *)

Section message_handler.
Context {J N : Type} `{JO : JsonOps J} `{NO : NetOps N} {HH : @Handlers J N}.
Variable sha1 : bytes -> bytes.

Definition parse_error_response : response :=
  make_response 400 (lit "Hey dummy, learn to send a proper HTTP request and then we can talk.").

Definition messageHandler (message : bytes) : M (client * @world J N) () :=
  catch (@handleInput _ (http_ServerOps sha1) message)
    (fun e => match e with
              | ParseError _ => Some (send_to (render parse_error_response) ;; close_client)
              | _ => None
              end).

(** A client that is not a WebSocket and whose line is no line of a request gets
    the answer, and the connection is closed. *)
Lemma messageHandler_parse_error line what q' (c : client) w :
  c_isWebSocket c = false ->
  (forall pm, handleLine pm line (c_request c) = (Throw (ParseError what), q')) ->
  messageHandler line (c, w) =
  (send_to (render parse_error_response) ;; close_client) (set_request q' c, w).
Proof.
  intros Hws Hl. unfold messageHandler, handleInput, handle_line_input, request_handleLine, get_client.
  mrun. cbn [fst snd]. rewrite Hws, Hl. done.
Qed.
End message_handler.

(** ** Witness *)

#[warnings="-register-all"]
Inductive conf := CText (s : bytes) | CNumber (n : Z) | CArray (l : list conf) | CObject (l : list (bytes * conf)).

Definition conf_at (j : conf) (name : bytes) : option conf :=
  match j with
  | CObject l => snd <$> List.find (fun x => bool_decide (x.1 = name)) l
  | _ => None
  end.

#[local] Instance conf_ops : JsonOps conf := {
  json_parse := fun _ => None;
  json_contains := fun j name => bool_decide (is_Some (conf_at j name));
  json_at := fun j name => match conf_at j name with Some v => Ret v | None => Throw JsonOutOfRange end;
  json_get_bool := fun _ => Throw JsonError;
  json_get_size := fun j => match j with CNumber n => Ret (wrap64 n) | _ => Throw JsonError end;
  json_get_string := fun j => match j with CText s => Ret s | _ => Throw JsonError end;
  json_get_strings := fun _ => Throw JsonError;
  json_is_string := fun j => match j with CText _ => true | _ => false end;
  json_is_array := fun j => match j with CArray _ => true | _ => false end;
}.
#[local] Instance conf_config : ConfigOps conf := {
  json_items := fun j => match j with CObject l => l | _ => [] end;
  json_index := fun j i => match j with
                           | CArray l => match l !! i with Some v => Ret v | None => Throw JsonOutOfRange end
                           | _ => Throw JsonError
                           end;
}.

#[local] Instance root_directory : FileSystem := {
  fs_is_regular_file := fun _ => false;
  fs_is_directory := fun _ => true;
  fs_exists := fun _ => true;
  fs_contents := fun _ => None;
  fs_file_size := fun _ => Throw FilesystemError;
  fs_permissions := fun _ => Throw FilesystemError;
  fs_stat := fun _ => None;
  fs_last_write_time := fun _ => Throw FilesystemError;
  fs_canonical := fun _ => Throw FilesystemError;
  sys_getuid := 0%Z;
  sys_getpwuid := fun _ => None;
  sys_getgrgid := fun _ => None;
}.

(** A world that writes down what happens; one library is missing. *)
#[local] Instance logged_world : PluginWorld (list bytes) := {
  getName := fun p => to_dec p;
  canonical := fun p w => if bool_decide (p = lit "plugin/lost.so") then Throw FilesystemError else Ret p;
  exists_ := fun p w => true;
  directory_iterator := fun p w => Ret [];
  path_extension := fun p => [];
  dlopen := fun p w => (Some (Z.of_nat (length w)), w ++ [lit "open " ++ p]);
  dlclose := fun l w => w ++ [lit "close " ++ to_dec l];
  make_plugin := fun l w => (Some l, w);
  preinit := fun p w => (Ret tt, w ++ [lit "preinit " ++ to_dec p]);
  postinit := fun p w => (Ret tt, w ++ [lit "postinit " ++ to_dec p]);
  cleanup := fun p w => (Ret tt, w ++ [lit "clean " ++ to_dec p]);
}.

Definition example_section (port : Z) (plugins : list (bytes * conf)) : conf :=
  CObject [(lit "ip", CText (lit "::1")); (lit "port", CNumber port); (lit "plugins", CObject plugins)].

Definition run_example (j : conf) : outcome () * core conf (list bytes) :=
  run (Path true [lit "srv"]) (fun _ => Ret []) 9 true (fun _ _ => true) j ([], []).

(** Two servers: all plugins are loaded and made ready for initialisation one
    server after the other, and initialised when both servers are there. *)
Example run_two_servers :
  let '(r, (servers, w)) := run_example
    (CObject [(lit "https", example_section 443 [(lit "2", CText (lit "b"))]);
              (lit "http", example_section 65616 [(lit "1", CText (lit "a"))])]) in
  r = Ret tt /\ map (fun a => (sv_id (a_server a), sv_port (a_server a), sv_inet6 (a_server a))) servers =
    [(lit "http", 80%Z, true); (lit "https", 443%Z, true)] /\
  w = [lit "open plugin/a.so"; lit "preinit 0"; lit "open plugin/b.so"; lit "preinit 2";
       lit "postinit 0"; lit "postinit 2"].
Proof. vm_compute. repeat split. Qed.

Lemma failed_start_unloads_witness :
  let suboptions := example_section 80 [(lit "1", CText (lit "a"));
                                        (lit "2", CArray [CText (lit "b"); CNumber 5]);
                                        (lit "3", CText (lit "lost")); (lit "4", CText (lit "d"))] in
  exists w, makeHTTP (W := list bytes) (Path true [lit "srv"]) (fun _ => Ret []) 9
              (Some (MkServer (lit "http") false true (lit "::1") 80 8 1024)) suboptions []
            = (Throw FilesystemError, w) /\
  w = [lit "open plugin/a.so"; lit "open plugin/b.so";
       lit "clean 0"; lit "close 0"; lit "clean 1"; lit "close 1"].
Proof.
  cbv zeta. eexists. split; [|shelve].
  refine (proj1 (failed_start_unloads (Path true [lit "srv"]) (fun _ => Ret []) 9 _ _ _ _ _ _ _ _ _ _ _));
    [done|vm_compute; reflexivity|vm_compute; reflexivity].
  Unshelve. all: vm_compute; reflexivity.
Defined.
