(* ===== verification/Configs.v ===== *)
(** * The table of configurations

    [src/http/Server.cpp]: what [crawlConfigs] finds below the web root, and that
    the watcher's [onModify] keeps the table what another crawl would find. *)

From Stdlib Require Import Lia Ascii String.
From stdpp Require Import base tactics option list strings gmap.
From S2P Require Import Prelude FS HttpServer Core.

(** The file [p] written anew. *)
Definition with_contents (p : path) (text : bytes) (F : FileSystem) : FileSystem :=
  let '(Build_FileSystem regular directory exists_ contents size permissions st written canonical uid pw gr) := F in
  Build_FileSystem regular directory exists_
    (fun q => if bool_decide (q = path_c_str p) then Some text else contents q)
    size permissions st written canonical uid pw gr.

Section configs.
Context {J : Type} `{JO : JsonOps J}.
Variable list_directory : path -> outcome (list (path * bool)).

(** What is documented of listing a directory: its entries lie in it, no two have
    the same name, and different files have different names for the system. *)
Record listings : Prop := {
  entry_parent d l e b : list_directory d = Ret l -> (e, b) ∈ l -> parent_path e = d;
  entry_name d l e e' b b' : list_directory d = Ret l -> (e, b) ∈ l -> (e', b') ∈ l -> filename e = filename e' -> e = e';
  entry_system d d' l l' e e' b b' : list_directory d = Ret l -> list_directory d' = Ret l' ->
    (e, b) ∈ l -> (e', b') ∈ l' -> path_c_str e = path_c_str e' -> e = e';
}.

(** The directories at and below [base]. *)
Inductive within (base : path) : path -> Prop :=
| within_base : within base base
| within_entry l e d : list_directory base = Ret l -> (e, true) ∈ l -> within e d -> within base d.

Definition config_file (d p : path) : Prop :=
  exists l, list_directory d = Ret l /\ (p, false) ∈ l /\ filename p = config_name.

Definition configured (F : FileSystem) (d : path) (j : J) : Prop :=
  exists p text, config_file d p /\ fs_contents (path_c_str p) = Some text /\ json_parse text = Some j.

(** The watcher calls [onModify] when a file has been written. *)
Fixpoint watch (changes : list (path * bytes)) (F : FileSystem) (h : http_server J) : outcome (FileSystem * http_server J) :=
  match changes with
  | [] => Ret (F, h)
  | (p, text) :: rest =>
    let F' := with_contents p text F in
    h' ← onModify (FSys := F') p h; watch rest F' h'
  end.

(** The same files without the changes that cannot be parsed. *)
Definition write_valid (F : FileSystem) (c : path * bytes) : FileSystem :=
  match json_parse c.2 with Some _ => with_contents c.1 c.2 F | None => F end.

Abbreviation crawl F := (crawlConfigs (FSys := F) list_directory).

(** ** What a crawl adds to a table *)

Definition adds (R : path -> J -> Prop) (m m' : gmap path J) : Prop :=
  forall d j, m' !! d = Some j <-> m !! d = Some j \/ (m !! d = None /\ R d j).

Definition functional (R : path -> J -> Prop) : Prop := forall d j j', R d j -> R d j' -> j = j'.

Lemma adds_nothing (R : path -> J -> Prop) m : (forall d j, ~ R d j) -> adds R m m.
Proof. intros HR d j. split; [by left|]. intros [?|[_ ?]]; [done|by destruct (HR d j)]. Qed.

Lemma adds_one (R : path -> J -> Prop) m base json : (forall d j, R d j <-> d = base /\ j = json) ->
  adds R m (match m !! base with Some _ => m | None => <[base := json]> m end).
Proof.
  intros HR d j. setoid_rewrite HR. destruct (m !! base) as [old|] eqn:E.
  - split; [by left|]. intros [?|[Hn [-> _]]]; congruence.
  - destruct (decide (d = base)) as [->|Hne].
    + rewrite lookup_insert_eq. split; [intros [= <-]; by right|]. intros [?|[_ [_ ->]]]; congruence.
    + rewrite lookup_insert_ne by done. split; [by left|]. intros [?|[_ [? _]]]; [done|congruence].
Qed.

Lemma adds_compose (R1 R2 R : path -> J -> Prop) m1 m2 m3 :
  functional R -> (forall d j, R d j <-> R1 d j \/ R2 d j) -> adds R1 m1 m2 -> adds R2 m2 m3 -> adds R m1 m3.
Proof.
  intros Hf HR H1 H2 d j. rewrite (H2 d j), (H1 d j). split.
  - intros [[?|[? ?]]|[Hn ?]]; [by left|right; split; [done|]; apply HR; by left|].
    right. split; [|apply HR; by right]. destruct (m1 !! d) as [j'|] eqn:E; [|done].
    assert (m2 !! d = Some j') by (apply H1; by left). congruence.
  - intros [?|[Hn Hr]]; [left; by left|]. apply HR in Hr as [Hr|Hr]; [left; by right|].
    destruct (m2 !! d) as [j'|] eqn:E; [|by right]. left.
    apply H1 in E as [?|[_ E]]; [congruence|]. right. split; [done|].
    by rewrite (Hf d j j') by (apply HR; auto).
Qed.

Lemma configured_functional F : listings -> functional (configured F).
Proof.
  intros Hl d j j' (p & t & (l & Hd & Hp & Hn) & Ht & Hj) (p' & t' & (l' & Hd' & Hp' & Hn') & Ht' & Hj').
  rewrite Hd in Hd'. injection Hd' as <-. rewrite (entry_name Hl d l p p' false false) in Ht by (done || congruence).
  congruence.
Qed.

(** What the entries of a directory add. *)
Definition entry_adds F (base : path) (entries : list (path * bool)) (d : path) (j : J) : Prop :=
  (d = base /\ exists p text, (p, false) ∈ entries /\ filename p = config_name /\
     fs_contents (path_c_str p) = Some text /\ json_parse text = Some j) \/
  (exists e, (e, true) ∈ entries /\ within e d /\ configured F d j).

Lemma entry_adds_configured F base l entries d j :
  list_directory base = Ret l -> entries ⊆ l -> entry_adds F base entries d j -> configured F d j.
Proof.
  intros Hl Hsub [[-> (p & t & Hp & Hn & Ht & Hj)]|(e & _ & _ & Hc)]; [|done].
  exists p, t. split; [|done]. exists l. split; [done|]. split; [by apply Hsub|done].
Qed.

Lemma entry_adds_cons F base x entries d j :
  entry_adds F base (x :: entries) d j <-> entry_adds F base [x] d j \/ entry_adds F base entries d j.
Proof.
  unfold entry_adds. setoid_rewrite elem_of_cons. setoid_rewrite (elem_of_nil (A := path * bool)). split.
  - intros [[-> (p & t & [Hp|Hp] & H)]|(e & [He|He] & H)].
    + left. left. split; [done|]. exists p, t. by split; [left|].
    + right. left. split; [done|]. by exists p, t.
    + left. right. exists e. by split; [left|].
    + right. right. by exists e.
  - intros [[[-> (p & t & [Hp|[]] & H)]|(e & [He|[]] & H)]|[[-> (p & t & Hp & H)]|(e & He & H)]].
    + left. split; [done|]. exists p, t. by split; [left|].
    + right. exists e. by split; [left|].
    + left. split; [done|]. exists p, t. by split; [right|].
    + right. exists e. by split; [right|].
Qed.

Lemma crawl_entries_adds F base l entries crawl1 :
  listings -> list_directory base = Ret l -> entries ⊆ l ->
  (forall e m m', (e, true) ∈ l -> crawl1 e m = Ret m' -> adds (fun d j => within e d /\ configured F d j) m m') ->
  forall m m', crawl_entries (FSys := F) crawl1 base entries m = Ret m' -> adds (entry_adds F base entries) m m'.
Proof.
  intros Hls Hl Hsub Hcrawl. induction entries as [|x rest IH]; intros m m'; cbn [crawl_entries].
  { intros [= <-]. apply adds_nothing. intros d j [(_ & p & t & Hp & _)|(e & He & _)]; [inversion Hp|inversion He]. }
  assert (Hsub' : rest ⊆ l) by (intros y Hy; apply Hsub; by right).
  assert (Hx : x ∈ l) by (apply Hsub; by left). destruct x as [p is_dir].
  assert (Hgo : forall m1, adds (entry_adds F base [(p, is_dir)]) m m1 ->
    crawl_entries (FSys := F) crawl1 base rest m1 = Ret m' -> adds (entry_adds F base ((p, is_dir) :: rest)) m m').
  { intros m1 H1 H2. eapply adds_compose; [|intros d j; apply entry_adds_cons|exact H1|by apply IH].
    intros d j j' Hj Hj'. apply (configured_functional F Hls d); by apply (entry_adds_configured F base l _ d _ Hl Hsub). }
  mrun. destruct is_dir.
  - destruct (crawl1 p m) as [m1| | |] eqn:E; try done. apply Hgo.
    apply Hcrawl in E; [|done]. intros d j. rewrite (E d j). unfold entry_adds. split.
    + intros [?|[? ?]]; [by left|]. right. split; [done|]. right. exists p. by split; [apply list_elem_of_singleton|].
    + intros [?|[? [(_ & q & t & Hq & _)|(e & He & H)]]]; [by left| |].
      * by apply list_elem_of_singleton in Hq.
      * apply list_elem_of_singleton in He as [= ->]. by right.
  - destruct (bool_decide_reflect (filename p = config_name)) as [Hn|Hn].
    + unfold readFile. destruct (fs_contents (path_c_str p)) as [text|] eqn:Et; [|done].
      assert (Hone : forall d j, entry_adds F base [(p, false)] d j <-> d = base /\ json_parse text = Some j).
      { intros d j. unfold entry_adds. split.
        - intros [[-> (q & t & Hq & _ & Ht & Hj)]|(e & He & _)]; [|by apply list_elem_of_singleton in He].
          apply list_elem_of_singleton in Hq as [= ->]. rewrite Et in Ht. injection Ht as <-. done.
        - intros [-> Hj]. left. split; [done|]. exists p, text. by split; [apply list_elem_of_singleton|]. }
      destruct (json_parse text) as [json|] eqn:Ej; apply Hgo.
      * apply adds_one. intros d j. rewrite Hone. split; [by intros [-> [= <-]]|by intros [-> ->]].
      * apply adds_nothing. intros d j. rewrite Hone. by intros [_ ?].
    + apply Hgo, adds_nothing. intros d j [[_ (q & t & Hq & Hq' & _)]|(e & He & _)]; [|by apply list_elem_of_singleton in He].
      apply list_elem_of_singleton in Hq as [= ->]. done.
Qed.

Lemma crawl_adds F fuel : listings -> forall base m m', crawl F fuel base m = Ret m' ->
  adds (fun d j => within base d /\ configured F d j) m m'.
Proof.
  intros Hls. induction fuel as [|f IH]; intros base m m'; cbn [crawlConfigs]; [done|].
  destruct (negb _); [done|]. mrun. destruct (list_directory base) as [l| | |] eqn:El; try done. intros E.
  apply (crawl_entries_adds F base l l _ Hls El) in E; [|done|].
  - intros d j. rewrite (E d j). unfold entry_adds. split.
    + intros [?|[Hn [[-> (p & t & Hp & H)]|(e & He & Hw & Hc)]]]; [by left|right; split; [done|]..].
      * split; [apply within_base|]. exists p, t. destruct H as (H1 & H2 & H3). split; [|done]. by exists l.
      * split; [by eapply within_entry|done].
    + intros [?|[Hn [Hw Hc]]]; [by left|]. right. split; [done|]. inversion Hw as [|l' e d' Hl' He Hd]; subst.
      * left. split; [done|]. destruct Hc as (p & t & (l' & Hl' & Hp & Hn') & H). rewrite El in Hl'. injection Hl' as <-.
        by exists p, t.
      * right. exists e. rewrite El in Hl'. injection Hl' as <-. done.
  - intros e m1 m2 He. apply IH.
Qed.

(** ** A file that is written *)

Lemma with_contents_directory p text F q : fs_is_directory (FileSystem := with_contents p text F) q = fs_is_directory (FileSystem := F) q.
Proof. by destruct F. Qed.
Lemma with_contents_contents p text F q :
  fs_contents (FileSystem := with_contents p text F) q = if bool_decide (q = path_c_str p) then Some text else fs_contents (FileSystem := F) q.
Proof. by destruct F. Qed.

(** Crawling comes to an end again when no file has gone. *)
Lemma crawl_again F F' fuel :
  (forall q, fs_is_directory (FileSystem := F') q = fs_is_directory (FileSystem := F) q) ->
  (forall q, is_Some (fs_contents (FileSystem := F) q) -> is_Some (fs_contents (FileSystem := F') q)) ->
  forall base m m' m1, crawl F fuel base m = Ret m1 -> exists m2, crawl F' fuel base m' = Ret m2.
Proof.
  intros Hdir Hsome. induction fuel as [|f IH]; intros base m m' m1; cbn [crawlConfigs]; [done|].
  rewrite Hdir. destruct (negb _); [done|]. mrun. destruct (list_directory base) as [l| | |]; try done.
  revert m m'. induction l as [|[p []] rest IHl]; intros m m'; cbn [crawl_entries]; [by eexists|..]; mrun.
  - destruct (crawl F f p m) as [m2| | |] eqn:E; try done. destruct (IH p m m' m2 E) as [m3 ->]. apply IHl.
  - case_bool_decide; [|apply IHl]. unfold readFile. destruct (fs_contents (FileSystem := F) (path_c_str p)) as [t|] eqn:Et; [|done].
    destruct (Hsome (path_c_str p)) as [t' ->]; [by exists t|]. destruct (json_parse t), (json_parse t'); apply IHl.
Qed.

Lemma configured_written F p text j0 d0 : listings -> config_file d0 p -> json_parse text = Some j0 ->
  forall d j, configured (with_contents p text F) d j <-> (d = d0 /\ j = j0) \/ (d <> d0 /\ configured F d j).
Proof.
  intros Hls (l0 & Hl0 & Hp0 & Hn0) Hj0 d j. unfold configured. setoid_rewrite with_contents_contents. split.
  - intros (q & t & (l & Hl & Hq & Hn) & Ht & Hj). case_bool_decide as Hc.
    + assert (q = p) as -> by (by apply (entry_system Hls d d0 l l0 q p false false)). left.
      split; [by rewrite <- (entry_parent Hls d l p false Hl Hq), <- (entry_parent Hls d0 l0 p false Hl0 Hp0)|congruence].
    + right. split; [|exists q, t; split; [by exists l|done]]. intros ->. apply Hc. f_equal.
      apply (entry_name Hls d0 l q p false false); [done..|congruence|congruence].
  - intros [[-> ->]|(Hne & q & t & (l & Hl & Hq & Hn) & H)].
    + exists p, text. split; [by exists l0|]. by rewrite bool_decide_true.
    + exists q, t. split; [by exists l|]. rewrite bool_decide_false; [done|]. intros Hc. apply Hne.
      rewrite (entry_system Hls d d0 l l0 q p false false) in Hq by done.
      by rewrite <- (entry_parent Hls d l p false Hl Hq), <- (entry_parent Hls d0 l0 p false Hl0 Hp0).
Qed.

Lemma crawl_written F fuel base p text j0 d0 m :
  listings -> within base d0 -> config_file d0 p -> json_parse text = Some j0 ->
  crawl F fuel base ∅ = Ret m -> crawl (with_contents p text F) fuel base ∅ = Ret (<[parent_path p := j0]> m).
Proof.
  intros Hls Hw Hc Hj E. destruct (crawl_again F (with_contents p text F) fuel) with base (∅ : gmap path J) (∅ : gmap path J) m as [m2 E2];
    [apply with_contents_directory| |done|].
  { intros q Hq. rewrite with_contents_contents. by case_bool_decide. }
  rewrite E2. f_equal. apply map_eq. intros d. apply option_eq. intros j.
  assert (Hd0 : parent_path p = d0) by (destruct Hc as (l & Hl & Hp & _); by apply (entry_parent Hls d0 l p false)).
  rewrite (crawl_adds _ _ Hls _ _ _ E2 d j), lookup_empty, (configured_written F p text j0 d0 Hls Hc Hj d j), Hd0.
  pose proof (crawl_adds _ _ Hls _ _ _ E d j) as Hm. rewrite lookup_empty in Hm. destruct (decide (d = d0)) as [->|Hne].
  - rewrite lookup_insert_eq. split; [intros [?|[_ [_ [[_ ->]|[? _]]]]]; done|]. intros [= <-]. right. split; [done|]. split; [done|]. by left.
  - rewrite lookup_insert_ne by done. rewrite Hm. split.
    + intros [?|[_ [H1 [[? _]|[_ H2]]]]]; [done|done|]. by right.
    + intros [?|[_ [H1 H2]]]; [done|]. right. split; [done|]. split; [done|]. by right.
Qed.

(** A crawl finds what there is: exactly the directories at and below the one
    it is given, whose file of that name can be parsed, each with its contents. *)
Theorem crawl_finds F fuel base m :
  listings -> crawl F fuel base ∅ = Ret m ->
  forall d j, m !! d = Some j <-> within base d /\ configured F d j.
Proof.
  intros Hls E d j. rewrite (crawl_adds F fuel Hls base ∅ m E d j), lookup_empty. split; [|by right].
  by intros [?|[_ ?]].
Qed.

(** C36: the watcher keeps the table: when it began with what a crawl had found, and
    the configurations of directories below the web root are written in any order
    and any number of times, the table is what a crawl would find now, apart from
    texts that cannot be parsed, in whose place the one before stays in effect. *)
Theorem watcher_keeps_configs F fuel base (h : http_server J) changes :
  listings -> crawl F fuel base ∅ = Ret (h_configs h) ->
  Forall (fun c => exists d, within base d /\ config_file d c.1) changes ->
  exists F' h', watch changes F h = Ret (F', h') /\
    crawl (fold_left write_valid changes F) fuel base ∅ = Ret (h_configs h').
Proof.
  intros Hls E Hc. enough (H : forall V h, crawl V fuel base ∅ = Ret (h_configs h) -> exists F' h', watch changes F h = Ret (F', h') /\
    crawl (fold_left write_valid changes V) fuel base ∅ = Ret (h_configs h')) by by apply H.
  clear E h. revert F. induction Hc as [|[p text] rest (d & Hw & Hd) _ IH]; intros F V h E; [by exists F, h|].
  cbn [watch fold_left]. mrun. unfold onModify. destruct Hd as (l & Hl & Hp & Hn). cbn [fst] in *. rewrite bool_decide_true by done.
  unfold addConfig, readFile. rewrite with_contents_contents, bool_decide_true by done. mrun. unfold write_valid at 2. cbn [snd fst].
  destruct (json_parse text) as [json|] eqn:Ej.
  - apply IH. apply (crawl_written V fuel base p text json d); [done|done|by exists l|done|done].
  - by apply IH.
Qed.
End configs.

(** ** Witnesses *)

(** A JSON library for texts in braces. *)
#[local] Instance brace_json : JsonOps bytes := {
  json_parse := fun s => if is_prefix (lit "{") s then Some s else None;
  json_contains := fun _ _ => false;
  json_at := fun _ _ => Throw JsonOutOfRange;
  json_get_bool := fun _ => Throw JsonError;
  json_get_size := fun _ => Throw JsonError;
  json_get_string := Ret;
  json_get_strings := fun _ => Throw JsonError;
  json_is_string := fun _ => true;
  json_is_array := fun _ => false;
}.

Definition example_root : path := path_of (lit "/www").
Definition example_sub : path := path_of (lit "/www/up").
Definition example_listing (d : path) : outcome (list (path * bool)) :=
  if decide (d = example_root) then
    Ret [(path_of (lit "/www/up"), true); (path_of (lit "/www/.algiz"), false); (path_of (lit "/www/index.html"), false)]
  else if decide (d = example_sub) then Ret [(path_of (lit "/www/up/.algiz"), false)]
  else Throw FilesystemError.
Definition example_disk : FileSystem :=
  with_contents (path_of (lit "/www/.algiz")) (lit "{1}") (with_contents (path_of (lit "/www/up/.algiz")) (lit "oops") root_directory).
Definition example_table : gmap path bytes := {[ example_root := lit "{1}" ]}.
Definition example_changes : list (path * bytes) :=
  [(path_of (lit "/www/up/.algiz"), lit "{2}"); (path_of (lit "/www/.algiz"), lit "{"); (path_of (lit "/www/up/.algiz"), lit "no")].

Definition example_entries : list (path * path * bool) :=
  [(example_root, path_of (lit "/www/up"), true); (example_root, path_of (lit "/www/.algiz"), false);
   (example_root, path_of (lit "/www/index.html"), false); (example_sub, path_of (lit "/www/up/.algiz"), false)].

Lemma example_listing_entries d l e b : example_listing d = Ret l -> (e, b) ∈ l -> (d, e, b) ∈ example_entries.
Proof.
  unfold example_listing, example_entries.
  destruct (decide (d = example_root)) as [->|_]; [|destruct (decide (d = example_sub)) as [->|_]; [|done]];
    intros [= <-]; rewrite ?elem_of_cons, ?elem_of_nil.
  - intros [[= -> ->]|[[= -> ->]|[[= -> ->]|[]]]]; auto.
  - intros [[= -> ->]|[]]; auto.
Qed.

Lemma example_listings : listings example_listing.
Proof.
  assert (H1 : Forall (fun x => parent_path x.1.2 = x.1.1) example_entries)
    by (refine (bool_decide_unpack _ _); vm_compute; exact I).
  assert (H2 : Forall (fun x => Forall (fun y => x.1.1 = y.1.1 -> filename x.1.2 = filename y.1.2 -> x.1.2 = y.1.2) example_entries) example_entries)
    by (refine (bool_decide_unpack _ _); vm_compute; exact I).
  assert (H3 : Forall (fun x => Forall (fun y => path_c_str x.1.2 = path_c_str y.1.2 -> x.1.2 = y.1.2) example_entries) example_entries)
    by (refine (bool_decide_unpack _ _); vm_compute; exact I).
  rewrite Forall_forall in H1, H2, H3. split.
  - intros d l e b Hl He. apply (H1 (d, e, b)). by eapply example_listing_entries.
  - intros d l e e' b b' Hl He He'. pose proof (H2 (d, e, b) (example_listing_entries d l e b Hl He)) as H.
    rewrite Forall_forall in H. exact (H (d, e', b') (example_listing_entries d l e' b' Hl He') eq_refl).
  - intros d d' l l' e e' b b' Hl Hl' He He'. pose proof (H3 (d, e, b) (example_listing_entries d l e b Hl He)) as H.
    rewrite Forall_forall in H. exact (H (d', e', b') (example_listing_entries d' l' e' b' Hl' He')).
Qed.

Lemma example_crawl : crawlConfigs (FSys := example_disk) example_listing 3 example_root ∅ = Ret example_table.
Proof. vm_compute. reflexivity. Qed.

Lemma example_within : within example_listing example_root example_sub.
Proof.
  eapply within_entry; [vm_compute; reflexivity|left; reflexivity|]. apply within_base.
Qed.

Definition example_server : http_server bytes := HttpServer [] example_root [] [] [] ∅ ∅ example_table.

Lemma watcher_keeps_configs_witness :
  exists F' h', watch example_changes example_disk example_server = Ret (F', h') /\
    h_configs h' = {[ example_root := lit "{"; example_sub := lit "{2}" ]} /\
    crawlConfigs (FSys := fold_left write_valid example_changes example_disk) example_listing 3 example_root ∅ = Ret (h_configs h').
Proof.
  destruct (watcher_keeps_configs example_listing example_disk 3 example_root example_server example_changes
    example_listings example_crawl) as (F' & h' & E & Hc).
  - assert (Hs : exists d, within example_listing example_root d /\ config_file example_listing d (path_of (lit "/www/up/.algiz"))).
    { exists example_sub. split; [exact example_within|]. eexists. split; [vm_compute; reflexivity|]. split; [left|]; reflexivity. }
    assert (Hr : exists d, within example_listing example_root d /\ config_file example_listing d (path_of (lit "/www/.algiz"))).
    { exists example_root. split; [apply within_base|]. eexists. split; [vm_compute; reflexivity|]. split; [right; left|]; reflexivity. }
    repeat (constructor; [assumption|]). constructor.
  - exists F', h'. split; [exact E|]. split; [|exact Hc]. vm_compute in E. injection E as <- <-. vm_compute. reflexivity.
Defined.

Lemma crawl_finds_witness :
  example_table !! example_root = Some (lit "{1}") /\
  (within example_listing example_root example_root /\ configured example_listing example_disk example_root (lit "{1}")).
Proof.
  split; [vm_compute; reflexivity|].
  apply (crawl_finds example_listing example_disk 3 example_root example_table example_listings example_crawl).
  vm_compute. reflexivity.
Defined.
