(* ===== verification/LetsEncrypt.v ===== *)
(** * Certificates

    [src/plugins/letsencrypt/LetsEncrypt.cpp] and the certificates of
    [src/net/SSLServer.cpp]: the table of challenges that answers the authority,
    the issuing of a certificate, its cache in files, and the choice of a
    certificate by the name a client asks for.  The ACME client, the reading of
    PEM, the JSON text and the system are arguments. *)

From Stdlib Require Import ZArith Lia Ascii String.
From stdpp Require Import base tactics option list strings gmap.
From S2P Require Import Prelude Util Response Request PluginHost Client FS HttpServer Plugins.

(** ** Certificates of an SSL server *)

(** Reading from a memory buffer takes what it reads out of the buffer. *)
Class Pem (X K : Type) := {
  read_x509 : bytes -> option X * bytes;
  read_private_key : bytes -> option K;
}.
Class PemLaws (X K : Type) `{Pem X K} := {
  read_x509_consumes bio x rest : read_x509 bio = (Some x, rest) -> length rest < length bio;
}.

Section certificates.
Context {X K : Type} `{PM : Pem X K}.

Record Certificates := MkCertificates {
  ct_certificate : option X;
  ct_private_key : option K;
  ct_chain : list X;
}.

(** [BIO_puts] on a memory buffer gives the number of bytes it has appended. *)
Definition BIO_puts (bio s : bytes) : Z * bytes := (Z.of_nat (length (c_str s)), bio ++ c_str s).

Fixpoint read_chain (fuel : nat) (bio : bytes) : outcome (list X * bytes) :=
  match read_x509 bio with
  | (None, bio) => Ret ([], bio)
  | (Some intermediate, bio) =>
    match fuel with
    | O => Diverge
    | S f => '(chain, bio) ← read_chain f bio; Ret (intermediate :: chain, bio)
    end
  end.

Definition read_certificates (certificate private_key rest_of_chain : bytes) : outcome Certificates :=
  let '(n, bio) := BIO_puts [] certificate in
  if (n <=? 0)%Z then Throw (RuntimeError (lit "Couldn't read certificate"))
  else
    let '(x509, bio) := read_x509 bio in
    let '(n, bio) := BIO_puts bio rest_of_chain in
    if (n <=? 0)%Z then Throw (RuntimeError (lit "Couldn't read rest of chain"))
    else
      '(chain, bio) ← read_chain (length bio) bio;
      let '(n, bio) := BIO_puts bio private_key in
      if (n <=? 0)%Z then Throw (RuntimeError (lit "Couldn't read private key"))
      else Ret (MkCertificates x509 (read_private_key bio) chain).

(** The old certificate of the name has gone when the new one cannot be read. *)
Definition addCertificate (hostname certificate private_key rest_of_chain : bytes)
    : M (gmap bytes Certificates) () :=
  modify (delete hostname) ;;
  c ← lift (read_certificates certificate private_key rest_of_chain);
  modify (insert hostname c).

(** What the callback for the name in a handshake does: set a certificate and its
    chain (up to the first step the library refuses), ask for one, or nothing. *)
Inductive handshake :=
| UseCertificate (c : Certificates)
| HandshakeFails
| RequestCertificate (servername : bytes)
| NoRequester
| NoName.

Definition servername_callback (accepts : Certificates -> bool) (can_request : bool)
    (certificatesMap : gmap bytes Certificates) (servername : option bytes) : handshake :=
  match servername with
  | None => NoName
  | Some servername =>
    match certificatesMap !! servername with
    | Some c => if accepts c then UseCertificate c else HandshakeFails
    | None => if can_request then RequestCertificate servername else NoRequester
    end
  end.
End certificates.
Arguments Certificates : clear implicits.

(** ** The plugin *)

Definition MAX_CHALLENGES : nat := 128.
Definition CERTS_PATH : path := path_of (lit "certs").
Definition challenge_prefix : bytes := lit "/.well-known/acme-challenge/".

(** A certificate the authority has issued, and what is kept of it in a file. *)
Record Certificate := MkCertificate { fullchain : bytes; privkey : bytes; getExpiry : Z }.
Record cached := MkCached {
  cd_expiry : Z;
  cd_hostname : bytes;
  cd_cert : bytes;
  cd_privkey : bytes;
  cd_chain : bytes;
}.

(** The text of such a record. *)
Class CacheText := {
  dump : cached -> outcome bytes;
  parse : bytes -> option cached;
}.
Class CacheLaws `{CacheText} := {
  parse_dump r text : dump r = Ret text -> parse text = Some r;
}.

(** The hash table of the library: how many buckets a new one has, and how many one
    gets that is to hold a number of entries. *)
Class HashTable := { default_buckets : nat; grow : nat -> nat }.

(** An iterator is known by the key of the node it points to and by how often the
    table had been rehashed when it was taken: a rehash invalidates it. *)
Record challenge_table := Challenges {
  challenges : gmap bytes bytes;
  buckets : nat;
  rehashes : nat;
  challengeIterators : list (bytes * nat);
}.

(** [while (challengeIterators.size() > MAX_CHALLENGES)]; erasing through an
    iterator that is no longer valid is undefined. *)
Fixpoint drop_oldest (fuel : nat) (t : challenge_table) : outcome challenge_table :=
  if length (challengeIterators t) <=? MAX_CHALLENGES then Ret t
  else match fuel, challengeIterators t with
       | S f, (oldest, taken) :: rest =>
         if taken =? rehashes t
         then drop_oldest f (Challenges (delete oldest (challenges t)) (buckets t) (rehashes t) rest)
         else Undef
       | _, _ => Diverge
       end.

Section challenges.
Context {HT : HashTable}.

Definition no_challenges : challenge_table := Challenges ∅ default_buckets 0 [].

(** [challenges.emplace] with a new key: the table is rehashed if it has not a bucket
    for each entry (the load factor is at most one). *)
Definition emplace_new (request_path authorization : bytes) (t : challenge_table) : challenge_table :=
  let needed := S (size (challenges t)) in
  let entries := <[request_path := authorization]> (challenges t) in
  if buckets t <? needed then Challenges entries (grow needed) (S (rehashes t)) (challengeIterators t)
  else Challenges entries (buckets t) (rehashes t) (challengeIterators t).

(** [challenges.emplace] does not change an entry that exists. *)
Definition add_challenge (request_path authorization : bytes) : M challenge_table () :=
  t ← get;
  match challenges t !! request_path with
  | Some _ => mret tt
  | None =>
    let t := emplace_new request_path authorization t in
    t ← lift (drop_oldest (S (length (challengeIterators t)))
                (Challenges (challenges t) (buckets t) (rehashes t)
                            (challengeIterators t ++ [(request_path, rehashes t)])));
    put t
  end.

(** The function that is handed to the ACME client. *)
Definition answer_challenge (host domain key authorization : bytes) : M challenge_table () :=
  if negb (bool_decide (domain = host)) then
    throw (RuntimeError (lit "Mismatch between host {" ++ host ++ lit "} and domain {" ++ domain ++ lit "}"))
  else
    let prefix := lit "http://" ++ host ++ lit "/" in
    if negb (is_prefix prefix key) then
      throw (RuntimeError (lit "Key parameter {" ++ key ++ lit "} doesn't begin with expected {" ++
                           prefix ++ lit "}"))
    else add_challenge (drop (length prefix - 1) key) authorization.
End challenges.

Section handle.
Context {J N : Type} `{JO : JsonOps J} `{NO : NetOps N} {HH : @Handlers J N}.
Variable sha1 : bytes -> bytes.
Abbreviation state := (HandlerArgs * (client * @world J N))%type.

Definition client_close : M state () := below (@Client.close _ (http_ServerOps sha1)).

Definition forbidden : M state CancelableResult :=
  reply (make_response 403 (lit "Forbidden")) ;; client_close ;; mret CKill.

Definition handle (t : challenge_table) (acmeClient enabled : bool) : M state CancelableResult :=
  if negb enabled || negb acmeClient then mret CPass
  else
    catch
      (args ← handler_args;
       let request_path := q_path (a_request args) in
       if is_prefix challenge_prefix request_path then
         match challenges t !! request_path with
         | Some authorization => reply (make_response 200 authorization) ;; mret CApprove
         | None =>
           reply (make_response 404 (lit "Not Found")) ;; client_close ;; mret CKill
         end
       else mret CPass)
      (fun _ => Some forbidden).
End handle.

Section issuing.
Context {X K : Type} `{PM : Pem X K} `{CT : CacheText} {HT : HashTable}.

(** The SSL server's table, if there is one, and the files below [CERTS_PATH],
    if it exists. *)
Record site := Site {
  st_certificates : option (gmap bytes (Certificates X K));
  st_files : option (gmap bytes bytes);
}.

Definition end_mark : bytes := lit "-----END CERTIFICATE-----".

(** The first certificate of a chain and what follows it. *)
Definition split_chain (chain : bytes) : outcome (bytes * bytes) :=
  match find_sub end_mark chain with
  | None => Throw (RuntimeError (lit "Couldn't find end of first fullchain cert"))
  | Some position =>
    let first_cert := take (position + length end_mark) chain in
    Ret (first_cert, drop (length first_cert) chain)
  end.

Definition file_of (host : bytes) : bytes := host ++ lit ".json".
Definition files_of (s : site) : gmap bytes bytes :=
  match st_files s with Some files => files | None => ∅ end.

(** Writes the file of a host: the stream has been opened, which empties the
    file, before the text is made. *)
Definition write_cached (host : bytes) (r : cached) : M site () :=
  modify (fun s => Site (st_certificates s) (Some (files_of s))) ;;
  modify (fun s => Site (st_certificates s) (Some (insert (file_of host) [] (files_of s)))) ;;
  text ← lift (dump r);
  modify (fun s => Site (st_certificates s) (Some (insert (file_of host) text (files_of s)))).

Definition on_certificates (m : M (gmap bytes (Certificates X K)) ()) : M site () := fun s =>
  match st_certificates s with
  | None => (Ret tt, s)
  | Some certs => let '(r, certs') := m certs in (r, Site (Some certs') (st_files s))
  end.

Definition finishCertificate (host : bytes) (certificate : Certificate) : M site () :=
  s ← get;
  match st_certificates s with
  | None => mret tt
  | Some _ =>
    '(first_cert, rest_of_chain) ← lift (split_chain (fullchain certificate));
    on_certificates (addCertificate host first_cert (privkey certificate) rest_of_chain) ;;
    if bool_decide ("/"%char ∈ host) then mret tt
    else write_cached host (MkCached (getExpiry certificate) host first_cert (privkey certificate)
                              rest_of_chain)
  end.

Definition on_table {A} (m : M challenge_table A) : M (challenge_table * site) A := fun s =>
  let '(r, t) := m s.1 in (r, (t, s.2)).
Definition on_files {A} (m : M site A) : M (challenge_table * site) A := fun s =>
  let '(r, x) := m s.2 in (r, (s.1, x)).

(** [issueCertificate]: [acme] is the client's method, given the function for
    the challenges; its own exceptions are caught. *)
Definition issueCertificate (whitelist : option (gset bytes))
    (acme : bytes -> (bytes -> bytes -> bytes -> M challenge_table ()) -> M challenge_table Certificate)
    (is_AcmeException : exn -> bool) (host : bytes) : M (challenge_table * site) () :=
  if match whitelist with Some l => negb (bool_decide (host ∈ l)) | None => false end then mret tt
  else
    catch
      (cert ← on_table (acme host (answer_challenge host)); on_files (finishCertificate host cert))
      (fun e => if is_AcmeException e then Some (mret tt) else None).

(** The files in the order the system lists them; those that are no JSON files
    are left alone. *)
Definition load_file (now : Z) (name text : bytes) : M site () :=
  if bool_decide (extension (path_of (lit "certs/" ++ name)) = lit ".json") then
    match parse text with
    | None => throw JsonError
    | Some r =>
      if (cd_expiry r <=? now)%Z then mret tt
      else on_certificates (addCertificate (cd_hostname r) (cd_cert r) (cd_privkey r) (cd_chain r))
    end
  else mret tt.

Definition loadCache (now : Z) (listing : gmap bytes bytes -> list (bytes * bytes)) : M site () :=
  s ← get;
  match st_certificates s, st_files s with
  | Some _, Some files => for_each (listing files) (fun x => load_file now x.1 x.2)
  | _, _ => mret tt
  end.
End issuing.
Arguments site : clear implicits.

(** ** Start and end *)

Section life.
Context {J X K : Type} `{JO : JsonOps J} `{PM : Pem X K} `{CT : CacheText} `{FSys : FileSystem}.

(** The functions [requestCertificate] can be. *)
Inductive requester := Of (plugin : Z) | Other (n : Z).

Record plugin_state := PluginState {
  ps_http : http_server J;
  ps_site : site X K;
  ps_requester : option requester;        (* of the SSL server *)
  ps_old : option (option requester);     (* [oldRequestCertificate] *)
  ps_whitelist : option (gset bytes);
  ps_acme : bool;                         (* [acmeClient] *)
  ps_library : bool;                      (* the ACME library is set up *)
  ps_pool : bool;                         (* the pool is active *)
}.

Definition set_http f (s : plugin_state) : plugin_state :=
  PluginState (f (ps_http s)) (ps_site s) (ps_requester s) (ps_old s) (ps_whitelist s) (ps_acme s)
    (ps_library s) (ps_pool s).
Definition set_requester r old (s : plugin_state) : plugin_state :=
  PluginState (ps_http s) (ps_site s) r old (ps_whitelist s) (ps_acme s) (ps_library s) (ps_pool s).
Definition set_whitelist w (s : plugin_state) : plugin_state :=
  PluginState (ps_http s) (ps_site s) (ps_requester s) (ps_old s) w (ps_acme s) (ps_library s) (ps_pool s).
Definition set_acme acme library (s : plugin_state) : plugin_state :=
  PluginState (ps_http s) (ps_site s) (ps_requester s) (ps_old s) (ps_whitelist s) acme library (ps_pool s).
Definition set_pool b (s : plugin_state) : plugin_state :=
  PluginState (ps_http s) (ps_site s) (ps_requester s) (ps_old s) (ps_whitelist s) (ps_acme s)
    (ps_library s) b.
Definition on_site {A} (m : M (site X K) A) : M plugin_state A := fun s =>
  let '(r, x) := m (ps_site s) in
  (r, PluginState (ps_http s) x (ps_requester s) (ps_old s) (ps_whitelist s) (ps_acme s)
        (ps_library s) (ps_pool s)).

(** Without the option the test for a string looks behind the last element; with
    the option it is not made. *)
Definition account_key (config : J) : outcome bytes :=
  if json_contains config (lit "accountKey") then
    v ← json_at config (lit "accountKey"); name ← json_get_string v; readFile (path_of name)
  else Undef.

Definition configured_whitelist (config : J) : outcome (option (gset bytes)) :=
  if json_contains config (lit "whitelist") then
    v ← json_at config (lit "whitelist"); l ← json_get_strings v; Ret (Some (list_to_set l))
  else Ret None.

(** [host_ssl]: the server the plugin is loaded in is itself the SSL server. *)
Definition postinit (self : Z) (host_ssl : bool) (config : J) (make_client : bytes -> outcome ()) (now : Z)
    (listing : gmap bytes bytes -> list (bytes * bytes)) (handler : weak) : M plugin_state () :=
  modify (set_http (add_getHandler handler)) ;;
  key ← lift (account_key config);
  whitelist ← lift (configured_whitelist config);
  modify (set_whitelist whitelist) ;;
  modify (fun s => set_acme (ps_acme s) true s) ;;
  match make_client key with
  | Ret _ => modify (set_acme true true)
  | o => modify (fun s => set_acme (ps_acme s) false s) ;; lift o
  end ;;
  when host_ssl
    (on_site (loadCache now listing) ;;
     modify (fun s => set_requester (Some (Of self)) (Some (ps_requester s)) s)) ;;
  modify (set_pool true).

Definition cleanup (live : weak -> option Z) (handler : weak) : M plugin_state () :=
  modify (set_http (erase_getHandler live handler)) ;;
  modify (fun s => match ps_old s with
                   | Some old => if bool_decide (is_Some (st_certificates (ps_site s)))
                                 then set_requester old (ps_old s) s else s
                   | None => s
                   end) ;;
  modify (set_pool false) ;;
  modify (fun s => if ps_acme s then set_acme false false s else s).
End life.

(** ** Theorems: challenges *)

Lemma length_challenge_path (host p : bytes) :
  p <> [] -> is_prefix (lit "/") p = true ->
  let prefix := lit "http://" ++ host ++ lit "/" in
  is_prefix prefix (lit "http://" ++ host ++ p) = true /\
  drop (length prefix - 1) (lit "http://" ++ host ++ p) = p.
Proof.
  intros Hp Hs prefix. apply is_prefix_spec in Hs as [rest ->]. split.
  - apply is_prefix_spec. exists rest. unfold prefix. by rewrite <- !app_assoc.
  - replace (length prefix - 1) with (length (lit "http://" ++ host)).
    + by rewrite app_assoc, drop_app_length.
    + unfold prefix. rewrite !length_app. cbn [length lit list_ascii_of_string]. lia.
Qed.

Section table.
Context {HT : HashTable}.

Lemma drop_oldest_small fuel t : length (challengeIterators t) <= MAX_CHALLENGES -> drop_oldest fuel t = Ret t.
Proof. intros H. apply Nat.leb_le in H. destruct fuel; cbn [drop_oldest]; by rewrite H. Qed.

Lemma emplace_new_fields p a t :
  challenges (emplace_new p a t) = <[p := a]> (challenges t) /\
  challengeIterators (emplace_new p a t) = challengeIterators t.
Proof. unfold emplace_new. by destruct (_ <? _). Qed.

(** Where there is room, a new challenge is entered and nothing is forgotten. *)
Lemma add_challenge_room p a t :
  challenges t !! p = None -> length (challengeIterators t) < MAX_CHALLENGES ->
  add_challenge p a t =
    (Ret tt, let t' := emplace_new p a t in
             Challenges (challenges t') (buckets t') (rehashes t') (challengeIterators t ++ [(p, rehashes t')])).
Proof.
  intros Hp Hl. unfold add_challenge. mrun. rewrite Hp. cbv zeta.
  destruct (emplace_new_fields p a t) as [_ ->].
  rewrite drop_oldest_small; [done|]. cbn [challengeIterators]. rewrite length_app. cbn [length]. lia.
Qed.

(** In a full table the oldest is forgotten if its iterator is still valid, and the
    behaviour is undefined if it is not. *)
Lemma add_challenge_full p a t oldest taken rest :
  challenges t !! p = None -> challengeIterators t = (oldest, taken) :: rest -> S (length rest) = MAX_CHALLENGES ->
  let t' := emplace_new p a t in
  add_challenge p a t =
    if taken =? rehashes t'
    then (Ret tt, Challenges (delete oldest (challenges t')) (buckets t') (rehashes t') (rest ++ [(p, rehashes t')]))
    else (Undef, t).
Proof.
  intros Hp Hi Hl t'. unfold add_challenge. mrun. rewrite Hp. cbv zeta. fold t'.
  assert (challengeIterators t' = (oldest, taken) :: rest) as -> by (rewrite <- Hi; apply emplace_new_fields).
  cbn [drop_oldest challengeIterators challenges buckets rehashes app length].
  rewrite length_app. cbn [length]. replace (S (length rest + 1) <=? MAX_CHALLENGES) with false by (symmetry; apply Nat.leb_gt; lia).
  destruct (taken =? rehashes t'); [|done].
  by replace (length rest + 1 <=? MAX_CHALLENGES) with true by (symmetry; apply Nat.leb_le; lia).
Qed.

(** A challenge as the ACME client hands it over: the host, the path below it and
    the text to answer with. *)
Definition ask (x : bytes * (bytes * bytes)) : M challenge_table () :=
  answer_challenge x.1 x.1 (lit "http://" ++ x.1 ++ x.2.1) x.2.2.
Definition has_path (x : bytes * (bytes * bytes)) : Prop := is_prefix (lit "/") x.2.1 = true.

Lemma ask_adds h p a t : is_prefix (lit "/") p = true -> ask (h, (p, a)) t = add_challenge p a t.
Proof.
  intros Hp. unfold ask, answer_challenge. cbn [fst snd]. rewrite bool_decide_true by done.
  destruct (length_challenge_path h p) as [H1 H2]; [by destruct p|done|].
  cbn [negb]. rewrite H1. cbn [negb]. by rewrite H2.
Qed.

Lemma ask_all l t :
  Forall has_path l -> NoDup (l.*2).*1 -> (forall p, p ∈ (l.*2).*1 -> challenges t !! p = None) ->
  length (challengeIterators t) + length l <= MAX_CHALLENGES ->
  exists t', for_each l ask t = (Ret tt, t') /\
    forall p a, challenges t' !! p = Some a <-> (p, a) ∈ l.*2 \/ challenges t !! p = Some a.
Proof.
  revert t. induction l as [|[h [p a]] l IH]; intros t Hall Hnd Hnew Hlen; cbn [for_each].
  - exists t. split; [done|]. intros p a. split; [by right|]. by intros [?%elem_of_nil|?].
  - apply Forall_cons in Hall as [Hp Hall]. cbn [fmap list_fmap fst snd length] in *.
    apply NoDup_cons in Hnd as [Hpl Hnd]. mrun. rewrite ask_adds by done.
    rewrite add_challenge_room by (try lia; apply Hnew; by left). cbv zeta.
    destruct (emplace_new_fields p a t) as [E1 _]. rewrite E1.
    destruct (IH (Challenges (<[p := a]> (challenges t)) (buckets (emplace_new p a t)) (rehashes (emplace_new p a t))
                    (challengeIterators t ++ [(p, rehashes (emplace_new p a t))]))) as (t' & -> & Ht'); [done|done| | |].
    + intros q Hq. cbn [challenges]. rewrite lookup_insert_ne by (by intros ->). apply Hnew. by right.
    + cbn [challengeIterators]. rewrite length_app. cbn [length]. lia.
    + exists t'. split; [done|]. intros q b. rewrite Ht'. cbn [challenges]. rewrite lookup_insert_Some, elem_of_cons.
      assert (challenges t !! p = None) by (apply Hnew; by left).
      split; [intros [?|[[-> ->]|[_ ?]]]; tauto|]. intros [[[= -> ->]|?]|Hq]; [tauto..|].
      right. right. split; [|done]. intros ->. congruence.
Qed.

(** What 1 to 128 challenges have made of a table that was empty: the first of its
    iterators is that of the first challenge, and if no rehash has come since then the
    buckets are those of the beginning. *)
Lemma first_iterator l x :
  default_buckets <= MAX_CHALLENGES -> grow 1 <= MAX_CHALLENGES ->
  Forall has_path (x :: l) -> NoDup ((x :: l).*2).*1 -> length (x :: l) <= MAX_CHALLENGES ->
  exists t taken rest, for_each (x :: l) ask no_challenges = (Ret tt, t) /\
    challengeIterators t = (x.2.1, taken) :: rest /\ length rest = length l /\ size (challenges t) = length (x :: l) /\
    taken <= rehashes t /\ (taken = rehashes t -> buckets t <= MAX_CHALLENGES) /\
    (forall p, is_Some (challenges t !! p) -> p ∈ ((x :: l).*2).*1).
Proof.
  intros Hd Hg Hall Hnd Hlen. destruct x as [h [p a]]. apply Forall_cons in Hall as [Hp Hall].
  cbn [fmap list_fmap fst snd length] in Hnd, Hlen. apply NoDup_cons in Hnd as [Hpl Hnd].
  assert (Hrun : forall l t taken rest,
    Forall has_path l -> NoDup (l.*2).*1 -> (forall q, q ∈ (l.*2).*1 -> challenges t !! q = None) ->
    challengeIterators t = (p, taken) :: rest -> S (length rest) + length l <= MAX_CHALLENGES ->
    size (challenges t) = S (length rest) -> taken <= rehashes t -> (taken = rehashes t -> buckets t <= MAX_CHALLENGES) ->
    exists t' rest', for_each l ask t = (Ret tt, t') /\ challengeIterators t' = (p, taken) :: rest' /\
      length rest' = length rest + length l /\ size (challenges t') = S (length rest') /\
      taken <= rehashes t' /\ (taken = rehashes t' -> buckets t' <= MAX_CHALLENGES) /\
      forall q, is_Some (challenges t' !! q) -> is_Some (challenges t !! q) \/ q ∈ (l.*2).*1).
  { clear. intros l. induction l as [|[h [q a]] l IH]; intros t taken rest Hall Hnd Hnew Hi Hlen Hs Ht Hb; cbn [for_each].
    { exists t, rest. cbn [length]. rewrite Nat.add_0_r. by auto 10. }
    apply Forall_cons in Hall as [Hq Hall]. cbn [fmap list_fmap fst snd length] in *.
    apply NoDup_cons in Hnd as [Hql Hnd]. mrun. rewrite ask_adds by done.
    rewrite add_challenge_room by (try (rewrite Hi; cbn [length]; lia); apply Hnew; by left). cbv zeta.
    destruct (emplace_new_fields q a t) as [E1 _]. rewrite E1, Hi. cbn [app].
    assert (taken <= rehashes (emplace_new q a t) /\
      (taken = rehashes (emplace_new q a t) -> buckets (emplace_new q a t) <= MAX_CHALLENGES)) as [Ht' Hb'].
    { unfold emplace_new. destruct (_ <? _); cbn [rehashes buckets]; [|done]. split; lia. }
    edestruct (IH (Challenges (<[q := a]> (challenges t)) (buckets (emplace_new q a t)) (rehashes (emplace_new q a t))
      ((p, taken) :: rest ++ [(q, rehashes (emplace_new q a t))])))
      as (t' & rest' & -> & H1 & H2 & H3 & H4 & H5 & H6); [done|done| |done|..|].
    - intros z Hz. cbn [challenges]. rewrite lookup_insert_ne by (by intros ->). apply Hnew. by right.
    - rewrite length_app. cbn [length]. lia.
    - cbn [challenges]. rewrite map_size_insert_None, length_app by (apply Hnew; by left). cbn [length]. lia.
    - done.
    - done.
    - exists t', rest'. rewrite length_app in H2. cbn [length] in H2. split; [done|]. split; [done|]. split; [lia|].
      do 3 (split; [done|]). intros z Hz. destruct (H6 z Hz) as [[b Hb2]|Hz2]; [|right; by right].
      cbn [challenges] in Hb2. apply lookup_insert_Some in Hb2 as [[-> _]|[_ Hb2]]; [right; by left|left; by eexists]. }
  cbn [for_each]. mrun. rewrite ask_adds by done.
  rewrite add_challenge_room by (try done; cbn; unfold MAX_CHALLENGES; lia). cbv zeta.
  destruct (emplace_new_fields p a no_challenges) as [E1 _]. rewrite E1. cbn [no_challenges challenges challengeIterators app].
  edestruct (Hrun l (Challenges (<[p := a]> ∅) (buckets (emplace_new p a no_challenges)) (rehashes (emplace_new p a no_challenges))
    [(p, rehashes (emplace_new p a no_challenges))]) (rehashes (emplace_new p a no_challenges)) [])
    as (t' & rest' & -> & H1 & H2 & H3 & H4 & H5 & H6); [done|done| |done|cbn [length] in *; lia|..|].
  - intros q Hq. cbn [challenges]. rewrite lookup_insert_ne by (by intros ->). apply lookup_empty.
  - cbn [challenges]. by rewrite map_size_insert_None, map_size_empty by apply lookup_empty.
  - done.
  - intros _. cbn [buckets]. unfold emplace_new, no_challenges. cbn [buckets challenges]. rewrite map_size_empty.
    destruct (_ <? _); cbn [buckets]; lia.
  - exists t', (rehashes (emplace_new p a no_challenges)), rest'. split; [done|]. split; [done|]. split; [done|].
    split; [by rewrite H3, H2|]. split; [done|]. split; [done|]. intros q Hq.
    cbn [fmap list_fmap fst snd]. destruct (H6 q Hq) as [[b Hb]|Hq2]; [|by right].
    cbn [challenges] in Hb. apply lookup_insert_Some in Hb as [[<- _]|[_ Hb]]; [by left|]. by rewrite lookup_empty in Hb.
Qed.

(** The challenge that should make the plugin forget its oldest erases through an
    iterator that a rehash has invalidated: a table that began with a bucket for at
    most 128 entries has been rehashed since the iterator was taken. *)
Theorem oldest_challenge_undefined l x y :
  default_buckets <= MAX_CHALLENGES -> grow 1 <= MAX_CHALLENGES ->
  Forall has_path (x :: l ++ [y]) -> NoDup ((x :: l ++ [y]).*2).*1 -> length (x :: l) = MAX_CHALLENGES ->
  (for_each (x :: l ++ [y]) ask no_challenges).1 = Undef.
Proof.
  intros Hd Hg Hall Hnd Hlen. change (x :: l ++ [y]) with ((x :: l) ++ [y]) in *.
  apply Forall_app in Hall as [Hall Hy]. apply Forall_cons in Hy as [Hy _].
  rewrite !fmap_app in Hnd. apply NoDup_app in Hnd as (Hnd & Hny & _).
  destruct (first_iterator l x) as (t & taken & rest & E & Hi & Hr & Hs & Ht & Hb & Hp); [first [done|lia]..|].
  rewrite for_each_app. mrun. rewrite E. cbn [for_each]. mrun. destruct y as [h [q a]]. rewrite ask_adds by done.
  rewrite (add_challenge_full q a t (x.2.1) taken rest); [|..|done|cbn [length] in Hlen; lia].
  - cbv zeta. unfold emplace_new. rewrite Hs.
    destruct (Nat.ltb_spec (buckets t) (S (length (x :: l)))) as [Hlt|Hge]; cbn [rehashes].
    + replace (taken =? S (rehashes t)) with false by (symmetry; apply Nat.eqb_neq; lia). done.
    + replace (taken =? rehashes t) with false; [done|]. symmetry. apply Nat.eqb_neq. intros E2.
      specialize (Hb E2). lia.
  - destruct (challenges t !! q) eqn:Eq; [|done]. exfalso. apply (Hny q); [apply Hp; by eexists|by left].
Qed.
End table.

Section challenge_theorem.
Context {J N : Type} `{JO : JsonOps J} `{NO : NetOps N} `{NL : !NetLog N} {HH : @Handlers J N} {HT : HashTable}.
Variable sha1 : bytes -> bytes.

(** Up to 128 challenges with different paths are answered: a request for one of the
    paths gets its text, and any other path of the authority's directory a 404. *)
Theorem challenges_served l args (c : client) h (n : N) :
  Forall has_path l -> length l <= MAX_CHALLENGES ->
  NoDup (l.*2).*1 -> is_prefix challenge_prefix (q_path (a_request args)) = true ->
  net_connected (c_id c) n ->
  exists t, for_each l ask no_challenges = (Ret tt, t) /\
    (forall authorization,
      (q_path (a_request args), authorization) ∈ l.*2 ->
      exists n', handle sha1 t true true (args, (c, (h, n))) = (Ret CApprove, (args, (c, (h, n')))) /\
        net_sent (c_id c) n' = net_sent (c_id c) n ++ render (make_response 200 authorization)) /\
    (q_path (a_request args) ∉ (l.*2).*1 ->
      handle sha1 t true true (args, (c, (h, n))) =
        catch (reply (make_response 404 (lit "Not Found")) ;; client_close sha1 ;; mret CKill)
          (fun _ => Some (forbidden sha1)) (args, (c, (h, n)))).
Proof.
  intros Hall Hlen Hnd Hpre Hconn. destruct (ask_all l no_challenges) as (t & E & Ht); [done|done|done|done|].
  exists t. split; [done|]. split.
  - intros a Ha. destruct (send_to_logged (render (make_response 200 a)) c h n Hconn) as (n' & E1 & _ & Hs).
    exists n'. split; [|done]. unfold handle, handler_args, catch, reply, below. mrun.
    cbn [negb orb fst snd]. rewrite Hpre. rewrite (proj2 (Ht _ a) (or_introl Ha)).
    cbv beta iota. cbn [fst snd]. unfold world in *. by rewrite E1.
  - intros Hnot. unfold handle, handler_args, catch. mrun. cbn [negb orb fst snd]. rewrite Hpre.
    destruct (challenges t !! q_path (a_request args)) as [a|] eqn:Ea; [|done].
    apply Ht in Ea as [Ea|[=]]. destruct Hnot. apply list_elem_of_fmap. by exists (q_path (a_request args), a).
Qed.
End challenge_theorem.

(** ** Theorems: the cache of certificates *)

Lemma split_chain_parts chain first rest : split_chain chain = Ret (first, rest) -> first ++ rest = chain.
Proof.
  unfold split_chain. destruct (find_sub end_mark chain) as [p|] eqn:E; [|done].
  apply find_sub_Some in E as (_ & _ & Hle). change (length end_mark) with 25 in Hle.
  intros [= <- <-]. rewrite ?length_take, Nat.min_l by exact Hle. apply take_drop.
Qed.

(** The hosts whose certificates are kept. *)
Definition plain_host (host : bytes) : Prop := host <> [] /\ ("/"%char ∉ host).

Lemma cache_extension host :
  plain_host host -> extension (path_of (lit "certs/" ++ host ++ lit ".json")) = lit ".json".
Proof.
  intros [Hne Hs]. assert (Hs' : "/"%char ∉ host ++ lit ".json").
  { rewrite elem_of_app. intros [H|H]; [done|]. revert H. refine (bool_decide_unpack (_ ∉ _) _).
    vm_compute. exact I. }
  unfold extension, path_of, filename.
  change (lit "certs/" ++ host ++ lit ".json") with (lit "certs" ++ "/"%char :: (host ++ lit ".json")).
  rewrite names_of_slash; [|refine (bool_decide_unpack (_ ∉ _) _); vm_compute; exact I|done].
  rewrite names_of_cur by done. cbn [app]. rewrite bool_decide_false by done. cbn [p_names last default].
  unfold id, extension_of. assert (Hlen : length (host ++ lit ".json") >= 6).
  { rewrite length_app. destruct host; [done|]. cbn. lia. }
  rewrite (bool_decide_false (_ = lit ".")), (bool_decide_false (_ = lit "..")) by
    (intros H; rewrite H in Hlen; cbn in Hlen; lia).
  cbn [orb]. change (lit ".json") with ("."%char :: lit "json").
  assert (E : find_end (lit ".") (host ++ "."%char :: lit "json") = Some (length host)).
  { clear. induction host as [|x host IH]; [vm_compute; reflexivity|]. cbn [app find_end]. by rewrite IH. }
  rewrite E. destruct host; [done|]. cbn [length]. 
  change (drop (S (length host)) ((a :: host) ++ "."%char :: lit "json"))
    with (drop (length host) (host ++ "."%char :: lit "json")).
  by rewrite drop_app_length.
Qed.

Section cache_theorem.
Context {X K : Type} `{PM : Pem X K} `{CL : CacheLaws}.

(** The last certificate of a host among those issued. *)
Fixpoint latest (issued : list (bytes * Certificate)) (host : bytes) : option Certificate :=
  match issued with
  | [] => None
  | (h, c) :: rest =>
    match latest rest host with
    | Some c' => Some c'
    | None => if bool_decide (h = host) then Some c else None
    end
  end.

Lemma latest_snoc issued h c host :
  latest (issued ++ [(h, c)]) host = if bool_decide (h = host) then Some c else latest issued host.
Proof.
  induction issued as [|[h' c'] issued IH]; cbn [latest app]; [done|]. rewrite IH.
  by destruct (bool_decide (h = host)).
Qed.

(** What is in the table and in the file of a host after a certificate. *)
Definition recorded (cert : Certificate) (host : bytes) (ct : Certificates X K) (text : bytes) : Prop :=
  exists first rest, split_chain (fullchain cert) = Ret (first, rest) /\
    read_certificates first (privkey cert) rest = Ret ct /\
    dump (MkCached (getExpiry cert) host first (privkey cert) rest) = Ret text.

#[local] Instance file_of_inj : Inj (=) (=) file_of.
Proof. intros a b. apply app_inv_tail. Qed.

Definition cache_agrees (issued : list (bytes * Certificate)) (s : site X K) : Prop :=
  exists certs, st_certificates s = Some certs /\
    (forall host, match latest issued host with
     | Some cert => exists ct text, recorded cert host ct text /\ certs !! host = Some ct /\
                      files_of s !! file_of host = Some text
     | None => certs !! host = None
     end) /\
    forall name text, files_of s !! name = Some text ->
      exists host, name = file_of host /\ is_Some (latest issued host).

Lemma finish_agrees issued host cert s s' :
  cache_agrees issued s -> plain_host host ->
  finishCertificate host cert s = (Ret tt, s') -> cache_agrees (issued ++ [(host, cert)]) s' /\ is_Some (st_files s').
Proof.
  intros (certs & Hc & Hin & Hfiles) [Hne Hs] E.
  unfold finishCertificate in E. revert E. mrun. rewrite Hc.
  destruct (split_chain (fullchain cert)) as [[first rest]| | |] eqn:Es; try done.
  unfold on_certificates, addCertificate. mrun. rewrite Hc.
  destruct (read_certificates first (privkey cert) rest) as [ct| | |] eqn:Er; try done.
  rewrite bool_decide_false by done. unfold write_cached. mrun. cbn [st_certificates st_files].
  destruct (dump _) as [text| | |] eqn:Ed; try done. intros [= <-].
  split; [|by eexists]. exists (<[host := ct]> (delete host certs)). split; [done|].
  unfold files_of at 1. unfold files_of at 4. cbn [st_files files_of]. rewrite insert_insert_eq.
  change (files_of {| st_certificates := _; st_files := st_files s |}) with (files_of s). split.
  - intros h. rewrite latest_snoc. specialize (Hin h). case_bool_decide as Hh; [subst h|].
    + exists ct, text. split; [by exists first, rest|]. by rewrite !lookup_insert_eq.
    + rewrite lookup_insert_ne, lookup_delete_ne by done.
      destruct (latest issued h) as [cert'|]; [|done].
      destruct Hin as (ct' & text' & H1 & H2 & H3). exists ct', text'. split; [done|]. split; [done|].
      rewrite lookup_insert_ne; [done|]. by intros ?%(inj file_of).
  - intros name text' Ht. destruct (decide (name = file_of host)) as [->|Hname].
    + exists host. split; [done|]. rewrite latest_snoc, bool_decide_true by done. by eexists.
    + rewrite lookup_insert_ne in Ht by done. destruct (Hfiles _ _ Ht) as (h & -> & Hl).
      exists h. split; [done|]. rewrite latest_snoc. case_bool_decide; [by eexists|done].
Qed.

(** A file that [finishCertificate] has left, of a host and its certificates. *)
Definition cache_entry (x : bytes * bytes) (host : bytes) (cert : Certificate) (ct : Certificates X K) : Prop :=
  x.1 = file_of host /\ plain_host host /\ recorded cert host ct x.2.

Lemma load_entry now x host cert ct m files :
  cache_entry x host cert ct ->
  load_file now x.1 x.2 (Site (Some m) files) =
    (Ret tt, Site (Some (if (getExpiry cert <=? now)%Z then m else <[host := ct]> m)) files).
Proof.
  intros (E & Hp & first & rest & _ & Hr & Hd). unfold load_file. rewrite E.
  rewrite bool_decide_true by by apply cache_extension.
  rewrite (parse_dump _ _ Hd). cbn [cd_expiry cd_hostname cd_cert cd_privkey cd_chain].
  destruct (_ <=? _)%Z; [done|]. unfold on_certificates, addCertificate. cbn [st_certificates st_files].
  mrun. by rewrite Hr, insert_delete_eq.
Qed.

Lemma load_entries now files l : forall m,
  NoDup l.*1 -> (forall x, x ∈ l -> exists host cert ct, cache_entry x host cert ct) ->
  exists m', for_each l (fun x => load_file now x.1 x.2) (Site (Some m) files) =
      (Ret tt, Site (Some m') files) /\
    (forall x host cert ct, x ∈ l -> cache_entry x host cert ct ->
      m' !! host = if (getExpiry cert <=? now)%Z then m !! host else Some ct) /\
    (forall host, file_of host ∉ l.*1 -> m' !! host = m !! host).
Proof.
  induction l as [|x l IH]; intros m Hnd Hall; cbn [for_each].
  - exists m. split; [done|]. split; [|done]. by intros ? ? ? ? ?%elem_of_nil.
  - cbn [fmap list_fmap] in Hnd. apply NoDup_cons in Hnd as [Hx Hnd].
    destruct (Hall x) as (h & c & ct & He); [by left|]. mrun. rewrite (load_entry now x h c ct m files He).
    edestruct (IH (if (getExpiry c <=? now)%Z then m else <[h := ct]> m)) as (m' & E & H1 & H2);
      [done|intros y Hy; apply Hall; by right|].
    exists m'. split; [exact E|].
    assert (Hh : file_of h ∉ l.*1) by (destruct He as (<- & _); exact Hx). split.
    + intros y h' c' ct' [->|Hy]%elem_of_cons He'.
      * destruct He as (E1 & _ & f1 & r1 & S1 & R1 & D1), He' as (E2 & _ & f2 & r2 & S2 & R2 & D2).
        rewrite E1 in E2. apply (inj file_of) in E2 as <-.
        pose proof (parse_dump _ _ D1) as P1. rewrite (parse_dump _ _ D2) in P1. injection P1 as ? ? ? ?.
        rewrite (H2 _ Hh). replace (getExpiry c') with (getExpiry c).
        destruct (_ <=? _)%Z; [done|]. rewrite lookup_insert_eq. congruence.
      * rewrite (H1 _ _ _ _ Hy He'). destruct (getExpiry c <=? now)%Z; [done|].
        rewrite lookup_insert_ne; [done|]. intros <-. apply Hh. apply list_elem_of_fmap.
        exists y. split; [symmetry; apply He'|done].
    + intros h' Hh'. cbn [fmap list_fmap] in Hh'. apply not_elem_of_cons in Hh' as [Hne Hh'].
      rewrite (H2 _ Hh'). destruct (_ <=? _)%Z; [done|]. rewrite lookup_insert_ne; [done|].
      intros <-. apply Hne. by destruct He as (-> & _).
Qed.

Lemma finish_all issued don s s' :
  cache_agrees don s -> Forall (fun x => plain_host x.1) (don ++ issued) ->
  for_each issued (fun x => finishCertificate x.1 x.2) s = (Ret tt, s') ->
  cache_agrees (don ++ issued) s' /\ (issued <> [] -> is_Some (st_files s')).
Proof.
  revert don s. induction issued as [|[h c] issued IH]; intros don s Ha Hall; cbn [for_each].
  - mrun. intros [= <-]. by rewrite app_nil_r.
  - mrun. cbn [fst snd]. destruct (finishCertificate h c s) as [[[]|e| |] s1] eqn:E; [|by intros [=]..]. intros E2.
    assert (Hp : plain_host h) by (apply Forall_app in Hall as [_ Hall]; by apply Forall_cons in Hall as [? _]).
    destruct (finish_agrees don h c s s1 Ha Hp E) as [Ha1 Hf].
    change (don ++ (h, c) :: issued) with (don ++ [(h, c)] ++ issued) in Hall |- *.
    rewrite app_assoc in Hall |- *. destruct (IH _ _ Ha1 Hall E2) as [Ha2 Hf2].
    split; [done|]. intros _. destruct issued; [|by apply Hf2]. cbn [for_each] in E2.
    revert E2. mrun. by intros [= <-].
Qed.

(** C28: the certificates of a server are kept over a restart: whatever hosts
    certificates have been issued for, and in whatever order the system lists the
    files, a server that starts with the cache gets for every host the
    certificate that was issued last, unless it has expired. *)
Theorem cached_certificates_restored issued s now listing :
  Forall (fun x => plain_host x.1) issued -> issued <> [] ->
  for_each issued (fun x => finishCertificate x.1 x.2) (Site (Some ∅) None) = (Ret tt, s) ->
  (forall files, listing files ≡ₚ map_to_list files) ->
  exists certs restored,
    st_certificates s = Some certs /\
    loadCache now listing (Site (Some ∅) (st_files s)) = (Ret tt, Site (Some restored) (st_files s)) /\
    forall host, restored !! host =
      match latest issued host with
      | Some cert => if (getExpiry cert <=? now)%Z then None else certs !! host
      | None => None
      end.
Proof.
  intros Hall Hne Hrun Hlist.
  destruct (finish_all issued [] (Site (Some ∅) None) s) as [(certs & Hc & Hin & Hfiles) Hf]; [|done..|].
  { exists ∅. split; [done|]. split; [intros host; by rewrite lookup_empty|].
    intros name text Ht. change ((∅ : gmap bytes bytes) !! name = Some text) in Ht.
    by rewrite lookup_empty in Ht. }
  cbn [app] in Hin, Hfiles. destruct (Hf Hne) as [files Es].
  assert (Hfo : files_of s = files) by (unfold files_of; by rewrite Es). rewrite Hfo in Hin, Hfiles.
  assert (Hplain : forall host cert, latest issued host = Some cert -> plain_host host).
  { clear -Hall. induction issued as [|[h c] l IH]; intros host cert; cbn [latest]; [done|].
    apply Forall_cons in Hall as [Hh Hall]. destruct (latest l host) eqn:E; [eauto|].
    case_bool_decide; [by subst|done]. }
  assert (Hentry : forall host cert, latest issued host = Some cert -> exists ct text,
    certs !! host = Some ct /\ (file_of host, text) ∈ listing files /\
    cache_entry (file_of host, text) host cert ct).
  { intros host cert El. specialize (Hin host). rewrite El in Hin. destruct Hin as (ct & text & H1 & H2 & H3).
    exists ct, text. split; [done|]. split; [rewrite Hlist; by apply elem_of_map_to_list|].
    split; [done|]. split; [by eapply Hplain|done]. }
  destruct (load_entries now (Some files) (listing files) ∅) as (restored & E & H1 & H2).
  - rewrite Hlist. apply NoDup_fst_map_to_list.
  - intros [name text] Hx. rewrite Hlist in Hx. apply elem_of_map_to_list in Hx as Ht.
    destruct (Hfiles _ _ Ht) as (host & -> & [cert El]). destruct (Hentry _ _ El) as (ct & text' & _ & Hin' & He).
    rewrite Hlist in Hin'. apply elem_of_map_to_list in Hin'. replace text with text' by congruence. eauto.
  - exists certs, restored. split; [done|]. split.
    + unfold loadCache. mrun. cbn [st_certificates st_files]. rewrite Es. exact E.
    + intros host. destruct (latest issued host) as [cert|] eqn:El.
      * destruct (Hentry _ _ El) as (ct & text & Hct & Hx & He). rewrite (H1 _ _ _ _ Hx He), Hct.
        by destruct (_ <=? _)%Z.
      * rewrite H2; [done|]. intros ([name text] & E' & Hx)%list_elem_of_fmap. cbn [fst] in E'. subst name.
        rewrite Hlist in Hx. apply elem_of_map_to_list in Hx. destruct (Hfiles _ _ Hx) as (h & Eh & [c Hl]).
        apply (inj file_of) in Eh as <-. congruence.
Qed.
End cache_theorem.

(** ** Witnesses *)

(** One byte is one certificate; the text of a record is its number. *)
#[local] Instance example_pem : Pem bytes bytes := {
  read_x509 := fun bio => match bio with c :: r => (Some [c], r) | [] => (None, []) end;
  read_private_key := fun bio => Some bio;
}.
Definition cached_fields (r : cached) : Z * bytes * bytes * bytes * bytes :=
  (cd_expiry r, cd_hostname r, cd_cert r, cd_privkey r, cd_chain r).
Definition cached_of (x : Z * bytes * bytes * bytes * bytes) : cached :=
  let '(e, h, c, p, r) := x in MkCached e h c p r.
#[local] Instance example_text : CacheText := {
  dump := fun r => Ret (to_dec (Zpos (encode (cached_fields r))));
  parse := fun t => n ← dec_value 0 t; x ← decode (Z.to_pos n); Some (cached_of x);
}.
#[local] Instance example_text_laws : CacheLaws.
Proof.
  split. intros r text [= <-]. cbn [parse example_text].
  destruct (to_dec_spec (Zpos (encode (cached_fields r)))) as (_ & _ & ->); [lia|].
  cbn [mbind option_bind]. change (Z.to_pos (Zpos ?p)) with p.
  rewrite decode_encode. by destruct r.
Qed.

Definition example_issued : list (bytes * Certificate) :=
  [(lit "a.org", MkCertificate (lit "1-----END CERTIFICATE-----2") (lit "k") 10);
   (lit "b.org", MkCertificate (lit "3-----END CERTIFICATE-----4") (lit "k") 90);
   (lit "a.org", MkCertificate (lit "5-----END CERTIFICATE-----6") (lit "l") 80)].

Lemma cached_certificates_restored_witness :
  exists certs restored s,
    for_each example_issued (fun x => finishCertificate x.1 x.2) (Site (Some ∅) None) = (Ret tt, s) /\
    st_certificates s = Some certs /\
    loadCache 85 map_to_list (Site (Some ∅) (st_files s)) = (Ret tt, Site (Some restored) (st_files s)) /\
    restored !! lit "b.org" = certs !! lit "b.org" /\ restored !! lit "a.org" = None.
Proof.
  destruct (for_each example_issued (fun x => finishCertificate (X := bytes) (K := bytes) x.1 x.2)
              (Site (Some ∅) None)) as [r s] eqn:E.
  assert (r = Ret tt) as ->.
  { change r with (r, s).1. rewrite <- E. vm_compute. reflexivity. }
  destruct (cached_certificates_restored example_issued s 85 map_to_list) as (certs & restored & H1 & H2 & H3).
  - unfold plain_host. refine (bool_decide_unpack _ _). vm_compute. exact I.
  - discriminate.
  - exact E.
  - done.
  - exists certs, restored, s. split; [done|]. split; [exact H1|]. split; [exact H2|].
    split; rewrite H3; vm_compute (latest _ _); reflexivity.
Defined.

(** Tables that begin with one bucket and have at least twice as many as needed. *)
Definition doubling : HashTable := {| default_buckets := 1; grow := fun n => 2 * n |}.

Lemma challenges_served_witness :
  exists t n',
    for_each [(lit "a.org", (challenge_prefix ++ lit "token", lit "answer"))] (ask (HT := doubling)) (no_challenges (HT := doubling)) = (Ret tt, t) /\
    handle (HH := one_handler Calculator.handle) id t true true
      (MkHandlerArgs (set_path (challenge_prefix ++ lit "token") new_request) [], asked new_request) =
    (Ret CApprove, (MkHandlerArgs (set_path (challenge_prefix ++ lit "token") new_request) [],
                    ((asked new_request).1, ((asked new_request).2.1, n')))).
Proof.
  destruct (challenges_served (HH := one_handler Calculator.handle) (HT := doubling) id
    [(lit "a.org", (challenge_prefix ++ lit "token", lit "answer"))]
    (MkHandlerArgs (set_path (challenge_prefix ++ lit "token") new_request) [])
    (asked new_request).1 (asked new_request).2.1 ([] : list bytes)) as (t & E & H & _).
  - by repeat constructor.
  - vm_compute. lia.
  - refine (bool_decide_unpack _ _). vm_compute. exact I.
  - reflexivity.
  - exact I.
  - destruct (H (lit "answer")) as (n' & H1 & _).
    { refine (bool_decide_unpack _ _). vm_compute. exact I. }
    exists t, n'. split; [exact E|exact H1].
Defined.

(** The 129th of as many challenges, in such a table. *)
Definition many_challenges : list (bytes * (bytes * bytes)) :=
  map (fun k => (lit "a.org", (challenge_prefix ++ to_dec (Z.of_nat k), lit "x"))) (seq 0 129).

Example many_challenges_undefined :
  (for_each (take 128 many_challenges) (ask (HT := doubling)) (no_challenges (HT := doubling))).1 = Ret tt /\
  (for_each many_challenges (ask (HT := doubling)) (no_challenges (HT := doubling))).1 = Undef.
Proof. split; vm_compute; reflexivity. Qed.
