(* ===== verification/Shell.v ===== *)
(** * Commands

    [src/util/Shell.cpp]: running a command and collecting what it writes and
    how it ends.  The system, with its pipes and processes, is the class
    [Processes].  The variant with a timeout is in [ShellTimeout.v]. *)

From Stdlib Require Import ZArith Lia Ascii String.
From stdpp Require Import base tactics option list strings gmap.
From S2P Require Import Prelude Util.

Record CommandOutput := MkOutput { co_out : bytes; co_err : bytes; co_code : Z; co_signal : Z }.

(** The calls of the system.  [fork] fails or gives the parent's world with the
    number of the child, whose own world is the one before the call; [execvp] gives
    an error or does not return; a negative result of [read] is [None]. *)
Class Processes (W : Type) := {
  sys_pipe : W -> option (Z * Z) * W;
  sys_nonblocking : Z -> W -> W;
  sys_close : Z -> W -> W;
  sys_fork : W -> option Z * W;
  sys_dup2 : Z -> Z -> W -> W;
  sys_execvp : bytes -> list bytes -> W -> option Z;
  sys_waitpid : Z -> W -> (Z + Z) * W;
  sys_read : Z -> nat -> W -> option bytes * W;
  sys_unread : Z -> W -> bytes;
}.

(** What is documented of reading from a pipe that does not block: it takes some
    of what is there, and at most what was asked for. *)
Class PipeLaws (W : Type) `{Processes W} := {
  read_some fd n w : 0 < n -> sys_unread fd w <> [] ->
    exists data rest, sys_unread fd w = data ++ rest /\ data <> [] /\ length data <= n /\
      exists w', sys_read fd n w = (Some data, w') /\ sys_unread fd w' = rest /\
        forall fd', fd' <> fd -> sys_unread fd' w' = sys_unread fd' w;
  read_none fd n w : sys_unread fd w = [] ->
    match sys_read fd n w with
    | (Some data, w') => data = [] /\ forall fd', sys_unread fd' w' = sys_unread fd' w
    | (None, w') => forall fd', sys_unread fd' w' = sys_unread fd' w
    end;
}.

(** ** The status of a process *)

Definition WIFEXITED (status : Z) : bool := (Z.land status 127 =? 0)%Z.
Definition WEXITSTATUS (status : Z) : Z := Z.land (Z.shiftr status 8) 255.
Definition WTERMSIG (status : Z) : Z := Z.land status 127.
Definition WIFSIGNALED (status : Z) : bool := ((0 <? WTERMSIG status) && (WTERMSIG status <? 127))%Z.

Definition exit_code (status : Z) : Z := if WIFEXITED status then WEXITSTATUS status else -1.
Definition end_signal (status : Z) : Z := if WIFSIGNALED status then WTERMSIG status else -1.

Section shell.
Context {W : Type} `{PS : Processes W}.

Definition system {A} (f : W -> A * W) : M W A := fun w => let '(r, w') := f w in (Ret r, w').

(** [PipeWrapper]: its read end and its write end. *)
Definition new_PipeWrapper : M W (Z * Z) :=
  r ← system sys_pipe;
  match r with Some fds => mret fds | None => throw (RuntimeError (lit "Couldn't create pipe")) end.
Definition close_PipeWrapper (fds : Z * Z) (w : W) : W := sys_close fds.2 (sys_close fds.1 w).

(** What the child does; it returns only by an exception. *)
Definition child_side (path : bytes) (args : list bytes) (stdout_pipe stderr_pipe : Z * Z) (w : W) : option exn :=
  let w := sys_dup2 stderr_pipe.2 2 (sys_dup2 stdout_pipe.2 1 w) in
  let w := sys_close stderr_pipe.2 (sys_close stdout_pipe.2 w) in
  match sys_execvp (c_str path) (map c_str (path :: args)) w with
  | Some errno => Some (RuntimeError (lit "execvp failed: " ++ to_dec errno))
  | None => None
  end.

(** [while (0 < (bytes_read = read(...)))]. *)
Fixpoint read_pipe (fuel : nat) (fd : Z) (stream : bytes) : M W bytes :=
  match fuel with
  | O => diverge
  | S f =>
    r ← system (sys_read fd 4096);
    match r with
    | Some (c :: data) => read_pipe f fd (stream ++ c :: data)
    | _ => mret stream
    end
  end.

(** The pipes are closed when the function is left. *)
Definition finally {A} (m : M W A) (cleanup : W -> W) : M W A := fun w =>
  let '(r, w') := m w in (r, cleanup w').

Definition collect (stdout_pipe stderr_pipe : Z * Z) : M W CommandOutput :=
  child ← system sys_fork;
  match child with
  | None => throw (RuntimeError (lit "Couldn't fork"))
  | Some child =>
    waited ← system (sys_waitpid child);
    match waited with
    | inl errno => throw (RuntimeError (lit "waitpid failed: " ++ to_dec errno))
    | inr status =>
      w ← get;
      out ← read_pipe (S (length (sys_unread stdout_pipe.1 w))) stdout_pipe.1 [];
      w ← get;
      err ← read_pipe (S (length (sys_unread stderr_pipe.1 w))) stderr_pipe.1 [];
      mret (MkOutput out err (exit_code status) (end_signal status))
    end
  end.

Definition runCommand : M W CommandOutput :=
  stdout_pipe ← new_PipeWrapper;
  finally
    (stderr_pipe ← new_PipeWrapper;
     finally
       (modify (fun w => sys_nonblocking stderr_pipe.1 (sys_nonblocking stdout_pipe.1 w)) ;;
        modify (fun w => sys_nonblocking stderr_pipe.2 (sys_nonblocking stdout_pipe.2 w)) ;;
        collect stdout_pipe stderr_pipe)
       (close_PipeWrapper stderr_pipe))
    (close_PipeWrapper stdout_pipe).
End shell.

(** ** Theorems *)

(** The status of a process that has exited, and of one that a signal has ended,
    with or without a memory image. *)
Definition exited (code : Z) : Z := Z.shiftl code 8.
Definition killed (signal : Z) (core : bool) : Z := Z.lor signal (if core then 128 else 0).

Lemma status_exited code : (0 <= code < 256)%Z -> exit_code (exited code) = code /\ end_signal (exited code) = (-1)%Z.
Proof.
  intros H. assert (Hall : forallb (fun c => ((exit_code (exited c) =? c) && (end_signal (exited c) =? -1))%Z)
                             (map Z.of_nat (seq 0 256)) = true) by (vm_compute; reflexivity).
  rewrite forallb_forall in Hall. specialize (Hall code). apply andb_true_iff in Hall as [H1%Z.eqb_eq H2%Z.eqb_eq]; [done|].
  apply in_map_iff. exists (Z.to_nat code). rewrite in_seq. lia.
Qed.

Lemma status_killed signal core :
  (1 <= signal <= 126)%Z -> exit_code (killed signal core) = (-1)%Z /\ end_signal (killed signal core) = signal.
Proof.
  intros H. assert (Hall : forallb (fun s => forallb (fun b =>
      ((exit_code (killed s b) =? -1) && (end_signal (killed s b) =? s))%Z) [true; false])
                             (map Z.of_nat (seq 1 126)) = true) by (vm_compute; reflexivity).
  rewrite forallb_forall in Hall. specialize (Hall signal). rewrite forallb_forall in Hall.
  specialize (Hall ltac:(apply in_map_iff; exists (Z.to_nat signal); rewrite in_seq; lia) core).
  apply andb_true_iff in Hall as [H1%Z.eqb_eq H2%Z.eqb_eq]; [done|]. destruct core; cbn; auto.
Qed.

Section collected.
Context {W : Type} `{PL : PipeLaws W}.

Lemma read_pipe_all fuel fd : forall stream (w : W),
  length (sys_unread fd w) < fuel -> exists w',
    read_pipe fuel fd stream w = (Ret (stream ++ sys_unread fd w), w') /\
    forall fd', fd' <> fd -> sys_unread fd' w' = sys_unread fd' w.
Proof.
  induction fuel as [|fuel IH]; intros stream w Hf; [lia|]. cbn [read_pipe]. unfold system. mrun.
  destruct (decide (sys_unread fd w = [])) as [E|Hne].
  - rewrite E, app_nil_r. pose proof (read_none fd 4096 w E) as Hr.
    destruct (sys_read fd 4096 w) as [[data|] w'].
    + destruct Hr as [-> Hr]. exists w'. by split.
    + exists w'. by split.
  - destruct (read_some fd 4096 w ltac:(lia) Hne) as (data & rest & E & Hd & _ & w' & -> & Hr & Ho).
    destruct data as [|c data]; [done|]. rewrite E, length_app in Hf. cbn [length] in Hf.
    destruct (IH (stream ++ c :: data) w') as (w2 & -> & H2); [rewrite Hr; lia|].
    exists w2. rewrite Hr, E, <- app_assoc. split; [done|]. intros fd' Hfd. by rewrite H2, Ho.
Qed.

(** A command that ends is reported as it ended: everything that waits in its
    two pipes is collected, however the system cuts it into reads, the code is
    that of its exit or -1, the signal the one that ended it or -1, and the code
    is zero exactly when it has exited with success. *)
Theorem runCommand_reports (w w1 w2 w3 w4 : W) out out_write err err_write child code signal core (ended : bool) :
  let status := if ended then exited code else killed signal core in
  sys_pipe w = (Some (out, out_write), w1) -> sys_pipe w1 = (Some (err, err_write), w2) -> out <> err ->
  sys_fork (sys_nonblocking err_write (sys_nonblocking out_write
             (sys_nonblocking err (sys_nonblocking out w2)))) = (Some child, w3) ->
  sys_waitpid child w3 = (inr status, w4) -> (0 <= code < 256)%Z -> (1 <= signal <= 126)%Z ->
  exists w',
    runCommand w = (Ret (MkOutput (sys_unread out w4) (sys_unread err w4)
                           (if ended then code else -1) (if ended then -1 else signal)), w') /\
    ((if ended then code else -1)%Z = 0%Z <-> status = exited 0).
Proof.
  intros status Hp1 Hp2 Hne Hf Hw Hc Hs.
  assert (Hst : exit_code status = (if ended then code else -1)%Z /\
                end_signal status = (if ended then -1 else signal)%Z)
    by (unfold status; destruct ended; [by apply status_exited|by apply status_killed]).
  destruct (read_pipe_all (S (length (sys_unread out w4))) out [] w4) as (w5 & E1 & H1); [lia|].
  destruct (read_pipe_all (S (length (sys_unread err w5))) err [] w5) as (w6 & E2 & H2); [lia|].
  unfold runCommand, finally, new_PipeWrapper, collect, system in *. eexists. split.
  - mrun. rewrite Hp1. cbn [fst snd]. rewrite Hp2. cbn [fst snd]. rewrite Hf, Hw.
    revert E1 E2. mrun. intros -> ->. cbn [app]. rewrite (H1 err) by done. destruct Hst as [-> ->]. reflexivity.
  - destruct Hst as [Hcode _]. split; intros E0.
    + destruct ended; [unfold status; by rewrite E0|discriminate E0].
    + rewrite E0 in Hcode. by rewrite <- Hcode.
Qed.

(** When there is no process to be had, both pipes are closed again. *)
Lemma runCommand_fork_fails (w w1 w2 w3 : W) out out_write err err_write :
  sys_pipe w = (Some (out, out_write), w1) -> sys_pipe w1 = (Some (err, err_write), w2) ->
  sys_fork (sys_nonblocking err_write (sys_nonblocking out_write
             (sys_nonblocking err (sys_nonblocking out w2)))) = (None, w3) ->
  runCommand w = (Throw (RuntimeError (lit "Couldn't fork")),
                  sys_close out_write (sys_close out (sys_close err_write (sys_close err w3)))).
Proof.
  intros Hp1 Hp2 Hf. unfold runCommand, finally, new_PipeWrapper, collect, system in *. mrun.
  rewrite Hp1. cbn [fst snd]. rewrite Hp2. cbn [fst snd]. by rewrite Hf.
Qed.
End collected.

(** ** Witness *)

(** A system whose descriptors are numbered in order, whose reads are short, and
    whose command writes two texts and exits. *)
Definition example_read (fd : Z) (n : nat) (w : gmap Z bytes * Z) : option bytes * (gmap Z bytes * Z) :=
  match default [] (w.1 !! fd) with
  | [] => (None, w)
  | c :: rest => (Some (take n [c]), (<[fd := drop n [c] ++ rest]> w.1, w.2))
  end.
#[local] Instance example_processes : Processes (gmap Z bytes * Z) := {
  sys_pipe := fun w => (Some (w.2, w.2 + 1)%Z, (w.1, w.2 + 2)%Z);
  sys_nonblocking := fun _ w => w;
  sys_close := fun _ w => w;
  sys_fork := fun w => (Some 99%Z, w);
  sys_dup2 := fun _ _ w => w;
  sys_execvp := fun _ _ _ => None;
  sys_waitpid := fun _ w => (inr (exited 3), (<[3%Z := lit "out"]> (<[5%Z := lit "oops"]> w.1), w.2));
  sys_read := example_read;
  sys_unread := fun fd w => default [] (w.1 !! fd);
}.
#[local] Instance example_pipes : PipeLaws (gmap Z bytes * Z).
Proof.
  split; intros fd n w; cbn [sys_unread sys_read example_processes]; unfold example_read.
  - intros Hn Hne. destruct (default [] (w.1 !! fd)) as [|c rest]; [done|].
    destruct n as [|n]; [lia|]. exists [c], rest. cbn. rewrite take_nil, drop_nil. cbn.
    split; [done|]. split; [done|]. split; [lia|]. eexists. split; [done|]. cbn [fst]. split.
    + by rewrite lookup_insert_eq.
    + intros fd' Hne'. by rewrite lookup_insert_ne.
  - by intros ->.
Qed.

Lemma runCommand_reports_witness :
  exists w', runCommand ((∅, 3%Z) : gmap Z bytes * Z) = (Ret (MkOutput (lit "out") (lit "oops") 3 (-1)), w').
Proof.
  destruct (runCommand_reports (PL := example_pipes) ((∅, 3%Z) : gmap Z bytes * Z) (∅, 5%Z) (∅, 7%Z) (∅, 7%Z)
              (<[3%Z := lit "out"]> (<[5%Z := lit "oops"]> ∅), 7%Z) 3 4 5 6 99 3 1 false true
              ltac:(reflexivity) ltac:(reflexivity) ltac:(lia) ltac:(reflexivity) ltac:(reflexivity)
              ltac:(lia) ltac:(lia)) as (w' & E & _).
  by exists w'.
Defined.
