(* ===== verification/ShellTimeout.v ===== *)
(** * Commands with a time limit

    [src/util/Shell.cpp], the variant of [runCommand] with a timeout: the thread
    that has called it, the thread it makes to watch the time, the command, the
    clock and the signal that tells of the command's end, each of which takes its
    steps whenever a schedule says so.

    The control pipe is [static thread_local].  The thread that watches does not
    come by its definition, so that what it sees under that name is zeroed: it
    writes to descriptor 0.  So does the signal's handler in any thread but the
    caller's.  The parent keeps the write ends of both pipes open, so that they do
    not end. *)

From Stdlib Require Import ZArith Lia Ascii String.
From stdpp Require Import base tactics option list.
From S2P Require Import Prelude Shell.

(** A command: what it has still to write, to its output or (with [true]) to its
    error output, and the status it ends with; once it has ended, what it has left
    unwritten. *)
Inductive command :=
| NotForked
| Alive (writes : list (bool * bytes)) (status : Z)
| Ended (unwritten : list (bool * bytes)) (status : Z)
| Reaped (unwritten : list (bool * bytes)) (status : Z).

(** [runCommand]: before [fork]; before and after [select], with the descriptors it
    has found (all, when a signal has interrupted it); at the assignment and at the
    notification when a byte has come; at the first and the second pipe; at
    [waitpid]; at the assignment and at the notification behind it; at [join]. *)
Inductive caller :=
| AtFork | AtSelect | AtControl (ready ready_out ready_err : bool) | AtQuit (ready_out ready_err : bool)
| AtNotify (ready_out ready_err : bool) | AtOut (ready_out ready_err : bool) | AtErr (ready_err : bool)
| AtWait | AtLastQuit | AtLastNotify | AtJoin | Returned.
(** The lambda in the thread: before it has taken the time; at the condition of its
    loop; behind it, with or without the mutex, which no other thread locks; waiting;
    woken; at [write], at the condition of the signal, at [kill]. *)
Inductive watcher := AtStart | AtLoop | AtLock | Waiting | Woken | AtWrite | AtKill | Killing | Over.
#[export] Instance watcher_eq_dec : EqDecision watcher.
Proof. solve_decision. Defined.

Record state := State {
  s_caller : caller;
  s_watcher : watcher;
  s_command : command;
  s_quit : bool;
  s_until : bool;        (** the time limit has passed *)
  s_select_late : bool;  (** the time limit of [select] has passed *)
  s_pending : bool;      (** [SIGCHLD] has not been handled yet *)
  s_interrupted : bool;  (** the caller has handled it *)
  s_control : nat;       (** bytes in the control pipe *)
  s_stdin : nat;         (** bytes written to descriptor 0 *)
  s_signals : list Z;    (** signals sent to the command *)
  s_out : bytes;         (** what is in the pipes *)
  s_err : bytes;
  s_stdout : bytes;      (** what has been collected *)
  s_stderr : bytes;
  s_status : Z;
  s_terminated : bool;   (** an exception has left a thread *)
}.

Definition set_caller (x : caller) (s : state) : state :=
  State x (s_watcher s) (s_command s) (s_quit s) (s_until s) (s_select_late s) (s_pending s) (s_interrupted s)
    (s_control s) (s_stdin s) (s_signals s) (s_out s) (s_err s) (s_stdout s) (s_stderr s) (s_status s) (s_terminated s).
Definition set_watcher (x : watcher) (s : state) : state :=
  State (s_caller s) x (s_command s) (s_quit s) (s_until s) (s_select_late s) (s_pending s) (s_interrupted s)
    (s_control s) (s_stdin s) (s_signals s) (s_out s) (s_err s) (s_stdout s) (s_stderr s) (s_status s) (s_terminated s).
Definition set_command (x : command) (s : state) : state :=
  State (s_caller s) (s_watcher s) x (s_quit s) (s_until s) (s_select_late s) (s_pending s) (s_interrupted s)
    (s_control s) (s_stdin s) (s_signals s) (s_out s) (s_err s) (s_stdout s) (s_stderr s) (s_status s) (s_terminated s).
Definition set_times (until late : bool) (s : state) : state :=
  State (s_caller s) (s_watcher s) (s_command s) (s_quit s) until late (s_pending s) (s_interrupted s)
    (s_control s) (s_stdin s) (s_signals s) (s_out s) (s_err s) (s_stdout s) (s_stderr s) (s_status s) (s_terminated s).
Definition set_signalled (pending interrupted : bool) (control stdin : nat) (s : state) : state :=
  State (s_caller s) (s_watcher s) (s_command s) (s_quit s) (s_until s) (s_select_late s) pending interrupted
    control stdin (s_signals s) (s_out s) (s_err s) (s_stdout s) (s_stderr s) (s_status s) (s_terminated s).
Definition set_pipes (out err got_out got_err : bytes) (s : state) : state :=
  State (s_caller s) (s_watcher s) (s_command s) (s_quit s) (s_until s) (s_select_late s) (s_pending s) (s_interrupted s)
    (s_control s) (s_stdin s) (s_signals s) out err got_out got_err (s_status s) (s_terminated s).
Definition set_status (status : Z) (s : state) : state :=
  State (s_caller s) (s_watcher s) (s_command s) (s_quit s) (s_until s) (s_select_late s) (s_pending s) (s_interrupted s)
    (s_control s) (s_stdin s) (s_signals s) (s_out s) (s_err s) (s_stdout s) (s_stderr s) status (s_terminated s).
Definition send_signal (n : Z) (s : state) : state :=
  State (s_caller s) (s_watcher s) (s_command s) (s_quit s) (s_until s) (s_select_late s) (s_pending s) (s_interrupted s)
    (s_control s) (s_stdin s) (s_signals s ++ [n]) (s_out s) (s_err s) (s_stdout s) (s_stderr s) (s_status s) (s_terminated s).
Definition terminate (s : state) : state :=
  State (s_caller s) (s_watcher s) (s_command s) (s_quit s) (s_until s) (s_select_late s) (s_pending s) (s_interrupted s)
    (s_control s) (s_stdin s) (s_signals s) (s_out s) (s_err s) (s_stdout s) (s_stderr s) (s_status s) true.

Definition set_quit (s : state) : state :=
  State (s_caller s) (s_watcher s) (s_command s) true (s_until s) (s_select_late s) (s_pending s) (s_interrupted s)
    (s_control s) (s_stdin s) (s_signals s) (s_out s) (s_err s) (s_stdout s) (s_stderr s) (s_status s) (s_terminated s).

(** [condition_variable.notify_all()]: who does not wait yet is not woken. *)
Definition notify_all (s : state) : state :=
  match s_watcher s with Waiting => set_watcher Woken s | _ => s end.

Section timed.
(** Whether [fork] succeeds, what the command does, whether something can be
    written to descriptor 0, and the signal to send, 0 for none. *)
Variable fork_ok : bool.
Variable writes : list (bool * bytes).
Variable status : Z.
Variable stdin_ok : bool.
Variable signal_on_timeout : Z.

(** When [fork] fails, the exception destroys a [std::thread] that runs. *)
Definition fork_step (s : state) : state :=
  if fork_ok then set_caller AtSelect (set_command (Alive writes status) s) else terminate s.

(** The loop, and the waiting for the thread after it. *)
Definition call_step (s : state) : option state :=
  match s_caller s with
  | AtFork => Some (fork_step s)
  | AtSelect =>
    if s_interrupted s then
      Some (set_caller (AtControl true true true) (set_signalled (s_pending s) false (s_control s) (s_stdin s) s))
    else
      let control := 0 <? s_control s in
      let out := negb (bool_decide (s_out s = [])) in
      let err := negb (bool_decide (s_err s = [])) in
      if control || out || err || s_select_late s then Some (set_caller (AtControl control out err) s) else None
  | AtControl control out err =>
    match control, s_control s with
    | false, _ | _, O => Some (set_caller (AtOut out err) s)
    | true, S n => Some (set_caller (AtQuit out err) (set_signalled (s_pending s) (s_interrupted s) n (s_stdin s) s))
    end
  | AtQuit out err => Some (set_caller (AtNotify out err) (set_quit s))
  | AtNotify out err => Some (set_caller (AtOut out err) (notify_all s))
  | AtOut out err =>
    Some (set_caller (AtErr err) (if out then set_pipes [] (s_err s) (s_stdout s ++ s_out s) (s_stderr s) s else s))
  | AtErr err =>
    Some (set_caller AtWait (if err then set_pipes (s_out s) [] (s_stdout s) (s_stderr s ++ s_err s) s else s))
  | AtWait =>
    (** with [WNOHANG] the result is 0 while the command runs; only -1 goes on *)
    Some (set_caller AtLastQuit
      match s_command s with Ended unwritten st => set_command (Reaped unwritten st) (set_status st s) | _ => s end)
  | AtLastQuit => Some (set_caller AtLastNotify (set_quit s))
  | AtLastNotify => Some (set_caller AtJoin (notify_all s))
  | AtJoin => match s_watcher s with Over => Some (set_caller Returned s) | _ => None end
  | Returned => None
  end.

(** [wait_until] may end for no reason as well, with [spurious]. *)
Definition watch_step (spurious : bool) (s : state) : option state :=
  match s_watcher s with
  | AtStart => Some (set_watcher AtLoop s)
  | AtLoop => Some (set_watcher (if s_quit s then Over else AtLock) s)
  | AtLock => Some (set_watcher Waiting s)
  | Waiting => if s_until s || spurious then Some (set_watcher Woken s) else None
  | Woken => Some (set_watcher (if s_until s then AtWrite else AtLoop) s)
  | AtWrite =>
    if stdin_ok then Some (set_watcher AtKill (set_signalled (s_pending s) (s_interrupted s) (s_control s) (S (s_stdin s)) s))
    else Some (terminate s)
  | AtKill =>
    let forked := match s_command s with NotForked => false | _ => true end in
    Some (set_watcher (if negb (s_quit s) && negb (signal_on_timeout =? 0)%Z && forked then Killing else Over) s)
  | Killing => Some (set_watcher Over (send_signal signal_on_timeout s))
  | Over => None
  end.

(** The command writes, and ends, by itself or by a signal. *)
Definition command_step (by_signal : bool) (s : state) : option state :=
  let ending unwritten st :=
    Some (set_signalled true (s_interrupted s) (s_control s) (s_stdin s) (set_command (Ended unwritten st) s)) in
  match s_command s with
  | Alive ws st =>
    if by_signal then match s_signals s with [] => None | n :: _ => ending ws (killed n false) end
    else match ws with
         | [] => ending [] st
         | (false, data) :: rest => Some (set_pipes (s_out s ++ data) (s_err s) (s_stdout s) (s_stderr s) (set_command (Alive rest st) s))
         | (true, data) :: rest => Some (set_pipes (s_out s) (s_err s ++ data) (s_stdout s) (s_stderr s) (set_command (Alive rest st) s))
         end
  | _ => None
  end.

(** The handler of the signal runs in the caller's thread or in another one. *)
Definition handler_step (in_caller : bool) (s : state) : option state :=
  if s_pending s then
    Some (if in_caller then
            set_signalled false (match s_caller s with AtSelect => true | _ => s_interrupted s end) (S (s_control s)) (s_stdin s) s
          else set_signalled false (s_interrupted s) (s_control s) (S (s_stdin s)) s)
  else None.

(** The limit of the thread that watches begins with its first step. *)
Inductive who :=
  Caller | Watcher | Spurious | Command (by_signal : bool) | Handler (in_caller : bool) | TimeLimit | SelectLimit.

Definition step (x : who) (s : state) : option state :=
  if s_terminated s then None
  else match x with
       | Caller => call_step s
       | Watcher => watch_step false s
       | Spurious => match s_watcher s with Waiting => watch_step true s | _ => None end
       | Command by_signal => command_step by_signal s
       | Handler in_caller => handler_step in_caller s
       | TimeLimit => match s_watcher s with AtStart => None | _ => Some (set_times true (s_select_late s) s) end
       | SelectLimit => Some (set_times (s_until s) true s)
       end.

Fixpoint run (schedule : list who) (s : state) : option state :=
  match schedule with
  | [] => Some s
  | x :: rest => s' ← step x s; run rest s'
  end.

Definition start : state :=
  State AtFork AtStart NotForked false false false false false 0 0 [] [] [] [] [] 0 false.

Definition result (s : state) : CommandOutput :=
  MkOutput (s_stdout s) (s_stderr s) (exit_code (s_status s)) (end_signal (s_status s)).

(** ** What every schedule keeps *)

















(** ** A command that has ended is reported as it has ended *)




(** ** The thread that watches *)






(** ** The ends of the two *)











End timed.

(** A command that still runs, with output of its own, is reported as a success: the
    first result of [waitpid] ends the loop, whatever it is. *)
Lemma running_reported_as_success :
  exists schedule s,
    run true [(false, lit "a"); (false, lit "b")] (exited 3) true 9 schedule start = Some s /\
    s_caller s = Returned /\ result s = MkOutput (lit "a") [] 0 (-1) /\
    s_command s = Alive [(false, lit "b")] (exited 3) /\ s_signals s = [].
Proof.
  exists [Watcher; Caller; Command false; Caller; Caller; Caller; Caller; Caller; Caller; Caller; Watcher; Caller].
  eexists. split; [vm_compute; reflexivity|]. done.
Qed.

(** The thread that watches writes to descriptor 0; when that is closed, its
    exception ends the process. *)
Lemma watcher_terminates :
  exists schedule s, run true [] (exited 0) false 0 schedule start = Some s /\ s_terminated s = true.
Proof. exists [Watcher; Watcher; TimeLimit; Watcher; Watcher; Watcher; Watcher]. eexists. split; [vm_compute; reflexivity|done]. Qed.

(** The notification does not take the mutex: one between the condition and the
    waiting is lost, and although the command has ended the call returns no sooner
    than at the time limit. *)
Lemma wake_up_lost :
  exists schedule s, run true [] (exited 0) true 9 schedule start = Some s /\
    s_caller s = AtJoin /\ s_watcher s = Waiting /\ s_quit s = true /\ s_command s = Reaped [] (exited 0) /\
    step true [] (exited 0) true 9 Caller s = None /\ step true [] (exited 0) true 9 Watcher s = None.
Proof.
  exists [Watcher; Watcher; Caller; Command false; Handler true; Caller; Caller; Caller; Caller; Caller; Caller; Caller; Caller;
          Caller; Watcher].
  eexists. split; [vm_compute; reflexivity|]. repeat split.
Qed.

(** ** Witness *)


