(* ===== verification/Game3CI.v ===== *)
(** * The build plugin

    [src/plugins/game3ci/Game3CI.cpp]: the hook that accepts signed notices of
    commits, and the job that builds and publishes a commit.  The message
    authentication code, the JSON text and the commands are arguments. *)

From Stdlib Require Import ZArith Lia Ascii String.
From stdpp Require Import base tactics option list strings gmap.
From S2P Require Import Prelude Util Response Request PluginHost Client FS HttpServer Plugins Shell.

(** ** The comparison of codes *)

Fixpoint compare_sum (one two : bytes) (sum : Z) : Z :=
  match one, two with
  | a :: one, b :: two => compare_sum one two (if Ascii.eqb a b then sum - 1 else sum + 1)%Z
  | _, _ => sum
  end.

Definition compareHMAC (one two : bytes) : outcome bool :=
  if negb (length one =? length two) then
    Throw (RuntimeError (lit "Strings must have same length to be fully compared"))
  else Ret (compare_sum one two (Z.of_nat (length one)) =? 0)%Z.

(** [std::string::resize]. *)
Definition resize (s : bytes) (n : nat) : bytes := take n s ++ repeat nul (n - length s).

(** ** The plugin *)

(** [ci_jobs] are the commits whose jobs have been added to the pool. *)
Record game3ci := Game3CI {
  ci_repoRoot : bytes;
  ci_builddir : bytes;
  ci_secret : bytes;
  ci_quasiMsys2 : bytes;
  ci_force : bool;
  ci_active : bool;
  ci_jobs : list bytes;
}.

Definition add_job (commit_hash : bytes) (p : game3ci) : game3ci :=
  if ci_active p
  then Game3CI (ci_repoRoot p) (ci_builddir p) (ci_secret p) (ci_quasiMsys2 p) (ci_force p)
         (ci_active p) (ci_jobs p ++ [commit_hash])
  else p.
Definition set_active (b : bool) (p : game3ci) : game3ci :=
  Game3CI (ci_repoRoot p) (ci_builddir p) (ci_secret p) (ci_quasiMsys2 p) (ci_force p) b (ci_jobs p).

Section hook.
Context {J N : Type} `{JO : JsonOps J} `{NO : NetOps N} {HH : @Handlers J N}.
Variable sha1 : bytes -> bytes.
(** [HMAC] with SHA-256: the key and the message. *)
Variable hmacSHA256 : bytes -> bytes -> bytes.
Abbreviation state := (game3ci * (HandlerArgs * (client * @world J N)))%type.

Definition ci_send (r : response) : M state () := fun s =>
  let '(x, s') := (reply r ;; below (@Client.close _ (http_ServerOps sha1))) s.2 in (x, (s.1, s')).

(** [*iter == "..."]. *)
Definition equals_string (json : J) (s : bytes) : bool :=
  json_is_string json && match json_get_string json with Ret x => bool_decide (x = s) | _ => false end.

(** The end of the handler, with the parsed notice. *)
Definition accept_notice (json : J) : M state CancelableResult :=
  (if json_contains json (lit "ref") then
     ref ← lift (json_at json (lit "ref"));
     if equals_string ref (lit "refs/heads/master") then
       if json_contains json (lit "after") then
         after ← lift (json_at json (lit "after"));
         commit_hash ← lift (json_get_string after);
         modify (fun s => (add_job commit_hash s.1, s.2))
       else mret tt
     else mret tt
   else mret tt) ;;
  ci_send (make_response_mime 200 (lit "Thanks!") (lit "text/plain")) ;;
  mret CApprove.

Definition handle (not_disabled : bool) : M state CancelableResult :=
  if negb not_disabled then mret CPass
  else
    s ← get;
    let q := a_request s.2.1 in
    if negb (bool_decide (q_path q = lit "/ci/hook")) then mret CPass
    else if negb (bool_decide (getHeader q (lit "content-type") = lit "application/json")) then
      ci_send (make_response_mime 400 (lit "What?") (lit "text/plain")) ;; mret CKill
    else
      let header := getHeader q (lit "x-hub-signature-256") in
      if length header <? 7 then throw OutOfRange
      else
        let expected := hexString (hmacSHA256 (ci_secret s.1) (q_content q)) in
        let signature := resize (drop 7 header) (length expected) in
        equal ← lift (compareHMAC signature expected);
        if negb equal then
          ci_send (make_response_mime 403 (lit "No.") (lit "text/plain")) ;; mret CKill
        else
          match json_parse (q_content q) with
          | None => ci_send (make_response_mime 400 (lit "Bad JSON") (lit "text/plain")) ;; mret CKill
          | Some json => accept_notice json
          end.

(** [postinit] reads the configuration before it starts the pool and enters the
    handler. *)
Definition optional {A} (get_as : J -> outcome A) (config : J) (name : bytes) (default : A) : outcome A :=
  if json_contains config name then v ← json_at config name; get_as v else Ret default.
Definition required (config : J) (name : bytes) : outcome bytes :=
  v ← json_at config name; json_get_string v.

Definition postinit (handler : weak) (config : J) (p : game3ci) : M (http_server J) game3ci :=
  repo ← lift (required config (lit "repo"));
  builddir ← lift (required config (lit "builddir"));
  secret ← lift (required config (lit "secret"));
  quasiMsys2 ← lift (optional json_get_string config (lit "quasiMsys2") (ci_quasiMsys2 p));
  force ← lift (optional json_get_bool config (lit "force") (ci_force p));
  modify (add_postHandler handler) ;;
  mret (Game3CI repo builddir secret quasiMsys2 force true (ci_jobs p)).
Definition cleanup (live : weak -> option Z) (handler : weak) (p : game3ci) (h : http_server J)
    : game3ci * http_server J :=
  (set_active false p, erase_postHandler live handler h).
End hook.

(** ** The job *)

Definition command : Type := bytes * list bytes.

(** The commands that have been run are the state; what the next one gives may
    depend on them. *)
Section job.
Variable runCommand : list command -> command -> CommandOutput.

Definition run (path : bytes) (args : list bytes) : M (list command) (bool * bytes) :=
  history ← get;
  let result := runCommand history (path, args) in
  put (history ++ [(path, args)]) ;;
  mret ((co_code result =? 0)%Z, co_out result).

Inductive job_end := Failed | NoWork | Published.

Definition makeJob (p : game3ci) (commit_hash : bytes) : M (list command) job_end :=
  pulled ← run (lit "git") [lit "-C"; ci_builddir p; lit "pull"; lit "origin"; lit "master"];
  if negb pulled.1 then mret Failed
  else
    checked_out ← run (lit "git") [lit "-C"; ci_builddir p; lit "checkout"; commit_hash];
    if negb checked_out.1 then mret Failed
    else
      built ← run (lit "ninja") [lit "-C"; ci_builddir p];
      if negb built.1 then mret Failed
      else if negb (ci_force p) &&
              bool_decide (is_Some (find_sub (lit "ninja: no work to do." ++ [lf]) built.2)) then
        mret NoWork
      else
        zipped ← run (ci_repoRoot p ++ lit "/linzip.sh") [ci_repoRoot p; ci_builddir p; lit "publish"];
        if negb zipped.1 then mret Failed
        else if negb (bool_decide (ci_quasiMsys2 p = [])) then
          windows ← run (ci_repoRoot p ++ lit "/quasi_msys2.sh")
                        [ci_repoRoot p; ci_quasiMsys2 p; lit "publish"];
          if negb windows.1 then mret Failed else mret Published
        else mret Published.
End job.

(** ** Theorems *)

Lemma compare_sum_spec one : forall two sum,
  length one = length two ->
  exists d, (0 <= d)%Z /\ compare_sum one two sum = (sum - Z.of_nat (length one) + 2 * d)%Z /\
    (d = 0%Z <-> one = two).
Proof.
  induction one as [|a one IH]; intros [|b two] sum Hl; try done; cbn [compare_sum length].
  - exists 0%Z. split; [lia|]. split; [lia|done].
  - injection Hl as Hl. destruct (Ascii.eqb_spec a b) as [->|Hne].
    + destruct (IH two (sum - 1)%Z Hl) as (d & Hd & -> & Hiff). exists d. split; [done|]. split; [lia|].
      rewrite Hiff. split; [by intros ->|by intros [= ->]].
    + destruct (IH two (sum + 1)%Z Hl) as (d & Hd & -> & Hiff). exists (d + 1)%Z. split; [lia|].
      split; [lia|]. split; [lia|]. by intros [= ? ?].
Qed.

(** Strings of one length are found equal exactly when they are. *)
Lemma compareHMAC_spec one two :
  length one = length two -> compareHMAC one two = Ret (bool_decide (one = two)).
Proof.
  intros Hl. unfold compareHMAC. rewrite Hl, Nat.eqb_refl. cbn [negb].
  destruct (compare_sum_spec one two (Z.of_nat (length two)) Hl) as (d & Hd & -> & Hiff). f_equal.
  rewrite Hl. case_bool_decide as H.
  - apply Hiff in H. apply Z.eqb_eq. lia.
  - apply Z.eqb_neq. intros Hz. apply H, Hiff. lia.
Qed.

Lemma length_resize s n : length (resize s n) = n.
Proof. unfold resize. rewrite length_app, length_take, repeat_length. lia. Qed.

Section hook_theorems.
Context {J N : Type} `{JO : JsonOps J} `{NO : NetOps N} {HH : @Handlers J N}.
Variable sha1 : bytes -> bytes.
Variable hmacSHA256 : bytes -> bytes -> bytes.

Lemma ci_send_keeps r p (x : HandlerArgs * (client * @world J N)) :
  (ci_send sha1 r (p, x)).2.1 = p.
Proof. unfold ci_send. cbn [fst snd]. by destruct ((reply r ;; _) x). Qed.

(** A notice that is worth a job. *)
Definition names_commit (json : J) (commit : bytes) : Prop :=
  exists ref after,
    json_at json (lit "ref") = Ret ref /\ json_get_string ref = Ret (lit "refs/heads/master") /\
    json_at json (lit "after") = Ret after /\ json_get_string after = Ret commit.

Lemma accept_notice_jobs json p (x : HandlerArgs * (client * @world J N)) :
  let p' := (accept_notice sha1 json (p, x)).2.1 in
  p' = p \/ exists commit, names_commit json commit /\ p' = add_job commit p.
Proof.
  cbn zeta. unfold accept_notice. mrun.
  assert (Hend : forall p0, (let '(r, s) := ci_send sha1 (make_response_mime 200 (lit "Thanks!") (lit "text/plain")) (p0, x) in
    match r with Ret _ => (Ret CApprove, s) | Throw e => (Throw e, s) | Undef => (Undef, s) | Diverge => (Diverge, s) end).2.1 = p0).
  { intros p0. pose proof (ci_send_keeps (make_response_mime 200 (lit "Thanks!") (lit "text/plain")) p0 x) as H.
    by destruct (ci_send _ _ _) as [[| | |] s]. }
  destruct (json_contains json (lit "ref")); [|left; apply Hend].
  destruct (json_at json (lit "ref")) as [ref| | |] eqn:Er; try by left.
  unfold equals_string. destruct (json_is_string ref); cbn [andb]; [|left; apply Hend].
  destruct (json_get_string ref) as [name| | |] eqn:Em; try (left; apply Hend).
  case_bool_decide as Hm; [subst name|left; apply Hend].
  destruct (json_contains json (lit "after")); [|left; apply Hend].
  destruct (json_at json (lit "after")) as [after| | |] eqn:Ea; try by left.
  destruct (json_get_string after) as [commit| | |] eqn:Eg; try by left.
  right. exists commit. split; [by exists ref, after|]. cbn [fst snd]. apply Hend.
Qed.

Lemma hexString_no_nul s : nul ∉ hexString s.
Proof.
  unfold hexString. induction s as [|c s IH]; [by apply not_elem_of_nil|]. cbn [map concat].
  assert (H : forall c, bool_decide (nul ∉ [hex_get_char (Z.shiftr (code c) 4);
      hex_get_char (Z.land (code c) 15)]) = true)
    by (apply byte_forall; vm_compute; reflexivity).
  specialize (H c). apply bool_decide_eq_true in H. rewrite elem_of_app. tauto.
Qed.

(** A resized string is a hexadecimal one only if it starts with it. *)
Lemma resize_hex s mac n :
  n = length (hexString mac) -> resize s n = hexString mac -> exists rest, s = hexString mac ++ rest.
Proof.
  intros Hn E. destruct (decide (n <= length s)) as [Hle|Hlt].
  - exists (drop n s). rewrite <- E. unfold resize. replace (n - length s) with 0 by lia.
    cbn [repeat]. by rewrite app_nil_r, take_drop.
  - exfalso. apply (hexString_no_nul mac). rewrite <- E. unfold resize. rewrite elem_of_app. right.
    destruct (n - length s) eqn:Ed; [lia|]. left.
Qed.

(** C25: the hook adds a job only for a notice that was made with the secret: the
    pool is as before, or the header of the request has, from its eighth
    character on, the hexadecimal form of the code of the very bytes received,
    and the job is for the commit that these bytes name for the master branch. *)
Theorem hook_authentic enabled p (x : HandlerArgs * (client * @world J N)) :
  let q := a_request x.1 in
  let p' := (handle sha1 hmacSHA256 enabled (p, x)).2.1 in
  p' = p \/
  exists prefix rest json commit,
    getHeader q (lit "x-hub-signature-256") = prefix ++ hexString (hmacSHA256 (ci_secret p) (q_content q)) ++ rest /\
    length prefix = 7 /\ q_path q = lit "/ci/hook" /\
    getHeader q (lit "content-type") = lit "application/json" /\
    json_parse (q_content q) = Some json /\ names_commit json commit /\ p' = add_job commit p.
Proof.
  cbn zeta. unfold handle. destruct enabled; cbn [negb]; [|by left]. mrun. cbn [fst snd].
  assert (Hsend : forall r a, (let '(v, s) := ci_send sha1 r (p, x) in
    match v with Ret _ => (Ret a, s) | Throw e => (Throw e, s) | Undef => (Undef, s) | Diverge => (Diverge, s) end
    : outcome CancelableResult * _).2.1 = p).
  { intros r a. pose proof (ci_send_keeps r p x) as H. by destruct (ci_send _ _ _) as [[| | |] s]. }
  destruct (bool_decide_reflect (q_path (a_request x.1) = lit "/ci/hook")) as [Hpath|]; [|by left].
  cbn [negb]. destruct (bool_decide_reflect (getHeader (a_request x.1) (lit "content-type") = lit "application/json"))
    as [Htype|]; [|left; apply Hsend].
  cbn [negb]. set (header := getHeader (a_request x.1) (lit "x-hub-signature-256")).
  destruct (Nat.ltb_spec (length header) 7); [by left|].
  set (mac := hmacSHA256 (ci_secret p) (q_content (a_request x.1))).
  rewrite compareHMAC_spec by apply length_resize.
  case_bool_decide as Heq; cbn [negb]; [|left; apply Hsend].
  destruct (json_parse (q_content (a_request x.1))) as [json|] eqn:Ej; [|left; apply Hsend].
  destruct (accept_notice_jobs json p x) as [E|(commit & Hn & E)]; [by left|right].
  destruct (resize_hex _ mac _ eq_refl Heq) as (rest & Er).
  exists (take 7 header), rest, json, commit. rewrite <- Er, take_drop. split; [done|].
  rewrite length_take. split; [lia|]. done.
Qed.

(** A request to the hook without a signature makes the handler throw
    [std::out_of_range], which is no [std::runtime_error]: it leaves
    [handlePOST], nothing has been sent, and anyone can send such a request. *)
Theorem hook_throws p w rest (s : client * @world J N) parts :
  let q := c_request s.1 in
  (forall y, lock_handler w y =
    Some (fun b y => let '(r, z) := handle sha1 hmacSHA256 b (p, y) in (r, z.2))) ->
  h_postHandlers s.2.1 = w :: rest -> q_path q = lit "/ci/hook" ->
  getParts (q_path q) = Ret parts -> getHeader q (lit "content-type") = lit "application/json" ->
  length (getHeader q (lit "x-hub-signature-256")) < 7 ->
  handlePOST s = (Throw OutOfRange, s) /\ is_runtime_error OutOfRange = false.
Proof.
  intros q Hl Hh Hpath Hparts Htype Hshort. split; [|done]. unfold handlePOST, world in *. mrun.
  change (c_request s.1) with q. assert (validatePath (q_path q) = true) as -> by by rewrite Hpath.
  cbn [negb]. unfold run_handlers, with_args, world in *. mrun. rewrite Hparts, Hh. cbn [beforeMulti]. mrun.
  rewrite Hl. unfold handle. mrun. cbn [negb fst snd a_request].
  rewrite (bool_decide_true _ Hpath), (bool_decide_true _ Htype). cbn [negb].
  by rewrite (proj2 (Nat.ltb_lt _ 7) Hshort).
Qed.
End hook_theorems.

(** ** Theorems: the job *)

Section job_theorems.
Variable runCommand : list command -> command -> CommandOutput.

Definition succeeds (history : list command) (c : command) : bool :=
  (co_code (runCommand history c) =? 0)%Z.

(** Every command but the last succeeds after those before it; [ok] says
    whether the last one has to. *)
Fixpoint all_succeed (ok : bool) (before l : list command) : bool :=
  match l with
  | [] => true
  | [c] => if ok then succeeds before c else true
  | c :: after => succeeds before c && all_succeed ok (before ++ [c]) after
  end.

(** What a complete job runs. *)
Definition the_build (p : game3ci) (commit : bytes) : list command :=
  [(lit "git", [lit "-C"; ci_builddir p; lit "pull"; lit "origin"; lit "master"]);
   (lit "git", [lit "-C"; ci_builddir p; lit "checkout"; commit]);
   (lit "ninja", [lit "-C"; ci_builddir p])].
Definition the_publishing (p : game3ci) : list command :=
  (ci_repoRoot p ++ lit "/linzip.sh", [ci_repoRoot p; ci_builddir p; lit "publish"]) ::
  (if bool_decide (ci_quasiMsys2 p = []) then []
   else [(ci_repoRoot p ++ lit "/quasi_msys2.sh", [ci_repoRoot p; ci_quasiMsys2 p; lit "publish"])]).

(** A job runs a prefix of its commands in order, each only after all before
    it have succeeded, so nothing is published that has not been built; it ends
    as published exactly when all of them have run and succeeded. *)
Theorem job_order p commit :
  exists r l rest,
    makeJob runCommand p commit [] = (Ret r, l) /\
    the_build p commit ++ the_publishing p = l ++ rest /\ all_succeed false [] l = true /\
    (r = Published <-> rest = [] /\ all_succeed true [] l = true) /\
    (r = NoWork -> l = the_build p commit /\ all_succeed true [] l = true /\ ci_force p = false).
Proof.
  unfold makeJob, run, the_build, the_publishing. mrun. cbn [fst snd app].
  repeat match goal with
         | |- context [(co_code (runCommand ?h ?c) =? 0)%Z] =>
           destruct (co_code (runCommand h c) =? 0)%Z eqn:?; cbn [negb andb fst snd app]
         | |- context [if negb (ci_force p) && ?b then _ else _] =>
           destruct (negb (ci_force p) && b) eqn:?; cbn [fst snd app]
         | |- context [negb (bool_decide (ci_quasiMsys2 p = []))] =>
           destruct (bool_decide (ci_quasiMsys2 p = [])) eqn:?; cbn [negb fst snd app]
         end;
    (eexists _, _, _; split; [reflexivity|]; split; [reflexivity|];
     cbn [all_succeed app]; unfold succeeds, command in *;
     repeat match goal with H : (co_code _ =? 0)%Z = _ |- _ => rewrite H end; cbn [andb];
     repeat split; try done; try (by intros [? ?]);
     destruct (ci_force p); done).
Qed.
End job_theorems.

(** ** Witnesses *)

Definition example_ci : game3ci := Game3CI (lit "/repo") (lit "/build") (lit "secret") [] false true [].
Definition hook_request (headers : gmap bytes bytes) : request :=
  set_headers headers (set_body (lit "x") (set_path (lit "/ci/hook") new_request)).

(** The code of a message, in the example, is its first bytes; every text is the
    notice of one commit. *)
#[local] Instance example_json : JsonOps bool := {
  json_parse := fun _ => Some true;
  json_contains := fun _ _ => true;
  json_at := fun _ name => Ret (bool_decide (name = lit "ref"));
  json_get_bool := Ret;
  json_get_size := fun _ => Throw JsonError;
  json_get_string := fun v => Ret (if v then lit "refs/heads/master" else lit "c0ffee");
  json_get_strings := fun _ => Throw JsonError;
  json_is_string := fun _ => true;
  json_is_array := fun _ => false;
}.
Definition bool_handlers : @Handlers bool (list bytes) := {|
  lock_handler := fun _ _ => None;
  lock_connection := fun _ _ => None;
  lock_message := fun _ _ => None;
  lock_close := fun _ _ => None;
  handler_live := fun _ => None;
|}.
Definition bool_world : http_server bool * list bytes :=
  (HttpServer true (path_of (lit "/srv/www")) [] [1%Z] [] ∅ ∅ ∅, []).

(** A good notice adds the job of its commit, a bad one does not. *)
Example hook_example :
  let request signature := hook_request
    {[ lit "content-type" := lit "application/json"; lit "x-hub-signature-256" := signature ]} in
  let jobs signature := ci_jobs (handle (HH := bool_handlers) id (fun key message => message) true
    (example_ci, (MkHandlerArgs (request signature) [], (new_client 3 [], bool_world)))).2.1 in
  jobs (lit "sha256=78") = [lit "c0ffee"] /\ jobs (lit "sha256=79") = [] /\
  jobs (lit "SHA512:78 and more") = [lit "c0ffee"].
Proof. vm_compute. done. Qed.

Definition hook_handlers : @Handlers bool (list bytes) := {|
  lock_handler := fun _ _ => Some (fun b y =>
    let '(r, z) := handle (HH := bool_handlers) id (fun key message => message) b (example_ci, y) in (r, z.2));
  lock_connection := fun _ _ => None;
  lock_message := fun _ _ => None;
  lock_close := fun _ _ => None;
  handler_live := fun _ => None;
|}.

Lemma hook_throws_witness :
  let s := (set_request (hook_request {[ lit "content-type" := lit "application/json" ]}) (new_client 3 []),
            bool_world) in
  handlePOST (HH := hook_handlers) s = (Throw OutOfRange, s).
Proof.
  apply (hook_throws (HH := hook_handlers) id (fun key message => message) example_ci 1%Z []
    (set_request (hook_request {[ lit "content-type" := lit "application/json" ]}) (new_client 3 []),
     bool_world) [lit "ci"; lit "hook"]).
  - intros y. reflexivity.
  - reflexivity.
  - reflexivity.
  - vm_compute. reflexivity.
  - vm_compute. reflexivity.
  - vm_compute. repeat constructor.
Defined.
