(* ===== verification/Ansuz.v ===== *)
(** * The control panel

    [src/plugins/ansuz/Ansuz.cpp]: the handlers that list, load, unload and
    configure the plugins of the server, behind a password.  They work on the
    table of [PluginHost.v].  Templates and their texts are arguments. *)

From Stdlib Require Import ZArith Lia Ascii String.
From stdpp Require Import base tactics option list strings gmap.
From S2P Require Import Prelude Util Response Request PluginHost Client FS HttpServer Plugins.

(** The data a template is rendered with. *)
Inductive value := VString (s : bytes) | VPairs (l : list (bytes * bytes)) | VRows (l : list (list bytes)).

(** The texts that are built into the plugin. *)
Record resources := Resources {
  rs_css : bytes;
  rs_message : bytes;
  rs_load : bytes;
  rs_unloaded : bytes;
  rs_edit_config : bytes;
  rs_index : bytes;
}.

Section ansuz.
Context {J N W : Type} `{JO : JsonOps J} `{NO : NetOps N} `{PW : PluginWorld W}.
Variable res : resources.
Variable inja_render : bytes -> list (bytes * value) -> outcome bytes.
Variable is_render_error : exn -> bool.
Variable what : exn -> bytes.
Variable json_dump : J -> outcome bytes.
Variables getDescription getVersion : plugin -> bytes.
Variable self : plugin.

(** The table of plugins, their configurations, and what a handler works on. *)
Definition panel : Type := @host W * gmap plugin J.
Definition state : Type := panel * (HandlerArgs * (client * @world J N)).

Definition on_host {A} (m : M (@host W) A) : M state A := fun s =>
  let '(r, h) := m s.1.1 in (r, ((h, s.1.2), s.2)).
Definition on_handler {A} (m : M (HandlerArgs * (client * @world J N)) A) : M state A := fun s =>
  let '(r, x) := m s.2 in (r, (s.1, x)).
Definition setConfig (p : plugin) (config : J) : M state () :=
  modify (fun s => ((s.1.1, <[p := config]> s.1.2), s.2)).

Definition css : bytes * value := (lit "css", VString (rs_css res)).

Definition serve (content : bytes) (json : list (bytes * value)) (status : Z) (mime : bytes)
    : M state CancelableResult :=
  text ← lift (match json with [] => Ret content | _ => inja_render content json end);
  on_handler (reply (setMIME (make_response status text) mime)) ;;
  on_handler hang_up ;;
  mret CApprove.
Definition message (text : bytes) (status : Z) : M state CancelableResult :=
  serve (rs_message res) [css; (lit "message", VString text)] status (lit "text/html").

Definition plugin_row (t : PluginTuple) : list bytes :=
  [escapeHTML (filename (path_of (tuple_path t))); escapeHTML (getName (tuple_plugin t));
   escapeHTML (getDescription (tuple_plugin t)); escapeHTML (getVersion (tuple_plugin t))].

Definition serveIndex : M state CancelableResult :=
  s ← get;
  text ← lift (inja_render (rs_index res) [css; (lit "plugins", VRows (map plugin_row (getPlugins s.1.1)))]);
  on_handler (reply (make_response 200 text)) ;;
  on_handler hang_up ;;
  mret CApprove.

(** The password in the plugin's own configuration. *)
Definition password (config : option J) : outcome (option bytes) :=
  match config with
  | Some config =>
    if json_contains config (lit "password") then
      v ← json_at config (lit "password");
      if json_is_string v then p ← json_get_string v; Ret (Some p) else Ret None
    else Ret None
  | None => Ret None
  end.

Definition checkAuth : M state bool :=
  s ← get;
  password ← lift (password (s.1.2 !! self));
  match password with
  | None => _ ← message (lit "Ansuz needs a password in its configuration.") 200; mret false
  | Some password =>
    auth ← lift (checkAuthentication (a_request s.2.1) (lit "ansuz") password);
    match auth with
    | AuthMissing => on_handler (below (http_send401_realm (lit "Ansuz"))) ;; mret false
    | AuthSuccess => mret true
    | _ => _ ← message (lit "Bad authentication.") 401; mret false
    end
  end.

(** The plugins in the directory that are not loaded. *)
Fixpoint loadable (entries : list (bytes * bool)) (h : @host W) : outcome (list (bytes * bytes)) :=
  match entries with
  | [] => Ret []
  | (entry, _) :: rest =>
    let name := lit "plugin/" ++ filename (path_of entry) in
    loaded ← hasPlugin_path entry h;
    others ← loadable rest h;
    Ret (if (loaded : bool) then others else (escapeHTML name, escapeURL name) :: others)
  end.

Definition serve_loadable : M state CancelableResult :=
  s ← get;
  entries ← lift (directory_iterator (lit "plugin") s.1.1.2);
  plugins ← lift (loadable entries s.1.1);
  serve (rs_load res) [css; (lit "plugins", VPairs plugins)] 200 (lit "text/html").

(** A plugin that is unloaded is gone, with the code that runs. *)
Definition unload_named (to_unload : bytes) : M state CancelableResult :=
  s ← get;
  canonical ← lift (canonical (lit "plugin/" ++ to_unload) s.1.1.2);
  match getPlugin canonical false s.1.1 with
  | None => message (lit "Plugin " ++ escapeHTML to_unload ++ lit " not loaded.") 200
  | Some tuple =>
    on_host (unloadPlugin tuple) ;;
    if bool_decide (tuple_plugin tuple = self) then undefined
    else serve (rs_unloaded res) [css; (lit "plugin", VString (escapeHTML to_unload))] 200 (lit "text/html")
  end.

Definition edit_named (to_edit : bytes) : M state CancelableResult :=
  s ← get;
  canonical ← lift (canonical (lit "plugin/" ++ to_edit) s.1.1.2);
  match getPlugin canonical false s.1.1 with
  | None => message (lit "Plugin " ++ escapeHTML to_edit ++ lit " not loaded.") 200
  | Some tuple =>
    config ← lift (match s.1.2 !! tuple_plugin tuple with Some c => json_dump c | None => Ret (lit "null") end);
    serve (rs_edit_config res)
      [css; (lit "config", VString config);
       (lit "pluginName", VString (escapeHTML (escapeQuotes canonical)))] 200 (lit "text/html")
  end.

Definition invalid_path : M state CancelableResult :=
  on_handler (reply (setMIME (make_response 404 (lit "Invalid path")) (lit "text/plain"))) ;;
  on_handler hang_up ;;
  mret CApprove.

Definition dispatch_GET (parts : list bytes) : M state CancelableResult :=
  match parts with
  | [_] => serveIndex
  | [_; action] => if bool_decide (action = lit "load") then serve_loadable else invalid_path
  | [_; action; name] =>
    if bool_decide (action = lit "unload") then unload_named name
    else if bool_decide (action = lit "edit") then edit_named name
    else invalid_path
  | _ => invalid_path
  end.

Definition handleGET (not_disabled : bool) : M state CancelableResult :=
  if negb not_disabled then mret CPass
  else
    s ← get;
    let parts := a_parts s.2.1 in
    if bool_decide (head parts = Some (lit "ansuz")) then
      ok ← checkAuth;
      if negb ok then mret CKill
      else catch (dispatch_GET parts) (fun e => if is_render_error e then Some (mret CPass) else None)
    else mret CPass.

(** The posted name and configuration. *)
Definition posted (q : request) : option (bytes * bytes) :=
  match q_postParameters q !! lit "pluginName", q_postParameters q !! lit "pluginConfig" with
  | Some name, Some config => Some (name, config)
  | _, _ => None
  end.

Definition parse_config (text : bytes) : outcome J :=
  match json_parse text with Some json => Ret json | None => Throw JsonError end.

Definition post_load (q : request) : M state CancelableResult :=
  match posted q with
  | None => message (lit "Invalid request.") 400
  | Some (name, config) =>
    s ← get;
    loaded ← lift (hasPlugin_path name s.1.1);
    if (loaded : bool) then message (lit "Plugin already loaded.") 404
    else
      json ← lift (parse_config config);
      tuple ← on_host (loadPlugin name);
      setConfig (tuple_plugin tuple) json ;;
      on_host (world_op (PluginHost.postinit (tuple_plugin tuple))) ;;
      text ← lift (json_dump json);
      message (lit "Plugin loaded. <pre>" ++ escapeHTML text ++ lit "</pre>") 200
  end.

Definition post_edit (q : request) : M state CancelableResult :=
  match posted q with
  | None => message (lit "Invalid request.") 400
  | Some (name, config) =>
    json ← lift (parse_config config);
    s ← get;
    path ← lift (canonical name s.1.1.2);
    loaded ← lift (hasPlugin_path path s.1.1);
    if negb loaded then message (lit "Plugin not loaded.") 404
    else
      match getPlugin path false s.1.1 with
      | None => message (lit "Couldn't get plugin.") 500
      | Some tuple => setConfig (tuple_plugin tuple) json ;; message (lit "Configuration updated.") 200
      end
  end.

Definition handlePOST (not_disabled : bool) : M state CancelableResult :=
  if negb not_disabled then mret CPass
  else
    s ← get;
    match a_parts s.2.1 with
    | name :: action :: _ =>
      if bool_decide (name = lit "ansuz") then
        ok ← checkAuth;
        if negb ok then mret CKill
        else
          catch
            (if bool_decide (action = lit "load") then post_load (a_request s.2.1)
             else if bool_decide (action = lit "edit") then post_edit (a_request s.2.1)
             else mret CPass)
            (fun e => Some (message (escapeHTML (what e)) 500))
      else mret CPass
    | _ => mret CPass
    end.
End ansuz.

Definition postinit {J} (getHandler postHandler : weak) (h : http_server J) : http_server J :=
  add_postHandler postHandler (add_getHandler getHandler h).
Definition cleanup {J} (live : weak -> option Z) (getHandler postHandler : weak) (h : http_server J)
    : http_server J :=
  erase_postHandler live postHandler (erase_getHandler live getHandler h).

(** ** Theorems: who may change the table *)

Section guard.
Context {J N W : Type} `{JO : JsonOps J} `{NO : NetOps N} `{PW : PluginWorld W}.
Variable res : resources.
Variable inja_render : bytes -> list (bytes * value) -> outcome bytes.
Variable is_render_error : exn -> bool.
Variable what : exn -> bytes.
Variable json_dump : J -> outcome bytes.
Variables getDescription getVersion : plugin -> bytes.
Variable self : plugin.

(** Code that leaves the table and the configurations alone. *)
Definition keeps {A} (m : M (@state J N W) A) : Prop := forall s, (m s).2.1 = s.1.

Lemma keeps_bind {A B} (m : M (@state J N W) A) (k : A -> M state B) :
  keeps m -> (forall a, keeps (k a)) -> keeps (a ← m; k a).
Proof.
  intros Hm Hk s. mrun. specialize (Hm s). destruct (m s) as [[a|e| |] s']; cbn [snd] in *; try done.
  by rewrite (Hk a s').
Qed.
Lemma keeps_ret {A} (a : A) : keeps (mret a).
Proof. done. Qed.
Lemma keeps_lift {A} (o : outcome A) : keeps (lift o).
Proof. done. Qed.
Lemma keeps_get : keeps get.
Proof. done. Qed.
Lemma keeps_on_handler {A} (m : M (HandlerArgs * (client * @world J N)) A) : keeps (on_handler m).
Proof. intros s. unfold on_handler. by destruct (m s.2). Qed.
#[local] Hint Resolve keeps_bind keeps_ret keeps_lift keeps_get keeps_on_handler : algiz.

Lemma keeps_serve content json status mime : keeps (serve inja_render content json status mime).
Proof. unfold serve. repeat (apply keeps_bind; [auto with algiz|intros ?]). auto with algiz. Qed.
Lemma keeps_message text status : keeps (message res inja_render text status).
Proof. apply keeps_serve. Qed.
#[local] Hint Resolve keeps_serve keeps_message : algiz.

(** Only the right name and password pass. *)
Definition authenticated (s : @state J N W) : Prop :=
  exists config p,
    s.1.2 !! self = Some config /\ password (Some config) = Ret (Some p) /\
    checkAuthentication (a_request s.2.1) (lit "ansuz") p = Ret AuthSuccess.

Lemma keeps_checkAuth : keeps (checkAuth res inja_render self).
Proof.
  unfold checkAuth. apply keeps_bind; [auto with algiz|]. intros s0. apply keeps_bind; [auto with algiz|].
  intros [p|].
  - apply keeps_bind; [auto with algiz|]. intros []; repeat (apply keeps_bind; [auto with algiz|intros ?]);
      auto with algiz.
  - apply keeps_bind; auto with algiz.
Qed.

Lemma checkAuth_true s s' : checkAuth res inja_render self s = (Ret true, s') -> authenticated s.
Proof.
  unfold authenticated, checkAuth, state, panel in *. mrun.
  destruct (s.1.2 !! self) as [config|] eqn:Ec;
    [destruct (password (Some config)) as [[p|]| | |] eqn:Ep;
     [destruct (checkAuthentication (a_request s.2.1) (lit "ansuz") p) as [[]| | |] eqn:Ea|..]|];
    cbn [password]; cbv beta iota;
    try match goal with |- (let (_, _) := ?m in _) = _ -> _ => destruct m as [[| | |] ?] end;
    try (by intros [=]).
  intros _. by exists config, p.
Qed.

Lemma bind_get {A} (f : @state J N W -> M state A) s : (x ← get; f x) s = f s s.
Proof. done. Qed.

(** What is behind the check runs only when it has passed. *)
Lemma guarded_keeps {A} (k : bool -> M (@state J N W) A) s :
  keeps (k false) ->
  ((ok ← checkAuth res inja_render self; k ok) s).2.1 = s.1 \/ authenticated s.
Proof.
  intros Hk. mrun. pose proof (keeps_checkAuth s) as Hs.
  destruct (checkAuth res inja_render self s) as [[[]|e| |] s'] eqn:E; cbn [snd] in Hs; try (by left).
  - right. by eapply checkAuth_true.
  - left. by rewrite (Hk s').
Qed.

(** C23: no request changes the table of plugins or the configuration of any of
    them, by loading, unloading or editing, unless it carries the name ansuz and
    the password that is configured at that moment. *)
Theorem ansuz_guarded enabled (s : @state J N W) :
  ((handleGET res inja_render is_render_error json_dump getDescription getVersion self enabled s).2.1 = s.1
   /\ (handlePOST res inja_render what json_dump self enabled s).2.1 = s.1) \/ authenticated s.
Proof.
  assert (HG : (handleGET res inja_render is_render_error json_dump getDescription getVersion self enabled s).2.1
    = s.1 \/ authenticated s).
  { unfold handleGET. destruct enabled; cbn [negb]; [|by left]. rewrite bind_get. cbn zeta.
    case_bool_decide; [|by left]. apply guarded_keeps, keeps_ret. }
  assert (HP : (handlePOST res inja_render what json_dump self enabled s).2.1 = s.1 \/ authenticated s).
  { unfold handlePOST. destruct enabled; cbn [negb]; [|by left]. rewrite bind_get.
    destruct (a_parts s.2.1) as [|name [|action rest]]; [by left..|].
    case_bool_decide; [|by left]. apply guarded_keeps, keeps_ret. }
  destruct HG as [HG|HG]; [|by right]. destruct HP as [HP|HP]; [by left|by right].
Qed.
End guard.
