(* ===== verification/Stack.v ===== *)
(** * The servers put together

    The network server of [NetServer.v] implements the interface [NetOps] and
    its law that the HTTP server of [HttpServer.v] and the plugins are written
    against: what is proved of them over the interface holds of the pair of
    [src/http/Server.cpp] and [src/net/Server.cpp]. *)

From Stdlib Require Import ZArith Lia Ascii String.
From stdpp Require Import base tactics option list strings gmap sets.
From S2P Require Import Prelude Util Response Request PluginHost Client FS HttpServer NetServer.

Section stack.
Context {C : Type} `{GC : GenericClient C}.
Variable ssl : bool.

(** A client the server can reach. *)
Definition reachable_client (id : Z) (n : net C) : Prop :=
  exists fd b out, t_descriptors (n_ct n) !! id = Some fd /\
    e_bufferEvents (n_et n) !! fd = Some b /\ v_output (n_ev n) !! b = Some out.

(** What is waiting to be sent to a client. *)
Definition pending (id : Z) (n : net C) : bytes :=
  default [] (fd ← t_descriptors (n_ct n) !! id; b ← e_bufferEvents (n_et n) !! fd;
              v_output (n_ev n) !! b).

#[export] Instance net_NetOps : NetOps (net C) := {
  net_send := fun id message => _ ← NetServer.send id message; mret tt;
  net_close := fun id => NetServer.close (Some (http_closeHandler ssl)) ssl id;
  net_id := fun _ => lit "server";
}.

Lemma send_reachable id message n fd b out :
  t_descriptors (n_ct n) !! id = Some fd -> e_bufferEvents (n_et n) !! fd = Some b ->
  v_output (n_ev n) !! b = Some out ->
  net_send id message n = (Ret tt, set_output b (out ++ message) n).
Proof.
  intros Hd Hb Ho. cbn [net_send net_NetOps].
  unfold NetServer.send, getDescriptor, getBufferEvent, at_, write_to, output_of. mrun.
  by rewrite Hd, Hb, Ho.
Qed.

Lemma pending_is id n fd b :
  t_descriptors (n_ct n) !! id = Some fd -> e_bufferEvents (n_et n) !! fd = Some b ->
  pending id n = default [] (v_output (n_ev n) !! b).
Proof. intros Hd Hb. unfold pending. rewrite Hd. cbn. by rewrite Hb. Qed.

Lemma net_logged id message n :
  reachable_client id n -> exists n',
    net_send id message n = (Ret tt, n') /\ reachable_client id n' /\
    pending id n' = pending id n ++ message.
Proof.
  intros (fd & b & out & Hd & Hb & Ho).
  exists (set_output b (out ++ message) n). split; [by apply send_reachable with fd|].
  assert (v_output (n_ev (set_output b (out ++ message) n)) !! b = Some (out ++ message)) as Ho'
    by apply lookup_insert_eq.
  split; [by exists fd, b, (out ++ message)|].
  rewrite (pending_is id (set_output b (out ++ message) n) fd b Hd Hb), (pending_is id n fd b Hd Hb). by rewrite Ho', Ho.
Qed.

#[export] Instance net_NetLog : NetLog (net C) := {|
  net_connected := reachable_client;
  net_sent := pending;
  net_send_logged := net_logged;
|}.

(** Every client of consistent tables can be reached. *)
Lemma wf_reachable (n : net C) id fd :
  wf n -> t_descriptors (n_ct n) !! id = Some fd -> exists b out,
    e_bufferEvents (n_et n) !! fd = Some b /\ e_bufferEventDescriptors (n_et n) !! b = Some fd /\
    v_output (n_ev n) !! b = Some out.
Proof.
  intros Hwf Hd. apply (wf_clients _ Hwf) in Hd.
  destruct (proj1 (wf_same_descriptors _ Hwf fd)) as [b Hb]; [eauto|].
  pose proof (proj1 (wf_events _ Hwf fd b) Hb) as Hb'.
  destruct (proj2 (wf_outputs _ Hwf b)) as [out Ho]; eauto 10.
Qed.
End stack.

(** ** An answer that ends the connection *)

Section closing.
Context {C : Type} `{GC : GenericClient C}.
Variable ssl : bool.

Lemma quiet_http : quiet (Some (http_closeHandler (C := C) ssl)).
Proof. exact (http_closeHandler_quiet ssl). Qed.

(** Closing a client that has something waiting puts the close off. *)
Lemma close_queued id (n : net C) fd b w out :
  t_descriptors (n_ct n) !! id = Some fd -> e_bufferEvents (n_et n) !! fd = Some b ->
  e_workerMap (n_et n) !! b = Some w -> v_output (n_ev n) !! b = Some out -> out <> [] ->
  @net_close _ (net_NetOps ssl) id n =
  (Ret true, with_wt (fun t => WTable (w_readBuffers t) ({[ (w, b) ]} ∪ w_closeQueue t)
                                 (w_acceptQueues t)) n).
Proof.
  intros Hd Hb Hw Ho Hne. cbn [net_close net_NetOps].
  unfold NetServer.close, getDescriptor, getBufferEvent, at_, queueClose, output_of. mrun.
  rewrite Hd, Hb, Hw, Ho. by rewrite bool_decide_false.
Qed.

(** A message has been put behind what was waiting for a client, and the close
    queued: once the library has sent everything, its call removes the connection
    from every table, which leaves the tables consistent. *)
Definition answered (message : bytes) (id fd : Z) (n n1 : net C) (w b : Z) (n2 : net C) : Prop :=
  pending id n1 = pending id n ++ message /\
  conn_writecb (Some (http_closeHandler ssl)) ssl w b (set_output b [] n1) = (Ret tt, n2) /\
  wf n2 /\ t_clients (n_ct n2) !! fd = None /\ (id ∈ t_freePool (n_ct n2)).

Lemma close_answered message id (n : net C) fd :
  message <> [] -> wf n -> t_descriptors (n_ct n) !! id = Some fd ->
  exists b out w n1 n2,
    e_bufferEvents (n_et n) !! fd = Some b /\ v_output (n_ev n) !! b = Some out /\
    @net_close _ (net_NetOps ssl) id (set_output b (out ++ message) n) = (Ret true, n1) /\
    answered message id fd n n1 w b n2.
Proof.
  intros Hm Hwf Hd.
  destruct (wf_reachable n id fd Hwf Hd) as (b & out & Hb & Hbd & Ho).
  destruct (proj2 (wf_workers _ Hwf b)) as [w Hw]; [eauto|].
  set (n0 := set_output b (out ++ message) n).
  assert (Ho0 : v_output (n_ev n0) !! b = Some (out ++ message)) by apply lookup_insert_eq.
  assert (Hne : out ++ message <> []) by by intros [_ Hx]%app_eq_nil.
  pose proof (close_queued id n0 fd b w _ Hd Hb Hw Ho0 Hne) as Hclose.
  set (n1 := with_wt _ n0) in *.
  assert (Hwf1 : wf (set_output b [] n1)).
  { apply (wf_wt n); [done|done|done| |]; intros b'; cbn; [|done].
    destruct (decide (b' = b)) as [->|Hb']; [rewrite lookup_insert_eq, Ho; split; eauto|].
    by rewrite !lookup_insert_ne by done. }
  destruct (worker_remove_spec (Some (http_closeHandler ssl)) quiet_http ssl w b fd
              (with_wt (fun t => WTable (w_readBuffers t) (w_closeQueue t ∖ {[ (w, b) ]})
                                   (w_acceptQueues t)) (set_output b [] n1)))
    as (id' & n2 & Hid & E2 & R2); [by apply (wf_wt (set_output b [] n1))|exact Hbd|].
  assert (id' = id) as ->.
  { apply (wf_clients _ Hwf) in Hd. change (t_clients (n_ct n) !! fd = Some id') in Hid. congruence. }
  exists b, out, w, n1, n2. split; [exact Hb|]. split; [exact Ho|].
  split; [exact Hclose|]. split; [|split; [|split; [|split]]].
  - rewrite (pending_is id n1 fd b Hd Hb), (pending_is id n fd b Hd Hb).
    change (v_output (n_ev n1)) with (v_output (n_ev n0)). by rewrite Ho0, Ho.
  - unfold conn_writecb, output_of. mrun.
    assert (v_output (n_ev (set_output b [] n1)) !! b = Some []) as -> by apply lookup_insert_eq.
    rewrite bool_decide_true by done. unfold handleWriteEmpty. mrun.
    rewrite bool_decide_true by (cbn; set_solver). revert E2. mrun. intros ->. done.
  - eapply removed_wf; [| |exact Hid|exact R2]; [|exact Hbd].
    by apply (wf_wt (set_output b [] n1)).
  - destruct R2 as (-> & _). cbn. apply lookup_delete_eq.
  - destruct R2 as (-> & _). cbn. set_solver.
Qed.

Lemma answer_and_close message id (n : net C) fd :
  message <> [] -> wf n -> t_descriptors (n_ct n) !! id = Some fd ->
  exists n0 n1 w b n2,
    @net_send _ (net_NetOps ssl) id message n = (Ret tt, n0) /\
    @net_close _ (net_NetOps ssl) id n0 = (Ret true, n1) /\ answered message id fd n n1 w b n2.
Proof.
  intros Hm Hwf Hd.
  destruct (close_answered message id n fd Hm Hwf Hd) as (b & out & w & n1 & n2 & Hb & Ho & E & Ha).
  exists (set_output b (out ++ message) n), n1, w, b, n2.
  split; [exact (send_reachable ssl id message n fd b out Hd Hb Ho)|by split].
Qed.

Lemma set_output_twice b x y (n : net C) : set_output b y (set_output b x n) = set_output b y n.
Proof.
  destruct n as [ct et wt [vi vo vs] cur]. unfold set_output, with_ev. cbn. do 2 f_equal. apply insert_insert_eq.
Qed.

Lemma set_output_id b out (n : net C) : v_output (n_ev n) !! b = Some out -> set_output b out n = n.
Proof.
  intros Ho. destruct n as [ct et wt [vi vo vs] cur]. unfold set_output, with_ev. cbn in *. do 2 f_equal.
  by apply insert_id.
Qed.

(** What has been sent to one client since [n], whatever else the tables hold:
    the law of [NetLog] for code that sends in many pieces. *)
Section since.
Variable id fd b : Z.
Variable n : net C.
Hypothesis Hd : t_descriptors (n_ct n) !! id = Some fd.
Hypothesis Hb : e_bufferEvents (n_et n) !! fd = Some b.

Definition only_output (i : Z) (n' : net C) : Prop := i = id /\ exists out, n' = set_output b out n.
Definition output (i : Z) (n' : net C) : bytes := default [] (v_output (n_ev n') !! b).

Lemma since_logged i message n' :
  only_output i n' -> exists n'',
    @net_send _ (net_NetOps ssl) i message n' = (Ret tt, n'') /\ only_output i n'' /\
    output i n'' = output i n' ++ message.
Proof.
  intros [-> [out ->]]. exists (set_output b (out ++ message) n).
  assert (Ho : forall x, v_output (n_ev (set_output b x n)) !! b = Some x) by (intros x; apply lookup_insert_eq).
  split; [|split; [split; [done|by eexists]|]].
  - rewrite (send_reachable ssl id message (set_output b out n) fd b out Hd Hb (Ho out)).
    by rewrite set_output_twice.
  - unfold output. by rewrite !Ho.
Qed.

Definition since_NetLog : @NetLog _ (net_NetOps ssl) := {|
  net_connected := only_output;
  net_sent := output;
  net_send_logged := since_logged;
|}.
End since.
End closing.

(** ** A bad request, from the line to the end of the connection *)

Section bad_request.
Context {J : Type} `{JO : JsonOps J}.
Context {C : Type} `{GC : GenericClient C}.
Context {HH : @Handlers J (net C)}.
Variable ssl : bool.
Variable sha1 : bytes -> bytes.

Let handle (line : bytes) : M (client * (http_server J * net C)) () :=
  @handleInput _ (@http_ServerOps J (net C) _ (net_NetOps ssl) sha1 HH) line.

Definition bad_request : bytes := render (make_response 400 (lit "Invalid request")).

(** A line whose method is not supported, from a client of consistent
    tables, puts the response 400 behind what is waiting for that client and
    queues the end of the connection; once the library has sent everything,
    its call removes the connection from every table, which leaves the tables
    consistent and the identifier in the pool. *)
Theorem bad_request_ends line what q' (c : client) (h : http_server J) (n : net C) fd :
  wf n -> t_descriptors (n_ct n) !! c_id c = Some fd -> c_isWebSocket c = false ->
  (forall pm, handleLine pm line (c_request c) = (Throw (UnsupportedMethod what), q')) ->
  exists w b n1 n2,
    handle line (c, (h, n)) = (Ret tt, (set_request q' c, (h, n1))) /\
    pending (c_id c) n1 = pending (c_id c) n ++ bad_request /\
    conn_writecb (Some (http_closeHandler ssl)) ssl w b (set_output b [] n1) = (Ret tt, n2) /\
    wf n2 /\ t_clients (n_ct n2) !! fd = None /\ (c_id c) ∈ t_freePool (n_ct n2).
Proof.
  intros Hwf Hd Hws Hline.
  destruct (answer_and_close ssl bad_request (c_id c) n fd) as (n0 & n1 & w & b & n2 & E1 & E2 & Hp & E3 & Ha);
    [by vm_compute|done..|].
  exists w, b, n1, n2. split; [|by split].
  unfold handle, handleInput, handle_line_input, request_handleLine, get_client. mrun.
  cbn [fst snd]. rewrite Hws, Hline. cbn [fst snd].
  unfold send400, removeSelf, Client.send, get_client, on_world. mrun. cbn [fst snd].
  cbn [server_send server_close http_ServerOps]. unfold on_net. cbn [fst snd].
  change (c_id (set_request q' c)) with (c_id c). fold bad_request. rewrite E1. cbn beta iota.
  cbn [fst snd]. change (c_id (set_request q' c)) with (c_id c). by rewrite E2.
Qed.
End bad_request.

#[local] Instance stack_handlers : @Handlers (gmap bytes bytes) (net (list bytes)) := {
  lock_handler := fun _ _ => None;
  lock_connection := fun _ _ => None;
  lock_message := fun _ _ => None;
  lock_close := fun _ _ => None;
  handler_live := fun _ => None;
}.

Lemma bad_request_ends_witness :
  exists w b n1 n2 q',
    @handleInput _ (@http_ServerOps (gmap bytes bytes) (net (list bytes)) _ (net_NetOps false) id _)
      (lit "BREW /pot HTCPCP/1.0") (new_client 0 [], (example_http, one_connection))
    = (Ret tt, (set_request q' (new_client 0 []), (example_http, n1))) /\
    pending 0 n1 = bad_request /\
    conn_writecb (Some (http_closeHandler false)) false w b (set_output b [] n1) = (Ret tt, n2) /\
    t_clients (n_ct n2) !! 7%Z = None.
Proof.
  destruct (bad_request_ends false id (lit "BREW /pot HTCPCP/1.0") (lit "BREW")
              (handleLine (fun _ => Ret None) (lit "BREW /pot HTCPCP/1.0") new_request).2
              (new_client 0 []) example_http one_connection 7 one_connection_wf)
    as (w & b & n1 & n2 & H1 & H2 & H3 & _ & H4 & _).
  - vm_compute. reflexivity.
  - reflexivity.
  - intros pm. vm_compute. reflexivity.
  - exists w, b, n1, n2, (handleLine (fun _ => Ret None) (lit "BREW /pot HTCPCP/1.0") new_request).2.
    split; [exact H1|]. split; [exact H2|]. split; [exact H3|exact H4].
Defined.
