(* ===== verification/Served.v ===== *)
(** * A request from its lines to its answer

    The client, the HTTP server, a plugin and the network server put together:
    the lines of a request go through [src/http/Client.cpp],
    [src/http/Request.cpp], [src/http/Server.cpp] and
    [src/plugins/calculator/Calculator.cpp], and the answer through
    [src/net/Server.cpp]. *)

From Stdlib Require Import ZArith Lia Ascii String.
From stdpp Require Import base tactics option list strings gmap sets.
From S2P Require Import Prelude Util Response Request PluginHost Client FS HttpServer NetServer Fileserv Plugins Stack.

(** ** The lines of a request *)

Section lines.
Context {W : Type} `{SO : ServerOps W}.

(** What the client does when the last line of a request has come. *)
Definition request_complete : M (client * W) () :=
  catch handleRequest
    (fun e => match e with UnsupportedMethod _ => Some (send400 ;; removeSelf) | _ => None end).

Lemma set_request_twice q q' c : set_request q' (set_request q c) = set_request q' c.
Proof. done. Qed.

Lemma handleInput_line line (c : client) (w : W) r q :
  c_isWebSocket c = false -> handleLine (option_postMax w) line (c_request c) = (Ret r, q) ->
  handleInput line (c, w) =
  match r with
  | Continue => (Ret tt, (set_request q c, w))
  | DisableLineMode => (Ret tt, (set_lineMode false (set_request q c), w))
  | Done => request_complete (set_request q c, w)
  end.
Proof.
  intros Hws E. unfold handleInput, get_client, handle_line_input, request_handleLine, request_complete. mrun.
  cbn [fst snd]. rewrite Hws. cbn [fst snd]. rewrite E. by destruct r.
Qed.

(** All lines but the last change the request only, and the last one hands it on. *)
Lemma handleInputs_request lines : forall (c : client) (w : W) q',
  c_isWebSocket c = false ->
  handleLines (option_postMax w) lines (c_request c) = (Ret (Done, []), q') ->
  handleInputs lines (c, w) = request_complete (set_request q' c, w).
Proof.
  induction lines as [|line rest IH]; intros c w q' Hws; cbn [handleLines handleInputs]; [done|].
  mrun. destruct (handleLine (option_postMax w) line (c_request c)) as [[r| | |] q] eqn:E; [|done..].
  rewrite (handleInput_line line c w r q Hws E). destruct r.
  - intros H. exact (IH (set_request q c) w q' Hws H).
  - done.
  - intros [= -> <-]. cbn [handleInputs]. mrun.
    by destruct (request_complete (set_request q c, w)) as [[[]| | |] s].
Qed.
End lines.

(** ** A calculation *)

Lemma calculation_path_avoids x oper a b :
  x <> "/"%char -> forallb (fun c => negb (existsb (Ascii.eqb x) (escapeURL_char c))) all_bytes = true ->
  x ∉ calculation_path oper a b.
Proof.
  intros Hx Hall. assert (Hs : x ∉ lit "/") by (intros H; by apply list_elem_of_singleton in H).
  pose proof (fun s => escapeURL_avoids x s Hall) as He.
  unfold calculation_path, join. cbn [map concat app]. rewrite !not_elem_of_app.
  split_and!; auto using not_elem_of_nil.
Qed.

(** The decimal digits and the names of operators come through the path as they
    are: the request that has been read asks for the calculation. *)
Lemma calculation_request oper a b :
  (" "%char ∉ calculation_path oper a b) /\ getPath (calculation_path oper a b) = calculation_path oper a b /\
  getParameters (calculation_path oper a b) true = Ret ∅.
Proof.
  assert (Hq : find_char "?" (calculation_path oper a b) = None)
    by (apply find_char_None; apply calculation_path_avoids; [done|vm_compute; reflexivity]).
  split; [apply calculation_path_avoids; [done|vm_compute; reflexivity]|].
  unfold getPath, getParameters. by rewrite Hq.
Qed.

Section calculation.
Context {J : Type} `{JO : JsonOps J}.
Context {C : Type} `{GC : GenericClient C}.
Context {HH : @Handlers J (net C)}.
Variable ssl : bool.
Variable sha1 : bytes -> bytes.

#[local] Instance server_net : NetOps (net C) := net_NetOps ssl.

(** C18: the lines of a GET for a calculation, read by a client of consistent
    tables whose server has the calculator for its first handler, put the exact
    result, as a response, behind what is waiting for that client and queue the
    end of the connection; once the library has sent everything, its call removes
    the connection from every table, which leaves the tables consistent and the
    identifier in the pool. *)
Theorem calculation_served eol version hs oper op a b text w rest (c : client) (h : http_server J) (n : net C) fd :
  line_end eol -> version = lit "HTTP/1.1" \/ version = lit "HTTP/1.0" ->
  Forall plain_header hs -> merged ∅ hs !! lit "content-length" = None ->
  merged ∅ hs !! lit "connection" = None ->
  CalculatorSpec.named oper = Some op -> (INT64_MIN <= a <= INT64_MAX)%Z -> (INT64_MIN <= b <= INT64_MAX)%Z ->
  CalculatorSpec.answer op a b = Some text ->
  (forall x, lock_handler w x = Some Calculator.handle) -> h_getHandlers h = w :: rest ->
  c_isWebSocket c = false -> c_request c = new_request ->
  wf n -> t_descriptors (n_ct n) !! c_id c = Some fd ->
  exists q n1 worker bufferevent n2,
    @handleInputs _ (http_ServerOps sha1) (request_lines eol GET (calculation_path oper a b) version hs)
      (c, (h, n)) = (Ret tt, (set_request q c, (h, n1))) /\
    answered ssl (render (setMIME (make_response 200 text) (lit "text/plain"))) (c_id c) fd n n1
      worker bufferevent n2.
Proof.
  intros He Hv Hhs Hcl Hconn Hop Ha Hb Hans Hlock Hh Hws Hq Hwf Hd.
  destruct (calculation_request oper a b) as (Hsp & Hpath & Hparams).
  pose proof (fun pm => request_lines_done pm eol GET (calculation_path oper a b) version ∅ hs new_request
    He ltac:(done) Hsp Hv Hparams Hhs eq_refl Hcl) as Hlines.
  set (q := set_mode MContent _) in Hlines.
  set (message := render _).
  destruct (answer_and_close ssl message (c_id c) n fd) as (n0 & n1 & wk & be & n2 & E1 & E2 & Hans2);
    [unfold message, render; cbn; done|done..|].
  exists q, n1, wk, be, n2. split; [|exact Hans2].
  rewrite (handleInputs_request _ c (h, n) q Hws) by (rewrite Hq; apply Hlines).
  unfold request_complete, handleRequest, get_client. mrun. cbn [fst snd].
  change (q_method (c_request (set_request q c))) with GET. cbv iota.
  pose proof (calculator_get (HH := HH) sha1 oper op a b w rest (set_request q c, (h, n)) Hlock Hh Hop Ha Hb Hpath) as E.
  cbn [server_handleGET http_ServerOps]. rewrite E.
  2: { unfold wants_webSocket. change (q_headers _) with (merged ∅ hs). by rewrite Hconn. }
  rewrite Hans. unfold send_to, close_client, on_net_c, server_net. mrun. cbn [fst snd].
  change (c_id (set_request q c)) with (c_id c). fold message. rewrite E1. cbn [fst snd].
  change (c_id (set_request q c)) with (c_id c). by rewrite E2.
Qed.
End calculation.

(** ** A file *)

(** The path of a file as a client writes it. *)
Definition file_target (names : list bytes) : bytes := lit "/" ++ join (map escapeURL names) (lit "/").

Lemma escaped_names_avoid x names :
  x <> "/"%char -> forallb (fun c => negb (existsb (Ascii.eqb x) (escapeURL_char c))) all_bytes = true ->
  x ∉ file_target names.
Proof.
  intros Hx Hall. assert (Hs : x ∉ lit "/") by (intros H; by apply list_elem_of_singleton in H).
  pose proof (fun s => escapeURL_avoids x s Hall) as He. unfold file_target.
  rewrite not_elem_of_app. split; [done|].
  induction names as [|n [|n2 names] IH]; [by apply not_elem_of_nil|..].
  - change (join (map escapeURL [n]) (lit "/")) with (escapeURL n ++ []). by rewrite app_nil_r.
  - change (join (map escapeURL (n :: n2 :: names)) (lit "/"))
      with (escapeURL n ++ lit "/" ++ join (map escapeURL (n2 :: names)) (lit "/")).
    rewrite !not_elem_of_app. by split_and!.
Qed.

Lemma file_request names :
  (" "%char ∉ file_target names) /\ getPath (file_target names) = file_target names /\
  getParameters (file_target names) true = Ret ∅.
Proof.
  assert (Hq : find_char "?" (file_target names) = None)
    by (apply find_char_None; apply escaped_names_avoid; [done|vm_compute; reflexivity]).
  split; [apply escaped_names_avoid; [done|vm_compute; reflexivity]|].
  unfold getPath, getParameters. by rewrite Hq.
Qed.

(** The names of a path in a request, each of which stands for itself. *)
Definition requested (names : list bytes) : Prop :=
  names <> [] /\ Forall plain_name names /\ (Z.of_nat (length (file_target names)) < W64)%Z.

Lemma length_escaped_name n names :
  n ∈ names -> length (escapeURL n) <= length (join (map escapeURL names) (lit "/")).
Proof.
  induction names as [|m [|m2 names] IH]; [by intros ?%elem_of_nil|..].
  - intros ->%list_elem_of_singleton. change (join (map escapeURL [m]) (lit "/")) with (escapeURL m ++ []).
    rewrite length_app. lia.
  - change (join (map escapeURL (m :: m2 :: names)) (lit "/"))
      with (escapeURL m ++ lit "/" ++ join (map escapeURL (m2 :: names)) (lit "/")).
    rewrite elem_of_cons, !length_app. intros [->|H]; [lia|]. apply IH in H. lia.
Qed.

Lemma requested_parts names : requested names -> getParts (file_target names) = Ret names.
Proof.
  intros (Hne & Hall & HW). apply getParts_escaped; [done|]. rewrite List.Forall_forall in *.
  intros n Hn. split; [by apply Hall|]. apply list_elem_of_In, length_escaped_name in Hn.
  unfold file_target in HW. rewrite length_app in HW. lia.
Qed.

(** A request without a body that has been handed on: any line completes it again. *)
Lemma line_after_request pm line q :
  q_mode q = MContent -> q_lengthRemaining q = 0%Z -> q_method q = GET ->
  handleLine pm line q = (Ret Done, set_mode MMethod (set_remaining 0 (set_body (q_content q ++ line) q))).
Proof. intros Hm Hr Hg. destruct q. cbn in Hm, Hr, Hg. subst. by destruct line. Qed.

Section file.
Context {J : Type} `{JO : JsonOps J}.
Context {C : Type} `{GC : GenericClient C}.
(** The handlers of the server as the plugin's code sees them: it calls none. *)
Variable HF : @Handlers J (net C).
Context {HH : @Handlers J (net C)} `{FSys : FileSystem}.
Variable ssl : bool.
Variable sha1 : bytes -> bytes.
Variable std_sort : (Z * Z -> Z * Z -> bool) -> list (Z * Z) -> outcome (list (Z * Z)).
Variable format_time : Z -> bytes.
Variable renderTemplate : bytes -> option (gmap bytes bytes) -> outcome bytes.
Variable dlopen : path -> option Z.
Variable dlsym : Z -> option Z.
Variable now : Z.
Variable mkstemps : option bytes.
Variable preprocess_module : path -> outcome bytes.
Variable write_ok : bool.
Variable run_command : list bytes -> Z * Z * bytes.
Variable what : exn -> bytes.

#[local] Instance file_net : NetOps (net C) := net_NetOps ssl.
Variable module_function : Z -> path -> M (fileserv J * (HandlerArgs * (client * @world J (net C)))) ().

(** The handler that the file server registers, run from a state of the plugin,
    which a plain file leaves as it is. *)
Definition served_by (f : fileserv J) (not_disabled : bool) : M (HandlerArgs * (client * @world J (net C))) CancelableResult :=
  fun s =>
    let x := Fileserv_handleGET (HH := HF) sha1 std_sort format_time renderTemplate (fun _ => None)
               module_function dlopen dlsym now mkstemps preprocess_module write_ok run_command
               what not_disabled (f, s) in
    (x.1, x.2.2).

(** What the answer consists of. *)
Definition file_answer (p : path) (contents : bytes) (modified : Z) : bytes :=
  full_header format_time p modified (Z.of_nat (length contents)) ++ contents.

(** A request in the client's hands: the answer is put behind what is waiting, and
    nothing else changes before the client is closed, if it is. *)
Lemma file_handled p names contents modified f w rest (c : client) (h : http_server J) (n : net C) fd b out :
  requested names -> q_path (c_request c) = file_target names -> q_method (c_request c) = GET ->
  wants_webSocket (c_request c) = false -> hostMatches f (c_request c) = true ->
  q_ranges (c_request c) = [] -> q_suffixLength (c_request c) = 0%Z ->
  locate f h (c_request c) = Ret (Some p) -> plain_file f h p contents modified -> (0 < f_chunkSize f)%Z ->
  (forall x, lock_handler w x = Some (served_by f)) -> h_getHandlers h = w :: rest ->
  t_descriptors (n_ct n) !! c_id c = Some fd -> e_bufferEvents (n_et n) !! fd = Some b ->
  v_output (n_ev n) !! b = Some out ->
  forall n2, (when (negb (q_keepAlive (c_request c))) (_ ← net_close (c_id c); mret tt) : M (net C) ())
      (set_output b (out ++ file_answer p contents modified) n) = (Ret tt, n2) ->
  @request_complete _ (http_ServerOps sha1) (c, (h, n)) = (Ret tt, (c, (h, n2))).
Proof.
  intros Hnames Hpath Hget Hws Hhost Hr Hs Hloc Hplain Hchunk Hlock Hh Hd Hb Ho n2 Hend.
  pose proof (requested_parts names Hnames) as Hparts. rewrite <- Hpath in Hparts.
  set (NL := since_NetLog ssl (c_id c) fd b n Hd Hb).
  assert (Hconn : @net_connected _ _ NL (c_id c) n).
  { split; [done|]. exists out. symmetry. by apply set_output_id. }
  destruct (handleGET_plain (HH := HF) (NL := NL) sha1 std_sort format_time renderTemplate module_function dlopen dlsym now
    mkstemps preprocess_module write_ok run_command what p contents modified f (c_request c) names c h n
    Hhost Hloc Hplain Hr Hs Hchunk Hconn) as (n' & [_ [out' ->]] & Hsent & Hrun).
  assert (out' = out ++ file_answer p contents modified) as ->.
  { change (output b (c_id c) (set_output b out' n) = output b (c_id c) n ++ file_answer p contents modified) in Hsent.
    assert (Ho' : v_output (n_ev (set_output b out' n)) !! b = Some out') by apply lookup_insert_eq.
    unfold output in Hsent. rewrite Ho, Ho' in Hsent. exact Hsent. }
  set (n1 := set_output b _ n) in *.
  assert (Hclose : client_close (HH := HF) sha1 (f, (MkHandlerArgs (c_request c) names, (c, (h, n1))))
    = (Ret tt, (f, (MkHandlerArgs (c_request c) names, (c, (h, n2)))))).
  { revert Hend. unfold client_close, on_client, Client.close, get_client, on_world. mrun. cbn [fst snd].
    destruct (negb (q_keepAlive (c_request c))); [|by intros [= <-]].
    cbn [server_close http_ServerOps]. unfold on_net. cbn [fst snd].
    by destruct (net_close (c_id c) n1) as [[]]; intros [= <-]. }
  specialize (Hrun _ Hclose).
  unfold request_complete, handleRequest, get_client. mrun. cbn [fst snd]. rewrite Hget.
  cbn [server_handleGET http_ServerOps].
  rewrite (handleGET_first sha1 w rest names CApprove (fun _ => (Ret tt, (c, (h, n2)))) (c, (h, n)) (served_by f));
    try done.
  - cbn [fst]. by rewrite Hpath.
  - etransitivity; [exact (f_equal (fun y => (y.1, y.2.2)) Hrun)|]. unfold below. by mrun.
Qed.
(** The network after an answer that closes nothing. *)
Definition answered_open (message : bytes) (id : Z) (n n1 : net C) : Prop :=
  pending id n1 = pending id n ++ message /\ wf n1 /\ n_ct n1 = n_ct n /\ n_et n1 = n_et n.

Lemma output_answered message id fd b out (n : net C) :
  wf n -> t_descriptors (n_ct n) !! id = Some fd -> e_bufferEvents (n_et n) !! fd = Some b ->
  v_output (n_ev n) !! b = Some out -> answered_open message id n (set_output b (out ++ message) n).
Proof.
  intros Hwf Hd Hb Ho. split; [|split; [|done]].
  - rewrite (pending_is id (set_output b (out ++ message) n) fd b Hd Hb), (pending_is id n fd b Hd Hb), Ho.
    assert (v_output (n_ev (set_output b (out ++ message) n)) !! b = Some (out ++ message)) as ->
      by apply lookup_insert_eq. done.
  - apply (wf_wt n); [done|done|done| |]; intros b'; cbn; [|done].
    destruct (decide (b' = b)) as [->|Hb']; [rewrite lookup_insert_eq, Ho; split; eauto|].
    by rewrite !lookup_insert_ne by done.
Qed.

(** Any request for the file with these headers, whatever it has become since. *)
Lemma served_request hs names root contents modified f w rest (c : client) (h : http_server J) (n : net C) fd
    r (m : net C) b out n2 :
  let p := Path true (root ++ names) in
  wants_webSocket (set_headers (merged ∅ hs) new_request) = false -> requested names ->
  hostMatches f (set_headers (merged ∅ hs) new_request) = true ->
  getRoot f h = Path true root -> root <> [] -> Forall plain_name root ->
  fs_canonical (path_c_str (Path true root)) = Ret (Path true root) ->
  fs_is_directory (path_c_str p) = false -> plain_file f h p contents modified -> (0 < f_chunkSize f)%Z ->
  (forall x, lock_handler w x = Some (served_by f)) -> h_getHandlers h = w :: rest ->
  t_descriptors (n_ct n) !! c_id c = Some fd -> e_bufferEvents (n_et n) !! fd = Some b ->
  q_path r = file_target names -> q_method r = GET -> q_headers r = merged ∅ hs -> q_ranges r = [] ->
  q_suffixLength r = 0%Z -> n_ct m = n_ct n -> n_et m = n_et n -> v_output (n_ev m) !! b = Some out ->
  (when (negb (q_keepAlive r)) (_ ← net_close (c_id c); mret tt) : M (net C) ())
    (set_output b (out ++ file_answer p contents modified) m) = (Ret tt, n2) ->
  @request_complete _ (http_ServerOps sha1) (set_request r c, (h, m)) = (Ret tt, (set_request r c, (h, n2))).
Proof.
  intros p Hwant Hnames Hhost Hroot Hne Hplain Hcan Hdir Hfile Hchunk Hlock Hh Hd Hb R1 R2 R3 R4 R5 M1 M2 Ho Hend.
  apply (file_handled p names contents modified f w rest (set_request r c) h m fd b out); try done.
  - revert Hwant. unfold wants_webSocket. cbn [c_request set_request]. by rewrite R3.
  - revert Hhost. unfold hostMatches. cbn [c_request set_request]. by rewrite R3.
  - destruct Hnames as (Hn1 & Hn2 & Hn3). cbn [c_request set_request].
    rewrite (locate_plain f h r root names) by (try done; rewrite R1; by apply unescape_names).
    fold p. rewrite Hdir. by rewrite app_nil_r.
  - rewrite M1. exact Hd.
  - by rewrite M2.
Qed.

(** C19: the lines of a GET for a file below the web root, its names
    percent-encoded, read by a client of consistent tables whose server has the file
    server for its first handler, put the header and exactly the contents of that
    file behind what is waiting for the client.  If a header asks for it, the end of
    the connection is queued, and once the library has sent everything the connection
    is removed from every table.  Otherwise nothing else changes, and the connection
    is kept; but the request that has been read is not put back: the next line the
    client sends, whatever it asks for, is answered with the same file once more. *)
Theorem file_served eol version hs names root contents modified f w rest (c : client) (h : http_server J)
    (n : net C) fd :
  let p := Path true (root ++ names) in
  let answer := file_answer p contents modified in
  line_end eol -> version = lit "HTTP/1.1" \/ version = lit "HTTP/1.0" ->
  Forall plain_header hs -> merged ∅ hs !! lit "content-length" = None ->
  wants_webSocket (set_headers (merged ∅ hs) new_request) = false -> requested names ->
  hostMatches f (set_headers (merged ∅ hs) new_request) = true ->
  getRoot f h = Path true root -> root <> [] -> Forall plain_name root ->
  fs_canonical (path_c_str (Path true root)) = Ret (Path true root) ->
  fs_is_directory (path_c_str p) = false -> plain_file f h p contents modified -> (0 < f_chunkSize f)%Z ->
  (forall x, lock_handler w x = Some (served_by f)) -> h_getHandlers h = w :: rest ->
  c_isWebSocket c = false -> c_request c = new_request ->
  wf n -> t_descriptors (n_ct n) !! c_id c = Some fd ->
  exists q n1,
    @handleInputs _ (http_ServerOps sha1) (request_lines eol GET (file_target names) version hs)
      (c, (h, n)) = (Ret tt, (set_request q c, (h, n1))) /\
    if keeps_alive true hs then
      answered_open answer (c_id c) n n1 /\
      forall line, exists q' n2,
        @handleInput _ (http_ServerOps sha1) line (set_request q c, (h, n1))
          = (Ret tt, (set_request q' c, (h, n2))) /\
        answered_open answer (c_id c) n1 n2
    else exists worker bufferevent n2, answered ssl answer (c_id c) fd n n1 worker bufferevent n2.
Proof.
  intros p answer He Hv Hhs Hcl Hwant Hnames Hhost Hroot Hne Hplain Hcan Hdir Hfile Hchunk Hlock Hh Hws Hq Hwf Hd.
  destruct (file_request names) as (Hsp & Hpath & Hparams).
  pose proof (fun pm => request_lines_done pm eol GET (file_target names) version ∅ hs new_request
    He ltac:(done) Hsp Hv Hparams Hhs eq_refl Hcl) as Hlines.
  set (q := set_mode MContent _) in Hlines.
  pose proof (fun r m b out n2 => served_request hs names root contents modified f w rest c h n fd r m b out n2
    Hwant Hnames Hhost Hroot Hne Hplain Hcan Hdir Hfile Hchunk Hlock Hh Hd) as Hserve.
  assert (Hrun : forall n1, @request_complete _ (http_ServerOps sha1) (set_request q c, (h, n))
      = (Ret tt, (set_request q c, (h, n1))) ->
    @handleInputs _ (http_ServerOps sha1) (request_lines eol GET (file_target names) version hs)
      (c, (h, n)) = (Ret tt, (set_request q c, (h, n1)))).
  { intros n1 <-. apply handleInputs_request; [done|]. rewrite Hq. apply Hlines. }
  destruct (keeps_alive true hs) eqn:Hk.
  - destruct (wf_reachable n (c_id c) fd Hwf Hd) as (b & out & Hb & _ & Ho).
    set (n1 := set_output b (out ++ answer) n).
    assert (Hw1 : answered_open answer (c_id c) n n1) by by eapply output_answered.
    exists q, n1. split; [|split; [exact Hw1|]].
    + apply Hrun. eapply (Hserve q n b out); try done. change (q_keepAlive q) with (keeps_alive true hs). by rewrite Hk.
    + intros line. set (q' := set_mode MMethod (set_remaining 0 (set_body line q))).
      assert (Ho1 : v_output (n_ev n1) !! b = Some (out ++ answer)) by apply lookup_insert_eq.
      exists q', (set_output b ((out ++ answer) ++ answer) n1).
      split; [|destruct Hw1 as (_ & ? & _); by eapply output_answered].
      rewrite (handleInput_line line (set_request q c) (h, n1) Done q'); [|exact Hws|by apply line_after_request].
      change (set_request q' (set_request q c)) with (set_request q' c).
      eapply (Hserve q' n1 b (out ++ answer)); try done.
      change (q_keepAlive q') with (keeps_alive true hs). by rewrite Hk.
  - destruct (close_answered ssl answer (c_id c) n fd) as (b & out & wk & n1 & n2 & Hb & Ho & E & Ha);
      [by unfold answer, file_answer, full_header|done|done|].
    exists q, n1. split; [|by exists wk, b, n2].
    apply Hrun. eapply (Hserve q n b out); try done. change (q_keepAlive q) with (keeps_alive true hs).
    rewrite Hk. cbn [negb when]. mrun. change (net_NetOps ssl) with file_net in E. fold p answer. by rewrite E.
Qed.
End file.

(** ** Witness *)

#[local] Instance calculator_handlers : @Handlers (gmap bytes bytes) (net (list bytes)) := {
  lock_handler := fun _ _ => Some (Calculator.handle (NO := net_NetOps false));
  lock_connection := fun _ _ => None;
  lock_message := fun _ _ => None;
  lock_close := fun _ _ => None;
  handler_live := fun _ => None;
}.

Definition calculator_server : http_server (gmap bytes bytes) := add_getHandler 1%Z example_http.

Lemma calculation_served_witness :
  exists q n1 worker bufferevent n2,
    @handleInputs _ (http_ServerOps (NO := net_NetOps false) id)
      [lit "GET /%2b/20/%2d62 HTTP/1.1" ++ [cr]; lit "Host: a" ++ [cr]; [cr]]
      (new_client 0 [], (calculator_server, one_connection)) =
    (Ret tt, (set_request q (new_client 0 []), (calculator_server, n1))) /\
    pending 0 n1 = render (setMIME (make_response 200 (lit "-42")) (lit "text/plain")) /\
    conn_writecb (Some (http_closeHandler false)) false worker bufferevent
      (set_output bufferevent [] n1) = (Ret tt, n2) /\
    t_clients (n_ct n2) !! 7%Z = None.
Proof.
  destruct (calculation_served false id [cr] (lit "HTTP/1.1") [(lit "Host", lit "a")] (lit "+") CalculatorSpec.Plus
              20%Z (-62)%Z (lit "-42") 1%Z [] (new_client 0 []) calculator_server one_connection 7%Z)
    as (q & n1 & wk & b & n2 & E & Hp & Hw & _ & Hc & _);
    try done; try exact one_connection_wf; try (by left); try (by right);
    try (unfold INT64_MIN, INT64_MAX; lia).
  - constructor; [|done]. split; [|done]. refine (bool_decide_unpack _ _). vm_compute. exact I.
  - exists q, n1, wk, b, n2. split; [exact E|]. split; [exact Hp|]. by split.
Defined.

#[local] Existing Instances ejson_ops example_files.

Definition no_handlers_at_all : @Handlers ejson (net (list bytes)) := {|
  lock_handler := fun _ _ => None;
  lock_connection := fun _ _ => None;
  lock_message := fun _ _ => None;
  lock_close := fun _ _ => None;
  handler_live := fun _ => None;
|}.

(** The file server of the examples, its clock and its libraries. *)
Definition example_served : bool -> M (HandlerArgs * (client * @world ejson (net (list bytes)))) CancelableResult :=
  served_by no_handlers_at_all false id (fun _ l => Ret l) (fun _ => lit "now") (fun t _ => Ret t)
    (fun _ => None) (fun _ => None) 0 None (fun _ => Throw OutOfRange) false (fun _ => (0%Z, (-1)%Z, []))
    (fun _ => []) (fun _ _ => mret tt) (example_fileserv None).

#[local] Instance file_handlers : @Handlers ejson (net (list bytes)) := {
  lock_handler := fun _ _ => Some example_served;
  lock_connection := fun _ _ => None;
  lock_message := fun _ _ => None;
  lock_close := fun _ _ => None;
  handler_live := fun _ => None;
}.

Definition file_server : http_server ejson := add_getHandler 1%Z (example_server []).

Lemma example_plain_file :
  plain_file (example_fileserv None) file_server (Path true [lit "srv"; lit "www"; lit "a.txt"]) (lit "hello") 0.
Proof.
  constructor; try (vm_compute; reflexivity); try (by vm_compute).
  - exists None. by vm_compute.
  - exists None. by vm_compute.
Qed.

Lemma file_served_witness :
  exists q n1,
    @handleInputs _ (http_ServerOps (NO := net_NetOps false) id)
      [lit "GET /a.txt HTTP/1.1" ++ [cr]; lit "Accept: */*" ++ [cr]; [cr]]
      (new_client 0 [], (file_server, one_connection)) =
    (Ret tt, (set_request q (new_client 0 []), (file_server, n1))) /\
    pending 0 n1 = file_answer (fun _ => lit "now") (Path true [lit "srv"; lit "www"; lit "a.txt"]) (lit "hello") 0 /\
    exists q' n2, @handleInput _ (http_ServerOps (NO := net_NetOps false) id) (lit "GET /b.txt HTTP/1.1" ++ [cr])
        (set_request q (new_client 0 []), (file_server, n1)) =
      (Ret tt, (set_request q' (new_client 0 []), (file_server, n2))) /\
      pending 0 n2 = pending 0 n1 ++ file_answer (fun _ => lit "now") (Path true [lit "srv"; lit "www"; lit "a.txt"]) (lit "hello") 0.
Proof.
  destruct (file_served (HH := file_handlers) no_handlers_at_all false id (fun _ l => Ret l) (fun _ => lit "now") (fun t _ => Ret t)
    (fun _ => None) (fun _ => None) 0 None (fun _ => Throw OutOfRange) false (fun _ => (0%Z, (-1)%Z, []))
    (fun _ => []) (fun _ _ => mret tt) [cr] (lit "HTTP/1.1") [(lit "Accept", lit "*/*")] [lit "a.txt"]
    [lit "srv"; lit "www"] (lit "hello") 0 (example_fileserv None) 1%Z [] (new_client 0 []) file_server
    one_connection 7%Z) as (q & n1 & E & H).
  - by right.
  - by left.
  - constructor; [|constructor]. split; [|done]. refine (bool_decide_unpack _ _). vm_compute. exact I.
  - vm_compute. reflexivity.
  - vm_compute. reflexivity.
  - split; [done|]. split; [|vm_compute; reflexivity]. refine (bool_decide_unpack _ _). vm_compute. exact I.
  - vm_compute. reflexivity.
  - reflexivity.
  - discriminate.
  - refine (bool_decide_unpack _ _). vm_compute. exact I.
  - vm_compute. reflexivity.
  - vm_compute. reflexivity.
  - exact example_plain_file.
  - reflexivity.
  - reflexivity.
  - reflexivity.
  - reflexivity.
  - reflexivity.
  - exact one_connection_wf.
  - vm_compute. reflexivity.
  - destruct H as [Ha Hnext]. exists q, n1. split; [exact E|]. split; [exact (proj1 Ha)|].
    destruct (Hnext (lit "GET /b.txt HTTP/1.1" ++ [cr])) as (q' & n2 & E2 & Ha2).
    exists q', n2. split; [exact E2|exact (proj1 Ha2)].
Defined.
