(* ===== verification/Echoed.v ===== *)
(** * A WebSocket from its request to its frames

    The client, the HTTP server, the echo plugin and the network server put
    together: the request for a WebSocket goes through [src/http/Request.cpp] and
    [src/http/Server.cpp] to [src/plugins/wsecho/WSEcho.cpp], which registers a
    handler; each frame of the client, in whatever pieces it arrives, then comes
    back as a frame through [src/http/Client.cpp] and [src/net/Server.cpp]. *)

From Stdlib Require Import ZArith Lia Ascii String.
From stdpp Require Import base tactics option list strings gmap sets.
From S2P Require Import Prelude Util Base64 Response Request PluginHost Client FS HttpServer NetServer Fileserv Plugins Stack Served.

Section echo.
Context {J : Type} `{JO : JsonOps J}.
Context {C : Type} `{GC : GenericClient C}.
(** The handlers of the server as the plugin's code sees them: it calls none. *)
Variable HF : @Handlers J (net C).
Context {HH : @Handlers J (net C)}.
Variable ssl : bool.
Variable sha1 : bytes -> bytes.

#[local] Instance echo_net : NetOps (net C) := net_NetOps ssl.

(** The plugin's handlers: that of connections, run from a state of the plugin,
    and that of messages, behind every pointer that is alive. *)
Definition connect_by (p : WSEcho.wsecho) (not_disabled : bool)
    : M (WebSocketConnectionArgs * (client * @world J (net C))) CancelableResult :=
  fun s => let x := WSEcho.handleConnect (N := net C) not_disabled (p, s) in (x.1, x.2.2).

Variable live : weak -> bool.
Hypothesis Hmessage : forall w x, lock_message w x =
  if live w then Some (WSEcho.handleMessage (HH := HF) sha1) else None.

Abbreviation echo := (fun message => @sendWebSocket _ (http_ServerOps (HH := HF) sha1) message false 255).

Lemma echo_beforeMulti message handlers (s : client * @world J (net C)) :
  beforeMulti (message_lock message) handlers true s =
  if existsb live handlers then (echo message ;; mret (true, HKill)) s else (Ret (true, HPass), s).
Proof.
  induction handlers as [|w handlers IH]; [done|]. cbn [beforeMulti existsb]. mrun.
  unfold message_lock at 1. rewrite Hmessage. destruct (live w); [|exact IH].
  cbn [fmap option_fmap option_map orb]. unfold WSEcho.handleMessage. mrun.
  cbn [negb]. unfold world in *. destruct (@sendWebSocket _ _ message false 255 s) as [[[]|e| |] s']; done.
Qed.

Lemma echo_message message (c : client) (h : http_server J) (n : net C) :
  handleWebSocketMessage message (c, (h, n)) =
  match h_webSocketMessageHandlers h !! c_id c with
  | Some handlers => if existsb live handlers then echo message (c, (h, n)) else (Ret tt, (c, (h, n)))
  | None => (Ret tt, (c, (h, n)))
  end.
Proof.
  unfold handleWebSocketMessage. mrun. cbn [fst snd].
  destruct (h_webSocketMessageHandlers h !! c_id c) as [handlers|]; [|done].
  pose proof (echo_beforeMulti message handlers (c, (h, n))) as E. unfold world in *. rewrite E.
  destruct (existsb live handlers); [|done]. mrun.
  by destruct (@sendWebSocket _ _ message false 255 (c, (h, n))) as [[[]|e| |] s'].
Qed.

(** The handler of messages does not see the client's framing fields. *)
Lemma echo_message_oblivious : message_oblivious.
Proof.
  intros w [c [h n]] f a k m o r pk l. cbn [fst snd]. rewrite !Hmessage. split; [done|].
  destruct (live w); [|done]. intros [= <-] message b. unfold WSEcho.handleMessage. destruct b; [|done]. cbn [negb].
  unfold sendWebSocket, Client.send, get_client, on_world. cbn [server_send http_ServerOps]. unfold on_net. mrun.
  cbn [fst snd c_id set_frame].
  destruct (net_send _ _ n) as [[[]|e| |] n1]; try done. cbn [fst snd c_id set_frame].
  by destruct (net_send _ _ n1) as [[[]|e| |] n2].
Qed.

#[local] Instance echo_frame_oblivious : @FrameOblivious (@world J (net C)) (http_ServerOps (HH := HH) sha1) :=
  http_oblivious sha1 echo_message_oblivious.

(** A client between two frames. *)
Definition idle (c : client) : Prop :=
  c_awaitingWebSocketHeader c = true /\ c_leftoverMessage c = [] /\ c_packet c = [] /\ c_isWebSocket c = true.

(** A masked text frame: its mask, its payload and the pieces it arrives in. *)
Record arriving := Arriving { f_mask : Z; f_payload : bytes; f_pieces : list bytes }.
Definition arrives (f : arriving) : Prop :=
  (0 <= f_mask f < 2 ^ 32)%Z /\ (Z.of_nat (length (f_payload f)) <= 2 ^ 24)%Z /\
  concat (f_pieces f) = client_frame 1 (f_mask f) (f_payload f) /\ Forall (fun d => d <> []) (f_pieces f).

(** What a reader of RFC 6455 reads: one final text frame with the payload. *)
Definition frame_of (payload reply : bytes) : Prop :=
  forall rest, parse_frame (reply ++ rest) = Some (true, 1%Z, payload, rest).

(** What the plugin sends to a client whose output is [out] so far. *)
Lemma echo_output message (c : client) (h : http_server J) (n : net C) fd b out :
  t_descriptors (n_ct n) !! c_id c = Some fd -> e_bufferEvents (n_et n) !! fd = Some b ->
  echo message (c, (h, set_output b out n)) =
    (Ret tt, (c, (h, set_output b (out ++ webSocket_header (Z.of_nat (length message)) 1 ++ message) n))).
Proof.
  intros Hd Hb. set (header := webSocket_header _ _).
  assert (Hsend : forall m x, net_send (c_id c) m (set_output b x n) = (Ret tt, set_output b (x ++ m) n)).
  { intros m x. assert (Hx : v_output (n_ev (set_output b x n)) !! b = Some x) by apply lookup_insert_eq.
    pose proof (send_reachable ssl (c_id c) m (set_output b x n) fd b x Hd Hb Hx) as E.
    by rewrite set_output_twice in E. }
  unfold sendWebSocket, Client.send, get_client, on_world. cbn [server_send http_ServerOps]. unfold on_net. mrun.
  cbn [fst snd]. change (webSocket_header _ _) with header. rewrite Hsend. cbn [fst snd]. rewrite Hsend.
  cbn [fst snd]. by rewrite <- app_assoc.
Qed.

Lemma handleInputs_app {W : Type} `{SO : ServerOps W} xs ys (s : client * W) :
  handleInputs (xs ++ ys) s =
  match handleInputs xs s with
  | (Ret _, s') => handleInputs ys s'
  | (Throw e, s') => (Throw e, s')
  | (Undef, s') => (Undef, s')
  | (Diverge, s') => (Diverge, s')
  end.
Proof.
  revert s. induction xs as [|x xs IH]; intros s; [done|]. cbn [app handleInputs]. mrun.
  by destruct (handleInput x s) as [[[]|e| |] s'].

Qed.

(** One frame comes back. *)
Lemma frame_echoed f handlers (c : client) (h : http_server J) (n : net C) fd b out :
  arrives f -> idle c -> c_maxWebSocketPacketLength c = (2 ^ 24)%Z ->
  h_webSocketMessageHandlers h !! c_id c = Some handlers -> existsb live handlers = true ->
  t_descriptors (n_ct n) !! c_id c = Some fd -> e_bufferEvents (n_et n) !! fd = Some b ->
  exists c' reply,
    @handleInputs _ (http_ServerOps (HH := HH) sha1) (f_pieces f) (c, (h, set_output b out n))
      = (Ret tt, (c', (h, set_output b (out ++ reply) n))) /\
    frame_of (f_payload f) reply /\ idle c' /\ c_id c' = c_id c /\
    c_maxWebSocketPacketLength c' = c_maxWebSocketPacketLength c.
Proof.
  intros (Hmask & Hlen & Hcat & Hall) (I1 & I2 & I3 & I4) Hmax Hreg Hlive Hd Hb.
  assert (HW : (Z.of_nat (length (f_payload f)) < W64)%Z) by (unfold W64; lia).
  pose proof (echo_output (f_payload f) c h n fd b out Hd Hb) as E. set (reply := webSocket_header _ _ ++ _) in E.
  exists (set_frame true true (f_mask f) (Z.of_nat (length (f_payload f)) mod 4) 0 [] [] c), reply.
  split; [|split; [|by repeat split]].
  - apply (frame_received (SO := http_ServerOps (HH := HH) sha1) 1 (f_mask f) (f_payload f) [] c _ (f_pieces f) c);
      try done.
    + by rewrite Hmax.
    + cbn [server_handleWebSocketMessage http_ServerOps]. rewrite echo_message, Hreg, Hlive. exact E.
  - intros rest. unfold reply. rewrite <- app_assoc. by apply parse_frame_header.
Qed.

(** Frame after frame. *)
Lemma frames_echoed handlers (h : http_server J) (n : net C) fd b frames : forall (c : client) out,
  Forall arrives frames -> idle c -> c_maxWebSocketPacketLength c = (2 ^ 24)%Z ->
  h_webSocketMessageHandlers h !! c_id c = Some handlers -> existsb live handlers = true ->
  t_descriptors (n_ct n) !! c_id c = Some fd -> e_bufferEvents (n_et n) !! fd = Some b ->
  exists c' replies,
    @handleInputs _ (http_ServerOps (HH := HH) sha1) (concat (map f_pieces frames)) (c, (h, set_output b out n))
      = (Ret tt, (c', (h, set_output b (out ++ concat replies) n))) /\
    Forall2 (fun f reply => frame_of (f_payload f) reply) frames replies.
Proof.
  induction frames as [|f frames IH]; intros c out Hall Hidle Hmax Hreg Hlive Hd Hb.
  - exists c, []. split; [|done]. cbn. by rewrite app_nil_r.
  - apply Forall_cons_1 in Hall as [Hf Hall].
    destruct (frame_echoed f handlers c h n fd b out Hf Hidle Hmax Hreg Hlive Hd Hb)
      as (c1 & reply & E1 & Hr & Hidle1 & Hid1 & Hmax1).
    destruct (IH c1 (out ++ reply)) as (c2 & replies & E2 & Hrs); [done|done|congruence|by rewrite Hid1|done|by rewrite Hid1|done|].
    exists c2, (reply :: replies). split; [|by constructor].
    cbn [map concat]. rewrite handleInputs_app, E1. cbn [concat]. by rewrite app_assoc.
Qed.

(** ** The request for the WebSocket *)

(** The answer of the echo plugin's server to a key. *)
Definition switched (key : bytes) : response :=
  set_at (set_at (set_at (set_at (make_response 101 []) (lit "upgrade") (lit "websocket"))
    (lit "connection") (lit "Upgrade")) (lit "sec-websocket-accept") (rfc_encode (sha1 (key ++ webSocket_guid))))
    (lit "sec-websocket-protocol") (lit "echo").

(** A request for a WebSocket with the protocol of the plugin. *)
Record asks_for_echo (headers : gmap bytes bytes) (key : bytes) : Prop := {
  asks_upgrade : wants_webSocket (set_headers headers new_request) = true;
  asks_key : headers !! lit "sec-websocket-key" = Some key;
  asks_length : length key = 24;
  asks_version : is_Some (headers !! lit "sec-websocket-version");
  asks_protocol : exists protocols offered, headers !! lit "sec-websocket-protocol" = Some protocols /\
    split protocols (lit " ") true = Ret offered /\ lit "echo" ∈ offered;
}.

(** The plugin takes the connection if its protocol is offered. *)
Lemma connect_echo p args (c : client) (h : http_server J) (n : net C) :
  lit "echo" ∈ wa_protocols args ->
  connect_by p true (args, (c, (h, n))) =
    (Ret CApprove, (MkConnectionArgs (wa_args args) (wa_protocols args) (lit "echo"),
       (c, (registerWebSocketMessageHandler (c_id c) (WSEcho.ws_next p) h, n)))).
Proof. intros H. unfold connect_by, WSEcho.handleConnect. mrun. cbn [negb fst snd]. by rewrite bool_decide_true. Qed.

Lemma upgrade_handled p names key wc rest (c : client) (h : http_server J) (n : net C) fd b out :
  requested names -> q_path (c_request c) = file_target names -> q_method (c_request c) = GET ->
  asks_for_echo (q_headers (c_request c)) key ->
  (forall x, lock_connection wc x = Some (connect_by p)) -> h_webSocketConnectionHandlers h = wc :: rest ->
  t_descriptors (n_ct n) !! c_id c = Some fd -> e_bufferEvents (n_et n) !! fd = Some b ->
  v_output (n_ev n) !! b = Some out ->
  @request_complete _ (http_ServerOps (HH := HH) sha1) (c, (h, n)) =
    (Ret tt, (set_webSocket names c,
       (registerWebSocketMessageHandler (c_id c) (WSEcho.ws_next p) h, set_output b (out ++ render (switched key)) n))).
Proof.
  intros Hnames Hpath Hget [Hup Hkey Hlen [version Hver] (protocols & offered & Hpr & Hsplit & Hecho)] Hlock Hh Hd Hb Ho.
  pose proof (requested_parts names Hnames) as Hparts. rewrite <- Hpath in Hparts.
  unfold request_complete, handleRequest, get_client. mrun. cbn [fst snd]. rewrite Hget.
  cbn [server_handleGET http_ServerOps]. unfold handleGET, world in *. mrun. cbn [fst snd].
  assert (validatePath (q_path (c_request c)) = true) as -> by by rewrite Hpath.
  assert (wants_webSocket (c_request c) = true) as -> by (revert Hup; unfold wants_webSocket; done). cbn [negb].
  unfold upgrade_webSocket. rewrite Hkey, Hver, Hlen. change (24 =? 24) with true. cbn [negb]. rewrite Hpr.
  unfold world in *. mrun. rewrite Hsplit, Hparts. cbn [fst snd]. rewrite Hh. unfold with_args. cbn [beforeMulti]. mrun.
  rewrite Hlock. pose proof (fun args c n => connect_echo p args c h n) as E. unfold world in E.
  rewrite E by done. cbn [fst snd].
  rewrite (bool_decide_true (CApprove = CApprove)), orb_true_r by done. cbn [fst snd wa_acceptedProtocol].
  rewrite (bool_decide_false (HKill = HPass)) by done.
  unfold switching_protocols. rewrite base64Encode_spec. mrun. unfold send_to, on_net_c. mrun. cbn [fst snd].
  change (c_id (set_webSocket names c)) with (c_id c).
  pose proof (send_reachable ssl (c_id c) (render (switched key)) n fd b out Hd Hb Ho) as Es.
  change (net_NetOps ssl) with echo_net in Es. unfold switched in Es |- *.
  rewrite (bool_decide_false (lit "echo" = [])) by done. cbn [fst snd].
  by rewrite Es.
Qed.

(** C20: the lines of a request for a WebSocket with the plugin's protocol, read by a
    client of consistent tables whose server has the echo plugin for its first
    handler of connections, put the response that switches protocols (the key of the
    request hashed and encoded) behind what is waiting for that client; and then
    every masked text frame of at most 2^24 bytes, in whatever pieces it arrives,
    puts one frame with the same payload behind that, one after another and
    nothing else, as long as the handler that the plugin registered is alive. *)
Theorem echo_served eol version hs names key p wc rest id ip (h : http_server J) (n : net C) fd :
  line_end eol -> version = lit "HTTP/1.1" \/ version = lit "HTTP/1.0" ->
  Forall plain_header hs -> merged ∅ hs !! lit "content-length" = None ->
  asks_for_echo (merged ∅ hs) key -> requested names ->
  (forall x, lock_connection wc x = Some (connect_by p)) -> h_webSocketConnectionHandlers h = wc :: rest ->
  h_webSocketMessageHandlers h !! id = None -> live (WSEcho.ws_next p) = true ->
  wf n -> t_descriptors (n_ct n) !! id = Some fd ->
  exists c1 h1 n1,
    @handleInputs _ (http_ServerOps (HH := HH) sha1) (request_lines eol GET (file_target names) version hs)
      (new_client id ip, (h, n)) = (Ret tt, (c1, (h1, n1))) /\
    answered_open (render (switched key)) id n n1 /\
    forall frames, Forall arrives frames -> exists c2 n2 replies,
      @handleInputs _ (http_ServerOps (HH := HH) sha1) (concat (map f_pieces frames)) (c1, (h1, n1))
        = (Ret tt, (c2, (h1, n2))) /\
      Forall2 (fun f reply => frame_of (f_payload f) reply) frames replies /\
      answered_open (concat replies) id n1 n2.
Proof.
  intros He Hv Hhs Hcl Hasks Hnames Hlock Hh Hnone Hlive Hwf Hd.
  destruct (file_request names) as (Hsp & Hpath & Hparams).
  pose proof (fun pm => request_lines_done pm eol GET (file_target names) version ∅ hs new_request
    He ltac:(done) Hsp Hv Hparams Hhs eq_refl Hcl) as Hlines.
  set (q := set_mode MContent _) in Hlines.
  destruct (wf_reachable n id fd Hwf Hd) as (b & out & Hb & _ & Ho).
  set (c1 := set_webSocket names (set_request q (new_client id ip))).
  set (h1 := registerWebSocketMessageHandler id (WSEcho.ws_next p) h).
  set (n1 := set_output b (out ++ render (switched key)) n).
  assert (Ha : answered_open (render (switched key)) id n n1) by by eapply output_answered.
  exists c1, h1, n1. split; [|split; [exact Ha|]].
  - rewrite (handleInputs_request _ (new_client id ip) (h, n) q) by (done || apply Hlines).
    by apply (upgrade_handled p names key wc rest (set_request q (new_client id ip)) h n fd b out).
  - intros frames Hframes. destruct Ha as (_ & Hwf1 & _).
    assert (Hreg : h_webSocketMessageHandlers h1 !! id = Some [WSEcho.ws_next p])
      by (cbn; by rewrite lookup_insert_eq, Hnone).
    destruct (frames_echoed [WSEcho.ws_next p] h1 n fd b frames c1 (out ++ render (switched key)))
      as (c2 & replies & E & Hr); try done.
    { cbn [existsb]. by rewrite Hlive. }
    exists c2, (set_output b ((out ++ render (switched key)) ++ concat replies) n1), replies.
    split; [|split; [done|]].
    + unfold n1. rewrite set_output_twice. exact E.
    + apply (output_answered _ id fd b); try done. apply lookup_insert_eq.
Qed.
End echo.

(** ** Witness *)

#[local] Existing Instance ejson_ops.

#[local] Instance echo_handlers : @Handlers ejson (net (list bytes)) := {
  lock_handler := fun _ _ => None;
  lock_connection := fun _ _ => Some (connect_by (WSEcho.MkWSEcho [1%Z] 2%Z));
  lock_message := fun w _ =>
    if bool_decide (w = 2%Z) then Some (WSEcho.handleMessage (HH := no_handlers_at_all) (NO := net_NetOps false) id) else None;
  lock_close := fun _ _ => None;
  handler_live := fun _ => None;
}.

Definition echo_server : http_server ejson := set_connectionHandlers [1%Z] file_server.

Definition echo_headers : list (bytes * bytes) :=
  [(lit "Connection", lit "Upgrade"); (lit "Upgrade", lit "websocket");
   (lit "Sec-WebSocket-Key", lit "dGhlIHNhbXBsZSBub25jZQ=="); (lit "Sec-WebSocket-Version", lit "13");
   (lit "Sec-WebSocket-Protocol", lit "echo")].

Lemma echo_served_witness :
  exists c1 h1 n1,
    @handleInputs _ (http_ServerOps (HH := echo_handlers) (NO := net_NetOps false) id)
      (request_lines [cr] GET (lit "/ws") (lit "HTTP/1.1") echo_headers)
      (new_client 0 [], (echo_server, one_connection)) = (Ret tt, (c1, (h1, n1))) /\
    exists c2 n2 reply,
      @handleInputs _ (http_ServerOps (HH := echo_handlers) (NO := net_NetOps false) id)
        [map chr [129; 133; 55]; map chr [250; 33; 61; 127; 159]; map chr [77; 81; 88]]%Z (c1, (h1, n1))
        = (Ret tt, (c2, (h1, n2))) /\
      frame_of (lit "Hello") reply /\ pending 0 n2 = pending 0 n1 ++ reply.
Proof.
  destruct (echo_served (HH := echo_handlers) no_handlers_at_all false id (fun w => bool_decide (w = 2%Z))
    (fun _ _ => eq_refl)
    [cr] (lit "HTTP/1.1") echo_headers [lit "ws"] (lit "dGhlIHNhbXBsZSBub25jZQ==")
    (WSEcho.MkWSEcho [1%Z] 2%Z) 1%Z [] 0%Z [] echo_server one_connection 7%Z) as (c1 & h1 & n1 & E & _ & Hnext).
  - by right.
  - by left.
  - refine (bool_decide_unpack _ _). vm_compute. exact I.
  - vm_compute. reflexivity.
  - constructor; try (vm_compute; reflexivity); [by eexists|].
    exists (lit "echo"), [lit "echo"]. split; [vm_compute; reflexivity|].
    split; [vm_compute; reflexivity|apply list_elem_of_singleton; reflexivity].
  - split; [done|]. split; [|vm_compute; reflexivity]. refine (bool_decide_unpack _ _). vm_compute. exact I.
  - reflexivity.
  - reflexivity.
  - vm_compute. reflexivity.
  - reflexivity.
  - exact one_connection_wf.
  - vm_compute. reflexivity.
  - exists c1, h1, n1. split; [exact E|]. clear E.
    destruct (Hnext [Arriving 939139389 (lit "Hello")
      [map chr [129; 133; 55]; map chr [250; 33; 61; 127; 159]; map chr [77; 81; 88]]%Z]) as (c2 & n2 & replies & E2 & Hr & Hp & _).
    + constructor; [|constructor]. split; [by split|]. split; [by vm_compute|]. split; [vm_compute; reflexivity|].
      by repeat constructor.
    + apply Forall2_cons_inv_l in Hr as (reply & tail & Hr & Ht & ->). apply Forall2_nil_inv_l in Ht as ->.
      cbn [concat] in Hp. rewrite app_nil_r in Hp.
      exists c2, n2, reply. split; [exact E2|]. split; [exact Hr|exact Hp].
Defined.
