(* ===== verification/Challenged.v ===== *)
(** * A challenge from the authority to its answer

    The client, the HTTP server, the certificates plugin and the network server put
    together: what the plugin has been asked to prove goes into its table
    ([issueCertificate] in [src/plugins/letsencrypt/LetsEncrypt.cpp]), and the lines
    of the authority's request go through [src/http/Request.cpp] and
    [src/http/Server.cpp] to the plugin's handler and the answer through
    [src/net/Server.cpp]. *)

From Stdlib Require Import ZArith Lia Ascii String.
From stdpp Require Import base tactics option list strings gmap sets.
From S2P Require Import Prelude Util Response Request PluginHost Client FS HttpServer NetServer LetsEncrypt Plugins Stack Served.

(** The characters of a token that the path and its parts keep as they are, as
    those of base64url are. *)
Definition plain_token (token : bytes) : Prop :=
  token <> [] /\ Forall (fun x => x ∉ token) [" "; "?"; "/"; "%"; "+"]%char.

Lemma token_request token : plain_token token ->
  let path := challenge_prefix ++ token in
  (" "%char ∉ path) /\ getPath path = path /\ getParameters path true = Ret ∅ /\
  getParts path = Ret [lit ".well-known"; lit "acme-challenge"; token].
Proof.
  intros [Hne Hall] path. rewrite !Forall_cons in Hall. destruct Hall as (H1 & H2 & H3 & H4 & H5 & _).
  assert (Hpre : forall x, bool_decide (x ∈ challenge_prefix) = false -> x ∉ token -> x ∉ path).
  { intros x Hx Ht. apply bool_decide_eq_false in Hx. unfold path. rewrite not_elem_of_app. by split. }
  assert (Hq : find_char "?" path = None) by (apply find_char_None, Hpre; [by vm_compute|done]).
  split; [by apply Hpre; [vm_compute|]|]. unfold getPath, getParameters. rewrite Hq. split; [done|]. split; [done|].
  assert (path = "/"%char :: join [lit ".well-known"; lit "acme-challenge"; token] (lit "/")) as ->.
  { unfold path. change (join [lit ".well-known"; lit "acme-challenge"; token] (lit "/"))
      with (lit ".well-known/acme-challenge/" ++ token ++ []). by rewrite app_nil_r. }
  cbn [getParts]. change (lit "/") with ["/"%char]. rewrite split_join_char; [|done|].
  - mrun. cbn [unescape_all]. mrun.
    rewrite !unescape_plain by (done || (refine (bool_decide_unpack (_ ∉ _) _); vm_compute; exact I)). done.
  - repeat apply Forall_cons_2; [..|done]; (split; [done|]); try done; refine (bool_decide_unpack (_ ∉ _) _); vm_compute; exact I.
Qed.

Section challenge.
Context {J : Type} `{JO : JsonOps J}.
Context {C : Type} `{GC : GenericClient C}.
(** The handlers of the server as the plugin's code sees them: it calls none. *)
Variable HF : @Handlers J (net C).
Context {HH : @Handlers J (net C)} {HT : HashTable}.
Variable ssl : bool.
Variable sha1 : bytes -> bytes.

#[local] Instance challenge_net : NetOps (net C) := net_NetOps ssl.

Abbreviation ok authorization := (render (make_response 200 authorization)).
Abbreviation not_found := (render (make_response 404 (lit "Not Found"))).

(** A request in the client's hands that the handler answers: [n2] is what the
    network has become. *)
Lemma challenge_handled t token w rest (c : client) (h : http_server J) (n : net C) fd b out n2 :
  plain_token token -> q_path (c_request c) = challenge_prefix ++ token -> q_method (c_request c) = GET ->
  wants_webSocket (c_request c) = false ->
  (forall x, lock_handler w x = Some (LetsEncrypt.handle (HH := HF) sha1 t true)) -> h_getHandlers h = w :: rest ->
  t_descriptors (n_ct n) !! c_id c = Some fd -> e_bufferEvents (n_et n) !! fd = Some b ->
  v_output (n_ev n) !! b = Some out ->
  match challenges t !! (challenge_prefix ++ token) with
  | Some authorization => n2 = set_output b (out ++ ok authorization) n
  | None => (when (negb (q_keepAlive (c_request c))) (_ ← net_close (c_id c); mret tt) : M (net C) ())
              (set_output b (out ++ not_found) n) = (Ret tt, n2)
  end ->
  @request_complete _ (http_ServerOps sha1) (c, (h, n)) = (Ret tt, (c, (h, n2))).
Proof.
  intros Htok Hpath Hget Hws Hlock Hh Hd Hb Ho Hend.
  destruct (token_request token Htok) as (_ & _ & _ & Hparts). rewrite <- Hpath in Hparts.
  unfold request_complete, handleRequest, get_client. mrun. cbn [fst snd]. rewrite Hget. cbn [server_handleGET http_ServerOps].
  set (parts := [_; _; _]) in Hparts.
  rewrite (handleGET_first sha1 w rest parts (match challenges t !! (challenge_prefix ++ token) with Some _ => CApprove | None => CKill end)
             (fun _ => (Ret tt, (c, (h, n2)))) (c, (h, n)) (LetsEncrypt.handle (HH := HF) sha1 t true)); try done.
  - cbn [fst]. by rewrite Hpath.
  - cbn [fst]. unfold LetsEncrypt.handle, handler_args, catch, reply, below, send_to, on_net_c. mrun.
    cbn [negb orb fst snd a_request]. rewrite Hpath.
    change (is_prefix challenge_prefix (challenge_prefix ++ token)) with true. cbv iota.
    pose proof (fun message => send_reachable ssl (c_id c) message n fd b out Hd Hb Ho) as Hsend.
    destruct (challenges t !! (challenge_prefix ++ token)) as [authorization|].
    + rewrite Hend. cbn [fst snd]. by rewrite Hsend.
    + cbn [fst snd]. rewrite Hsend. cbn [fst snd]. revert Hend.
      unfold client_close, below, Client.close, get_client, on_world. mrun. cbn [fst snd].
      destruct (negb (q_keepAlive (c_request c))); [|by intros [= <-]].
      cbn [server_close http_ServerOps]. unfold on_net. cbn [fst snd].
      by destruct (net_close (c_id c) _) as [[]]; intros [= <-].
  - by destruct (challenges t !! _).
Qed.

(** C27: after up to 128 challenges with different paths (the next one is undefined,
    [oldest_challenge_undefined]), the lines of the authority's request for one of
    them put its text, as a response, behind
    what is waiting for that client, and the connection is kept, even where a header
    asks for its end; a request for any other path of the authority's directory gets a
    404, and then the connection is kept or removed as the headers ask for. *)
Theorem challenge_answered eol version hs token l t w rest (c : client) (h : http_server J) (n : net C) fd :
  let path := challenge_prefix ++ token in
  line_end eol -> version = lit "HTTP/1.1" \/ version = lit "HTTP/1.0" ->
  Forall plain_header hs -> merged ∅ hs !! lit "content-length" = None ->
  wants_webSocket (set_headers (merged ∅ hs) new_request) = false -> plain_token token ->
  Forall has_path l -> NoDup (l.*2).*1 -> length l <= MAX_CHALLENGES ->
  for_each l ask no_challenges = (Ret tt, t) ->
  (forall x, lock_handler w x = Some (LetsEncrypt.handle (HH := HF) sha1 t true)) -> h_getHandlers h = w :: rest ->
  c_isWebSocket c = false -> c_request c = new_request ->
  wf n -> t_descriptors (n_ct n) !! c_id c = Some fd ->
  exists q n1,
    @handleInputs _ (http_ServerOps sha1) (request_lines eol GET path version hs)
      (c, (h, n)) = (Ret tt, (set_request q c, (h, n1))) /\
    (forall authorization, (path, authorization) ∈ l.*2 -> answered_open (ok authorization) (c_id c) n n1) /\
    (path ∉ (l.*2).*1 ->
       if keeps_alive true hs then answered_open not_found (c_id c) n n1
       else exists worker bufferevent n2, answered ssl not_found (c_id c) fd n n1 worker bufferevent n2).
Proof.
  intros path He Hv Hhs Hcl Hwant Htok Hall Hnd Hlen Hasked Hlock Hh Hws Hq Hwf Hd.
  destruct (token_request token Htok) as (Hsp & Hpath & Hparams & _). fold path in Hsp, Hpath, Hparams.
  destruct (ask_all l no_challenges) as (t' & Ht' & Ht); [done|done|done|done|].
  rewrite Hasked in Ht'. injection Ht' as <-.
  pose proof (fun pm => request_lines_done pm eol GET path version ∅ hs new_request
    He ltac:(done) Hsp Hv Hparams Hhs eq_refl Hcl) as Hlines.
  set (q := set_mode MContent _) in Hlines.
  destruct (wf_reachable n (c_id c) fd Hwf Hd) as (b & out & Hb & _ & Ho).
  assert (Hrun : forall n1,
    match challenges t !! path with
    | Some authorization => n1 = set_output b (out ++ ok authorization) n
    | None => (when (negb (keeps_alive true hs)) (_ ← net_close (c_id c); mret tt) : M (net C) ())
                (set_output b (out ++ not_found) n) = (Ret tt, n1)
    end ->
    @handleInputs _ (http_ServerOps sha1) (request_lines eol GET path version hs) (c, (h, n))
    = (Ret tt, (set_request q c, (h, n1)))).
  { intros n1 H. rewrite (handleInputs_request _ c (h, n) q Hws) by (rewrite Hq; apply Hlines).
    by apply (challenge_handled t token w rest (set_request q c) h n fd b out). }
  destruct (challenges t !! path) as [authorization|] eqn:E.
  - exists q, (set_output b (out ++ ok authorization) n).
    split; [by apply Hrun|]. split.
    + intros a Ha. assert (Some a = Some authorization) as [= ->]; [|by eapply output_answered].
      rewrite <- E. symmetry. apply Ht. by left.
    + intros []. apply Ht in E as [E|[=]]. apply list_elem_of_fmap. by exists (path, authorization).
  - assert (Hnone : forall a, (path, a) ∉ l.*2).
    { intros a Ha. assert (challenges t !! path = Some a) by (apply Ht; by left). congruence. }
    destruct (keeps_alive true hs) eqn:Hk.
    + exists q, (set_output b (out ++ not_found) n). split; [by apply Hrun|]. split; [|intros _; by eapply output_answered].
      intros a Ha. by destruct (Hnone a).
    + destruct (close_answered ssl not_found (c_id c) n fd) as (b' & out' & wk & n1 & n2 & Hb' & Ho' & Ec & Ha); [done..|].
      assert (b' = b) as -> by congruence. assert (out' = out) as -> by congruence.
      exists q, n1. split; [apply Hrun; cbn [negb when]; mrun; change (net_NetOps ssl) with challenge_net in Ec; by rewrite Ec|].
      split; [|intros _; by exists wk, b, n2]. intros a Hin. by destruct (Hnone a).
Qed.
End challenge.

(** ** Witness *)

Definition no_plugin_handlers : @Handlers (gmap bytes bytes) (net (list bytes)) := {|
  lock_handler := fun _ _ => None;
  lock_connection := fun _ _ => None;
  lock_message := fun _ _ => None;
  lock_close := fun _ _ => None;
  handler_live := fun _ => None;
|}.

Definition asked_of : list (bytes * (bytes * bytes)) :=
  [(lit "a.org", (challenge_prefix ++ lit "tok-1_x", lit "tok-1_x.key"))].
#[local] Existing Instance doubling.
Definition asked_table : challenge_table := (for_each asked_of ask no_challenges).2.

#[local] Instance challenge_handlers : @Handlers (gmap bytes bytes) (net (list bytes)) := {
  lock_handler := fun _ _ => Some (LetsEncrypt.handle (NO := net_NetOps false) (HH := no_plugin_handlers) id asked_table true);
  lock_connection := fun _ _ => None;
  lock_message := fun _ _ => None;
  lock_close := fun _ _ => None;
  handler_live := fun _ => None;
}.

Lemma challenge_answered_witness :
  exists q n1,
    @handleInputs _ (http_ServerOps (NO := net_NetOps false) id)
      [lit "GET /.well-known/acme-challenge/tok-1_x HTTP/1.1" ++ [cr]; lit "Connection: close" ++ [cr]; [cr]]
      (new_client 0 [], (calculator_server, one_connection)) =
    (Ret tt, (set_request q (new_client 0 []), (calculator_server, n1))) /\
    pending 0 n1 = render (make_response 200 (lit "tok-1_x.key")) /\ t_clients (n_ct n1) !! 7%Z = Some 0%Z.
Proof.
  destruct (challenge_answered no_plugin_handlers false id [cr] (lit "HTTP/1.1") [(lit "Connection", lit "close")]
    (lit "tok-1_x") asked_of asked_table 1%Z [] (new_client 0 []) calculator_server one_connection 7%Z)
    as (q & n1 & E & H & _).
  - by right.
  - by left.
  - constructor; [|constructor]. split; [|done]. refine (bool_decide_unpack _ _). vm_compute. exact I.
  - vm_compute. reflexivity.
  - vm_compute. reflexivity.
  - split; [discriminate|]. repeat constructor; refine (bool_decide_unpack (_ ∉ _) _); vm_compute; exact I.
  - repeat constructor.
  - refine (bool_decide_unpack _ _). vm_compute. exact I.
  - vm_compute. lia.
  - vm_compute. reflexivity.
  - reflexivity.
  - reflexivity.
  - reflexivity.
  - reflexivity.
  - exact one_connection_wf.
  - vm_compute. reflexivity.
  - destruct (H (lit "tok-1_x.key")) as (Hp & _ & Hc & _).
    { refine (bool_decide_unpack _ _). vm_compute. exact I. }
    exists q, n1. split; [exact E|]. split; [exact Hp|]. rewrite Hc. vm_compute. reflexivity.
Defined.
