(* ===== verification/ChessBoard.v ===== *)
(** * The chess board

    [src/plugins/probchess/Board.cpp], [Square.cpp], [Move.cpp], [Color.cpp]
    and the pieces of [src/plugins/probchess/]: squares, the moves of each
    piece, and the board with its operations.  A piece is a value that carries
    its square; the board holds one in each cell.  Cells are read with a check
    of the bounds, and written without: a write outside is undefined. *)

From Stdlib Require Import ZArith Lia Ascii String.
From stdpp Require Import base tactics option list strings gmap.
From S2P Require Import Prelude Util.

(** ** Colours, squares and moves *)

Inductive Color := Black | White.
#[export] Instance Color_eq_dec : EqDecision Color.
Proof. solve_decision. Defined.

Definition colorName (color : Color) : bytes :=
  match color with White => lit "white" | Black => lit "black" end.
Definition otherColor (color : Color) : Color :=
  match color with White => Black | Black => White end.

Record Square := Sq { row : Z; column : Z }.
#[export] Instance Square_eq_dec : EqDecision Square.
Proof. solve_decision. Defined.

Definition getColor (s : Square) : Color :=
  if (Z.rem (row s) 2 =? Z.rem (column s) 2)%Z then White else Black.
(** [operator!] and [operator bool]. *)
Definition off_board (s : Square) : bool :=
  ((row s <? 0) || (7 <? row s) || (column s <? 0) || (7 <? column s))%Z.
Definition on_board (s : Square) : bool :=
  ((0 <=? row s) && (row s <? 8) && (0 <=? column s) && (column s <? 8))%Z.
(** [operator+], [operator-] for rows, [operator<<], [operator>>] for columns
    and [operator+] for both. *)
Definition down (s : Square) (n : Z) : Square := Sq (row s + n) (column s).
Definition up (s : Square) (n : Z) : Square := Sq (row s - n) (column s).
Definition left_of (s : Square) (n : Z) : Square := Sq (row s) (column s - n).
Definition right_of (s : Square) (n : Z) : Square := Sq (row s) (column s + n).
Definition shift (s : Square) (offsets : Z * Z) : Square :=
  Sq (row s + offsets.1) (column s + offsets.2).
Definition square_string (s : Square) : bytes := to_dec (row s) ++ to_dec (column s).
Definition algebraic (s : Square) : bytes :=
  chr (97 + column s) :: to_dec (8 - row s).

Record Move := MkMove { from : Square; to : Square }.

(** The constructor from a text reads four characters without a check. *)
Definition parse_Move (str : bytes) : outcome Move :=
  match str with
  | c1 :: r1 :: c2 :: r2 :: _ =>
    Ret (MkMove (Sq (8 - (schar r1 - 48)) (schar c1 - 97))
                (Sq (8 - (schar r2 - 48)) (schar c2 - 97)))
  | _ => Undef
  end.
Definition pseudoalgebraic (m : Move) : bytes := algebraic (from m) ++ algebraic (to m).

(** ** Pieces *)

Inductive PieceType := Bishop | King | Knight | Pawn | Queen | Rook.
#[export] Instance PieceType_eq_dec : EqDecision PieceType.
Proof. solve_decision. Defined.

Record piece := Piece { p_type : PieceType; p_color : Color; p_square : Square }.
#[export] Instance piece_eq_dec : EqDecision piece.
Proof. solve_decision. Defined.

Definition typeValue (p : piece) : Z :=
  match p_type p with
  | Bishop => 3 | King => 0 | Knight => 3 | Pawn => 1 | Queen => 9 | Rook => 5
  end.
Definition piece_name (p : piece) : bytes :=
  match p_type p with
  | Bishop => lit "bishop" | King => lit "king" | Knight => lit "knight"
  | Pawn => lit "pawn" | Queen => lit "queen" | Rook => lit "rook"
  end.
Definition piece_string (p : piece) (color : Color) : bytes :=
  match p_type p, color with
  | Bishop, White => lit "♗" | Bishop, Black => lit "♝"
  | King, White => lit "♔" | King, Black => lit "♚"
  | Knight, White => lit "♘" | Knight, Black => lit "♞"
  | Pawn, White => lit "♙" | Pawn, Black => lit "♟"
  | Queen, White => lit "♕" | Queen, Black => lit "♛"
  | Rook, White => lit "♖" | Rook, Black => lit "♜"
  end.
Definition piece_toFEN (p : piece) : bytes :=
  match p_type p, p_color p with
  | Bishop, White => lit "B" | Bishop, Black => lit "b"
  | King, White => lit "K" | King, Black => lit "k"
  | Knight, White => lit "N" | Knight, Black => lit "n"
  | Pawn, White => lit "P" | Pawn, Black => lit "p"
  | Queen, White => lit "Q" | Queen, Black => lit "q"
  | Rook, White => lit "R" | Rook, Black => lit "r"
  end.

(** ** The board *)

Abbreviation board := (gmap (Z * Z) piece).
Definition width : Z := 8.
Definition height : Z := 8.

Definition at_cell (b : board) (r c : Z) : option piece :=
  if ((r <? 0) || (height <=? r) || (c <? 0) || (width <=? c))%Z then None else b !! (r, c).
Definition at_square (b : board) (s : Square) : option piece := at_cell b (row s) (column s).

(** [Piece::filter]: squares off the board and squares of one's own pieces go. *)
Definition filter_squares (b : board) (p : piece) (squares : list Square) : list Square :=
  List.filter (fun s =>
    negb (off_board s) &&
    negb (match at_square b s with
          | Some other => bool_decide (p_color other = p_color p)
          | None => false
          end)) squares.

(** One of the loops of the long-range pieces. *)
Fixpoint ray (n : nat) (b : board) (next : Square) (offsets : Z * Z) : list Square :=
  match n with
  | O => []
  | S n' =>
    let next := shift next offsets in
    if off_board next then []
    else next :: (match at_square b next with Some _ => [] | None => ray n' b next offsets end)
  end.

Definition rays (b : board) (s : Square) (directions : list (Z * Z)) : list Square :=
  concat (map (ray 7 b s) directions).

Definition rook_directions : list (Z * Z) := [(-1, 0); (1, 0); (0, -1); (0, 1)]%Z.
Definition bishop_directions : list (Z * Z) := [(1, 1); (1, -1); (-1, -1); (-1, 1)]%Z.
Definition knight_offsets : list (Z * Z) :=
  [(-2, -1); (-2, 1); (-1, 2); (1, 2); (2, 1); (2, -1); (1, -2); (-1, -2)]%Z.
Definition king_offsets : list (Z * Z) :=
  [(-1, 0); (-1, 1); (0, 1); (1, 1); (1, 0); (1, -1); (0, -1); (-1, -1)]%Z.

Definition Pawn_squares (b : board) (p : piece) : list Square :=
  let step := match p_color p with Black => 1 | White => -1 end%Z in
  let next := down (p_square p) step in
  let starting := ((row (p_square p) =? 1)%Z && bool_decide (p_color p = Black))
                  || ((row (p_square p) =? 6)%Z && bool_decide (p_color p = White)) in
  let out := match at_square b next with
             | None =>
               let ahead := down next step in
               next :: (if starting then
                          match at_square b ahead with None => [ahead] | Some _ => [] end
                        else [])
             | Some _ => []
             end in
  let next := left_of next 1 in
  let out := out ++ match at_square b next with Some _ => [next] | None => [] end in
  let next := right_of next 2 in
  out ++ match at_square b next with Some _ => [next] | None => [] end.

Definition canMoveTo (b : board) (p : piece) : list Square :=
  filter_squares b p
    match p_type p with
    | Pawn => Pawn_squares b p
    | Rook => rays b (p_square p) rook_directions
    | Bishop => rays b (p_square p) bishop_directions
    | Queen => rays b (p_square p) (bishop_directions ++ rook_directions)
    | Knight => map (shift (p_square p)) knight_offsets
    | King => map (shift (p_square p)) king_offsets
    end.

(** The cells in the order of the loops. *)
Definition cells : list (Z * Z) :=
  concat (map (fun r => map (fun c => (Z.of_nat r, Z.of_nat c)) (seq 0 8)) (seq 0 8)).
Definition all_pieces (b : board) : list piece :=
  omap (fun rc : Z * Z => at_cell b rc.1 rc.2) cells.

(** The copy constructor, of an empty board, and [operator=] clone the pieces; the
    second also empties cells. *)
Definition clone (p : piece) : piece := Piece (p_type p) (p_color p) (p_square p).
Definition put_clone (empties : bool) (other b : board) (rc : Z * Z) : board :=
  match at_cell other rc.1 rc.2 with
  | Some p => <[rc := clone p]> b
  | None => if empties then delete rc b else b
  end.
Definition copy_board (other : board) : board := fold_left (put_clone false other) cells ∅.
Definition assign_board (other this : board) : board := fold_left (put_clone true other) cells this.

(** [pieces[r][c] = ...]. *)
Definition put_cell (r c : Z) (p : option piece) : M board () :=
  if off_board (Sq r c) then undefined
  else modify (fun b => match p with Some p => <[(r, c) := p]> b | None => delete (r, c) b end).

Definition set_piece (t : PieceType) (color : Color) (r c : Z) : M board () :=
  put_cell r c (Some (Piece t color (Sq r c))).

Definition isAttacked (color : Color) (s : Square) : M board bool :=
  b ← get;
  let old_piece := at_square b s in
  put_cell (row s) (column s) (Some (Piece Rook (otherColor color) s)) ;;
  b ← get;
  let attacked := existsb (fun p => bool_decide (p_color p = color)
                                    && existsb (fun m => bool_decide (m = s)) (canMoveTo b p))
                          (all_pieces b) in
  put_cell (row s) (column s) old_piece ;;
  mret attacked.

Definition findKing (color : Color) (b : board) : outcome piece :=
  match find (fun p => bool_decide (p_color p = color) && bool_decide (p_type p = King))
             (all_pieces b) with
  | Some p => Ret p
  | None => Throw NoKingError
  end.

Definition isInCheck (color : Color) : M board bool :=
  catch (b ← get; king ← lift (findKing color b); isAttacked color (p_square king))
    (fun e => match e with NoKingError => Some (mret false) | _ => None end).

Definition move_piece (p : option piece) (new_row new_column : Z) : M board bool :=
  match p with
  | None => mret false
  | Some p =>
    put_cell new_row new_column (Some (Piece (p_type p) (p_color p) (Sq new_row new_column))) ;;
    put_cell (row (p_square p)) (column (p_square p)) None ;;
    mret true
  end.

Definition erase_piece (p : option piece) : M board () :=
  match p with
  | None => mret tt
  | Some p => put_cell (row (p_square p)) (column (p_square p)) None
  end.
Definition erase_cell (r c : Z) : M board () := b ← get; erase_piece (at_cell b r c).

(** The loop of [isCheckmated] over the moves of the king; a move that helps
    stays on the board. *)
Fixpoint escape_loop (color : Color) (old_board : board) (king : piece) (squares : list Square)
    : M board bool :=
  match squares with
  | [] => mret true
  | s :: rest =>
    _ ← move_piece (Some king) (row s) (column s);
    attacked ← isAttacked color s;
    if negb attacked then mret false
    else put old_board ;; escape_loop color old_board king rest
  end.

Definition isCheckmated (color : Color) : M board bool :=
  b ← get;
  match findKing color b with
  | Ret king =>
    attacked ← isAttacked color (p_square king);
    if negb attacked then mret false
    else escape_loop color b king (canMoveTo b king)
  | Throw NoKingError => mret true
  | Throw e => throw e
  | Undef => undefined
  | Diverge => diverge
  end.

Definition moves_of (b : board) (p : piece) : list Move :=
  map (MkMove (p_square p)) (canMoveTo b p).
Definition allMoves (b : board) : list Move := concat (map (moves_of b) (all_pieces b)).
Definition allMoves_of (b : board) (color : Color) : list Move :=
  concat (map (moves_of b) (List.filter (fun p => bool_decide (p_color p = color)) (all_pieces b))).

Definition place_row (color : Color) (r : Z) : M board () :=
  for_each (zip [Rook; Knight; Bishop; Queen; King; Bishop; Knight; Rook]
                [0; 1; 2; 3; 4; 5; 6; 7]%Z) (fun tc => set_piece tc.1 color r tc.2).

Definition placePieces : M board () :=
  put ∅ ;;
  place_row Black 0 ;; place_row White (height - 1) ;;
  for_each [0; 1; 2; 3; 4; 5; 6; 7]%Z (fun c =>
    set_piece Pawn Black 1 c ;; set_piece Pawn White (height - 2) c).

(** ** FEN *)

Definition fen_piece (ch : ascii) : option (PieceType * Color) :=
  match ch with
  | "B" => Some (Bishop, White) | "b" => Some (Bishop, Black)
  | "K" => Some (King, White) | "k" => Some (King, Black)
  | "N" => Some (Knight, White) | "n" => Some (Knight, Black)
  | "P" => Some (Pawn, White) | "p" => Some (Pawn, Black)
  | "Q" => Some (Queen, White) | "q" => Some (Queen, Black)
  | "R" => Some (Rook, White) | "r" => Some (Rook, Black)
  | _ => None
  end%char.

Fixpoint load_row (r c : Z) (row_string : bytes) : M board () :=
  match row_string with
  | [] => mret tt
  | ch :: rest =>
    if isNumeric_char ch then load_row r (c + (schar ch - 48)) rest
    else match fen_piece ch with
         | Some (t, color) => set_piece t color r c ;; load_row r (c + 1) rest
         | None => throw (RuntimeError (lit "Unrecognized character in FEN: " ++ [ch]))
         end
  end.

Fixpoint load_rows (r : Z) (rows : list bytes) : M board () :=
  match rows with
  | [] => mret tt
  | row_string :: rest => load_row r 0 row_string ;; load_rows (r + 1) rest
  end.

Definition loadFEN (fen : bytes) : M board () :=
  rows ← lift (split fen (lit "/") false); load_rows 0 rows.

(** The number of empty cells from column [c + i] on. *)
Fixpoint blanks_from (n : nat) (b : board) (r c : Z) : Z :=
  match n with
  | O => 0
  | S n' => if (c <? width)%Z then
              match at_cell b r c with None => 1 + blanks_from n' b r (c + 1) | Some _ => 0 end
            else 0
  end.

Fixpoint fen_row (n : nat) (b : board) (r c : Z) : bytes :=
  match n with
  | O => []
  | S n' =>
    if (c <? width)%Z then
      match at_cell b r c with
      | Some p => piece_toFEN p ++ fen_row n' b r (c + 1)
      | None => let blanks := (1 + blanks_from 8 b r (c + 1))%Z in
                to_dec blanks ++ fen_row n' b r (c + blanks)
      end
    else []
  end.

Definition placement (b : board) : bytes :=
  concat (map (fun r => (if (0 <? r)%Z then lit "/" else []) ++ fen_row 8 b r 0)
              [0; 1; 2; 3; 4; 5; 6; 7]%Z).

Definition toFEN (color : Color) (b : board) : bytes :=
  placement b ++ lit " " ++ (match color with White => lit "w" | Black => lit "b" end)
  ++ lit " -" ++ lit " -" ++ lit " 0 1".

(** ** Lists of pieces and the text of the board *)

Definition INT_MAX : Z := 2 ^ 31 - 1.

(** The inner loop counts rows where it should count columns. *)
Fixpoint getPieces_inner (fuel : nat) (b : board) (color : Color) (r c : Z) (out : list piece)
    : outcome (list piece * Z) :=
  match fuel with
  | O => Diverge
  | S f =>
    if (c <? width)%Z then
      let out := match at_cell b r c with
                 | Some p => if bool_decide (p_color p = color) then out ++ [p] else out
                 | None => out
                 end in
      if (r =? INT_MAX)%Z then Undef else getPieces_inner f b color (r + 1) c out
    else Ret (out, r)
  end.

Fixpoint getPieces_outer (fuel : nat) (b : board) (color : Color) (r : Z) (out : list piece)
    : outcome (list piece) :=
  match fuel with
  | O => Diverge
  | S f =>
    if (r <? height)%Z then
      inner ← getPieces_inner f b color r 0 out;
      getPieces_outer f b color (inner.2 + 1) inner.1
    else Ret out
  end.

Definition getPieces (fuel : nat) (b : board) (color : Color) : outcome (list piece) :=
  getPieces_outer fuel b color 0 [].

Definition esc : ascii := "027"%char.
Definition background (moves : list Square) (r c : Z) : bytes :=
  if existsb (fun s => (row s =? r)%Z && (column s =? c)%Z) moves then esc :: lit "[43m"
  else if (Z.rem r 2 =? Z.rem c 2)%Z then esc :: lit "[47m" else esc :: lit "[100m".
Definition pieceColor (p : piece) : bytes :=
  match p_color p with White => esc :: lit "[37m" | Black => esc :: lit "[30m" end.

Definition board_string (b : board) (show_moves : option piece) : bytes :=
  let moves := match show_moves with Some p => canMoveTo b p | None => [] end in
  let columns := [0; 1; 2; 3; 4; 5; 6; 7]%Z in
  let newline := [lf] in
  concat (map (fun r =>
    concat (map (fun c => background moves r c ++ to_dec r ++ to_dec c ++ lit "   "
                          ++ esc :: lit "[0m") columns) ++ newline ++
    concat (map (fun c => background moves r c ++ lit "  " ++
                          match at_cell b r c with
                          | Some p => pieceColor p ++ piece_string p Black
                          | None => lit " "
                          end ++ lit "  " ++ esc :: lit "[0m") columns) ++ newline ++
    concat (map (fun c => background moves r c ++ lit "     " ++ esc :: lit "[0m") columns)
    ++ newline) [0; 1; 2; 3; 4; 5; 6; 7]%Z).

(** ** Theorems: the moves of the pieces *)

Lemma off_board_negb s : off_board s = negb (on_board s).
Proof.
  unfold off_board, on_board. destruct s as [r c]. cbn [row column].
  destruct (Z.ltb_spec r 0), (Z.ltb_spec 7 r), (Z.ltb_spec c 0), (Z.ltb_spec 7 c),
    (Z.leb_spec 0 r), (Z.ltb_spec r 8), (Z.leb_spec 0 c), (Z.ltb_spec c 8); try lia; done.
Qed.

Lemma on_board_iff s : on_board s = true <-> (0 <= row s < 8)%Z /\ (0 <= column s < 8)%Z.
Proof. unfold on_board. rewrite !andb_true_iff, !Z.leb_le, !Z.ltb_lt. lia. Qed.

Definition steps (s : Square) (d : Z * Z) (k : Z) : Square :=
  Sq (row s + k * d.1) (column s + k * d.2).

Lemma shift_steps s d : shift s d = steps s d 1.
Proof. unfold shift, steps. f_equal; lia. Qed.

Lemma steps_steps s d j k : steps (steps s d j) d k = steps s d (j + k).
Proof. unfold steps. cbn [row column]. f_equal; lia. Qed.

Lemma ray_spec n b s d s' :
  s' ∈ ray n b s d <-> exists k, (1 <= k <= Z.of_nat n)%Z /\ s' = steps s d k /\
    (forall j, (1 <= j <= k)%Z -> on_board (steps s d j) = true) /\
    (forall j, (1 <= j < k)%Z -> at_square b (steps s d j) = None).
Proof.
  revert s. induction n as [|n IH]; intros s; cbn [ray].
  - split; [by intros ?%not_elem_of_nil|]. intros (k & Hk & _). lia.
  - rewrite off_board_negb, shift_steps. destruct (on_board (steps s d 1)) eqn:Eon; cbn [negb].
    + rewrite elem_of_cons. split.
      * intros [->|Hin].
        -- exists 1%Z. split; [lia|]. split; [done|]. split; intros j Hj; [|lia].
           by replace j with 1%Z by lia.
        -- destruct (at_square b (steps s d 1)) eqn:Eat; [by apply not_elem_of_nil in Hin|].
           apply IH in Hin as (k & Hk & -> & Hb & Hf). exists (1 + k)%Z.
           rewrite steps_steps. split; [lia|]. split; [done|]. split; intros j Hj.
           ++ destruct (decide (j = 1%Z)) as [->|Hne]; [done|].
              specialize (Hb (j - 1)%Z ltac:(lia)). rewrite steps_steps in Hb.
              by replace (1 + (j - 1))%Z with j in Hb by lia.
           ++ destruct (decide (j = 1%Z)) as [->|Hne]; [done|].
              specialize (Hf (j - 1)%Z ltac:(lia)). rewrite steps_steps in Hf.
              by replace (1 + (j - 1))%Z with j in Hf by lia.
      * intros (k & Hk & -> & Hb & Hf). destruct (decide (k = 1%Z)) as [->|Hne]; [by left|right].
        rewrite (Hf 1%Z) by lia. apply IH. exists (k - 1)%Z.
        split; [lia|]. split; [rewrite steps_steps; f_equal; lia|].
        split; intros j Hj; rewrite steps_steps; [apply Hb|apply Hf]; lia.
    + split; [by intros ?%not_elem_of_nil|]. intros (k & Hk & _ & Hb & _).
      rewrite (Hb 1%Z) in Eon by lia. done.
Qed.

(** The rules of the game, apart from those about check, castling, the capture
    in passing and the columns: *)
Definition straight : list (Z * Z) := [(1, 0); (-1, 0); (0, 1); (0, -1)]%Z.
Definition diagonal : list (Z * Z) := [(1, 1); (1, -1); (-1, 1); (-1, -1)]%Z.
Definition forward (color : Color) : Z := match color with Black => 1 | White => -1 end.
Definition home_row (color : Color) : Z := match color with Black => 1 | White => 6 end.

(** The square [s] can be reached over free squares in one of the directions. *)
Definition slides (b : board) (p : piece) (directions : list (Z * Z)) (s : Square) : Prop :=
  exists d k, d ∈ directions /\ (1 <= k)%Z /\ s = steps (p_square p) d k /\
    forall j, (1 <= j < k)%Z -> at_square b (steps (p_square p) d j) = None.

Definition enemy_at (b : board) (p : piece) (s : Square) : Prop :=
  exists q, at_square b s = Some q /\ p_color q <> p_color p.
Definition free_or_enemy (b : board) (p : piece) (s : Square) : Prop :=
  at_square b s = None \/ enemy_at b p s.

Inductive legal (b : board) (p : piece) (s : Square) : Prop :=
| legal_rook : p_type p = Rook -> slides b p straight s -> free_or_enemy b p s -> legal b p s
| legal_bishop : p_type p = Bishop -> slides b p diagonal s -> free_or_enemy b p s -> legal b p s
| legal_queen : p_type p = Queen -> slides b p (straight ++ diagonal) s -> free_or_enemy b p s ->
    legal b p s
| legal_knight dr dc : p_type p = Knight -> s = shift (p_square p) (dr, dc) ->
    (Z.abs dr = 1 /\ Z.abs dc = 2 \/ Z.abs dr = 2 /\ Z.abs dc = 1)%Z ->
    free_or_enemy b p s -> legal b p s
| legal_king dr dc : p_type p = King -> s = shift (p_square p) (dr, dc) ->
    (Z.max (Z.abs dr) (Z.abs dc) = 1)%Z -> free_or_enemy b p s -> legal b p s
| legal_advance : p_type p = Pawn -> s = shift (p_square p) (forward (p_color p), 0%Z) ->
    at_square b s = None -> legal b p s
| legal_double : p_type p = Pawn -> row (p_square p) = home_row (p_color p) ->
    s = shift (p_square p) (2 * forward (p_color p), 0)%Z ->
    at_square b (shift (p_square p) (forward (p_color p), 0%Z)) = None ->
    at_square b s = None -> legal b p s
| legal_capture dc : p_type p = Pawn -> (Z.abs dc = 1)%Z ->
    s = shift (p_square p) (forward (p_color p), dc) -> enemy_at b p s -> legal b p s.

Lemma filter_squares_spec b p l s :
  s ∈ filter_squares b p l <-> s ∈ l /\ on_board s = true /\ free_or_enemy b p s.
Proof.
  unfold filter_squares. rewrite list_elem_of_In, filter_In, <- list_elem_of_In, off_board_negb.
  rewrite negb_involutive, andb_true_iff, negb_true_iff. unfold free_or_enemy, enemy_at.
  destruct (at_square b s) as [q|].
  - rewrite bool_decide_eq_false. split.
    + intros (H1 & H2 & H3). split; [done|]. split; [done|]. right. by exists q.
    + intros (H1 & H2 & [H3|(q' & [= <-] & H3)]); [done|]. by split; [|split].
  - split; [|tauto]. intros (H1 & H2 & _). auto.
Qed.

(** Seven squares are all there is to go on the board. *)
Lemma rays_slide b p directions s :
  on_board (p_square p) = true -> on_board s = true ->
  Forall (fun d : Z * Z => (-1 <= d.1 <= 1 /\ -1 <= d.2 <= 1 /\ (d.1 <> 0 \/ d.2 <> 0))%Z) directions ->
  s ∈ rays b (p_square p) directions <-> slides b p directions s.
Proof.
  intros Hp Hs Hd. rewrite on_board_iff in Hp, Hs. unfold rays, slides.
  rewrite list_elem_of_In, in_concat. split.
  - intros (l & Hl & Hin). apply in_map_iff in Hl as (d & <- & Hdin).
    rewrite <- list_elem_of_In in Hin. rewrite <- list_elem_of_In in Hdin. apply ray_spec in Hin as (k & Hk & -> & _ & Hf).
    exists d, k. split; [done|]. split; [lia|]. by split.
  - intros (d & k & Hdin & Hk & -> & Hf). exists (ray 7 b (p_square p) d).
    rewrite list_elem_of_In in Hdin. split; [by apply in_map|]. rewrite <- list_elem_of_In.
    rewrite List.Forall_forall in Hd. destruct (Hd d Hdin) as (H1 & H2 & H3).
    unfold steps in Hs. cbn [row column] in Hs.
    assert (d.1 = -1 \/ d.1 = 0 \/ d.1 = 1)%Z as E1 by lia.
    assert (d.2 = -1 \/ d.2 = 0 \/ d.2 = 1)%Z as E2 by lia.
    apply ray_spec. exists k. destruct E1 as [E1|[E1|E1]], E2 as [E2|[E2|E2]];
      rewrite E1, E2 in *; (split; [lia|]); (split; [done|]); (split; [|done]); intros j Hj;
      rewrite on_board_iff; unfold steps; cbn [row column]; rewrite E1, E2; lia.
Qed.

Lemma slides_ext b p l1 l2 s :
  (forall d, d ∈ l1 <-> d ∈ l2) -> slides b p l1 s <-> slides b p l2 s.
Proof.
  intros H. unfold slides. split; intros (d & k & Hd & Hrest); exists d, k;
    (split; [by apply H|done]).
Qed.

Lemma elem_option {A} (x y : A) (o : option piece) :
  x ∈ match o with Some _ => [] | None => [y] end <-> o = None /\ x = y.
Proof. destruct o; rewrite ?list_elem_of_singleton; [|tauto]. split; [by intros ?%not_elem_of_nil|by intros [? _]]. Qed.

Lemma elem_option_some {A} (x y : A) (o : option piece) :
  x ∈ match o with Some _ => [y] | None => [] end <-> o <> None /\ x = y.
Proof. destruct o; rewrite ?list_elem_of_singleton; [|split; [by intros ?%not_elem_of_nil|by intros [? _]]]. by split; [|intros [_ ?]]. Qed.

Lemma starting_iff p :
  ((row (p_square p) =? 1)%Z && bool_decide (p_color p = Black))
  || ((row (p_square p) =? 6)%Z && bool_decide (p_color p = White)) = true <->
  row (p_square p) = home_row (p_color p).
Proof.
  destruct (p_color p); cbn [home_row]; rewrite orb_true_iff, !andb_true_iff, !Z.eqb_eq,
    !bool_decide_eq_true; split; try tauto; intros [[? ?]|[? ?]]; done.
Qed.

Lemma Pawn_squares_spec b p s :
  s ∈ Pawn_squares b p <->
  (s = shift (p_square p) (forward (p_color p), 0%Z) /\ at_square b s = None) \/
  (row (p_square p) = home_row (p_color p) /\
   s = shift (p_square p) (2 * forward (p_color p), 0)%Z /\
   at_square b (shift (p_square p) (forward (p_color p), 0%Z)) = None /\ at_square b s = None) \/
  (exists dc, (Z.abs dc = 1)%Z /\ s = shift (p_square p) (forward (p_color p), dc) /\
     at_square b s <> None).
Proof.
  unfold Pawn_squares. cbv zeta. fold (forward (p_color p)).
  set (fw := forward (p_color p)).
  assert (E1 : down (p_square p) fw = shift (p_square p) (fw, 0%Z))
    by (unfold down, shift; f_equal; simpl; lia).
  assert (E2 : down (shift (p_square p) (fw, 0%Z)) fw = shift (p_square p) (2 * fw, 0)%Z)
    by (unfold down, shift; cbn [row column fst snd]; f_equal; lia).
  assert (E3 : left_of (shift (p_square p) (fw, 0%Z)) 1 = shift (p_square p) (fw, -1)%Z)
    by (unfold left_of, shift; cbn [row column fst snd]; f_equal; lia).
  assert (E4 : right_of (shift (p_square p) (fw, -1)%Z) 2 = shift (p_square p) (fw, 1)%Z)
    by (unfold right_of, shift; cbn [row column fst snd]; f_equal; lia).
  rewrite E1, E2, E3, E4, !elem_of_app, !elem_option_some.
  assert (Hcap : (exists dc, (Z.abs dc = 1)%Z /\ s = shift (p_square p) (fw, dc) /\
                    at_square b s <> None) <->
                 (at_square b (shift (p_square p) (fw, -1)%Z) <> None /\
                  s = shift (p_square p) (fw, -1)%Z) \/
                 (at_square b (shift (p_square p) (fw, 1)%Z) <> None /\
                  s = shift (p_square p) (fw, 1)%Z)).
  { split.
    - intros (dc & Hdc & -> & Hat). assert (dc = -1 \/ dc = 1)%Z as [->| ->] by lia; auto.
    - intros [[Hat ->]|[Hat ->]]; eexists; (split; [|by split]); lia. }
  rewrite Hcap.
  assert (Hadv : s ∈ match at_square b (shift (p_square p) (fw, 0%Z)) with
                     | Some _ => []
                     | None => shift (p_square p) (fw, 0%Z) ::
                       (if ((row (p_square p) =? 1)%Z && bool_decide (p_color p = Black))
                           || ((row (p_square p) =? 6)%Z && bool_decide (p_color p = White))
                        then match at_square b (shift (p_square p) (2 * fw, 0)%Z) with
                             | Some _ => []
                             | None => [shift (p_square p) (2 * fw, 0)%Z]
                             end else [])
                     end <->
    (s = shift (p_square p) (fw, 0%Z) /\ at_square b s = None) \/
    (row (p_square p) = home_row (p_color p) /\ s = shift (p_square p) (2 * fw, 0)%Z /\
     at_square b (shift (p_square p) (fw, 0%Z)) = None /\ at_square b s = None)).
  { rewrite <- starting_iff. destruct (at_square b (shift (p_square p) (fw, 0%Z))) eqn:Ea.
    - split; [by intros ?%not_elem_of_nil|]. intros [[-> H]|(_ & _ & H & _)]; congruence.
    - rewrite elem_of_cons. destruct (_ || _).
      + rewrite elem_option. split.
        * intros [->|[H ->]]; [by left|by right].
        * intros [[-> _]|(_ & -> & _ & H)]; [by left|by right].
      + split.
        * intros [->|H]; [by left|by apply not_elem_of_nil in H].
        * intros [[-> _]|(H & _)]; [by left|done]. }
  rewrite Hadv. tauto.
Qed.

Lemma free_or_enemy_capture b p s :
  at_square b s <> None -> free_or_enemy b p s -> enemy_at b p s.
Proof. by intros H [?|?]. Qed.

Lemma enemy_not_free b p s : enemy_at b p s -> at_square b s <> None.
Proof. intros (q & -> & _). done. Qed.

Lemma leaper_offsets s o offsets :
  s ∈ map (shift o) offsets <-> exists d, d ∈ offsets /\ s = shift o d.
Proof.
  rewrite list_elem_of_In, in_map_iff. split.
  - intros (d & <- & Hd). exists d. by rewrite list_elem_of_In.
  - intros (d & Hd & ->). exists d. by rewrite <- list_elem_of_In.
Qed.

Lemma same_members (l1 l2 : list (Z * Z)) :
  forallb (fun d => bool_decide (d ∈ l2)) l1 && forallb (fun d => bool_decide (d ∈ l1)) l2 = true ->
  forall d, d ∈ l1 <-> d ∈ l2.
Proof.
  rewrite andb_true_iff, !forallb_forall. intros [H1 H2] d. split; intros Hd.
  - apply (bool_decide_eq_true_1 _), H1. by rewrite <- list_elem_of_In.
  - apply (bool_decide_eq_true_1 _), H2. by rewrite <- list_elem_of_In.
Qed.

Lemma king_offsets_spec dr dc :
  (dr, dc) ∈ king_offsets -> (Z.max (Z.abs dr) (Z.abs dc) = 1)%Z.
Proof.
  assert (Forall (fun d : Z * Z => Z.max (Z.abs d.1) (Z.abs d.2) = 1)%Z king_offsets) as H
    by repeat constructor.
  rewrite List.Forall_forall in H. rewrite list_elem_of_In. apply (H (dr, dc)).
Qed.

Lemma knight_offsets_spec dr dc :
  (dr, dc) ∈ knight_offsets ->
  (Z.abs dr = 1 /\ Z.abs dc = 2 \/ Z.abs dr = 2 /\ Z.abs dc = 1)%Z.
Proof.
  assert (Forall (fun d : Z * Z => Z.abs d.1 = 1 /\ Z.abs d.2 = 2 \/
            Z.abs d.1 = 2 /\ Z.abs d.2 = 1)%Z knight_offsets) as H
    by (repeat constructor; simpl; lia).
  rewrite List.Forall_forall in H. rewrite list_elem_of_In. apply (H (dr, dc)).
Qed.

(** C35: for a piece on the board, the squares the code offers are exactly the
    squares on the board that the rules of the game allow. *)
Theorem canMoveTo_legal b p s :
  on_board (p_square p) = true ->
  s ∈ canMoveTo b p <-> on_board s = true /\ legal b p s.
Proof.
  intros Hp. unfold canMoveTo. rewrite filter_squares_spec.
  assert (Hslide : forall directions reference,
    Forall (fun d : Z * Z => (-1 <= d.1 <= 1 /\ -1 <= d.2 <= 1 /\ (d.1 <> 0 \/ d.2 <> 0))%Z) directions ->
    (forall d, d ∈ directions <-> d ∈ reference) -> on_board s = true ->
    s ∈ rays b (p_square p) directions <-> slides b p reference s).
  { intros directions reference Hd Heq Hs. rewrite rays_slide by done. by apply slides_ext. }
  destruct (p_type p) eqn:Et.
  - split.
    + intros (H1 & H2 & H3). split; [done|]. apply legal_bishop; [done| |done].
      apply (Hslide bishop_directions); [repeat constructor; simpl; lia|by apply same_members|done|done].
    + intros [H1 H2]. inversion H2; try congruence. split; [|by split].
      apply (Hslide bishop_directions diagonal); [repeat constructor; simpl; lia|by apply same_members|done|done].
  - rewrite leaper_offsets. split.
    + intros ((d & Hd & ->) & H2 & H3). split; [done|]. destruct d as [dr dc].
      apply legal_king with dr dc; [done|done| |done].
      by apply king_offsets_spec in Hd.
    + intros [H1 H2]. inversion H2; try congruence. split; [|by split].
      exists (dr, dc). split; [|done].
      assert (dr = -1 \/ dr = 0 \/ dr = 1)%Z as Hdr by lia.
      assert (dc = -1 \/ dc = 0 \/ dc = 1)%Z as Hdc by lia.
      destruct Hdr as [->|[->| ->]], Hdc as [->|[->| ->]]; try lia;
        unfold king_offsets; rewrite !elem_of_cons; tauto.
  - rewrite leaper_offsets. split.
    + intros ((d & Hd & ->) & H2 & H3). split; [done|]. destruct d as [dr dc].
      apply legal_knight with dr dc; [done|done| |done].
      by apply knight_offsets_spec in Hd.
    + intros [H1 H2]. inversion H2; try congruence. split; [|by split].
      exists (dr, dc). split; [|done].
      assert (dr = -2 \/ dr = -1 \/ dr = 1 \/ dr = 2)%Z as Hdr by lia.
      assert (dc = -2 \/ dc = -1 \/ dc = 1 \/ dc = 2)%Z as Hdc by lia.
      destruct Hdr as [->|[->|[->| ->]]], Hdc as [->|[->|[->| ->]]]; try lia;
        unfold knight_offsets; rewrite !elem_of_cons; tauto.
  - rewrite Pawn_squares_spec. split.
    + intros ([[H1 H1']|[(H0 & H1 & H1' & H1'')|(dc & Hdc & H1 & H1')]] & H2 & H3); (split; [done|]).
      * by apply legal_advance.
      * by apply legal_double.
      * apply legal_capture with dc; [done|done|done|by apply free_or_enemy_capture].
    + intros [H1 H2]. inversion H2; try congruence; (split; [|split; [done|]]); unfold free_or_enemy.
      * by left.
      * by left.
      * right. by left.
      * by left.
      * right. right. exists dc. split; [done|]. split; [done|]. by apply enemy_not_free with p.
      * by right.
  - split.
    + intros (H1 & H2 & H3). split; [done|]. apply legal_queen; [done| |done].
      apply (Hslide (bishop_directions ++ rook_directions)); [repeat constructor; simpl; lia|by apply same_members|done|done].
    + intros [H1 H2]. inversion H2; try congruence. split; [|by split].
      apply (Hslide (bishop_directions ++ rook_directions) (straight ++ diagonal)); [repeat constructor; simpl; lia|by apply same_members|done|done].
  - split.
    + intros (H1 & H2 & H3). split; [done|]. apply legal_rook; [done| |done].
      apply (Hslide rook_directions); [repeat constructor; simpl; lia|by apply same_members|done|done].
    + intros [H1 H2]. inversion H2; try congruence. split; [|by split].
      apply (Hslide rook_directions straight); [repeat constructor; simpl; lia|by apply same_members|done|done].
Qed.

(** ** Theorems: attacks *)

(** Everything a board holds lies on it, each piece in its own cell. *)
Definition placed (b : board) : Prop :=
  forall r c p, b !! (r, c) = Some p -> on_board (Sq r c) = true /\ p_square p = Sq r c.

Lemma at_square_guard b s :
  at_square b s = if on_board s then b !! (row s, column s) else None.
Proof.
  unfold at_square, at_cell.
  assert (E : ((row s <? 0) || (height <=? row s) || (column s <? 0) || (width <=? column s))%Z
              = off_board s).
  { unfold off_board, height, width.
    destruct (Z.ltb_spec (row s) 0), (Z.leb_spec 8 (row s)), (Z.ltb_spec (column s) 0),
      (Z.leb_spec 8 (column s)), (Z.ltb_spec 7 (row s)), (Z.ltb_spec 7 (column s)); done || lia. }
  rewrite E, off_board_negb. by destruct (on_board s).
Qed.

Lemma at_square_lookup b s :
  on_board s = true -> at_square b s = b !! (row s, column s).
Proof. intros Hs. by rewrite at_square_guard, Hs. Qed.

Lemma in_cells r c : on_board (Sq r c) = true -> In (r, c) cells.
Proof.
  rewrite on_board_iff. cbn [row column]. intros [Hr Hc]. unfold cells. apply in_concat.
  eexists. split.
  - apply in_map_iff. exists (Z.to_nat r). split; [reflexivity|]. apply in_seq. lia.
  - apply in_map_iff. exists (Z.to_nat c). split; [f_equal; lia|]. apply in_seq. lia.
Qed.

Lemma put_clone_lookup other b rc x :
  put_clone true other b rc !! x = if decide (rc = x) then at_cell other x.1 x.2 else b !! x.
Proof.
  unfold put_clone. destruct (decide (rc = x)) as [->|Hne].
  - destruct (at_cell other x.1 x.2) as [[]|]; [by rewrite lookup_insert_eq|by rewrite lookup_delete_eq].
  - by destruct (at_cell other rc.1 rc.2); [rewrite lookup_insert_ne|rewrite lookup_delete_ne].
Qed.

Lemma assigned_lookup other l b x :
  fold_left (put_clone true other) l b !! x = if decide (x ∈ l) then at_cell other x.1 x.2 else b !! x.
Proof.
  revert b. induction l as [|rc l IH]; intros b; cbn [fold_left]; [by rewrite decide_False by apply not_elem_of_nil|].
  rewrite IH, put_clone_lookup. destruct (decide (x ∈ l)); [by rewrite decide_True by by right|].
  destruct (decide (rc = x)) as [->|]; [by rewrite decide_True by by left|].
  rewrite decide_False; [done|]. by intros [->|?]%elem_of_cons.
Qed.

Lemma assign_board_lookup other b x :
  assign_board other b !! x = if decide (x ∈ cells) then at_cell other x.1 x.2 else b !! x.
Proof. unfold assign_board. generalize cells. intros l. apply assigned_lookup. Qed.

Lemma copy_assigns other l b :
  (forall x, b !! x = None \/ b !! x = at_cell other x.1 x.2) ->
  fold_left (put_clone false other) l b = fold_left (put_clone true other) l b.
Proof.
  revert b. induction l as [|rc l IH]; intros b Hb; [done|]. cbn [fold_left].
  assert (put_clone false other b rc = put_clone true other b rc) as ->.
  { unfold put_clone. destruct (at_cell other rc.1 rc.2) eqn:E; [done|]. rewrite delete_id; [done|].
    destruct (Hb rc) as [?|H]; congruence. }
  apply IH. intros x. rewrite put_clone_lookup. destruct (decide (rc = x)); auto.
Qed.

Lemma copy_board_assigns other : copy_board other = assign_board other ∅.
Proof. unfold copy_board, assign_board. generalize cells. intros l. apply copy_assigns. intros x. left. apply lookup_empty. Qed.

(** A copy of a board, and a board that another one has been assigned to, are the
    same as that: boards can be values. *)
Lemma copies_are_equal b this : placed b -> placed this -> copy_board b = b /\ assign_board b this = b.
Proof.
  assert (Hall : forall b0 : board, placed b0 -> placed b -> assign_board b b0 = b).
  { intros b0 H0 Hb. apply map_eq. intros [r c]. rewrite assign_board_lookup. cbn [fst snd].
    pose proof (at_square_guard b (Sq r c)) as E. unfold at_square in E. cbn [row column] in E. rewrite E.
    assert (Hout : forall b1 : board, placed b1 -> on_board (Sq r c) = false -> b1 !! (r, c) = None).
    { intros b1 H1 Hoff. destruct (b1 !! (r, c)) as [p|] eqn:Ep; [|done]. apply H1 in Ep as [Ep _]. congruence. }
    destruct (on_board (Sq r c)) eqn:Eo.
    - rewrite decide_True; [done|]. by apply list_elem_of_In, in_cells.
    - rewrite (Hout b Hb eq_refl), (Hout b0 H0 eq_refl). by destruct (decide _). }
  intros Hb Ht. split; [|by apply Hall]. rewrite copy_board_assigns. apply Hall; [|exact Hb]. intros r c p. rewrite lookup_empty. discriminate.
Qed.

Lemma in_all_pieces b p :
  In p (all_pieces b) <-> exists r c, on_board (Sq r c) = true /\ b !! (r, c) = Some p.
Proof.
  unfold all_pieces. rewrite <- list_elem_of_In, list_elem_of_omap. split.
  - intros ([r c] & _ & H). cbn [fst snd] in H. exists r, c.
    pose proof (at_square_guard b (Sq r c)) as E. unfold at_square in E. cbn [row column] in E.
    rewrite H in E. by destruct (on_board (Sq r c)).
  - intros (r & c & Hon & Hb). exists (r, c). split.
    + rewrite list_elem_of_In. by apply in_cells.
    + cbn [fst snd]. rewrite <- Hb. exact (at_square_lookup b (Sq r c) Hon).
Qed.

Lemma put_cell_on r c p b :
  on_board (Sq r c) = true ->
  put_cell r c p b =
  (Ret tt, match p with Some p => <[(r, c) := p]> b | None => delete (r, c) b end).
Proof. intros H. unfold put_cell. by rewrite off_board_negb, H. Qed.

(** The board with a piece of the other colour in the cell that is asked about. *)
Definition with_target (b : board) (color : Color) (s : Square) : board :=
  <[(row s, column s) := Piece Rook (otherColor color) s]> b.

Definition attacked_by (b : board) (color : Color) (s : Square) : Prop :=
  exists p, In p (all_pieces (with_target b color s)) /\ p_color p = color /\
            s ∈ canMoveTo (with_target b color s) p.

Lemma put_back b r c x :
  match b !! (r, c) with
  | Some p => <[(r, c) := p]> (<[(r, c) := x]> b)
  | None => delete (r, c) (<[(r, c) := x]> b)
  end = b :> board.
Proof.
  destruct (b !! (r, c)) as [p|] eqn:E.
  - rewrite insert_insert_eq. by apply insert_id.
  - by rewrite delete_insert_id.
Qed.

Lemma isAttacked_attacked color s b :
  on_board s = true -> exists r, isAttacked color s b = (Ret r, b) /\ (r = true <-> attacked_by b color s).
Proof.
  intros Hs. destruct s as [sr sc]. unfold isAttacked. mrun. cbn [row column].
  rewrite !put_cell_on by done. fold (with_target b color (Sq sr sc)).
  rewrite (at_square_lookup b (Sq sr sc)) by done. cbn [row column].
  eexists. cbn [row column].
  split.
  - f_equal. apply put_back.
  - change (<[(sr, sc) := Piece Rook (otherColor color) (Sq sr sc)]> b)
      with (with_target b color (Sq sr sc)).
    rewrite existsb_exists. unfold attacked_by.
    split; intros (p & H1 & H2); exists p; (split; [done|]).
    + apply andb_true_iff in H2 as [H2 H3]. apply bool_decide_eq_true in H2. split; [done|].
      apply existsb_exists in H3 as (m & Hm & Heq). apply bool_decide_eq_true in Heq as ->.
      by rewrite list_elem_of_In.
    + destruct H2 as [H2 H3]. rewrite bool_decide_true by done. cbn [andb].
      apply existsb_exists. exists (Sq sr sc). rewrite <- list_elem_of_In.
      split; [done|by apply bool_decide_eq_true].
Qed.

Lemma findKing_spec color b :
  match findKing color b with
  | Ret k => In k (all_pieces b) /\ p_color k = color /\ p_type k = King
  | Throw e => e = NoKingError /\
      forall k, In k (all_pieces b) -> p_color k = color -> p_type k <> King
  | _ => False
  end.
Proof.
  unfold findKing. destruct (find _ _) as [k|] eqn:E.
  - apply find_some in E as [H1 H2]. apply andb_true_iff in H2 as [H2 H3].
    apply bool_decide_eq_true in H2, H3. done.
  - split; [done|]. intros k Hk Hc Ht. pose proof (find_none _ _ E k Hk) as H.
    cbn beta in H. by rewrite !bool_decide_true in H.
Qed.

(** The test whether a colour is in check leaves the board as it was, and
    it answers whether one of that colour's own pieces could take a piece in
    the cell of its king: the pieces of the opponent play no part. *)
Theorem isInCheck_own color b king :
  placed b -> findKing color b = Ret king ->
  exists r, isInCheck color b = (Ret r, b) /\
    (r = true <-> exists r c p, b !! (r, c) = Some p /\ p_color p = color /\ p <> king /\
       p_square king ∈ canMoveTo (with_target b color (p_square king)) p).
Proof.
  intros Hb Hk. pose proof (findKing_spec color b) as Hs. rewrite Hk in Hs.
  destruct Hs as (Hin & Hc & Ht). apply in_all_pieces in Hin as (r & c & Hon & Hrc).
  destruct (Hb r c king Hrc) as [_ Hsq].
  destruct (isAttacked_attacked color (p_square king) b) as (a & Ea & Ha); [by rewrite Hsq|].
  exists a. split; [unfold isInCheck; mrun; by rewrite Hk, Ea|].
  rewrite Ha. unfold attacked_by. split.
  - intros (p & Hp & Hpc & Hmove). apply in_all_pieces in Hp as (r' & c' & Hon' & Hp).
    unfold with_target in Hp. rewrite Hsq in Hp. cbn [row column] in Hp.
    apply lookup_insert_Some in Hp as [[_ <-]|[Hne Hp]].
    + cbn [p_color] in Hpc. by destruct color.
    + exists r', c', p. split; [done|]. split; [done|]. split; [|done].
      intros ->. destruct (Hb r' c' king Hp) as [_ Hsq']. apply Hne. congruence.
  - intros (r' & c' & p & Hp & Hpc & Hne & Hmove). exists p. split; [|done].
    destruct (Hb r' c' p Hp) as [Hon' Hsq']. apply in_all_pieces. exists r', c'. split; [done|].
    unfold with_target. rewrite Hsq. cbn [row column].
    rewrite lookup_insert_ne; [done|]. intros [= <- <-]. congruence.
Qed.

(** ** Theorems: the operations keep pieces in their cells *)

Lemma placed_insert b t color r c :
  placed b -> on_board (Sq r c) = true -> placed (<[(r, c) := Piece t color (Sq r c)]> b).
Proof.
  intros Hb Hon r' c' p [[[= <- <-] <-]|[_ Hp]]%lookup_insert_Some; [done|]. by apply Hb.
Qed.

Lemma placed_delete b rc : placed b -> placed (delete rc b).
Proof. intros Hb r c p [_ Hp]%lookup_delete_Some. by apply Hb. Qed.

Lemma set_piece_placed t color r c b :
  placed b -> on_board (Sq r c) = true ->
  exists b', set_piece t color r c b = (Ret tt, b') /\ placed b'.
Proof.
  intros Hb Hon. unfold set_piece. rewrite put_cell_on by done.
  eexists. split; [done|]. by apply placed_insert.
Qed.

(** Moving a piece of the board to another cell of the board. *)
Lemma move_piece_spec b p r c :
  placed b -> b !! (row (p_square p), column (p_square p)) = Some p ->
  on_board (Sq r c) = true -> Sq r c <> p_square p ->
  exists b', move_piece (Some p) r c b = (Ret true, b') /\ placed b' /\
    b' !! (r, c) = Some (Piece (p_type p) (p_color p) (Sq r c)) /\
    b' !! (row (p_square p), column (p_square p)) = None /\
    forall r' c', Sq r' c' <> Sq r c -> Sq r' c' <> p_square p -> b' !! (r', c') = b !! (r', c').
Proof.
  intros Hb Hp Hon Hne. destruct (Hb _ _ _ Hp) as [Honp _].
  assert (Hkey : (r, c) <> (row (p_square p), column (p_square p))).
  { intros [= -> ->]. apply Hne. by destruct (p_square p). }
  unfold move_piece. mrun. rewrite put_cell_on by done. rewrite put_cell_on by done.
  eexists. split; [done|]. split; [by apply placed_delete, placed_insert|].
  split; [by rewrite lookup_delete_ne, lookup_insert_eq by done|].
  split; [apply lookup_delete_eq|]. intros r' c' H1 H2.
  rewrite lookup_delete_ne, lookup_insert_ne; [done| |].
  - intros [= <- <-]. done.
  - intros [= E1 E2]. apply H2. destruct (p_square p). cbn in *. congruence.
Qed.

(** ** Theorems: lists of pieces *)

Lemma getPieces_inner_stuck fuel b color r out :
  match getPieces_inner fuel b color r 0 out with Ret _ | Throw _ => False | _ => True end.
Proof.
  revert r out. induction fuel as [|fuel IH]; intros r out; cbn [getPieces_inner]; [done|].
  change (0 <? width)%Z with true. cbv iota zeta.
  destruct (r =? INT_MAX)%Z; [done|]. apply IH.
Qed.

(** The list of the pieces of one colour is never returned: the inner loop
    counts the wrong variable, and runs until that overflows. *)
Theorem getPieces_never_returns fuel b color out : getPieces fuel b color <> Ret out.
Proof.
  unfold getPieces. destruct fuel as [|fuel]; cbn [getPieces_outer]; [done|].
  change (0 <? height)%Z with true. cbv iota. mrun.
  pose proof (getPieces_inner_stuck fuel b color 0 []) as H.
  by destruct (getPieces_inner fuel b color 0 0 []) as [[]| | |].
Qed.

(** ** Theorems: FEN *)

(** The pieces of [n] cells of a row of [b], put on [b0]. *)
Fixpoint row_add (b : board) (r c : Z) (n : nat) (b0 : board) : board :=
  match n with
  | O => b0
  | S n' => row_add b r (c + 1) n' (match b !! (r, c) with
                                    | Some p => <[(r, c) := p]> b0
                                    | None => b0
                                    end)
  end.

Lemma row_add_blank b r c k n b0 :
  (forall j, (c <= j < c + Z.of_nat k)%Z -> b !! (r, j) = None) ->
  row_add b r c (k + n) b0 = row_add b r (c + Z.of_nat k) n b0.
Proof.
  revert c. induction k as [|k IH]; intros c H; cbn [row_add Nat.add].
  - f_equal. lia.
  - rewrite (H c) by lia. rewrite IH by (intros j Hj; apply H; lia). f_equal. lia.
Qed.

Lemma row_add_lookup b r c n b0 r' c' :
  row_add b r c n b0 !! (r', c') =
  if decide (r' = r /\ (c <= c' < c + Z.of_nat n)%Z /\ is_Some (b !! (r', c')))
  then b !! (r', c') else b0 !! (r', c').
Proof.
  revert c b0. induction n as [|n IH]; intros c b0; cbn [row_add].
  - rewrite decide_False; [done|]. lia.
  - rewrite IH. destruct (decide (r' = r /\ c' = c)) as [[-> ->]|Hne].
    + rewrite decide_False by lia. destruct (b !! (r, c)) as [p|] eqn:E.
      * rewrite lookup_insert_eq, decide_True; [done|]. split; [done|]. split; [lia|by eexists].
      * rewrite decide_False; [done|]. by intros (_ & _ & [? ?]).
    + assert ((match b !! (r, c) with Some p => <[(r, c) := p]> b0 | None => b0 end) !! (r', c')
              = b0 !! (r', c')) as ->.
      { destruct (b !! (r, c)); [|done]. rewrite lookup_insert_ne; [done|]. intros [= <- <-]. tauto. }
      destruct (decide (r' = r /\ (c + 1 <= c' < c + 1 + Z.of_nat n)%Z /\ is_Some (b !! (r', c'))))
        as [(H1 & H2 & H3)|H].
      * rewrite decide_True; [done|]. split; [done|]. by split; [lia|].
      * rewrite decide_False; [done|]. intros (H1 & H2 & H3). apply H. split; [done|].
        split; [|done]. assert (c' <> c) by (intros ->; tauto). lia.
Qed.

Lemma blanks_from_spec n b r c :
  (0 <= r < 8)%Z -> (0 <= c <= 8)%Z ->
  (0 <= blanks_from n b r c <= 8 - c)%Z /\
  forall j, (c <= j < c + blanks_from n b r c)%Z -> b !! (r, j) = None.
Proof.
  intros Hr. revert c. induction n as [|n IH]; intros c Hc; cbn [blanks_from]; [split; lia|].
  unfold width. destruct (Z.ltb_spec c 8); [|split; lia].
  pose proof (at_square_guard b (Sq r c)) as E. unfold at_square in E. cbn [row column] in E.
  assert (on_board (Sq r c) = true) as Hon by (apply on_board_iff; cbn; lia).
  rewrite Hon in E. rewrite E. destruct (b !! (r, c)) eqn:Eb; [split; lia|].
  destruct (IH (c + 1)%Z ltac:(lia)) as [H1 H2]. split; [lia|].
  intros j Hj. destruct (decide (j = c)) as [->|Hne]; [done|]. apply H2. lia.
Qed.

(** The letter of a piece stands for it, and a number for itself. *)
Lemma fen_letter p : exists ch,
  piece_toFEN p = [ch] /\ isNumeric_char ch = false /\ fen_piece ch = Some (p_type p, p_color p) /\
  ch <> "/"%char.
Proof.
  destruct p as [[] [] s]; eexists; (split; [reflexivity|]);
    (split; [vm_compute; reflexivity|]); (split; [vm_compute; reflexivity|]); discriminate.
Qed.

Lemma fen_digit k : (1 <= k <= 8)%Z -> exists ch,
  to_dec k = [ch] /\ isNumeric_char ch = true /\ (schar ch - 48)%Z = k /\ ch <> "/"%char.
Proof.
  intros Hk. exists (chr (48 + k)).
  assert (H : forallb (fun k => bool_decide (to_dec k = [chr (48 + k)])
    && isNumeric_char (chr (48 + k)) && bool_decide (schar (chr (48 + k)) - 48 = k)%Z
    && negb (Ascii.eqb (chr (48 + k)) "/")) [1; 2; 3; 4; 5; 6; 7; 8]%Z = true)
    by (vm_compute; reflexivity).
  rewrite forallb_forall in H. specialize (H k).
  rewrite !andb_true_iff, !bool_decide_eq_true, negb_true_iff, Ascii.eqb_neq in H.
  destruct H as (((H1 & H2) & H3) & H4); [simpl; lia|done].
Qed.

Lemma fen_row_loads b r n : placed b -> (0 <= r < 8)%Z ->
  forall c b0, (0 <= c <= 8)%Z -> (8 - c <= Z.of_nat n)%Z ->
  load_row r c (fen_row n b r c) b0 = (Ret tt, row_add b r c (Z.to_nat (8 - c)) b0) /\
  ("/"%char ∉ fen_row n b r c) /\ ((c < 8)%Z -> fen_row n b r c <> []).
Proof.
  intros Hb Hr. induction n as [|n IH]; intros c b0 Hc Hn; cbn [fen_row].
  - assert (c = 8)%Z as -> by lia. split; [done|]. split; [by apply not_elem_of_nil|lia].
  - unfold width. destruct (Z.ltb_spec c 8) as [Hlt|Hge].
    2: { assert (c = 8)%Z as -> by lia. split; [done|]. split; [by apply not_elem_of_nil|lia]. }
    assert (on_board (Sq r c) = true) as Hon by (apply on_board_iff; cbn; lia).
    pose proof (at_square_lookup b (Sq r c) Hon) as E. unfold at_square in E.
    cbn [row column] in E. rewrite E. destruct (b !! (r, c)) as [p|] eqn:Ep.
    + destruct (fen_letter p) as (ch & Ech & Hnum & Hfen & Hslash).
      destruct (Hb r c p Ep) as [_ Hsq].
      destruct (IH (c + 1)%Z (<[(r, c) := p]> b0)) as (H1 & H2 & H3); [lia|lia|].
      rewrite Ech. cbn [app load_row]. rewrite Hnum, Hfen. split; [|split; [set_solver|done]].
      unfold set_piece. mrun. rewrite put_cell_on by done.
      assert (Piece (p_type p) (p_color p) (Sq r c) = p) as -> by (rewrite <- Hsq; by destruct p).
      rewrite H1. replace (Z.to_nat (8 - c)) with (S (Z.to_nat (8 - (c + 1)))) by lia.
      cbn [row_add]. by rewrite Ep.
    + set (k := (1 + blanks_from 8 b r (c + 1))%Z).
      destruct (blanks_from_spec 8 b r (c + 1)) as [Hk1 Hk2]; [done|lia|].
      destruct (fen_digit k) as (ch & Ech & Hnum & Hval & Hslash); [lia|].
      destruct (IH (c + k)%Z b0) as (H1 & H2 & H3); [lia|lia|].
      rewrite Ech. cbn [app load_row]. rewrite Hnum, Hval. split; [|split; [set_solver|done]].
      rewrite H1. f_equal.
      replace (Z.to_nat (8 - c)) with (Z.to_nat k + Z.to_nat (8 - (c + k))) by lia.
      rewrite row_add_blank; [by rewrite Z2Nat.id by lia|].
      intros j Hj. destruct (decide (j = c)) as [->|Hne]; [done|]. apply Hk2. lia.
Qed.

Lemma load_rows_rows b b0 r n :
  placed b -> (0 <= r)%Z -> (r + Z.of_nat n <= 8)%Z ->
  exists b1, load_rows r (map (fun i => fen_row 8 b (r + Z.of_nat i) 0) (seq 0 n)) b0 = (Ret tt, b1) /\
    forall r' c', b1 !! (r', c') =
      if decide ((r <= r' < r + Z.of_nat n)%Z /\ (0 <= c' < 8)%Z /\ is_Some (b !! (r', c')))
      then b !! (r', c') else b0 !! (r', c').
Proof.
  intros Hb. revert r b0. induction n as [|n IH]; intros r b0 Hr Hn.
  - exists b0. split; [done|]. intros r' c'. rewrite decide_False; [done|lia].
  - destruct (fen_row_loads b r 8 Hb ltac:(lia) 0 b0) as (H1 & _ & _); [lia|lia|].
    destruct (IH (r + 1)%Z (row_add b r 0 8 b0)) as (b1 & H2 & H3); [lia|lia|].
    exists b1. split.
    + change (seq 0 (S n)) with (0 :: seq 1 n). rewrite <- seq_shift, map_cons, map_map.
      replace (r + Z.of_nat 0)%Z with r by lia. cbn [load_rows]. mrun. rewrite H1.
      rewrite <- H2. rewrite (map_ext _ (fun i => fen_row 8 b (r + 1 + Z.of_nat i) 0)); [done|].
      intros i. by replace (r + Z.of_nat (S i))%Z with (r + 1 + Z.of_nat i)%Z by lia.
    + intros r' c'. rewrite H3, row_add_lookup.
      destruct (decide (is_Some (b !! (r', c')))) as [Hs|Hs]; [|by rewrite !decide_False by tauto].
      destruct (decide (r' = r)) as [->|Hr'];
        repeat case_decide; try done; exfalso;
        multimatch goal with H : ~ (_ /\ _) |- _ =>
          solve [apply H; split_and!; try done; lia] end.
Qed.

Lemma placement_join b :
  placement b = join (map (fun i => fen_row 8 b (0 + Z.of_nat i) 0) (seq 0 8)) (lit "/").
Proof. reflexivity. Qed.

(** The board part of a FEN, loaded on an empty board, gives the board
    back. *)
Theorem loadFEN_placement b :
  placed b -> loadFEN (placement b) ∅ = (Ret tt, b).
Proof.
  intros Hb. unfold loadFEN. rewrite placement_join. change (lit "/") with ["/"%char].
  rewrite split_join_char.
  - mrun. destruct (load_rows_rows b ∅ 0 8 Hb) as (b1 & E & Hl); [lia|lia|].
    rewrite E. f_equal. apply map_eq. intros [r c]. rewrite Hl, lookup_empty.
    case_decide as H; [done|]. destruct (b !! (r, c)) as [p|] eqn:Ep; [|done]. exfalso. apply H.
    destruct (Hb r c p Ep) as [Hon _]. rewrite on_board_iff in Hon. cbn [row column] in Hon.
    split; [lia|]. split; [lia|by eexists].
  - done.
  - apply List.Forall_forall. intros q Hq. apply in_map_iff in Hq as (i & <- & Hi).
    apply in_seq in Hi. destruct (fen_row_loads b (0 + Z.of_nat i) 8 Hb ltac:(lia) 0 ∅)
      as (_ & H1 & H2); [lia|lia|]. split; [apply H2; lia|done].
Qed.

(** The whole text [toFEN] gives is not accepted: the side to move and the
    rest are taken for part of the last row. *)
Example loadFEN_toFEN :
  (loadFEN (toFEN White ∅) ∅).1 = Throw (RuntimeError (lit "Unrecognized character in FEN:  ")).
Proof. vm_compute. reflexivity. Qed.

(** ** Witnesses *)

Definition initial_board : board := (placePieces ∅).2.

Example initial_FEN :
  placePieces ∅ = (Ret tt, initial_board) /\
  toFEN White initial_board = lit "rnbqkbnr/pppppppp/8/8/8/8/PPPPPPPP/RNBQKBNR w - - 0 1".
Proof. split; vm_compute; reflexivity. Qed.

Lemma placed_check b :
  forallb (fun kp : Z * Z * piece => on_board (Sq kp.1.1 kp.1.2)
    && bool_decide (p_square kp.2 = Sq kp.1.1 kp.1.2)) (map_to_list b) = true -> placed b.
Proof.
  intros H r c p Hp. rewrite forallb_forall in H.
  specialize (H ((r, c), p)). rewrite <- list_elem_of_In, elem_of_map_to_list in H.
  specialize (H Hp). cbn [fst snd] in H. apply andb_true_iff in H as [H1 H2].
  apply bool_decide_eq_true in H2. done.
Qed.

Lemma canMoveTo_legal_witness :
  on_board (Sq 5 2) = true /\ legal initial_board (Piece Knight White (Sq 7 1)) (Sq 5 2).
Proof.
  apply (canMoveTo_legal initial_board (Piece Knight White (Sq 7 1)) (Sq 5 2)); [reflexivity|].
  refine (bool_decide_unpack _ _). vm_compute. exact I.
Defined.

(** The white king on its square and a black rook in front of it. *)
Definition checked_board : board :=
  {[ (7, 4)%Z := Piece King White (Sq 7 4); (0, 4)%Z := Piece Rook Black (Sq 0 4) ]}.

Lemma isInCheck_own_witness :
  isInCheck White checked_board = (Ret false, checked_board) /\
  exists r, isInCheck White checked_board = (Ret r, checked_board).
Proof.
  destruct (isInCheck_own White checked_board (Piece King White (Sq 7 4))) as (r & H & _).
  - apply placed_check. vm_compute. reflexivity.
  - vm_compute. reflexivity.
  - split; [vm_compute; reflexivity|]. exists r. exact H.
Defined.

Lemma loadFEN_placement_witness :
  loadFEN (lit "rnbqkbnr/pppppppp/8/8/8/8/PPPPPPPP/RNBQKBNR") ∅ = (Ret tt, initial_board).
Proof.
  refine (eq_trans _ (loadFEN_placement initial_board _)).
  - vm_compute. reflexivity.
  - apply placed_check. vm_compute. reflexivity.
Defined.
