(* ===== verification/ChessMatch.v ===== *)
(** * Probability chess: matches, players and the plugin

    [src/plugins/probchess/Match.cpp], [HumanMatch.cpp], [AIMatch.cpp],
    [NullMatch.cpp], the players and [ProbabilityChess.cpp].  Matches are
    objects that two tables and the players' moves share: they live in a store,
    and the tables hold references to them.  What is sent is a log of clients
    and messages; the numbers [rand] gives are a sequence. *)

From Stdlib Require Import ZArith Lia Ascii String.
From stdpp Require Import base tactics option list strings gmap.
From S2P Require Import Prelude Util Response Request PluginHost Client FS HttpServer ChessBoard.

Inductive Role := Host | Guest.
#[export] Instance Role_eq_dec : EqDecision Role.
Proof. solve_decision. Defined.

(** The classes derived from [Player]. *)
Inductive player_class := HumanPlayer (clientID : Z) | RandomPlayer | CCCPPlayer | CCCP2Player.

Record player := MkPlayer { pl_color : Color; pl_role : Role; pl_class : player_class }.

Inductive match_class := HumanMatch | AIMatch | NullMatch.

(** The fields that never change. *)
Record match_options := MatchOptions {
  mo_class : match_class;
  mo_matchID : bytes;
  mo_hidden : bool;
  mo_noSkip : bool;
  mo_hostColor : Color;
  mo_columnCount : Z;
}.

Record chess_match := ChessMatch {
  m_options : match_options;
  m_host : option player;
  m_guest : option player;
  m_currentTurn : Color;
  m_board : board;
  m_winnerColor : option Color;
  m_columns : list Z;          (* a set, in ascending order *)
  m_started : bool;
  m_over : bool;
  m_captured : list piece;
  m_spectators : list Z;
}.

Definition set_players (h g : option player) (m : chess_match) : chess_match :=
  ChessMatch (m_options m) h g (m_currentTurn m) (m_board m) (m_winnerColor m) (m_columns m)
    (m_started m) (m_over m) (m_captured m) (m_spectators m).
Definition set_turn (c : Color) (m : chess_match) : chess_match :=
  ChessMatch (m_options m) (m_host m) (m_guest m) c (m_board m) (m_winnerColor m) (m_columns m)
    (m_started m) (m_over m) (m_captured m) (m_spectators m).
Definition set_board (b : board) (m : chess_match) : chess_match :=
  ChessMatch (m_options m) (m_host m) (m_guest m) (m_currentTurn m) b (m_winnerColor m)
    (m_columns m) (m_started m) (m_over m) (m_captured m) (m_spectators m).
Definition set_winner (w : option Color) (m : chess_match) : chess_match :=
  ChessMatch (m_options m) (m_host m) (m_guest m) (m_currentTurn m) (m_board m) w (m_columns m)
    (m_started m) (m_over m) (m_captured m) (m_spectators m).
Definition set_columns (l : list Z) (m : chess_match) : chess_match :=
  ChessMatch (m_options m) (m_host m) (m_guest m) (m_currentTurn m) (m_board m) (m_winnerColor m)
    l (m_started m) (m_over m) (m_captured m) (m_spectators m).
Definition set_started (b : bool) (m : chess_match) : chess_match :=
  ChessMatch (m_options m) (m_host m) (m_guest m) (m_currentTurn m) (m_board m) (m_winnerColor m)
    (m_columns m) b (m_over m) (m_captured m) (m_spectators m).
Definition set_over (b : bool) (m : chess_match) : chess_match :=
  ChessMatch (m_options m) (m_host m) (m_guest m) (m_currentTurn m) (m_board m) (m_winnerColor m)
    (m_columns m) (m_started m) b (m_captured m) (m_spectators m).
Definition set_captured (l : list piece) (m : chess_match) : chess_match :=
  ChessMatch (m_options m) (m_host m) (m_guest m) (m_currentTurn m) (m_board m) (m_winnerColor m)
    (m_columns m) (m_started m) (m_over m) l (m_spectators m).
Definition set_spectators (l : list Z) (m : chess_match) : chess_match :=
  ChessMatch (m_options m) (m_host m) (m_guest m) (m_currentTurn m) (m_board m) (m_winnerColor m)
    (m_columns m) (m_started m) (m_over m) (m_captured m) l.

(** The plugin: its tables, the store of matches, the clients the network
    server has, the number of calls of [rand] so far and what has been sent. *)
Record chess := Chess {
  ch_matches : gmap nat chess_match;
  ch_next : nat;
  ch_matchesByID : gmap bytes nat;
  ch_matchesByClient : gmap Z nat;
  ch_connections : gset Z;
  ch_clients : gset Z;
  ch_live : gset Z;
  ch_draws : nat;
  ch_out : list (Z * bytes);
}.

Definition with_matches (f : gmap nat chess_match -> gmap nat chess_match) (s : chess) : chess :=
  Chess (f (ch_matches s)) (ch_next s) (ch_matchesByID s) (ch_matchesByClient s)
    (ch_connections s) (ch_clients s) (ch_live s) (ch_draws s) (ch_out s).
Definition with_byID (f : gmap bytes nat -> gmap bytes nat) (s : chess) : chess :=
  Chess (ch_matches s) (ch_next s) (f (ch_matchesByID s)) (ch_matchesByClient s)
    (ch_connections s) (ch_clients s) (ch_live s) (ch_draws s) (ch_out s).
Definition with_byClient (f : gmap Z nat -> gmap Z nat) (s : chess) : chess :=
  Chess (ch_matches s) (ch_next s) (ch_matchesByID s) (f (ch_matchesByClient s))
    (ch_connections s) (ch_clients s) (ch_live s) (ch_draws s) (ch_out s).
Definition with_connections (f : gset Z -> gset Z) (s : chess) : chess :=
  Chess (ch_matches s) (ch_next s) (ch_matchesByID s) (ch_matchesByClient s)
    (f (ch_connections s)) (f (ch_clients s)) (ch_live s) (ch_draws s) (ch_out s).
Definition with_draws (n : nat) (s : chess) : chess :=
  Chess (ch_matches s) (ch_next s) (ch_matchesByID s) (ch_matchesByClient s)
    (ch_connections s) (ch_clients s) (ch_live s) n (ch_out s).
Definition log_message (id : Z) (message : bytes) (s : chess) : chess :=
  Chess (ch_matches s) (ch_next s) (ch_matchesByID s) (ch_matchesByClient s)
    (ch_connections s) (ch_clients s) (ch_live s) (ch_draws s) (ch_out s ++ [(id, message)]).
Definition new_match (m : chess_match) (s : chess) : chess :=
  Chess (<[ch_next s := m]> (ch_matches s)) (S (ch_next s)) (ch_matchesByID s)
    (ch_matchesByClient s) (ch_connections s) (ch_clients s) (ch_live s) (ch_draws s) (ch_out s).

(** A reference to a match. *)
Definition get_match (r : nat) : M chess chess_match :=
  s ← get; match ch_matches s !! r with Some m => mret m | None => undefined end.
Definition modify_match (r : nat) (f : chess_match -> chess_match) : M chess () :=
  m ← get_match r; modify (with_matches (insert r (f m))).
Definition on_match_board {A} (r : nat) (op : M board A) : M chess A := fun s =>
  match ch_matches s !! r with
  | Some m => let '(x, b) := op (m_board m) in
              (x, with_matches (insert r (set_board b m)) s)
  | None => (Undef, s)
  end.

(** ** Sending *)

(** [client.sendWebSocket], for a client at hand. *)
Definition reply (id : Z) (message : bytes) : M chess () := modify (log_message id message).

(** [ProbabilityChess::send]. *)
Definition send_client (id : Z) (message : bytes) : M chess () :=
  s ← get; if bool_decide (id ∈ ch_live s) then reply id message else throw OutOfRange.

(** The clients in whatever order the hash set has. *)
Definition broadcast (message : bytes) : M chess () :=
  s ← get; for_each (elements (ch_clients s)) (fun id => reply id message).

Definition player_send (p : player) (message : bytes) : M chess () :=
  match pl_class p with HumanPlayer id => send_client id message | _ => mret tt end.

Definition send_to_player (p : option player) (message : bytes) : M chess () :=
  match p with Some p => player_send p message | None => mret tt end.

Definition sendHost (r : nat) (message : bytes) : M chess bool :=
  m ← get_match r; send_to_player (m_host m) message ;; mret (bool_decide (is_Some (m_host m))).
Definition sendGuest (r : nat) (message : bytes) : M chess bool :=
  m ← get_match r; send_to_player (m_guest m) message ;; mret (bool_decide (is_Some (m_guest m))).
Definition sendBoth (r : nat) (message : bytes) : M chess () :=
  m ← get_match r; send_to_player (m_host m) message ;; send_to_player (m_guest m) message.
Definition sendSpectators (r : nat) (message : bytes) : M chess () :=
  m ← get_match r; for_each (m_spectators m) (fun id => send_client id message).
Definition sendAll (r : nat) (message : bytes) : M chess () :=
  sendBoth r message ;; sendSpectators r message.

Definition board_letter (p : piece) : bytes :=
  match p_type p with
  | Bishop => lit "b" | King => lit "k" | Knight => lit "h"
  | Pawn => lit "p" | Queen => lit "q" | Rook => lit "r"
  end.
Definition encode_board (b : board) : bytes :=
  concat (map (fun rc : Z * Z =>
    match at_cell b rc.1 rc.2 with
    | None => lit "__"
    | Some p => board_letter p ++ (match p_color p with White => lit "W" | Black => lit "B" end)
    end) cells).
Definition sendBoard (r : nat) : M chess () :=
  m ← get_match r; sendAll r (lit ":Board " ++ encode_board (m_board m)).

Definition capturedMessage (p : piece) : bytes :=
  lit ":Capture " ++ square_string (p_square p) ++ lit " " ++ piece_name p ++ lit " "
  ++ colorName (p_color p).
Definition columnMessage (m : chess_match) : bytes :=
  lit ":Columns" ++ concat (map (fun c => lit " " ++ to_dec c) (m_columns m)).

(** ** The state of a match *)

Definition is_human (id : Z) (p : option player) : bool :=
  match p with
  | Some p => match pl_class p with HumanPlayer c => (c =? id)%Z | _ => false end
  | None => false
  end.

Definition isActive (m : chess_match) : bool :=
  match mo_class (m_options m) with
  | HumanMatch => bool_decide (is_Some (m_host m)) || bool_decide (is_Some (m_guest m))
  | AIMatch | NullMatch => bool_decide (is_Some (m_host m))
  end.
Definition hasClient (m : chess_match) (id : Z) : bool :=
  match mo_class (m_options m) with
  | HumanMatch => is_human id (m_host m) || is_human id (m_guest m)
  | AIMatch | NullMatch => is_human id (m_host m)
  end.
Definition isReady (m : chess_match) : bool :=
  match mo_class (m_options m) with
  | HumanMatch => bool_decide (is_Some (m_host m)) && bool_decide (is_Some (m_guest m))
  | AIMatch | NullMatch => bool_decide (is_Some (m_host m))
  end.

Definition can_move_from (m : chess_match) (rc : Z * Z) : bool :=
  match at_cell (m_board m) rc.1 rc.2 with
  | Some p => bool_decide (p_color p = m_currentTurn m)
              && negb (bool_decide (canMoveTo (m_board m) p = []))
  | None => false
  end.
Definition rows : list Z := [0; 1; 2; 3; 4; 5; 6; 7]%Z.
Definition canMove (m : chess_match) : bool :=
  existsb (fun c => existsb (fun r => can_move_from m (r, c)) rows) (m_columns m).
Definition anyCanMove (m : chess_match) : bool :=
  existsb (fun c => existsb (fun r => can_move_from m (r, c)) rows) rows.

(** The players are told apart by their role. *)
Definition player_of (m : chess_match) (who : Role) : option player :=
  match who with Host => m_host m | Guest => m_guest m end.
Definition currentPlayer (m : chess_match) : outcome Role :=
  if bool_decide (m_currentTurn m = mo_hostColor (m_options m))
  then match m_host m with Some _ => Ret Host | None => Undef end
  else match m_guest m with Some _ => Ret Guest | None => Undef end.
Definition getPlayer (m : chess_match) (id : Z) : outcome Role :=
  if is_human id (m_host m) then Ret Host
  else if is_human id (m_guest m) then Ret Guest
  else Throw (RuntimeError (lit "Couldn't find player for connection")).
(** [getWhite], [getBlack] and [get]. *)
Definition get_color (m : chess_match) (c : Color) : option player :=
  if bool_decide (mo_hostColor (m_options m) = c) then m_host m else m_guest m.

Definition invertTurn (r : nat) : M chess () :=
  modify_match r (fun m => set_turn (otherColor (m_currentTurn m)) m).

(** ** The dice *)

(** The numbers [rand] gives, by the number of the call; they are not negative. *)
Section rules.
Variable rand : nat -> N.

Definition next_rand : M chess Z :=
  s ← get; modify (with_draws (S (ch_draws s))) ;; mret (Z.of_N (rand (ch_draws s))).

(** [while (board.width < column) column -= board.width], for the sums of two
    dice. *)
Fixpoint reduce (n : nat) (c : Z) : Z :=
  match n with O => c | S n' => if (width <? c)%Z then reduce n' (c - width) else c end.

Definition draw_column : M chess Z :=
  first ← next_rand;
  second ← next_rand;
  mret (reduce 2 ((first mod 6 + 1) + (second mod 6 + 1)) - 1)%Z.

Fixpoint insert_column (c : Z) (l : list Z) : list Z :=
  match l with
  | [] => [c]
  | x :: rest => if (c <? x)%Z then c :: l else if (c =? x)%Z then l else x :: insert_column c rest
  end.

Fixpoint draw_new (fuel : nat) (columns : list Z) : M chess Z :=
  match fuel with
  | O => diverge
  | S f => c ← draw_column; if bool_decide (c ∈ columns) then draw_new f columns else mret c
  end.

Fixpoint roll_columns (n fuel : nat) (r : nat) : M chess () :=
  match n with
  | O => mret tt
  | S n' =>
    m ← get_match r;
    c ← draw_new fuel (m_columns m);
    modify_match r (fun m => set_columns (insert_column c (m_columns m)) m) ;;
    roll_columns n' fuel r
  end.

Definition roll (fuel : nat) (r : nat) : M chess () :=
  modify_match r (set_columns []) ;;
  m ← get_match r;
  roll_columns (Z.to_nat (mo_columnCount (m_options m))) fuel r ;;
  m ← get_match r;
  sendAll r (columnMessage m).

(** [do roll(); while (!canMove());] *)
Fixpoint roll_until (fuel : nat) (r : nat) : M chess () :=
  match fuel with
  | O => diverge
  | S f => roll f r ;; m ← get_match r; if canMove m then mret tt else roll_until f r
  end.

Definition turnMessage (m : chess_match) : bytes := lit ":Turn " ++ colorName (m_currentTurn m).

(** The loop of [afterMove] that skips turns. *)
Fixpoint skip_turns (fuel : nat) (r : nat) : M chess () :=
  match fuel with
  | O => diverge
  | S f =>
    invertTurn r ;;
    m ← get_match r; sendAll r (turnMessage m) ;;
    roll f r ;;
    m ← get_match r;
    if canMove m then mret tt else sendAll r (lit ":Skip") ;; skip_turns f r
  end.

Definition next_turn (fuel : nat) (r : nat) : M chess () :=
  m ← get_match r;
  if mo_noSkip (m_options m) then
    invertTurn r ;;
    m ← get_match r; sendAll r (turnMessage m) ;;
    roll_until fuel r
  else skip_turns fuel r.

(** ** The end of a match *)

Definition erase_client (p : option player) : M chess () :=
  match p with
  | Some p => match pl_class p with
              | HumanPlayer id => modify (with_byClient (delete id))
              | _ => mret tt
              end
  | None => mret tt
  end.

Definition end_match (r : nat) (winner : option player) : M chess () :=
  m ← get_match r;
  match winner with
  | None => sendAll r (lit ":End")
  | Some w =>
    let hostColor := mo_hostColor (m_options m) in
    (if bool_decide (is_Some (m_host m)) && bool_decide (pl_role w = Host) then
       _ ← sendHost r (lit ":Win"); _ ← sendGuest r (lit ":Lose"); mret tt
     else if bool_decide (is_Some (m_guest m)) && bool_decide (pl_role w = Guest) then
       _ ← sendHost r (lit ":Lose"); _ ← sendGuest r (lit ":Win"); mret tt
     else sendAll r (lit ":End")) ;;
    sendSpectators r (lit ":Win " ++ colorName (if bool_decide (pl_role w = Host) then hostColor
                                                else otherColor hostColor))
  end ;;
  modify_match r (set_over true) ;;
  modify (with_byID (delete (mo_matchID (m_options m)))) ;;
  erase_client (m_guest m) ;;
  erase_client (m_host m) ;;
  for_each (m_spectators m) (fun id => modify (with_byClient (delete id))) ;;
  if mo_hidden (m_options m) then mret tt
  else broadcast (lit ":RemoveMatch " ++ mo_matchID (m_options m)).

Definition reset_human (id : Z) (p : option player) : option player :=
  if is_human id p then None else p.

Definition disconnect (r : nat) (id : Z) : M chess () :=
  modify_match r (fun m => set_spectators (List.filter (fun x => negb (x =? id)%Z)
                                             (m_spectators m)) m) ;;
  modify_match r (fun m => set_players (reset_human id (m_host m)) (reset_human id (m_guest m)) m) ;;
  m ← get_match r;
  if negb (isActive m) then end_match r None
  else if mo_hidden (m_options m) then mret tt
       else broadcast (lit ":Match " ++ mo_matchID (m_options m) ++ lit " open").

(** ** Moves *)

(** One of the two loops of [checkPawns]: the pawns of a colour on a row. *)
Fixpoint promote_row (color : Color) (r : Z) (columns : list Z) : M board (list Square) :=
  match columns with
  | [] => mret []
  | c :: rest =>
    b ← get;
    match at_cell b r c with
    | Some p =>
      if bool_decide (p_type p = Pawn) && bool_decide (p_color p = color) then
        erase_piece (Some p) ;;
        set_piece Queen color r c ;;
        out ← promote_row color r rest; mret (p_square p :: out)
      else promote_row color r rest
    | None => promote_row color r rest
    end
  end.

Definition checkPawns : M board (list Square) :=
  white ← promote_row White 0 rows;
  black ← promote_row Black (height - 1) rows;
  mret (white ++ black).

(** The guards of [makeMove]: the piece that moves, or the exception. *)
Definition check_move (m : chess_match) (who : Role) (mv : Move) : outcome piece :=
  if negb (isReady m) then Throw (ChessError (lit "Match is missing a participant."))
  else if bool_decide (is_Some (m_winnerColor m)) then Throw (ChessError (lit "Match already over."))
  else if match player_of m who with
          | Some p => match pl_class p with HumanPlayer id => negb (hasClient m id) | _ => false end
          | None => false
          end then Throw (ChessError (lit "Invalid connection."))
  else current ← currentPlayer m;
  if negb (bool_decide (who = current)) then Throw (ChessError (lit "Invalid turn."))
  else match at_square (m_board m) (from mv) with
  | None => Throw (ChessError (lit "No source piece."))
  | Some from_piece =>
    if negb (bool_decide (p_color from_piece = m_currentTurn m))
    then Throw (ChessError (lit "Not your piece."))
    else if bool_decide (from mv = to mv)
    then Throw (ChessError (lit "Move must actually move a piece."))
    else if negb (bool_decide (column (from mv) ∈ m_columns m))
    then Throw (ChessError (lit "Incorrect column."))
    else if negb (existsb (fun s => bool_decide (s = to mv)) (canMoveTo (m_board m) from_piece))
    then Throw (ChessError (lit "Invalid move."))
    else Ret from_piece
  end.

Definition move_message (mv : Move) : bytes :=
  lit ":MoveMade " ++ square_string (from mv) ++ lit " " ++ square_string (to mv).

(** [makeMove], with [afterMove] as an argument. *)
Definition makeMove_with (afterMove : M chess ()) (r : nat) (who : Role) (mv : Move) : M chess () :=
  m ← get_match r;
  from_piece ← lift (check_move m who mv);
  let finish :=
    _ ← on_match_board r (move_piece (Some from_piece) (row (to mv)) (column (to mv)));
    promoted ← on_match_board r checkPawns;
    sendBoard r ;;
    sendAll r (move_message mv) ;;
    for_each promoted (fun s => sendAll r (lit ":Promote " ++ square_string s)) ;;
    afterMove in
  match at_square (m_board m) (to mv) with
  | None => finish
  | Some to_piece =>
    if bool_decide (p_color to_piece = m_currentTurn m)
    then throw (ChessError (lit "Can't capture one of your own pieces."))
    else
      sendAll r (capturedMessage to_piece) ;;
      modify_match r (fun m => set_captured (m_captured m ++ [to_piece]) m) ;;
      on_match_board r (erase_piece (Some to_piece)) ;;
      if bool_decide (p_type to_piece = King) then
        _ ← on_match_board r (move_piece (Some from_piece) (row (to mv)) (column (to mv)));
        _ ← on_match_board r checkPawns;
        sendBoard r ;;
        sendAll r (move_message mv) ;;
        modify_match r (fun m => set_winner (Some (m_currentTurn m)) m) ;;
        m ← get_match r;
        match (if bool_decide (mo_hostColor (m_options m) = m_currentTurn m)
               then m_host m else m_guest m) with
        | Some winner => end_match r (Some winner)
        | None => undefined
        end
      else finish
  end.

(** ** The players that choose moves *)

Definition getPossibleMoves (m : chess_match) : list Move :=
  concat (map (fun c => concat (map (fun r =>
    match at_cell (m_board m) r c with
    | Some p => if bool_decide (p_color p = m_currentTurn m) then moves_of (m_board m) p else []
    | None => []
    end) rows)) (m_columns m)).

Definition choose_random (r : nat) : M chess Move :=
  m ← get_match r;
  let possibilities := getPossibleMoves m in
  match possibilities with
  | [] => throw (RuntimeError (lit "RandomBot has no moves to select from."))
  | _ => n ← next_rand;
         match possibilities !! Z.to_nat (n mod Z.of_nat (length possibilities)) with
         | Some mv => mret mv
         | None => undefined
         end
  end.

Record LabeledMove := MkLabeledMove {
  l_move : Move;
  l_isCheckmated : bool;
  l_isInCheck : bool;
  l_isSelfInCheck : bool;
  l_captured : option piece;
}.

Definition centerDistance (c : Z) : Z :=
  if ((c =? 3) || (c =? 4))%Z then 0
  else if ((c =? 2) || (c =? 5))%Z then 1
  else if ((c =? 1) || (c =? 6))%Z then 2
  else 3.
Definition moveCode (mv : Move) : Z :=
  let source := (row (from mv) * 8 + column (from mv))%Z in
  let destination := (row (to mv) * 8 + column (to mv))%Z in
  ((source * 64 + destination) * 8)%Z.

(** What the two versions of [checkSuperior] share: the preference for a
    capture, for depth, for the centre, and the order of the moves. *)
Definition prefers_place (turn : Color) (check alternative : LabeledMove) : bool :=
  let to1 := to (l_move check) in
  let to2 := to (l_move alternative) in
  if negb (row to1 =? row to2)%Z then
    match turn with Black => (row to1 <=? row to2)%Z | White => (row to2 <=? row to1)%Z end
  else if negb (column to1 =? column to2)%Z
          && negb (centerDistance (column to1) =? centerDistance (column to2))%Z
  then (centerDistance (column to2) <? centerDistance (column to1))%Z
  else (moveCode (l_move check) <? moveCode (l_move alternative))%Z.

Definition prefers_capture (turn : Color) (check alternative : LabeledMove) : bool :=
  match l_captured check, l_captured alternative with
  | Some _, None => false
  | Some p, Some q => if (typeValue p <? typeValue q)%Z then true
                      else prefers_place turn check alternative
  | None, Some _ => true
  | None, None => prefers_place turn check alternative
  end.

(** [checkSuperior] of [CCCPPlayer] and of [CCCP2Player]. *)
Definition checkSuperior (turn : Color) (check alternative : LabeledMove) : bool :=
  if negb (Bool.eqb (l_isCheckmated check) (l_isCheckmated alternative))
  then l_isCheckmated alternative
  else if negb (Bool.eqb (l_isInCheck check) (l_isInCheck alternative))
  then l_isInCheck alternative
  else prefers_capture turn check alternative.
Definition checkSuperior2 (turn : Color) (check alternative : LabeledMove) : bool :=
  if negb (Bool.eqb (l_isCheckmated check) (l_isCheckmated alternative))
  then l_isCheckmated alternative
  else if negb (Bool.eqb (l_isInCheck check) (l_isInCheck alternative))
  then l_isInCheck alternative
  else if negb (Bool.eqb (l_isSelfInCheck check) (l_isSelfInCheck alternative))
  then negb (l_isSelfInCheck alternative)
  else prefers_capture turn check alternative.

(** The loop body of [chooseMove]: the move is made, looked at, and the old
    board is put back. *)
Definition label_move (turn : Color) (mv : Move) : M board LabeledMove :=
  old_board ← get;
  let captured := at_square old_board (to mv) in
  _ ← move_piece (at_square old_board (from mv)) (row (to mv)) (column (to mv));
  in_check ← isInCheck (otherColor turn);
  checkmated ← isCheckmated (otherColor turn);
  self_in_check ← isInCheck turn;
  put old_board ;;
  mret (MkLabeledMove mv checkmated in_check self_in_check captured).

Fixpoint label_moves (turn : Color) (moves : list Move) : M board (list LabeledMove) :=
  match moves with
  | [] => mret []
  | mv :: rest => l ← label_move turn mv; ls ← label_moves turn rest; mret (l :: ls)
  end.

Definition best_move (superior : LabeledMove -> LabeledMove -> bool) (first : LabeledMove)
    (rest : list LabeledMove) : LabeledMove :=
  fold_left (fun best l => if superior best l then l else best) rest first.

Definition choose_cccp (superior : Color -> LabeledMove -> LabeledMove -> bool) (r : nat)
    : M chess Move :=
  m ← get_match r;
  let turn := m_currentTurn m in
  let legal := List.filter (fun mv => bool_decide (column (from mv) ∈ m_columns m))
                           (allMoves_of (m_board m) turn) in
  labeled ← on_match_board r (label_moves turn legal);
  match labeled with
  | [] => throw (RuntimeError (lit "No labeled moves found."))
  | first :: rest => mret (l_move (best_move (superior turn) first rest))
  end.

Definition chooseMove (p : player) (r : nat) : M chess Move :=
  match pl_class p with
  | RandomPlayer => choose_random r
  | CCCPPlayer => choose_cccp checkSuperior r
  | CCCP2Player => choose_cccp checkSuperior2 r
  | HumanPlayer _ => undefined
  end.

(** [afterMove] of the three kinds of matches, with [makeMove] as an argument:
    in a match against a program its turn is played at once. *)
Definition afterMove_with (makeMove : Role -> Move -> M chess ()) (fuel : nat) (r : nat)
    : M chess () :=
  m ← get_match r;
  match mo_class (m_options m) with
  | HumanMatch => next_turn fuel r
  | NullMatch => sendAll r (turnMessage m) ;; roll_until fuel r
  | AIMatch =>
    next_turn fuel r ;;
    m ← get_match r;
    if negb (bool_decide (m_currentTurn m = mo_hostColor (m_options m))) && negb (m_over m) then
      match m_guest m with
      | Some guest => mv ← chooseMove guest r; makeMove Guest mv
      | None => undefined
      end
    else mret tt
  end.

Fixpoint makeMove (fuel : nat) (r : nat) (who : Role) (mv : Move) : M chess () :=
  match fuel with
  | O => diverge
  | S f => makeMove_with (afterMove_with (makeMove f r) f r) r who mv
  end.
Definition afterMove (fuel : nat) (r : nat) : M chess () :=
  afterMove_with (makeMove fuel r) fuel r.
End rules.
