(* ===== verification/ChessRules.v ===== *)
(** * Probability chess: what the rules guarantee

    Theorems about [ChessMatch.v]: the board after a move, the moves of the
    programs, the dice, and the way a move leaves the match and the tables. *)

From Stdlib Require Import ZArith Lia Ascii String.
From stdpp Require Import base tactics option list strings gmap sorting.
From S2P Require Import Prelude Util Response Request PluginHost Client FS HttpServer ChessBoard ChessMatch.

(** ** Reference definitions *)

Definition last_row (color : Color) : Z := match color with White => 0 | Black => 7 end.

(** A pawn on its last row becomes a queen. *)
Definition promote_piece (p : piece) : piece :=
  if bool_decide (p_type p = Pawn) && bool_decide (row (p_square p) = last_row (p_color p))
  then Piece Queen (p_color p) (p_square p) else p.

(** The board after a piece has moved: its cell is empty, and it stands on the
    other cell, in place of what stood there. *)
Definition moved_board (b : board) (p : piece) (s : Square) : board :=
  delete (row (p_square p), column (p_square p))
    (<[(row s, column s) := Piece (p_type p) (p_color p) s]> b).
Definition board_after (b : board) (p : piece) (s : Square) : board :=
  promote_piece <$> moved_board b p s.

Definition promotes (color : Color) (o : option piece) : bool :=
  match o with
  | Some p => bool_decide (p_type p = Pawn) && bool_decide (p_color p = color)
  | None => false
  end.

Lemma promote_piece_square p : p_square (promote_piece p) = p_square p.
Proof. unfold promote_piece. by destruct (_ && _). Qed.
Lemma promote_piece_color p : p_color (promote_piece p) = p_color p.
Proof. unfold promote_piece. by destruct (_ && _). Qed.

Lemma placed_promoted b : placed b -> placed (promote_piece <$> b).
Proof.
  intros Hb r c p Hp. apply lookup_fmap_Some in Hp as (q & <- & Hq).
  rewrite promote_piece_square. by apply Hb.
Qed.

(** ** Boards under the rules *)

Lemma canMoveTo_target b p s :
  s ∈ canMoveTo b p ->
  on_board s = true /\ forall q, at_square b s = Some q -> p_color q <> p_color p.
Proof.
  unfold canMoveTo, filter_squares. rewrite list_elem_of_In, filter_In. intros [_ H].
  apply andb_true_iff in H as [H1 H2]. rewrite off_board_negb, negb_involutive in H1.
  split; [done|]. intros q Hq. rewrite Hq in H2.
  apply negb_true_iff, bool_decide_eq_false in H2. done.
Qed.

(** The piece [p] stands on the board, in its own cell. *)
Definition stands (b : board) (p : piece) : Prop :=
  b !! (row (p_square p), column (p_square p)) = Some p.

Lemma stands_at b p : placed b -> stands b p -> at_square b (p_square p) = Some p.
Proof.
  intros Hb Hp. rewrite at_square_lookup; [done|]. destruct (Hb _ _ _ Hp) as [Hon _].
  by destruct (p_square p).
Qed.

Lemma at_square_stands b s p : placed b -> at_square b s = Some p -> stands b p /\ p_square p = s.
Proof.
  intros Hb Hp. rewrite at_square_guard in Hp. destruct (on_board s) eqn:E; [|done].
  destruct (Hb _ _ _ Hp) as [_ Hs]. unfold stands. rewrite Hs. split; [done|]. by destruct s.
Qed.

Lemma at_cell_stands b r c p : placed b -> at_cell b r c = Some p -> stands b p /\ p_square p = Sq r c.
Proof. apply (at_square_stands b (Sq r c)). Qed.

Lemma in_all_stands b p : placed b -> In p (all_pieces b) -> stands b p.
Proof.
  intros Hb (r & c & Hon & Hp)%in_all_pieces. destruct (Hb _ _ _ Hp) as [_ Hs].
  unfold stands. by rewrite Hs.
Qed.

Lemma stands_on b p : placed b -> stands b p -> on_board (p_square p) = true.
Proof. intros Hb Hp. destruct (Hb _ _ _ Hp) as [Hon _]. by destruct (p_square p). Qed.

Lemma canMoveTo_moves b p s : placed b -> stands b p -> s ∈ canMoveTo b p -> s <> p_square p.
Proof.
  intros Hb Hp Hs ->. apply canMoveTo_target in Hs as [_ Hs].
  by apply (Hs p (stands_at b p Hb Hp)).
Qed.

(** [move_piece] makes a legal move. *)
Lemma move_piece_board b p s :
  placed b -> stands b p -> on_board s = true -> s <> p_square p ->
  move_piece (Some p) (row s) (column s) b = (Ret true, moved_board b p s) /\
  placed (moved_board b p s).
Proof.
  intros Hb Hp Hon Hne. destruct s as [r c]. cbn [row column].
  unfold move_piece. mrun. rewrite put_cell_on by done.
  pose proof (stands_on b p Hb Hp) as Honp. destruct (p_square p) as [pr pc] eqn:Eq.
  cbn [row column]. rewrite put_cell_on by done.
  unfold moved_board. rewrite Eq. cbn [row column]. split; [done|].
  by apply placed_delete, placed_insert.
Qed.

Section checks.
Context {D : Prop}.

Lemma wp_isAttacked color s b :
  on_board s = true -> wp_in D (isAttacked color s) (fun _ b' => b' = b) (fun _ _ => False) b.
Proof.
  intros Hs. destruct (isAttacked_attacked color s b Hs) as (r & E & _).
  unfold wp_in. by rewrite E.
Qed.

Lemma findKing_stands color b k : placed b -> findKing color b = Ret k -> stands b k.
Proof.
  intros Hb Hk. pose proof (findKing_spec color b) as H. rewrite Hk in H.
  apply in_all_stands; [done|apply H].
Qed.

Lemma wp_isInCheck color b :
  placed b -> wp_in D (isInCheck color) (fun _ b' => b' = b) (fun _ _ => False) b.
Proof.
  intros Hb. unfold isInCheck. apply wp_catch, wp_bind, wp_get.
  pose proof (findKing_spec color b) as Hk.
  destruct (findKing color b) as [k|e| |] eqn:E; [|destruct Hk as [-> _]; done|done..].
  apply wp_bind, wp_lift. eapply wp_mono; [apply wp_isAttacked| |]; [|done|done].
  apply (stands_on b); [done|]. by eapply findKing_stands.
Qed.

Lemma wp_escape_loop color b king squares :
  placed b -> stands b king -> (forall s, s ∈ squares -> s ∈ canMoveTo b king) ->
  wp_in D (escape_loop color b king squares) (fun _ b' => placed b') (fun _ _ => False) b.
Proof.
  intros Hb Hk. induction squares as [|s rest IH]; intros Hs; [done|]. cbn [escape_loop].
  assert (Hin : s ∈ canMoveTo b king) by (apply Hs; left).
  pose proof (canMoveTo_target _ _ _ Hin) as [Hon _].
  destruct (move_piece_board b king s) as [E Hp]; [done|done|done|by eapply canMoveTo_moves|].
  apply wp_bind. unfold wp_in at 1. rewrite E.
  apply wp_bind. eapply wp_mono; [by apply wp_isAttacked| |done].
  intros attacked b' ->. destruct attacked; cbn [negb]; [|done].
  apply wp_bind. change (wp_in D (escape_loop color b king rest) (fun _ b' => placed b')
    (fun _ _ => False) b). apply IH. intros s' Hs'. apply Hs. by right.
Qed.

Lemma wp_isCheckmated color b :
  placed b -> wp_in D (isCheckmated color) (fun _ b' => placed b') (fun _ _ => False) b.
Proof.
  intros Hb. unfold isCheckmated. apply wp_bind, wp_get.
  pose proof (findKing_spec color b) as Hk.
  destruct (findKing color b) as [k|e| |] eqn:E; [|destruct Hk as [-> _]; done|done..].
  assert (Hs : stands b k) by (by eapply findKing_stands).
  apply wp_bind. eapply wp_mono; [by apply wp_isAttacked, (stands_on b)| |done].
  intros attacked b' ->. destruct attacked; cbn [negb]; [|done]. by apply wp_escape_loop.
Qed.

End checks.

(** ** Promotion *)

Definition promoted_at (color : Color) (r : Z) (columns : list Z) (b : board) (rc : Z * Z) : Prop :=
  rc.1 = r /\ rc.2 ∈ columns /\ promotes color (b !! rc) = true.
#[export] Instance promoted_at_dec color r columns b rc : Decision (promoted_at color r columns b rc).
Proof. solve_decision. Defined.

Lemma promote_row_spec color r columns b :
  placed b -> NoDup columns -> (forall c, c ∈ columns -> on_board (Sq r c) = true) ->
  exists b', promote_row color r columns b =
    (Ret (map (fun c => Sq r c) (List.filter (fun c => promotes color (b !! (r, c))) columns)), b')
    /\ placed b' /\
    forall rc, b' !! rc = if bool_decide (promoted_at color r columns b rc)
                          then Some (Piece Queen color (Sq rc.1 rc.2)) else b !! rc.
Proof.
  intros Hb Hnd Hon. revert b Hb. induction columns as [|c rest IH]; intros b Hb.
  { exists b. split; [done|]. split; [done|]. intros rc. rewrite bool_decide_false; [done|].
    intros (_ & H & _). by apply not_elem_of_nil in H. }
  apply NoDup_cons in Hnd as [Hc Hnd].
  pose proof (Hon c ltac:(left)) as Honc.
  assert (Hon' : forall c, c ∈ rest -> on_board (Sq r c) = true) by (intros; apply Hon; by right).
  cbn [promote_row]. mrun.
  change (at_cell b r c) with (at_square b (Sq r c)). rewrite at_square_lookup by done.
  cbn [row column List.filter].
  destruct (promotes color (b !! (r, c))) eqn:Ep.
  - unfold promotes in Ep. destruct (b !! (r, c)) as [p|] eqn:Eb; [|done]. rewrite Ep.
    destruct (Hb _ _ _ Eb) as [_ Hsq]. unfold erase_piece. rewrite Hsq. cbn [row column].
    rewrite put_cell_on by done. unfold set_piece. rewrite put_cell_on by done.
    rewrite insert_delete_eq.
    set (b1 := <[(r, c) := Piece Queen color (Sq r c)]> b).
    assert (Hsame : forall c', c' ∈ rest -> b1 !! (r, c') = b !! (r, c')).
    { intros c' Hc'. unfold b1. rewrite lookup_insert_ne; [done|]. congruence. }
    destruct (IH Hnd Hon' b1) as (b' & E & Hb' & Hl); [by apply placed_insert|].
    exists b'. rewrite E. cbn [map]. split; [|split; [done|]].
    + do 4 f_equal. apply List.filter_ext_in. intros c' Hc'%list_elem_of_In.
      by rewrite Hsame.
    + intros [r' c']. rewrite Hl. destruct (decide ((r', c') = (r, c))) as [[= -> ->]|Hne].
      * rewrite bool_decide_false by (unfold promoted_at; cbn; tauto).
        rewrite bool_decide_true; [unfold b1; by rewrite lookup_insert_eq|].
        split; [done|]. split; [left|]. by rewrite Eb.
      * assert (Hl1 : b1 !! (r', c') = b !! (r', c')).
        { unfold b1. apply lookup_insert_ne. congruence. }
        rewrite (bool_decide_ext (promoted_at color r rest b1 (r', c'))
                   (promoted_at color r (c :: rest) b (r', c'))); [by rewrite Hl1|].
        unfold promoted_at. cbn [fst snd]. rewrite Hl1, elem_of_cons.
        split; [tauto|]. intros (-> & [->|?] & ?); [done|tauto].
  - destruct (IH Hnd Hon' b Hb) as (b' & E & Hb' & Hl). exists b'. split; [|split; [done|]].
    + destruct (b !! (r, c)) as [p|] eqn:Eb; [unfold promotes in Ep; rewrite Ep|]; exact E.
    + intros [r' c']. rewrite Hl.
      rewrite (bool_decide_ext (promoted_at color r rest b (r', c'))
                 (promoted_at color r (c :: rest) b (r', c'))); [done|]. unfold promoted_at. cbn [fst snd]. rewrite elem_of_cons.
      split; [tauto|]. intros (-> & [->|?] & ?); [congruence|tauto].
Qed.

Lemma rows_nodup : NoDup rows.
Proof. refine (bool_decide_unpack _ _). vm_compute. exact I. Qed.

Lemma in_rows c : c ∈ rows <-> (0 <= c < 8)%Z.
Proof.
  split.
  - intros H. repeat (apply elem_of_cons in H as [->|H]; [lia|]). by apply not_elem_of_nil in H.
  - intros H. apply list_elem_of_In. cbn. lia.
Qed.

Lemma rows_on_board r c : (0 <= r < 8)%Z -> c ∈ rows -> on_board (Sq r c) = true.
Proof. intros Hr Hc%in_rows. by apply on_board_iff. Qed.

(** The squares on which [checkPawns] finds a pawn to promote. *)
Definition promoted_squares (b : board) : list Square :=
  map (Sq 0) (List.filter (fun c => promotes White (b !! (0, c)%Z)) rows) ++
  map (Sq 7) (List.filter (fun c => promotes Black (b !! (7, c)%Z)) rows).

Lemma promotes_iff color r c b p :
  placed b -> b !! (r, c) = Some p -> r = last_row color ->
  promotes color (b !! (r, c)) = true <-> p_color p = color /\ promote_piece p <> p.
Proof.
  intros Hb Hp Hr. destruct (Hb _ _ _ Hp) as [_ Hsq]. rewrite Hp. unfold promotes, promote_piece.
  rewrite Hsq. cbn [row]. rewrite andb_true_iff, !bool_decide_eq_true. split.
  - intros [Ht Hc]. split; [done|]. rewrite Hc, Hr, !bool_decide_true by done. cbn [andb].
    destruct p as [t q sq]. cbn in *. congruence.
  - intros [Hc H]. split; [|done].
    destruct (decide (p_type p = Pawn)) as [|Hn]; [done|].
    by rewrite (bool_decide_false (p_type p = Pawn)) in H.
Qed.

Lemma promote_piece_queen p :
  promote_piece p = p \/
  promote_piece p = Piece Queen (p_color p) (p_square p) /\ row (p_square p) = last_row (p_color p).
Proof.
  unfold promote_piece. destruct (_ && _) eqn:E; [|by left]. right.
  apply andb_true_iff in E as [_ E%bool_decide_eq_true]. done.
Qed.

Lemma checkPawns_spec b :
  placed b -> checkPawns b = (Ret (promoted_squares b), promote_piece <$> b).
Proof.
  intros Hb. unfold checkPawns. mrun.
  destruct (promote_row_spec White 0 rows b Hb rows_nodup) as (b1 & E1 & Hb1 & H1).
  { intros c Hc. by apply rows_on_board. }
  rewrite E1.
  destruct (promote_row_spec Black (height - 1) rows b1 Hb1 rows_nodup) as (b2 & E2 & Hb2 & H2).
  { intros c Hc. by apply rows_on_board. }
  rewrite E2. change (height - 1)%Z with 7%Z in *.
  assert (Hsame : forall c, b1 !! (7, c)%Z = b !! (7, c)%Z).
  { intros c. rewrite H1, bool_decide_false; [done|]. intros (H & _). discriminate H. }
  replace (promoted_squares b) with
    (map (Sq 0) (List.filter (fun c => promotes White (b !! (0, c)%Z)) rows) ++
     map (Sq 7) (List.filter (fun c => promotes Black (b1 !! (7, c)%Z)) rows))
    by (unfold promoted_squares; f_equal; f_equal; apply List.filter_ext_in;
        intros c _; by rewrite Hsame).
  replace (promote_piece <$> b) with b2; [done|].
  apply map_eq. intros [r c]. rewrite lookup_fmap, H2.
  destruct (b !! (r, c)) as [p|] eqn:Ep; cbn [fmap option_fmap option_map].
  - destruct (Hb _ _ _ Ep) as [Hon Hsq].
    assert (Hc : c ∈ rows) by (apply in_rows; apply on_board_iff in Hon; apply Hon).
    destruct (bool_decide (promoted_at Black 7 rows b1 (r, c))) eqn:Eb.
    + apply bool_decide_eq_true in Eb as (Hr & _ & Hp). cbn [fst snd] in *. subst r.
      rewrite Hsame in Hp. apply (promotes_iff Black 7 c b p Hb Ep eq_refl) in Hp as [Hcol Hne].
      destruct (promote_piece_queen p) as [|[-> _]]; [done|]. by rewrite Hcol, Hsq.
    + apply bool_decide_eq_false in Eb. rewrite H1.
      destruct (bool_decide (promoted_at White 0 rows b (r, c))) eqn:Ew.
      * apply bool_decide_eq_true in Ew as (Hr & _ & Hp). cbn [fst snd] in *. subst r.
        apply (promotes_iff White 0 c b p Hb Ep eq_refl) in Hp as [Hcol Hne].
        destruct (promote_piece_queen p) as [|[-> _]]; [done|]. by rewrite Hcol, Hsq.
      * apply bool_decide_eq_false in Ew. rewrite Ep. f_equal. symmetry.
        destruct (decide (promote_piece p = p)) as [|Hne]; [done|exfalso].
        destruct (promote_piece_queen p) as [|[_ Hr]]; [done|]. rewrite Hsq in Hr. cbn in Hr.
        destruct (p_color p) eqn:Hcol; cbn in Hr; subst r.
        -- apply Eb. split; [done|]. split; [done|]. rewrite Hsame.
           by apply (promotes_iff Black 7 c b p Hb Ep eq_refl).
        -- apply Ew. split; [done|]. split; [done|].
           by apply (promotes_iff White 0 c b p Hb Ep eq_refl).
  - rewrite bool_decide_false.
    + rewrite H1, bool_decide_false; [done|]. intros (_ & _ & H). by rewrite Ep in H.
    + intros (Hr & _ & H). cbn [fst] in Hr. subst r. by rewrite Hsame, Ep in H.
Qed.

(** ** A match in play

    [at_match s0 r m s]: since [s0], only the match [r], which is now [m], and
    the messages sent have changed; [playing] allows for rolls of the dice. *)

Definition at_match (s0 : chess) (r : nat) (m : chess_match) (s : chess) : Prop :=
  exists out, s = Chess (<[r := m]> (ch_matches s0)) (ch_next s0) (ch_matchesByID s0)
    (ch_matchesByClient s0) (ch_connections s0) (ch_clients s0) (ch_live s0) (ch_draws s0) out.
Definition playing (s0 : chess) (r : nat) (m : chess_match) (s : chess) : Prop :=
  exists n, at_match (with_draws n s0) r m s.

Definition human_ids (p : option player) : list Z :=
  match p with
  | Some p => match pl_class p with HumanPlayer id => [id] | _ => [] end
  | None => []
  end.

(** The clients that take part in a match or watch it. *)
Definition people (m : chess_match) : list Z :=
  human_ids (m_host m) ++ human_ids (m_guest m) ++ m_spectators m.

Definition all_live (s : chess) (m : chess_match) : Prop := forall id, id ∈ people m -> id ∈ ch_live s.

Lemma at_match_start s r m : ch_matches s !! r = Some m -> at_match s r m s.
Proof.
  intros H. exists (ch_out s). rewrite insert_id by done. by destruct s.
Qed.

Lemma at_match_lookup s0 r m s : at_match s0 r m s -> ch_matches s !! r = Some m.
Proof. intros (o & ->). cbn. by rewrite lookup_insert_eq. Qed.

Lemma at_match_live s0 r m s : at_match s0 r m s -> ch_live s = ch_live s0.
Proof. by intros (o & ->). Qed.

Lemma at_match_trans s0 r m s m' s' : at_match s0 r m s -> at_match s r m' s' -> at_match s0 r m' s'.
Proof.
  intros (o & ->) (o' & ->). exists o'. cbn. by rewrite insert_insert_eq.
Qed.

Section in_play.
Context {D : Prop} (s0 : chess) (r : nat).

Lemma wp_get_match m Q E s :
  at_match s0 r m s -> Q m s -> wp_in D (get_match r) Q E s.
Proof.
  intros Hm HQ. unfold get_match. apply wp_bind, wp_get. by rewrite (at_match_lookup _ _ _ _ Hm).
Qed.

Lemma wp_modify_match m f (Q : () -> chess -> Prop) E s :
  at_match s0 r m s -> (forall s', at_match s0 r (f m) s' -> Q tt s') ->
  wp_in D (modify_match r f) Q E s.
Proof.
  intros Hm HQ. unfold modify_match. apply wp_bind. eapply wp_get_match; [done|].
  apply wp_modify, HQ. destruct Hm as (o & ->). exists o. unfold with_matches. cbn.
  by rewrite insert_insert_eq.
Qed.

Lemma wp_on_board {A} (op : M board A) m P (Q : A -> chess -> Prop) E s :
  at_match s0 r m s -> wp_in D op P (fun _ _ => False) (m_board m) ->
  (forall x b s', P x b -> at_match s0 r (set_board b m) s' -> Q x s') ->
  wp_in D (on_match_board r op) Q E s.
Proof.
  intros Hm Hop HQ. unfold wp_in, on_match_board. rewrite (at_match_lookup _ _ _ _ Hm).
  unfold wp_in in Hop. destruct (op (m_board m)) as [[x|e| |] b]; try done.
  apply (HQ x b); [done|]. destruct Hm as (o & ->). exists o. unfold with_matches. cbn.
  by rewrite insert_insert_eq.
Qed.

Lemma wp_reply m id message (Q : () -> chess -> Prop) E s :
  at_match s0 r m s -> (forall s', at_match s0 r m s' -> Q tt s') -> wp_in D (reply id message) Q E s.
Proof.
  intros (o & ->) HQ. apply wp_modify, HQ. by exists (o ++ [(id, message)]).
Qed.

Lemma wp_send_client m id message (Q : () -> chess -> Prop) E s :
  at_match s0 r m s -> id ∈ ch_live s0 -> (forall s', at_match s0 r m s' -> Q tt s') ->
  wp_in D (send_client id message) Q E s.
Proof.
  intros Hm Hid HQ. unfold send_client. apply wp_bind, wp_get.
  rewrite bool_decide_true by (by rewrite (at_match_live _ _ _ _ Hm)). by eapply wp_reply.
Qed.

Lemma wp_for_each_reply m l (f : piece -> Z * bytes) (Q : () -> chess -> Prop) E s :
  at_match s0 r m s -> (forall s', at_match s0 r m s' -> Q tt s') ->
  wp_in D (for_each l (fun p => reply (f p).1 (f p).2)) Q E s.
Proof.
  intros Hm HQ. eapply wp_mono; [apply (wp_for_each l _ (at_match s0 r m) E s Hm)| |done].
  - intros p s' _ Hs'. eapply wp_reply; [done|]. done.
  - intros []. apply HQ.
Qed.

Lemma wp_broadcast m message (Q : () -> chess -> Prop) E s :
  at_match s0 r m s -> (forall s', at_match s0 r m s' -> Q tt s') -> wp_in D (broadcast message) Q E s.
Proof.
  intros Hm HQ. unfold broadcast. apply wp_bind, wp_get.
  eapply wp_mono; [apply (wp_for_each _ _ (at_match s0 r m) E s Hm)| |done].
  - intros id s' _ Hs'. eapply wp_reply; [done|]. done.
  - intros []. apply HQ.
Qed.

Lemma wp_send_to_player m p message (Q : () -> chess -> Prop) E s :
  at_match s0 r m s -> (forall id, id ∈ human_ids p -> id ∈ ch_live s0) ->
  (forall s', at_match s0 r m s' -> Q tt s') -> wp_in D (send_to_player p message) Q E s.
Proof.
  intros Hm Hl HQ. unfold send_to_player, player_send, human_ids in *. destruct p as [p|]; [|by apply HQ].
  destruct (pl_class p) as [id| | |]; try by apply HQ.
  eapply wp_send_client; [done| |done]. apply Hl. left.
Qed.

Section live.
Context (m : chess_match) (Hlive : all_live s0 m).

Lemma live_host id : id ∈ human_ids (m_host m) -> id ∈ ch_live s0.
Proof. intros H. apply Hlive. unfold people. rewrite !elem_of_app. tauto. Qed.
Lemma live_guest id : id ∈ human_ids (m_guest m) -> id ∈ ch_live s0.
Proof. intros H. apply Hlive. unfold people. rewrite !elem_of_app. tauto. Qed.
Lemma live_spectators id : id ∈ m_spectators m -> id ∈ ch_live s0.
Proof. intros H. apply Hlive. unfold people. rewrite !elem_of_app. tauto. Qed.

Lemma wp_sendHost message (Q : bool -> chess -> Prop) E s :
  at_match s0 r m s -> (forall b s', at_match s0 r m s' -> Q b s') -> wp_in D (sendHost r message) Q E s.
Proof.
  intros Hm HQ. unfold sendHost. apply wp_bind. eapply wp_get_match; [done|]. apply wp_bind.
  eapply wp_send_to_player; [done|apply live_host|]. intros s' Hs'. by apply wp_ret, HQ.
Qed.

Lemma wp_sendGuest message (Q : bool -> chess -> Prop) E s :
  at_match s0 r m s -> (forall b s', at_match s0 r m s' -> Q b s') -> wp_in D (sendGuest r message) Q E s.
Proof.
  intros Hm HQ. unfold sendGuest. apply wp_bind. eapply wp_get_match; [done|]. apply wp_bind.
  eapply wp_send_to_player; [done|apply live_guest|]. intros s' Hs'. by apply wp_ret, HQ.
Qed.

Lemma wp_sendSpectators message (Q : () -> chess -> Prop) E s :
  at_match s0 r m s -> (forall s', at_match s0 r m s' -> Q tt s') ->
  wp_in D (sendSpectators r message) Q E s.
Proof.
  intros Hm HQ. unfold sendSpectators. apply wp_bind. eapply wp_get_match; [done|].
  eapply wp_mono; [apply (wp_for_each _ _ (at_match s0 r m) E s Hm)| |done].
  - intros id s' Hid Hs'. eapply wp_send_client; [done|by apply live_spectators|done].
  - intros []. apply HQ.
Qed.

Lemma wp_sendAll message (Q : () -> chess -> Prop) E s :
  at_match s0 r m s -> (forall s', at_match s0 r m s' -> Q tt s') -> wp_in D (sendAll r message) Q E s.
Proof.
  intros Hm HQ. unfold sendAll, sendBoth. apply wp_bind, wp_bind. eapply wp_get_match; [done|].
  apply wp_bind. eapply wp_send_to_player; [done|apply live_host|]. intros s1 H1.
  eapply wp_send_to_player; [done|apply live_guest|]. intros s2 H2. by apply wp_sendSpectators.
Qed.

Lemma wp_sendBoard (Q : () -> chess -> Prop) E s :
  at_match s0 r m s -> (forall s', at_match s0 r m s' -> Q tt s') -> wp_in D (sendBoard r) Q E s.
Proof.
  intros Hm HQ. unfold sendBoard. apply wp_bind. eapply wp_get_match; [done|]. by apply wp_sendAll.
Qed.

Lemma wp_send_squares (l : list Square) (f : Square -> bytes) (Q : () -> chess -> Prop) E s :
  at_match s0 r m s -> (forall s', at_match s0 r m s' -> Q tt s') ->
  wp_in D (for_each l (fun x => sendAll r (f x))) Q E s.
Proof.
  intros Hm HQ. eapply wp_mono; [apply (wp_for_each l _ (at_match s0 r m) E s Hm)| |done].
  - intros x s' _ Hs'. by apply wp_sendAll.
  - intros []. apply HQ.
Qed.
End live.
End in_play.

(** ** The dice *)

(** [n] different columns of the board, in ascending order. *)
Definition columns_ok (n : nat) (l : list Z) : Prop :=
  StronglySorted Z.lt l /\ (forall c, c ∈ l -> (0 <= c < 8)%Z) /\ length l = n.

Lemma elem_of_insert_column c x l : x ∈ insert_column c l <-> x = c \/ x ∈ l.
Proof.
  induction l as [|y l IH]; cbn [insert_column].
  - rewrite list_elem_of_singleton. split; [by left|]. intros [->|H]; [done|by apply not_elem_of_nil in H].
  - destruct (Z.ltb_spec c y); [by rewrite elem_of_cons|].
    destruct (Z.eqb_spec c y) as [->|]; [rewrite elem_of_cons; tauto|].
    rewrite !elem_of_cons, IH. tauto.
Qed.

Lemma insert_column_ok n c l :
  columns_ok n l -> (0 <= c < 8)%Z -> c ∉ l -> columns_ok (S n) (insert_column c l).
Proof.
  intros (Hs & Hr & <-) Hc Hin. split; [|split].
  - clear Hr. induction l as [|y l IH]; cbn [insert_column]; [by repeat constructor|].
    apply StronglySorted_inv in Hs as [Hs Hall]. rewrite not_elem_of_cons in Hin.
    destruct (Z.ltb_spec c y) as [Hlt|Hge].
    + constructor; [by constructor|]. constructor; [done|].
      eapply List.Forall_impl; [|exact Hall]. cbn. lia.
    + destruct (Z.eqb_spec c y); [tauto|]. constructor; [apply IH; tauto|].
      rewrite Forall_forall in Hall |- *. intros x [->|Hx]%elem_of_insert_column; [lia|].
      by apply Hall.
  - intros x [->|Hx]%elem_of_insert_column; [done|by apply Hr].
  - clear Hs Hr. induction l as [|y l IH]; cbn [insert_column]; [done|].
    rewrite not_elem_of_cons in Hin. destruct (c <? y)%Z; [done|].
    destruct (Z.eqb_spec c y); [tauto|]. cbn [length]. f_equal. apply IH. tauto.
Qed.

(** The column two dice stand for. *)
Definition dice_column (first second : Z) : Z := (first mod 6 + second mod 6 + 1) mod 8.

Lemma reduce_dice a b :
  (reduce 2 ((a mod 6 + 1) + (b mod 6 + 1)) - 1)%Z = dice_column a b.
Proof.
  unfold dice_column. pose proof (Z.mod_pos_bound a 6 ltac:(lia)).
  pose proof (Z.mod_pos_bound b 6 ltac:(lia)). cbn [reduce]. unfold width.
  destruct (Z.ltb_spec 8 (a mod 6 + 1 + (b mod 6 + 1))) as [Hlt|Hge].
  - destruct (Z.ltb_spec 8 (a mod 6 + 1 + (b mod 6 + 1) - 8)); [lia|].
    replace (a mod 6 + b mod 6 + 1)%Z with (a mod 6 + b mod 6 + 1 - 8 + 1 * 8)%Z by lia.
    rewrite Z.mod_add, (Z.mod_small (_ - 8)) by lia. lia.
  - rewrite (Z.mod_small (_ + 1)) by lia. lia.
Qed.

Definition drawn (rand : nat -> N) (n : nat) : Z :=
  dice_column (Z.of_N (rand n)) (Z.of_N (rand (S n))).

Lemma draw_column_run rand s :
  draw_column rand s = (Ret (drawn rand (ch_draws s)), with_draws (S (S (ch_draws s))) s).
Proof. unfold draw_column, next_rand. mrun. rewrite reduce_dice. by destruct s. Qed.

Lemma drawn_bounds rand n : (0 <= drawn rand n < 8)%Z.
Proof. apply Z.mod_pos_bound. lia. Qed.

Section rolling.
Context (rand : nat -> N) (s0 : chess) (r : nat).

Lemma with_draws_at_match m n s : at_match s0 r m s -> at_match (with_draws n s0) r m (with_draws n s).
Proof. intros (o & ->). by exists o. Qed.

Lemma at_match_playing m s : at_match s0 r m s -> playing s0 r m s.
Proof. intros (o & ->). by exists (ch_draws s0), o. Qed.
End rolling.

Section partial_rolling.
Context (rand : nat -> N) (s0 : chess) (r : nat).

Lemma wp_draw_new fuel m columns (Q : Z -> chess -> Prop) E s :
  playing s0 r m s ->
  (forall c s', playing s0 r m s' -> (0 <= c < 8)%Z -> c ∉ columns -> Q c s') ->
  wp (draw_new rand fuel columns) Q E s.
Proof.
  intros Hm HQ. revert s Hm. induction fuel as [|f IH]; intros s [n Hm]; [done|]. cbn [draw_new].
  apply wp_bind. unfold wp_in at 1. rewrite draw_column_run. cbv beta iota.
  pose proof (drawn_bounds rand (ch_draws s)).
  apply (with_draws_at_match _ _ _ (S (S (ch_draws s)))) in Hm.
  assert (Hp : playing s0 r m (with_draws (S (S (ch_draws s))) s)) by by eexists.
  destruct (decide (drawn rand (ch_draws s) ∈ columns)) as [Hin|Hin].
  - rewrite bool_decide_true by done. by apply IH.
  - rewrite bool_decide_false by done. by apply HQ.
Qed.

Lemma wp_roll_columns n fuel m k (Q : () -> chess -> Prop) E s :
  playing s0 r m s -> columns_ok k (m_columns m) ->
  (forall columns s', playing s0 r (set_columns columns m) s' -> columns_ok (n + k) columns ->
                      Q tt s') ->
  wp (roll_columns rand n fuel r) Q E s.
Proof.
  revert m k s. induction n as [|n IH]; intros m k s [d Hm] Hk HQ.
  - apply wp_ret. apply (HQ (m_columns m)); [exists d; by destruct m|done].
  - cbn [roll_columns]. apply wp_bind. eapply wp_get_match; [done|]. apply wp_bind.
    eapply wp_draw_new; [by exists d|]. intros c s1 [d1 H1] Hc Hin.
    apply wp_bind. eapply wp_modify_match; [done|]. intros s2 H2.
    eapply (IH _ (S k)); [exists d1; exact H2|by apply insert_column_ok|].
    intros columns s3 H3 Hok. apply (HQ columns); [exact H3|].
    by replace (S n + k) with (n + S k) by lia.
Qed.

Lemma wp_roll fuel m (Q : () -> chess -> Prop) E s :
  playing s0 r m s -> all_live s0 m ->
  (forall columns s', playing s0 r (set_columns columns m) s' ->
     columns_ok (Z.to_nat (mo_columnCount (m_options m))) columns -> Q tt s') ->
  wp (roll rand fuel r) Q E s.
Proof.
  intros [d Hm] Hl HQ. unfold roll. apply wp_bind. eapply wp_modify_match; [done|]. intros s1 H1.
  apply wp_bind. eapply wp_get_match; [done|]. apply wp_bind.
  eapply (wp_roll_columns _ _ _ 0); [exists d; exact H1| |].
  { split; [constructor|]. split; [by intros c ?%not_elem_of_nil|done]. }
  intros columns s2 [d2 H2] Hok. rewrite Nat.add_0_r in Hok.
  apply wp_bind. eapply wp_get_match; [done|]. eapply wp_sendAll; [|exact H2|]; [exact Hl|].
  intros s3 H3. apply (HQ columns); [exists d2; exact H3|done].
Qed.

(** The state after the loops of rolls: the match has new columns, on one of
    which the colour whose turn it is can move. *)
Definition rolled (m : chess_match) (columns : list Z) : Prop :=
  columns_ok (Z.to_nat (mo_columnCount (m_options m))) columns /\
  canMove (set_columns columns m) = true.

Lemma wp_roll_until fuel m (Q : () -> chess -> Prop) E s :
  playing s0 r m s -> all_live s0 m ->
  (forall columns s', playing s0 r (set_columns columns m) s' -> rolled m columns -> Q tt s') ->
  wp (roll_until rand fuel r) Q E s.
Proof.
  revert m s. induction fuel as [|f IH]; intros m s Hm Hl HQ; [done|]. cbn [roll_until].
  apply wp_bind. eapply wp_roll; [done|done|]. intros columns s1 [d1 H1] Hok.
  apply wp_bind. eapply wp_get_match; [done|].
  destruct (canMove (set_columns columns m)) eqn:E1.
  - apply (HQ columns); [by exists d1|done].
  - eapply IH; [exists d1; exact H1|exact Hl|]. intros columns' s2 H2 Hr.
    apply (HQ columns'); [exact H2|exact Hr].
Qed.

(** The colours that may have the turn after that of [m]: the other one, or, when
    turns are skipped, the one after a colour that could move on none of the columns
    that were rolled for it. *)
Inductive passes (m : chess_match) : Color -> Prop :=
| passes_once : passes m (otherColor (m_currentTurn m))
| passes_on turn columns :
    passes m turn -> columns_ok (Z.to_nat (mo_columnCount (m_options m))) columns ->
    canMove (set_columns columns (set_turn turn m)) = false -> passes m (otherColor turn).

(** Whose turn is next, by the options of the match. *)
Definition turn_passes (m : chess_match) (turn : Color) : Prop :=
  if mo_noSkip (m_options m) then turn = otherColor (m_currentTurn m) else passes m turn.

Lemma wp_skip_turns fuel m turn0 columns0 (Q : () -> chess -> Prop) E s :
  playing s0 r (set_columns columns0 (set_turn turn0 m)) s -> all_live s0 m -> passes m (otherColor turn0) ->
  (forall turn columns s', playing s0 r (set_columns columns (set_turn turn m)) s' ->
     passes m turn -> rolled (set_turn turn m) columns -> Q tt s') ->
  wp (skip_turns rand fuel r) Q E s.
Proof.
  revert turn0 columns0 s. induction fuel as [|f IH]; intros turn0 columns0 s [d Hm] Hl Hp HQ; [done|]. cbn [skip_turns].
  apply wp_bind. eapply wp_modify_match; [done|]. intros s1 H1.
  apply wp_bind. eapply wp_get_match; [done|].
  apply wp_bind. eapply wp_sendAll; [|exact H1|]; [exact Hl|]. intros s2 H2.
  apply wp_bind. eapply wp_roll; [exists d; exact H2|exact Hl|]. intros columns s3 [d3 H3] Hok.
  apply wp_bind. eapply wp_get_match; [done|].
  destruct (canMove _) eqn:E1.
  - eapply HQ; [exists d3; exact H3|done|done].
  - apply wp_bind. eapply wp_sendAll; [|exact H3|]; [exact Hl|]. intros s4 H4.
    eapply (IH (otherColor turn0) columns); [exists d3; exact H4|exact Hl|by eapply passes_on|done].
Qed.

Lemma wp_next_turn fuel m (Q : () -> chess -> Prop) E s :
  playing s0 r m s -> all_live s0 m ->
  (forall turn columns s', playing s0 r (set_columns columns (set_turn turn m)) s' ->
     turn_passes m turn -> rolled (set_turn turn m) columns -> Q tt s') ->
  wp (next_turn rand fuel r) Q E s.
Proof.
  intros [d Hm] Hl HQ. unfold next_turn. apply wp_bind. eapply wp_get_match; [done|].
  unfold turn_passes in HQ. destruct (mo_noSkip (m_options m)).
  - apply wp_bind. eapply wp_modify_match; [done|]. intros s1 H1.
    apply wp_bind. eapply wp_get_match; [done|].
    apply wp_bind. eapply wp_sendAll; [|exact H1|]; [exact Hl|]. intros s2 H2.
    eapply wp_roll_until; [exists d; exact H2|exact Hl|]. intros columns s3 H3 Hr. by eapply HQ.
  - eapply (wp_skip_turns _ m (m_currentTurn m) (m_columns m)); [exists d; by destruct m|done|apply passes_once|done].
Qed.
End partial_rolling.

(** ** The end of a match *)

(** [without l t]: the table [t], less the clients [l]. *)
Definition without (l : list Z) (t t' : gmap Z nat) : Prop :=
  forall c, t' !! c = if bool_decide (c ∈ l) then None else t !! c.

Lemma without_nil t : without [] t t.
Proof. intros c. by rewrite bool_decide_false by apply not_elem_of_nil. Qed.

Lemma without_delete id t : without [id] t (delete id t).
Proof.
  intros c. destruct (decide (c ∈ [id])) as [Hin|Hin].
  - rewrite bool_decide_true by done. apply list_elem_of_singleton in Hin as ->.
    apply lookup_delete_eq.
  - rewrite bool_decide_false by done. apply lookup_delete_ne. intros ->. apply Hin. left.
Qed.

Lemma without_trans l1 l2 t1 t2 t3 :
  without l1 t1 t2 -> without l2 t2 t3 -> without (l1 ++ l2) t1 t3.
Proof.
  intros H1 H2 c. rewrite H2, H1.
  destruct (decide (c ∈ l1)), (decide (c ∈ l2)); repeat case_bool_decide; try done;
    rewrite elem_of_app in *; tauto.
Qed.

Lemma without_same l1 l2 t t' :
  (forall c, c ∈ l1 <-> c ∈ l2) -> without l1 t t' -> without l2 t t'.
Proof. intros H Ht c. rewrite Ht. by rewrite (bool_decide_ext _ _ (H c)). Qed.

(** The match [r] is over: its name and its people have left the tables. *)
Definition tables (s0 : chess) (r : nat) (m : chess_match) (byID : gmap bytes nat)
    (byClient : gmap Z nat) (s : chess) : Prop :=
  exists draws out, s = Chess (<[r := m]> (ch_matches s0)) (ch_next s0) byID byClient
    (ch_connections s0) (ch_clients s0) (ch_live s0) draws out.

Definition ended (s0 : chess) (r : nat) (m : chess_match) (s : chess) : Prop :=
  m_over m = true /\ exists byClient,
    tables s0 r m (delete (mo_matchID (m_options m)) (ch_matchesByID s0)) byClient s /\
    without (people m) (ch_matchesByClient s0) byClient.

Lemma at_match_tables s0 r m s :
  at_match s0 r m s -> tables s0 r m (ch_matchesByID s0) (ch_matchesByClient s0) s.
Proof. intros (o & ->). by exists (ch_draws s0), o. Qed.

Section ending.
Context {D : Prop}.

Lemma wp_reply_all l message s0 r m i c (Q : () -> chess -> Prop) E s :
  tables s0 r m i c s -> (forall s', tables s0 r m i c s' -> Q tt s') ->
  wp_in D (for_each l (fun id => reply id message)) Q E s.
Proof.
  intros Hm HQ. eapply wp_mono; [apply (wp_for_each l _ (tables s0 r m i c) E s Hm)| |done].
  - intros id s' _ (d & o & ->). apply wp_modify. by exists d, (o ++ [(id, message)]).
  - intros []. apply HQ.
Qed.

Lemma wp_broadcast_tables message s0 r m i c (Q : () -> chess -> Prop) E s :
  tables s0 r m i c s -> (forall s', tables s0 r m i c s' -> Q tt s') -> wp_in D (broadcast message) Q E s.
Proof. intros Hm HQ. unfold broadcast. apply wp_bind, wp_get. by eapply wp_reply_all. Qed.

Lemma wp_delete_client id s0 r m i c (Q : () -> chess -> Prop) E s :
  tables s0 r m i c s ->
  (forall c' s', tables s0 r m i c' s' -> without [id] c c' -> Q tt s') ->
  wp_in D (modify (with_byClient (delete id))) Q E s.
Proof.
  intros (d & o & ->) HQ. apply wp_modify. apply (HQ (delete id c)).
  - by exists d, o.
  - apply without_delete.
Qed.

Lemma wp_erase_client p s0 r m i c (Q : () -> chess -> Prop) E s :
  tables s0 r m i c s ->
  (forall c' s', tables s0 r m i c' s' -> without (human_ids p) c c' -> Q tt s') ->
  wp_in D (erase_client p) Q E s.
Proof.
  intros Hm HQ. unfold erase_client, human_ids in *.
  destruct p as [p|]; [destruct (pl_class p) as [id| | |]|]; try (apply wp_ret, (HQ c); [done|apply without_nil]).
  by eapply wp_delete_client.
Qed.

Lemma wp_delete_clients l s0 r m i c (Q : () -> chess -> Prop) E s :
  tables s0 r m i c s ->
  (forall c' s', tables s0 r m i c' s' -> without l c c' -> Q tt s') ->
  wp_in D (for_each l (fun id => modify (with_byClient (delete id)))) Q E s.
Proof.
  revert c s. induction l as [|id l IH]; intros c s Hm HQ.
  - apply wp_ret, (HQ c); [done|apply without_nil].
  - cbn [for_each]. apply wp_bind. eapply wp_delete_client; [done|]. intros c1 s1 H1 Hc1.
    eapply IH; [done|]. intros c2 s2 H2 Hc2. apply (HQ c2); [done|].
    change (id :: l) with ([id] ++ l). by eapply without_trans.
Qed.

Lemma wp_end_messages s0 r m (winner : option player) (Q : () -> chess -> Prop) E s :
  at_match s0 r m s -> all_live s0 m -> (forall s', at_match s0 r m s' -> Q tt s') ->
  wp_in D (match winner with
      | None => sendAll r (lit ":End")
      | Some w =>
        let hostColor := mo_hostColor (m_options m) in
        (if bool_decide (is_Some (m_host m)) && bool_decide (pl_role w = Host) then
           _ ← sendHost r (lit ":Win"); _ ← sendGuest r (lit ":Lose"); mret tt
         else if bool_decide (is_Some (m_guest m)) && bool_decide (pl_role w = Guest) then
           _ ← sendHost r (lit ":Lose"); _ ← sendGuest r (lit ":Win"); mret tt
         else sendAll r (lit ":End")) ;;
        sendSpectators r (lit ":Win " ++ colorName (if bool_decide (pl_role w = Host) then hostColor
                                                    else otherColor hostColor))
      end) Q E s.
Proof.
  intros Hm Hl HQ. destruct winner as [w|]; [|by eapply wp_sendAll]. cbv zeta. apply wp_bind.
  assert (Hlast : forall message s', at_match s0 r m s' ->
                                     wp_in D (sendSpectators r message) Q E s').
  { intros message s' Hs'. by eapply wp_sendSpectators. }
  destruct (_ && _); [|destruct (_ && _)].
  1,2: apply wp_bind; eapply wp_sendHost; [done|done|]; intros _ s1 H1;
    apply wp_bind; eapply wp_sendGuest; [done|done|]; intros _ s2 H2; by apply wp_ret, Hlast.
  eapply wp_sendAll; [done|done|]. intros s1 H1. by apply Hlast.
Qed.

Lemma wp_end_match s0 r m winner (Q : () -> chess -> Prop) E s :
  at_match s0 r m s -> all_live s0 m ->
  (forall s', ended s0 r (set_over true m) s' -> Q tt s') ->
  wp_in D (end_match r winner) Q E s.
Proof.
  intros Hm Hl HQ. unfold end_match. apply wp_bind. eapply wp_get_match; [done|].
  apply wp_bind. eapply wp_end_messages; [done|done|]. intros s1 H1.
  apply wp_bind. eapply wp_modify_match; [done|]. intros s2 H2.
  apply at_match_tables in H2 as (d & o & ->).
  apply wp_bind, wp_modify. unfold with_byID. cbn [ch_matches ch_next ch_matchesByID ch_matchesByClient
    ch_connections ch_clients ch_live ch_draws ch_out].
  set (i := delete (mo_matchID (m_options m)) (ch_matchesByID s0)).
  apply wp_bind. eapply (wp_erase_client _ s0 r (set_over true m) i); [by exists d, o|].
  intros c1 s3 H3 Hc1. apply wp_bind. eapply wp_erase_client; [done|]. intros c2 s4 H4 Hc2.
  apply wp_bind. eapply wp_delete_clients; [done|]. intros c3 s5 H5 Hc3.
  assert (Hend : forall s', tables s0 r (set_over true m) i c3 s' -> Q tt s').
  { intros s' Hs'. apply HQ. split; [done|]. exists c3. split; [done|].
    pose proof (without_trans _ _ _ _ _ (without_trans _ _ _ _ _ Hc1 Hc2) Hc3) as Hc.
    revert Hc. apply without_same. intros c. unfold people. cbn. rewrite !elem_of_app. tauto. }
  destruct (mo_hidden (m_options m)); [by apply wp_ret, Hend|].
  by eapply wp_broadcast_tables.
Qed.

End ending.

(** ** Legal moves *)

(** A player of the match: the host is a client; the guest is a client too, or
    in a match against a program that program. *)
Definition is_program (p : player) : Prop :=
  match pl_class p with HumanPlayer _ => False | _ => True end.

Record match_ok (m : chess_match) : Prop := {
  ok_placed : placed (m_board m);
  ok_host p : m_host m = Some p -> pl_role p = Host /\ ~ is_program p;
  ok_guest p : m_guest m = Some p ->
    pl_role p = Guest /\ (is_program p <-> mo_class (m_options m) = AIMatch);
  ok_AI : mo_class (m_options m) = AIMatch -> is_Some (m_guest m);
  ok_null : mo_class (m_options m) = NullMatch -> m_currentTurn m = mo_hostColor (m_options m);
}.

(** The move [mv] of the piece [p] is one that the rules allow. *)
Definition candidate (m : chess_match) (mv : Move) (p : piece) : Prop :=
  stands (m_board m) p /\ p_square p = from mv /\ p_color p = m_currentTurn m /\
  column (from mv) ∈ m_columns m /\ to mv ∈ canMoveTo (m_board m) p.

Definition may_move (m : chess_match) (who : Role) : Prop :=
  isReady m = true /\ m_winnerColor m = None /\ currentPlayer m = Ret who /\
  forall p id, player_of m who = Some p -> pl_class p = HumanPlayer id -> hasClient m id = true.

Definition legal (m : chess_match) (who : Role) (mv : Move) (p : piece) : Prop :=
  may_move m who /\ candidate m mv p.

Lemma ready_host m : match_ok m -> isReady m = true -> is_Some (m_host m).
Proof.
  intros _. unfold isReady. destruct (mo_class _); [rewrite andb_true_iff|..];
    rewrite ?bool_decide_eq_true; tauto.
Qed.

Lemma currentPlayer_ready m :
  match_ok m -> isReady m = true -> exists who, currentPlayer m = Ret who /\ is_Some (player_of m who).
Proof.
  intros Hok Hr. pose proof (ready_host m Hok Hr) as [h Hh]. unfold currentPlayer.
  destruct (decide (m_currentTurn m = mo_hostColor (m_options m))) as [Ht|Ht].
  - rewrite bool_decide_true, Hh by done. exists Host. split; [done|]. unfold player_of. by rewrite Hh.
  - rewrite bool_decide_false by done.
    assert (is_Some (m_guest m)) as [g Hg].
    { destruct (mo_class (m_options m)) eqn:Ec.
      - unfold isReady in Hr. rewrite Ec in Hr. apply andb_true_iff in Hr as [_ Hr].
        by apply bool_decide_eq_true in Hr.
      - by apply ok_AI.
      - exfalso. by apply Ht, ok_null. }
    rewrite Hg. exists Guest. split; [done|]. unfold player_of. by rewrite Hg.
Qed.

Definition invalid_connection (m : chess_match) (who : Role) : bool :=
  match player_of m who with
  | Some p => match pl_class p with HumanPlayer id => negb (hasClient m id) | _ => false end
  | None => false
  end.

Lemma invalid_connection_false m who :
  invalid_connection m who = false <->
  forall p id, player_of m who = Some p -> pl_class p = HumanPlayer id -> hasClient m id = true.
Proof.
  unfold invalid_connection. split.
  - intros H p id Hp Hc. rewrite Hp, Hc in H. by apply negb_false_iff in H.
  - intros H. destruct (player_of m who) as [p|] eqn:Ep; [|done].
    destruct (pl_class p) as [id| | |] eqn:Ec; try done. apply negb_false_iff. by eapply H.
Qed.

(** [check_move] finds the piece of a legal move, and rejects any other move. *)
Lemma check_move_spec m who mv :
  match_ok m ->
  match check_move m who mv with
  | Ret p => legal m who mv p
  | Throw e => (exists what, e = ChessError what) /\ forall p, ~ legal m who mv p
  | _ => False
  end.
Proof.
  intros Hok. pose proof (ok_placed m Hok) as Hb. unfold check_move, legal, may_move.
  fold (invalid_connection m who). pose proof (invalid_connection_false m who) as Hconn.
  destruct (isReady m) eqn:Er; cbn [negb]; [|split; [by eexists|]; intros p ((H & _) & _); done].
  destruct (m_winnerColor m) eqn:Ew.
  { rewrite bool_decide_true by by eexists. split; [by eexists|]. by intros p ((_ & H & _) & _). }
  rewrite bool_decide_false by by intros [].
  destruct (invalid_connection m who) eqn:Ei.
  { split; [by eexists|]. intros p ((_ & _ & _ & H) & _). by apply Hconn in H. }
  destruct (currentPlayer_ready m Hok Er) as (current & Ec & _). rewrite Ec. mrun.
  destruct (decide (who = current)) as [<-|Hne].
  2: { rewrite bool_decide_false by done. split; [by eexists|]. intros p ((_ & _ & H & _) & _). congruence. }
  rewrite bool_decide_true by done. cbn [negb].
  assert (Hnot : forall e : exn, (exists what, e = ChessError what) ->
    (forall p, ~ candidate m mv p) ->
    (exists what, e = ChessError what) /\ forall p, ~ ((true = true /\ @None Color = None /\
      Ret who = Ret who /\ (forall p id, player_of m who = Some p -> pl_class p = HumanPlayer id ->
      hasClient m id = true)) /\ candidate m mv p)).
  { intros e He H. split; [done|]. intros p [_ Hp]. by apply (H p). }
  destruct (at_square (m_board m) (from mv)) as [p|] eqn:Ep.
  2: { apply Hnot; [by eexists|]. intros p (Hs & Hsq & _). rewrite <- Hsq in Ep.
       by rewrite (stands_at _ _ Hb Hs) in Ep. }
  destruct (at_square_stands _ _ _ Hb Ep) as [Hs Hsq].
  assert (Honly : forall q, candidate m mv q -> q = p).
  { intros q (Hq & Hqs & _). rewrite <- Hqs, (stands_at _ _ Hb Hq) in Ep. congruence. }
  destruct (decide (p_color p = m_currentTurn m)) as [Hc|Hc].
  2: { rewrite bool_decide_false by done. apply Hnot; [by eexists|]. intros q Hq.
       pose proof (Honly q Hq) as ->. by destruct Hq as (_ & _ & H & _). }
  rewrite bool_decide_true by done. cbn [negb].
  destruct (decide (from mv = to mv)) as [Hft|Hft].
  { rewrite bool_decide_true by done. apply Hnot; [by eexists|]. intros q Hq.
    pose proof (Honly q Hq) as ->. destruct Hq as (_ & _ & _ & _ & Ht).
    apply (canMoveTo_moves _ _ _ Hb Hs Ht). congruence. }
  rewrite bool_decide_false by done.
  destruct (decide (column (from mv) ∈ m_columns m)) as [Hcol|Hcol].
  2: { rewrite bool_decide_false by done. apply Hnot; [by eexists|]. by intros q (_ & _ & _ & H & _). }
  rewrite bool_decide_true by done. cbn [negb].
  destruct (existsb _ _) eqn:Ex; cbn [negb].
  - apply existsb_exists in Ex as (s & Hin & Heq). apply bool_decide_eq_true in Heq as ->.
    apply list_elem_of_In in Hin. split; [|done]. split; [done|]. split; [done|].
    split; [done|]. by apply Hconn.
  - apply Hnot; [by eexists|]. intros q Hq. pose proof (Honly q Hq) as ->.
    destruct Hq as (_ & _ & _ & _ & Ht).
    assert (existsb (fun s => bool_decide (s = to mv)) (canMoveTo (m_board m) p) = true); [|congruence].
    apply existsb_exists. exists (to mv). rewrite <- list_elem_of_In. split; [done|].
    by apply bool_decide_eq_true.
Qed.

(** ** The moves of the programs *)

Lemma existsb_elem {A} (f : A -> bool) l : existsb f l = true <-> exists x, x ∈ l /\ f x = true.
Proof. rewrite existsb_exists. by setoid_rewrite list_elem_of_In. Qed.

Lemma canMove_candidate m :
  match_ok m -> canMove m = true <-> exists mv p, candidate m mv p.
Proof.
  intros Hok. pose proof (ok_placed m Hok) as Hb. unfold canMove. rewrite existsb_elem. split.
  - intros (c & Hc & H). apply existsb_elem in H as (rw & _ & H). unfold can_move_from in H.
    cbn [fst snd] in H. destruct (at_cell (m_board m) rw c) as [p|] eqn:Ep; [|done].
    apply andb_true_iff in H as [Hcol H]. apply bool_decide_eq_true in Hcol.
    apply negb_true_iff, bool_decide_eq_false in H.
    destruct (at_cell_stands _ _ _ _ Hb Ep) as [Hs Hsq].
    destruct (canMoveTo (m_board m) p) as [|s rest] eqn:Em; [done|].
    exists (MkMove (p_square p) s), p. split; [done|]. split; [done|]. split; [done|].
    cbn [from to]. rewrite Hsq, Em. split; [done|left].
  - intros (mv & p & Hs & Hsq & Hcol & Hc & Ht). exists (column (from mv)). split; [done|].
    apply existsb_elem. exists (row (from mv)). pose proof (stands_on _ _ Hb Hs) as Hon.
    split; [rewrite Hsq in Hon; by apply in_rows, on_board_iff|].
    unfold can_move_from. cbn [fst snd].
    pose proof (stands_at _ _ Hb Hs) as Hat. rewrite Hsq in Hat. unfold at_square in Hat.
    rewrite Hat. rewrite bool_decide_true by done. cbn [andb].
    apply negb_true_iff, bool_decide_eq_false. intros E. rewrite E in Ht.
    by apply not_elem_of_nil in Ht.
Qed.

Lemma in_moves_of b p mv : In mv (moves_of b p) <-> from mv = p_square p /\ to mv ∈ canMoveTo b p.
Proof.
  unfold moves_of. rewrite in_map_iff, list_elem_of_In. split.
  - by intros (s & <- & Hs).
  - intros [H1 H2]. exists (to mv). split; [|done]. destruct mv. cbn in *. congruence.
Qed.

Lemma in_possible_moves m mv :
  match_ok m -> In mv (getPossibleMoves m) <-> exists p, candidate m mv p.
Proof.
  intros Hok. pose proof (ok_placed m Hok) as Hb. unfold getPossibleMoves. rewrite in_concat. split.
  - intros (l & (c & <- & Hc)%in_map_iff & Hin).
    apply in_concat in Hin as (l & (rw & <- & _)%in_map_iff & Hin).
    destruct (at_cell (m_board m) rw c) as [p|] eqn:Ep; [|done].
    destruct (decide (p_color p = m_currentTurn m)) as [Hcol|Hcol];
      [rewrite bool_decide_true in Hin by done|by rewrite bool_decide_false in Hin].
    apply in_moves_of in Hin as [Hf Ht]. destruct (at_cell_stands _ _ _ _ Hb Ep) as [Hs Hsq].
    exists p. split; [done|]. split; [done|]. split; [done|]. split; [|done].
    rewrite Hf, Hsq. by apply list_elem_of_In.
  - intros (p & Hs & Hsq & Hcol & Hc & Ht). eexists. split.
    { apply in_map_iff. exists (column (from mv)). split; [done|by apply list_elem_of_In]. }
    apply in_concat. eexists. split.
    { apply in_map_iff. exists (row (from mv)). split; [done|].
      pose proof (stands_on _ _ Hb Hs) as Hon. rewrite Hsq in Hon.
      apply list_elem_of_In, in_rows. by apply on_board_iff. }
    pose proof (stands_at _ _ Hb Hs) as Hat. rewrite Hsq in Hat. unfold at_square in Hat.
    rewrite Hat, bool_decide_true by done. by apply in_moves_of.
Qed.

Lemma in_legal_moves m mv :
  match_ok m ->
  In mv (List.filter (fun mv => bool_decide (column (from mv) ∈ m_columns m))
           (allMoves_of (m_board m) (m_currentTurn m))) <-> exists p, candidate m mv p.
Proof.
  intros Hok. pose proof (ok_placed m Hok) as Hb. rewrite filter_In, bool_decide_eq_true.
  unfold allMoves_of. rewrite in_concat. split.
  - intros [(l & (p & <- & Hp)%in_map_iff & Hin) Hc].
    apply filter_In in Hp as [Hp Hcol%bool_decide_eq_true].
    apply in_moves_of in Hin as [Hf Ht]. exists p. split; [by apply in_all_stands|]. done.
  - intros (p & Hs & Hsq & Hcol & Hc & Ht). split; [|done]. eexists. split.
    + apply in_map_iff. exists p. split; [done|]. apply filter_In.
      split; [|by apply bool_decide_eq_true]. apply in_all_pieces.
      exists (row (p_square p)), (column (p_square p)).
      pose proof (stands_on _ _ Hb Hs) as Hon. split; [by destruct (p_square p)|done].
    + by apply in_moves_of.
Qed.

Section labels.
Context {D : Prop}.

Lemma wp_label_move b turn mv p :
  placed b -> stands b p -> from mv = p_square p -> to mv ∈ canMoveTo b p ->
  wp_in D (label_move turn mv) (fun l b' => l_move l = mv /\ b' = b) (fun _ _ => False) b.
Proof.
  intros Hb Hs Hf Ht. unfold label_move. apply wp_bind, wp_get.
  rewrite Hf, (stands_at _ _ Hb Hs). pose proof (canMoveTo_target _ _ _ Ht) as [Hon _].
  destruct (move_piece_board b p (to mv)) as [E Hb1]; [done|done|done|by eapply canMoveTo_moves|].
  apply wp_bind. unfold wp_in at 1. rewrite E. cbv beta iota.
  apply wp_bind. eapply wp_mono; [by apply wp_isInCheck| |done]. intros in_check b1 ->.
  apply wp_bind. eapply wp_mono; [by apply wp_isCheckmated| |done]. intros checkmated b2 Hb2.
  apply wp_bind. eapply wp_mono; [by apply wp_isInCheck| |done]. by intros self b3 _.
Qed.

Lemma wp_label_moves b turn moves :
  placed b ->
  (forall mv, In mv moves -> exists p, stands b p /\ from mv = p_square p /\ to mv ∈ canMoveTo b p) ->
  wp_in D (label_moves turn moves) (fun ls b' => map l_move ls = moves /\ b' = b) (fun _ _ => False) b.
Proof.
  intros Hb. induction moves as [|mv rest IH]; intros Hm; [done|]. cbn [label_moves].
  destruct (Hm mv) as (p & Hs & Hf & Ht); [by left|].
  apply wp_bind. eapply wp_mono; [by eapply wp_label_move| |done]. intros l b1 [Hl ->].
  apply wp_bind. eapply wp_mono; [apply IH; intros; apply Hm; by right| |done].
  intros ls b2 [Hls ->]. apply wp_ret. cbn [map]. by rewrite Hl, Hls.
Qed.

End labels.

Lemma best_move_in superior first rest : In (best_move superior first rest) (first :: rest).
Proof.
  unfold best_move. revert first. induction rest as [|l rest IH]; intros first; cbn [fold_left].
  - by left.
  - destruct (superior first l).
    + destruct (IH l) as [H|H]; [right; by left|right; by right].
    + destruct (IH first) as [H|H]; [by left|right; by right].
Qed.

Section choosing.
Context {D : Prop} (rand : nat -> N) (s0 : chess) (r : nat).

Lemma wp_choose_random m (Q : Move -> chess -> Prop) E s :
  playing s0 r m s -> match_ok m -> canMove m = true ->
  (forall mv p s', playing s0 r m s' -> candidate m mv p -> Q mv s') ->
  wp_in D (choose_random rand r) Q E s.
Proof.
  intros [d Hm] Hok Hc HQ. unfold choose_random. apply wp_bind. eapply wp_get_match; [done|].
  destruct (getPossibleMoves m) as [|mv0 rest] eqn:Em.
  { apply canMove_candidate in Hc as (mv & p & Hp); [|done].
    assert (In mv (getPossibleMoves m)) as H by (apply in_possible_moves; eauto).
    by rewrite Em in H. }
  rewrite <- Em. apply wp_bind. unfold next_rand. apply wp_bind, wp_get, wp_bind, wp_modify, wp_ret.
  set (n := Z.of_N (rand (ch_draws s))). set (l := getPossibleMoves m).
  destruct (lookup_lt_is_Some_2 l (Z.to_nat (n mod Z.of_nat (length l)))) as [mv Hmv].
  { assert (0 < Z.of_nat (length l))%Z by (unfold l; rewrite Em; cbn; lia).
    pose proof (Z.mod_pos_bound n (Z.of_nat (length l)) ltac:(lia)). lia. }
  rewrite Hmv. apply list_elem_of_lookup_2, list_elem_of_In, in_possible_moves in Hmv as [p Hp]; [|done].
  apply wp_ret. eapply HQ; [|exact Hp].
  eexists. by apply (with_draws_at_match (with_draws d s0)).
Qed.

Lemma wp_choose_cccp superior m (Q : Move -> chess -> Prop) E s :
  playing s0 r m s -> match_ok m -> canMove m = true ->
  (forall mv p s', playing s0 r m s' -> candidate m mv p -> Q mv s') ->
  wp_in D (choose_cccp superior r) Q E s.
Proof.
  intros [d Hm] Hok Hc HQ. unfold choose_cccp. apply wp_bind. eapply wp_get_match; [done|].
  set (moves := List.filter _ _).
  assert (Hin : forall mv, In mv moves <-> exists p, candidate m mv p) by (intros; by apply in_legal_moves).
  apply wp_bind. eapply (wp_on_board _ _ _ m); [done| |].
  { apply wp_label_moves; [by apply ok_placed|]. intros mv (p & Hs & Hsq & _ & _ & Ht)%Hin.
    by exists p. }
  cbv beta. intros ls b s1 [Hls ->] H1. destruct ls as [|first rest].
  { apply canMove_candidate in Hc as (mv & p & Hp); [|done].
    assert (In mv moves) as H by (apply Hin; eauto). by rewrite <- Hls in H. }
  apply wp_ret. pose proof (best_move_in (superior (m_currentTurn m)) first rest) as Hbest.
  apply (in_map l_move) in Hbest. rewrite Hls in Hbest. apply Hin in Hbest as [p Hp].
  eapply HQ; [|exact Hp]. exists d. by destruct m.
Qed.

Lemma wp_chooseMove p m (Q : Move -> chess -> Prop) E s :
  playing s0 r m s -> match_ok m -> canMove m = true -> is_program p ->
  (forall mv p s', playing s0 r m s' -> candidate m mv p -> Q mv s') ->
  wp_in D (chooseMove rand p r) Q E s.
Proof.
  intros Hm Hok Hc Hp HQ. unfold chooseMove, is_program in *. destruct (pl_class p); [done|..].
  - by eapply wp_choose_random.
  - by eapply wp_choose_cccp.
  - by eapply wp_choose_cccp.
Qed.
End choosing.

(** ** The rules, and the moves of the code *)

(** What a legal move does to the board and to the list of captured pieces. *)
Definition move_result (m : chess_match) (mv : Move) (p : piece) : chess_match :=
  set_board (board_after (m_board m) p (to mv))
    (set_captured (m_captured m ++ option_list (at_square (m_board m) (to mv))) m).

Definition takes_king (m : chess_match) (mv : Move) : Prop :=
  exists k, at_square (m_board m) (to mv) = Some k /\ p_type k = King.

(** A move of [who] after which the match goes on: the turn has passed, but in a
    match against nobody, where it stays, and columns have been rolled on which the
    colour whose turn it is can move. *)
Inductive ply (who : Role) (m : chess_match) : chess_match -> Prop :=
| ply_intro mv p turn columns :
    legal m who mv p -> ~ takes_king m mv ->
    match mo_class (m_options m) with
    | NullMatch => turn = m_currentTurn m
    | _ => turn_passes (move_result m mv p) turn
    end ->
    rolled (set_turn turn (move_result m mv p)) columns ->
    ply who m (set_columns columns (set_turn turn (move_result m mv p))).

(** A move of [who] that takes a king: the colour whose turn it was has won. *)
Inductive victory (who : Role) (m : chess_match) : chess_match -> Prop :=
| victory_intro mv p :
    legal m who mv p -> takes_king m mv ->
    victory who m (set_over true (set_winner (Some (m_currentTurn m)) (move_result m mv p))).

(** A move, and the moves of the program that follow it. *)
Definition round (who : Role) (m m' : chess_match) : Prop :=
  exists m1, ply who m m1 /\ rtc (ply Guest) m1 m' /\
    match mo_class (m_options m) with
    | AIMatch => m_currentTurn m' = mo_hostColor (m_options m)
    | _ => m' = m1
    end.
Definition last_round (who : Role) (m m' : chess_match) : Prop :=
  victory who m m' \/
  (mo_class (m_options m) = AIMatch /\
   exists m1 m2, ply who m m1 /\ rtc (ply Guest) m1 m2 /\ victory Guest m2 m').

Lemma placed_after b p s :
  placed b -> stands b p -> s ∈ canMoveTo b p -> placed (board_after b p s).
Proof.
  intros Hb Hs Ht. apply placed_promoted. pose proof (canMoveTo_target _ _ _ Ht) as [Hon _].
  destruct (move_piece_board b p s); [done|done|done|by eapply canMoveTo_moves|done].
Qed.

Lemma ply_ok who m m' :
  match_ok m -> ply who m m' ->
  match_ok m' /\ m_options m' = m_options m /\ people m' = people m /\
  m_over m' = m_over m /\ m_started m' = m_started m /\ m_winnerColor m' = m_winnerColor m /\
  isReady m' = isReady m /\ canMove m' = true /\
  columns_ok (Z.to_nat (mo_columnCount (m_options m))) (m_columns m') /\ isActive m' = isActive m.
Proof.
  intros Hok [mv p turn columns (_ & Hs & Hsq & Hcol & Hc & Ht) Hk Hn [Hcols Hcan]]. split; [|done].
  split; cbn; try apply Hok.
  - apply placed_after; [apply Hok|done|done].
  - intros Hc'. rewrite Hc' in Hn. rewrite Hn. by apply ok_null.
Qed.

Lemma victory_over who m m' :
  victory who m m' ->
  m_options m' = m_options m /\ people m' = people m /\ m_over m' = true.
Proof. by intros []. Qed.

(** The piece that is taken has left the board before the move. *)
Lemma moved_board_erased b p s :
  stands b p -> s <> p_square p ->
  stands (delete (row s, column s) b) p /\
  moved_board (delete (row s, column s) b) p s = moved_board b p s.
Proof.
  intros Hs Hne. split.
  - unfold stands. rewrite lookup_delete_ne; [done|]. intros [= E1 E2]. apply Hne.
    destruct s, (p_square p). cbn in *. congruence.
  - unfold moved_board. by rewrite insert_delete_eq.
Qed.

Section moving.
Context {D : Prop} (s0 : chess) (r : nat).

(** The move on the board, the promotions and the messages, in a match whose
    board is [b]. *)
Lemma wp_relocate {B} m p s (k : list Square -> M chess B) Q E st :
  at_match s0 r m st -> placed (m_board m) -> stands (m_board m) p ->
  on_board s = true -> s <> p_square p ->
  (forall out st', at_match s0 r (set_board (board_after (m_board m) p s) m) st' ->
                   wp_in D (k out) Q E st') ->
  wp_in D (_ ← on_match_board r (move_piece (Some p) (row s) (column s));
      out ← on_match_board r checkPawns; k out) Q E st.
Proof.
  intros Hm Hb Hs Hon Hne Hk. destruct (move_piece_board (m_board m) p s) as [E1 Hb1]; [done..|].
  apply wp_bind. eapply (wp_on_board _ _ _ m (fun _ b => b = moved_board (m_board m) p s)); [done| |].
  { unfold wp_in. by rewrite E1. }
  intros _ b st1 -> H1. apply wp_bind.
  eapply (wp_on_board _ _ _ _ (fun _ b => b = board_after (m_board m) p s)); [done| |].
  { unfold wp_in. cbn [m_board set_board]. by rewrite checkPawns_spec. }
  intros out b st2 -> H2. apply Hk. exact H2.
Qed.

Lemma wp_move_messages m mv (Q : () -> chess -> Prop) E st :
  at_match s0 r m st -> all_live s0 m -> (forall st', at_match s0 r m st' -> Q tt st') ->
  wp_in D (sendBoard r ;; sendAll r (move_message mv)) Q E st.
Proof.
  intros Hm Hl HQ. apply wp_bind. eapply wp_sendBoard; [done|done|]. intros st1 H1.
  by eapply wp_sendAll.
Qed.

Lemma wp_makeMove_with after m who mv p (Q : () -> chess -> Prop) E st :
  at_match s0 r m st -> match_ok m -> all_live s0 m -> legal m who mv p ->
  (takes_king m mv -> forall st', ended s0 r
     (set_over true (set_winner (Some (m_currentTurn m)) (move_result m mv p))) st' -> Q tt st') ->
  (~ takes_king m mv -> forall st', at_match s0 r (move_result m mv p) st' -> wp_in D after Q E st') ->
  wp_in D (makeMove_with after r who mv) Q E st.
Proof.
  intros Hm Hok Hl Hlegal Hwin Hgo. pose proof (ok_placed m Hok) as Hb.
  pose proof Hlegal as [Hmay (Hs & Hsq & Hcol & Hc & Ht)].
  pose proof (canMoveTo_target _ _ _ Ht) as [Hon Htarget].
  pose proof (canMoveTo_moves _ _ _ Hb Hs Ht) as Hne.
  unfold makeMove_with. apply wp_bind. eapply wp_get_match; [done|].
  pose proof (check_move_spec m who mv Hok) as Hcheck.
  destruct (check_move m who mv) as [p'|e| |]; try done.
  2: { exfalso. apply (proj2 Hcheck p). by split. }
  assert (p' = p) as ->.
  { destruct Hcheck as [_ (Hs' & Hsq' & _)]. apply (stands_at _ _ Hb) in Hs, Hs'. congruence. }
  apply wp_bind, wp_lift. cbv zeta.
  assert (Hfinish : forall m1 st1, at_match s0 r m1 st1 -> placed (m_board m1) -> stands (m_board m1) p ->
    all_live s0 m1 -> ~ takes_king m mv ->
    set_board (board_after (m_board m1) p (to mv)) m1 = move_result m mv p ->
    wp_in D (_ ← on_match_board r (move_piece (Some p) (row (to mv)) (column (to mv)));
        promoted ← on_match_board r checkPawns;
        sendBoard r ;; sendAll r (move_message mv) ;;
        for_each promoted (fun s => sendAll r (lit ":Promote " ++ square_string s)) ;; after) Q E st1).
  { intros m1 st1 H1 Hb1 Hs1 Hl1 Hk Heq.
    eapply (wp_relocate m1 p (to mv)); [done..|]. intros out st2 H2.
    apply wp_bind. eapply wp_sendBoard; [|exact H2|]; [exact Hl1|]. intros st3 H3.
    apply wp_bind. eapply wp_sendAll; [|exact H3|]; [exact Hl1|]. intros st4 H4.
    apply wp_bind. eapply wp_send_squares; [|exact H4|]; [exact Hl1|]. intros st5 H5.
    apply Hgo; [done|]. by rewrite <- Heq. }
  destruct (at_square (m_board m) (to mv)) as [q|] eqn:Eq.
  - rewrite bool_decide_false by (rewrite <- Hcol; by apply Htarget).
    apply wp_bind. eapply wp_sendAll; [done|done|]. intros st1 H1.
    apply wp_bind. eapply wp_modify_match; [done|]. intros st2 H2.
    destruct (at_square_stands _ _ _ Hb Eq) as [_ Hq].
    apply wp_bind.
    eapply (wp_on_board _ _ _ _ (fun _ b => b = delete (row (to mv), column (to mv)) (m_board m)));
      [done| |].
    { unfold wp_in, erase_piece. cbn [m_board set_captured]. rewrite Hq, put_cell_on; [done|].
      by destruct (to mv). }
    intros [] b st3 -> H3. destruct (moved_board_erased (m_board m) p (to mv) Hs Hne) as [Hs3 Heq].
    assert (Hres : set_board (board_after (delete (row (to mv), column (to mv)) (m_board m)) p (to mv))
      (set_board (delete (row (to mv), column (to mv)) (m_board m))
        (set_captured (m_captured m ++ [q]) m)) = move_result m mv p).
    { unfold move_result, board_after. by rewrite Heq, Eq. }
    destruct (decide (p_type q = King)) as [Hk|Hk].
    + rewrite bool_decide_true by done.
      eapply (wp_relocate _ p (to mv)); [exact H3|by apply placed_delete|done|done|done|].
      intros out st4 H4. cbn [m_board set_board] in H4. rewrite Hres in H4.
      apply wp_bind. eapply wp_sendBoard; [|exact H4|]; [exact Hl|]. intros st5 H5.
      apply wp_bind. eapply wp_sendAll; [|exact H5|]; [exact Hl|]. intros st6 H6.
      apply wp_bind. eapply wp_modify_match; [done|]. intros st7 H7.
      apply wp_bind. eapply wp_get_match; [done|].
      destruct Hmay as (Hready & _ & Hcur & _).
      destruct (currentPlayer_ready m Hok Hready) as (who' & Ecur & Hp).
      assert (Hwinner : forall o : option player, is_Some o -> wp_in D (match o with
        | Some winner => end_match r (Some winner) | None => undefined end) Q E st7).
      { intros o [w ->]. eapply wp_end_match; [exact H7|exact Hl|]. intros st8 H8.
        apply Hwin; [|exact H8]. by exists q. }
      apply Hwinner. unfold currentPlayer in Ecur.
      destruct (decide (m_currentTurn m = mo_hostColor (m_options m))) as [Ht'|Ht'].
      * rewrite bool_decide_true in Ecur by done.
        change (is_Some (if bool_decide (mo_hostColor (m_options m) = m_currentTurn m)
                         then m_host m else m_guest m)).
        rewrite bool_decide_true by done. by destruct (m_host m).
      * rewrite bool_decide_false in Ecur by done.
        change (is_Some (if bool_decide (mo_hostColor (m_options m) = m_currentTurn m)
                         then m_host m else m_guest m)).
        rewrite bool_decide_false by done. by destruct (m_guest m).
    + rewrite bool_decide_false by done.
      eapply Hfinish; [exact H3|by apply placed_delete|done|exact Hl| |exact Hres].
      intros (k & Hk1 & Hk2). rewrite Eq in Hk1. injection Hk1 as <-. done.
  - eapply Hfinish; [done|done|done|done| |].
    + intros (k & Hk1 & _). by rewrite Eq in Hk1.
    + unfold move_result. rewrite Eq. cbn [option_list]. rewrite app_nil_r. by destruct m.
Qed.
End moving.

Section making_moves.
Context (rand : nat -> N) (s0 : chess) (r : nat).

Lemma program_may_move m :
  match_ok m -> mo_class (m_options m) = AIMatch -> isReady m = true -> m_winnerColor m = None ->
  m_currentTurn m <> mo_hostColor (m_options m) ->
  exists g, m_guest m = Some g /\ is_program g /\ may_move m Guest.
Proof.
  intros Hok Hc Hr Hw Ht. destruct (ok_AI m Hok Hc) as [g Hg]. exists g.
  destruct (ok_guest m Hok g Hg) as [_ Hprog]. apply Hprog in Hc as Hp.
  split; [done|]. split; [done|]. split; [done|]. split; [done|]. split.
  - unfold currentPlayer. by rewrite bool_decide_false, Hg.
  - intros p id Hp' Hid. cbn in Hp'. rewrite Hg in Hp'. injection Hp' as <-.
    unfold is_program in Hp. by rewrite Hid in Hp.
Qed.

Lemma wp_makeMove fuel m who mv p (Q : () -> chess -> Prop) E st :
  playing s0 r m st -> match_ok m -> all_live s0 m -> m_over m = false -> legal m who mv p ->
  (forall m' st', playing s0 r m' st' -> round who m m' -> Q tt st') ->
  (forall m' st', ended s0 r m' st' -> last_round who m m' -> Q tt st') ->
  wp (makeMove rand fuel r who mv) Q E st.
Proof.
  revert m who mv p Q E st. induction fuel as [|f IH]; intros m who mv p Q E st [d Hm] Hok Hl Hover Hlegal Hround
    Hlast; [done|]. cbn [makeMove].
  eapply wp_makeMove_with; [done|done|done|done| |].
  { intros Hk st1 H1. eapply Hlast; [exact H1|]. left. by econstructor. }
  intros Hk st1 H1. unfold afterMove_with. apply wp_bind. eapply wp_get_match; [done|].
  change (mo_class (m_options (move_result m mv p))) with (mo_class (m_options m)).
  destruct (mo_class (m_options m)) eqn:Ec.
  - eapply wp_next_turn; [exists d; exact H1|exact Hl|]. intros turn columns st2 H2 Hpass Hr.
    eapply Hround; [exact H2|]. eexists.
    split; [apply (ply_intro who m mv p turn columns); [done|done|by rewrite Ec|done]|].
    split; [apply rtc_refl|]. by rewrite Ec.
  - apply wp_bind. eapply wp_next_turn; [exists d; exact H1|exact Hl|]. intros turn columns st2 [d2 H2] Hpass Hr.
    assert (Hply : ply who m (set_columns columns (set_turn turn (move_result m mv p))))
      by (apply (ply_intro who m mv p turn columns); [done|done|by rewrite Ec|done]).
    set (m1 := set_columns columns (set_turn turn (move_result m mv p))) in *.
    apply wp_bind. eapply wp_get_match; [done|].
    destruct (ply_ok _ _ _ Hok Hply) as (Hok1 & Hopt & Hpeople & Hover1 & _ & Hwin & Hready & Hcan & _ & _).
    destruct (decide (m_currentTurn m1 = mo_hostColor (m_options m1))) as [Ht|Ht].
    + rewrite bool_decide_true by done. apply wp_ret. eapply Hround; [exists d2; exact H2|].
      exists m1. split; [done|]. split; [apply rtc_refl|]. rewrite Ec. exact Ht.
    + rewrite bool_decide_false by done. cbn [negb andb]. rewrite Hover1, Hover. cbn [negb].
      destruct Hlegal as [(Hready0 & Hwin0 & _) _].
      destruct (program_may_move m1 Hok1) as (g & Hg & Hprog & Hmay);
        [by rewrite Hopt|congruence|congruence|done|]. rewrite Hg.
      apply wp_bind. eapply wp_chooseMove; [exists d2; exact H2|done|done|done|]. intros mv' p' st3 H3 Hcand.
      assert (Hl1 : all_live s0 m1) by (unfold all_live; rewrite Hpeople; exact Hl).
      eapply (IH m1 Guest mv' p'); [done|done|done|congruence|by split| |].
      * intros m' st4 H4 (m2 & Hp2 & Hrest & Hturn). eapply Hround; [done|]. exists m1.
        split; [done|]. split; [by eapply rtc_l|]. rewrite Ec. rewrite Hopt, Ec in Hturn. exact Hturn.
      * intros m' st4 H4 Hv. eapply Hlast; [done|]. right. split; [done|].
        destruct Hv as [Hv|(_ & m2 & m3 & Hp2 & Hrest & Hv)].
        -- exists m1, m1. split; [done|]. split; [apply rtc_refl|done].
        -- exists m1, m3. split; [done|]. split; [by eapply rtc_l|done].
  - apply wp_bind. eapply wp_sendAll; [|exact H1|]; [exact Hl|]. intros st2 H2.
    eapply wp_roll_until; [exists d; exact H2|exact Hl|]. intros columns st3 H3 Hr.
    eapply Hround; [exact H3|]. eexists. split.
    + apply (ply_intro who m mv p (m_currentTurn m) columns); [done|done|by rewrite Ec|].
      by destruct m.
    + split; [apply rtc_refl|]. by rewrite Ec.
Qed.
End making_moves.

(** What the rounds leave as it was. *)
Record same_seats (m m' : chess_match) : Prop := {
  seats_options : m_options m' = m_options m;
  seats_people : people m' = people m;
  seats_over : m_over m' = m_over m;
  seats_started : m_started m' = m_started m;
  seats_winner : m_winnerColor m' = m_winnerColor m;
  seats_ready : isReady m' = isReady m;
  seats_active : isActive m' = isActive m;
}.

Lemma ply_seats who m m' :
  match_ok m -> ply who m m' -> match_ok m' /\ same_seats m m' /\ canMove m' = true /\
    columns_ok (Z.to_nat (mo_columnCount (m_options m))) (m_columns m').
Proof.
  intros Hok Hp. apply ply_ok in Hp as (H1 & H2 & H3 & H4 & H5 & H6 & H7 & H8 & H9 & H10); [|done].
  split; [done|]. by split.
Qed.

Lemma same_seats_trans m1 m2 m3 : same_seats m1 m2 -> same_seats m2 m3 -> same_seats m1 m3.
Proof. intros [] []. split; congruence. Qed.

Lemma plies_seats who m m1 m' :
  match_ok m -> ply who m m1 -> rtc (ply Guest) m1 m' ->
  match_ok m' /\ same_seats m m' /\ canMove m' = true /\
  columns_ok (Z.to_nat (mo_columnCount (m_options m))) (m_columns m').
Proof.
  intros Hok Hp Hrtc. revert who m Hok Hp.
  induction Hrtc as [m1|m1 m2 m3 H12 _ IH]; intros who m Hok Hp; [by eapply ply_seats|].
  destruct (ply_seats _ _ _ Hok Hp) as (Hok1 & Hs1 & _).
  destruct (IH Guest m1 Hok1 H12) as (Hok3 & Hs3 & Hc & Hcols). split; [done|].
  split; [by eapply same_seats_trans|]. split; [done|]. by rewrite <- (seats_options _ _ Hs1).
Qed.

Lemma last_round_people who m m' :
  match_ok m -> last_round who m m' -> m_options m' = m_options m /\ people m' = people m.
Proof.
  intros Hok [Hv|(_ & m1 & m2 & Hp & Hrtc & Hv)]; apply victory_over in Hv as (H1 & H2 & _); [done|].
  destruct (plies_seats _ _ _ _ Hok Hp Hrtc) as (_ & [] & _). split; congruence.
Qed.

(** [makeMove] from any state: a legal move is made, another one rejected. *)
Lemma makeMove_spec rand fuel s r m who mv :
  ch_matches s !! r = Some m -> match_ok m -> all_live s m -> m_over m = false ->
  wp (makeMove rand fuel r who mv)
    (fun _ s' => exists m', (playing s r m' s' /\ round who m m') \/
                            (ended s r m' s' /\ last_round who m m'))
    (fun e s' => s' = s /\ (exists what, e = ChessError what) /\ forall p, ~ legal m who mv p) s.
Proof.
  intros Hm Hok Hl Hover. pose proof (check_move_spec m who mv Hok) as Hc.
  pose proof (at_match_start _ _ _ Hm) as Hs.
  destruct (check_move m who mv) as [p|e| |] eqn:E; try done.
  - eapply wp_makeMove; [by apply at_match_playing|done|done|done|done|eauto|eauto].
  - destruct fuel as [|f]; [done|]. cbn [makeMove]. unfold makeMove_with.
    apply wp_bind. eapply wp_get_match; [done|]. apply wp_bind. rewrite E.
    split; [done|]. exact Hc.
Qed.
