(* ===== verification/ChessGame.v ===== *)
(** * Probability chess: moves and dice, the theorems

    What [makeMove] does is what the rules of [ChessRules.v] say, and it comes
    to an end when the dice are fair: the loops that roll until somebody can
    move do not go on for ever. *)

From Stdlib Require Import ZArith Lia Ascii String.
From stdpp Require Import base tactics option list strings gmap sorting.
From S2P Require Import Prelude ChessBoard ChessMatch ChessRules.

(** ** Fair dice *)

(** From any draw on, every column comes up. *)
Definition fair (rand : nat -> N) : Prop :=
  forall n c, (0 <= c < 8)%Z -> exists k, drawn rand (n + 2 * k) = c.

Lemma missing_column k l : columns_ok k l -> k < 8 -> exists c, (0 <= c < 8)%Z /\ c ∉ l.
Proof.
  intros (_ & _ & Hlen) Hk. destruct (decide (Forall (fun c => c ∈ l) rows)) as [Hall|Hnot].
  - exfalso. rewrite Forall_forall in Hall.
    pose proof (submseteq_length _ _ (NoDup_submseteq _ _ rows_nodup Hall)) as H.
    change (length rows) with 8 in H. lia.
  - apply not_Forall_Exists in Hnot; [|tc_solve]. apply Exists_exists in Hnot as (c & Hc & Hn).
    exists c. split; [by apply in_rows|done].
Qed.

Section fair_dice.
Context (rand : nat -> N) (Hfair : fair rand) (s0 : chess) (r : nat).

Lemma draw_new_returns d columns c :
  (0 <= c < 8)%Z -> c ∉ columns ->
  exists f0 j c', (0 <= c' < 8)%Z /\ (c' ∉ columns) /\ drawn rand (d + 2 * j) = c' /\
    (forall i, i < j -> drawn rand (d + 2 * i) ∈ columns) /\
    forall f s, f0 <= f -> ch_draws s = d ->
      draw_new rand f columns s = (Ret c', with_draws (d + 2 * S j) s).
Proof.
  intros Hc Hn. destruct (Hfair d c Hc) as [k Hk]. revert d Hk.
  induction k as [|k IH]; intros d Hk.
  - exists 1, 0, c. split; [done|]. split; [done|]. split; [done|]. split; [lia|].
    intros [|f] s Hf Hd; [lia|]. cbn [draw_new]. mrun. rewrite draw_column_run, Hd.
    replace (d + 2 * 0) with d in Hk by lia. rewrite Hk, bool_decide_false by done.
    by replace (d + 2 * 1) with (S (S d)) by lia.
  - destruct (decide (drawn rand d ∈ columns)) as [Hin|Hin].
    + destruct (IH (d + 2)) as (f0 & j & c' & Hc' & Hn' & Hj & Hi & Hrun).
      { by replace (d + 2 + 2 * k) with (d + 2 * S k) by lia. }
      exists (S f0), (S j), c'. split; [done|]. split; [done|].
      split; [by replace (d + 2 * S j) with (d + 2 + 2 * j) by lia|]. split.
      * intros [|i] Hi'; [by replace (d + 2 * 0) with d by lia|].
        replace (d + 2 * S i) with (d + 2 + 2 * i) by lia. apply Hi. lia.
      * intros [|f] s Hf Hd; [lia|]. cbn [draw_new]. mrun. rewrite draw_column_run, Hd.
        rewrite bool_decide_true by done. rewrite Hrun; [|lia|cbn; lia]. destruct s. cbn.
        unfold with_draws. cbn. do 2 f_equal. lia.
    + exists 1, 0, (drawn rand d). split; [apply drawn_bounds|]. split; [done|].
      split; [by replace (d + 2 * 0) with d by lia|]. split; [lia|].
      intros [|f] s Hf Hd; [lia|]. cbn [draw_new]. mrun. rewrite draw_column_run, Hd.
      rewrite bool_decide_false by done. by replace (d + 2 * 1) with (S (S d)) by lia.
Qed.

Lemma roll_columns_returns n : forall d m k,
  columns_ok k (m_columns m) -> n + k <= 8 ->
  exists f0 j columns, n <= j /\ columns_ok (n + k) columns /\
    (forall c, c ∈ m_columns m -> c ∈ columns) /\
    (forall i, i < j -> drawn rand (d + 2 * i) ∈ columns) /\
    forall f s, f0 <= f -> at_match (with_draws d s0) r m s -> exists s',
      roll_columns rand n f r s = (Ret tt, s') /\
      at_match (with_draws (d + 2 * j) s0) r (set_columns columns m) s'.
Proof.
  induction n as [|n IH]; intros d m k Hk Hn.
  - exists 0, 0, (m_columns m). split; [lia|]. split; [done|]. split; [done|]. split; [lia|].
    intros f s _ Hs. exists s. split; [done|].
    replace (d + 2 * 0) with d by lia. by destruct m.
  - destruct (missing_column k (m_columns m)) as (c & Hc & Hmiss); [done|lia|].
    destruct (draw_new_returns d (m_columns m) c Hc Hmiss)
      as (f1 & j1 & c1 & Hc1 & Hn1 & Hj1 & Hi1 & Hrun1).
    set (m1 := set_columns (insert_column c1 (m_columns m)) m).
    destruct (IH (d + 2 * S j1) m1 (S k)) as (f2 & j2 & columns & Hj2 & Hok & Hsub & Hi2 & Hrun2);
      [by apply insert_column_ok|lia|].
    exists (f1 `max` f2), (S j1 + j2), columns. split; [lia|].
    split; [by replace (S n + k) with (n + S k) by lia|].
    assert (Hsub' : forall c', c' = c1 \/ c' ∈ m_columns m -> c' ∈ columns).
    { intros c' Hc'. by apply Hsub, elem_of_insert_column. }
    split; [by intros; apply Hsub'; right|]. split.
    + intros i Hi. destruct (decide (i < j1)); [by apply Hsub'; right; apply Hi1|].
      destruct (decide (i = j1)) as [->|]; [apply Hsub'; by left|].
      replace (d + 2 * i) with (d + 2 * S j1 + 2 * (i - S j1)) by lia. apply Hi2. lia.
    + intros f s Hf Hs. pose proof (at_match_lookup _ _ _ _ Hs) as Hl. cbn [roll_columns].
      unfold modify_match, get_match. mrun. rewrite Hl.
      assert (Hd : ch_draws s = d) by (by destruct Hs as (o & ->)).
      rewrite Hrun1 by (done || lia). cbn [ch_matches with_draws]. rewrite Hl.
      destruct (Hrun2 f (with_matches (insert r m1) (with_draws (d + 2 * S j1) s))) as (s' & E & Hs').
      { lia. }
      { destruct Hs as (o & ->). exists o. unfold with_matches, with_draws. cbn. by rewrite insert_insert_eq. }
      exists s'. split; [exact E|].
      by replace (d + 2 * (S j1 + j2)) with (d + 2 * S j1 + 2 * j2) by lia.
Qed.

Definition count (m : chess_match) : nat := Z.to_nat (mo_columnCount (m_options m)).

Lemma twp_run {A} (op : M chess A) Q s :
  twp op Q (fun _ _ => False) s -> exists a s', op s = (Ret a, s') /\ Q a s'.
Proof. unfold wp_in. destruct (op s) as [[a|e| |] s']; [|done..]. by exists a, s'. Qed.

(** A roll comes to an end, and every column it drew is one of the columns. *)
Lemma roll_returns d m :
  all_live s0 m -> count m <= 8 ->
  exists f0 j columns, count m <= j /\ columns_ok (count m) columns /\
    (forall i, i < j -> drawn rand (d + 2 * i) ∈ columns) /\
    forall f s, f0 <= f -> at_match (with_draws d s0) r m s -> exists s',
      roll rand f r s = (Ret tt, s') /\
      at_match (with_draws (d + 2 * j) s0) r (set_columns columns m) s'.
Proof.
  intros Hl Hcount.
  destruct (roll_columns_returns (count m) d (set_columns [] m) 0) as (f0 & j & columns & Hj & Hok & _ & Hi & Hrun).
  { split; [constructor|]. split; [by intros c ?%not_elem_of_nil|done]. }
  { lia. }
  rewrite Nat.add_0_r in Hok. exists f0, j, columns. split; [done|]. split; [done|]. split; [done|].
  intros f s Hf Hs. pose proof (at_match_lookup _ _ _ _ Hs) as Hlk.
  unfold roll, modify_match, get_match. mrun. rewrite Hlk. cbn [ch_matches with_matches].
  rewrite lookup_insert_eq.
  destruct (Hrun f (with_matches (insert r (set_columns [] m)) s)) as (s1 & E1 & H1); [done| |].
  { destruct Hs as (o & ->). exists o. unfold with_matches, with_draws. cbn. by rewrite insert_insert_eq. }
  change (count m) with (Z.to_nat (mo_columnCount (m_options (set_columns [] m)))) in E1.
  rewrite E1, (at_match_lookup _ _ _ _ H1).
  destruct (twp_run (sendAll r (columnMessage (set_columns columns (set_columns [] m))))
              (fun _ => at_match (with_draws (d + 2 * j) s0) r (set_columns columns m)) s1)
    as ([] & s2 & E2 & H2).
  { eapply wp_sendAll; [|exact H1|done]. exact Hl. }
  by exists s2.
Qed.

(** The loop that rolls ends when a draw of the column [c] would let the colour
    whose turn it is move; the columns and the draws depend on the match and on the
    draws before only. *)
Lemma roll_until_ends m c :
  all_live s0 m -> 1 <= count m <= 8 -> (0 <= c < 8)%Z ->
  (forall columns, c ∈ columns -> canMove (set_columns columns m) = true) ->
  forall d, exists f0 j columns, rolled m columns /\
    forall f s, f0 <= f -> at_match (with_draws d s0) r m s -> exists s',
      roll_until rand f r s = (Ret tt, s') /\ at_match (with_draws (d + 2 * j) s0) r (set_columns columns m) s'.
Proof.
  intros Hl Hcount Hc Hmove d. destruct (Hfair d c Hc) as [k Hk]. revert m d Hl Hcount Hmove Hk.
  induction (lt_wf k) as [k _ IH]. intros m d Hl Hcount Hmove Hk.
  destruct (roll_returns d m Hl) as (f1 & j & columns & Hj & Hok & Hi & Hrun); [lia|].
  destruct (canMove (set_columns columns m)) eqn:E.
  - exists (S f1), j, columns. split; [by split|]. intros [|f] s Hf Hs; [lia|].
    destruct (Hrun f s) as (s1 & E1 & H1); [lia|done|].
    exists s1. cbn [roll_until]. unfold get_match. mrun.
    by rewrite E1, (at_match_lookup _ _ _ _ H1), E.
  - assert (Hjk : j <= k).
    { destruct (decide (k < j)) as [Hlt|]; [|lia]. specialize (Hi k Hlt). rewrite Hk in Hi.
      apply Hmove in Hi. congruence. }
    destruct (IH (k - j) ltac:(lia) (set_columns columns m) (d + 2 * j)) as (f2 & j2 & columns2 & Hr2 & Hrun2).
    + exact Hl.
    + exact Hcount.
    + exact Hmove.
    + by replace (d + 2 * j + 2 * (k - j)) with (d + 2 * k) by lia.
    + exists (S (f1 `max` f2)), (j + j2), columns2. split; [exact Hr2|]. intros [|f] s Hf Hs; [lia|].
      destruct (Hrun f s) as (s1 & E1 & H1); [lia|done|].
      destruct (Hrun2 f s1) as (s2 & E2 & H2); [lia|done|].
      exists s2. replace (d + 2 * (j + j2)) with (d + 2 * j + 2 * j2) by lia. split; [|exact H2].
      cbn [roll_until]. unfold get_match. mrun. by rewrite E1, (at_match_lookup _ _ _ _ H1), E.
Qed.

Lemma roll_until_moves m d : all_live s0 m -> 1 <= count m <= 8 -> anyCanMove m = true ->
  exists f0 j columns, rolled m columns /\
    forall f s, f0 <= f -> at_match (with_draws d s0) r m s -> exists s',
      roll_until rand f r s = (Ret tt, s') /\ at_match (with_draws (d + 2 * j) s0) r (set_columns columns m) s'.
Proof.
  intros Hl Hcount H. apply existsb_elem in H as (c & Hc & H). apply (roll_until_ends m c); try done.
  - by apply in_rows.
  - intros columns Hin. apply existsb_elem. by exists c.
Qed.

Lemma next_turn_ends m d :
  let m' := set_turn (otherColor (m_currentTurn m)) m in
  mo_noSkip (m_options m) = true -> all_live s0 m -> 1 <= count m <= 8 -> anyCanMove m' = true ->
  exists f0 j columns, rolled m' columns /\
    forall f s, f0 <= f -> at_match (with_draws d s0) r m s -> exists s',
      next_turn rand f r s = (Ret tt, s') /\ at_match (with_draws (d + 2 * j) s0) r (set_columns columns m') s'.
Proof.
  intros m' Hskip Hl Hcount Hany. destruct (roll_until_moves m' d) as (f0 & j & columns & Hr & Hrun); [done..|].
  exists f0, j, columns. split; [done|]. intros f s Hf Hs.
  destruct (twp_run (next_turn rand f r) (fun _ => at_match (with_draws (d + 2 * j) s0) r (set_columns columns m')) s)
    as ([] & s' & E & H); [|by exists s'].
  unfold next_turn. apply wp_bind. eapply wp_get_match; [exact Hs|]. rewrite Hskip.
  apply wp_bind. eapply wp_modify_match; [exact Hs|]. intros s2 H2.
  apply wp_bind. eapply wp_get_match; [exact H2|].
  apply wp_bind. eapply wp_sendAll; [|exact H2|]; [exact Hl|]. intros s3 H3.
  destruct (Hrun f s3 Hf H3) as (s4 & E & H4). unfold wp_in. by rewrite E.
Qed.

(** What a program chooses depends on the match and on the draws before only. *)
Lemma chooseMove_ends p m d :
  match_ok m -> canMove m = true -> is_program p ->
  exists mv pc d', candidate m mv pc /\
    forall s, at_match (with_draws d s0) r m s -> exists s',
      chooseMove rand p r s = (Ret mv, s') /\ at_match (with_draws d' s0) r m s'.
Proof.
  intros Hok Hc Hp. set (sc := Chess (<[r := m]> (ch_matches s0)) (ch_next s0) (ch_matchesByID s0)
    (ch_matchesByClient s0) (ch_connections s0) (ch_clients s0) (ch_live s0) d []).
  assert (Hsc : at_match (with_draws d s0) r m sc) by by exists [].
  destruct (twp_run (chooseMove rand p r) (fun mv s' => playing s0 r m s' /\ exists pc, candidate m mv pc) sc)
    as (mv & s' & E & (d' & Hs') & pc & Hcand).
  { eapply wp_chooseMove; [by exists d|done..|]. intros mv pc s' Hs' Hcand. eauto. }
  exists mv, pc, d'. split; [done|]. intros s [out ->].
  assert (Hl : ch_matches sc !! r = Some m) by apply lookup_insert_eq.
  revert E. unfold chooseMove, is_program in *. destruct (pl_class p); [done|..].
  - unfold choose_random, next_rand, get_match. mrun. cbn [ch_matches with_draws ch_draws sc].
    rewrite lookup_insert_eq. mrun. cbn [ch_draws sc]. destruct (getPossibleMoves m) as [|x l]; [done|]. mrun.
    cbn [ch_draws with_draws]. destruct (_ !! Z.to_nat _) as [mv1|]; [|done]. intros [= <- <-]. eexists. split; [done|].
    destruct Hs' as [o Hs']. exists out. unfold with_draws in *. cbn in *. congruence.
  - unfold choose_cccp, on_match_board, get_match. mrun. cbn [ch_matches with_draws sc].
    rewrite !lookup_insert_eq. mrun. rewrite Hl. cbn [ch_matches with_draws]. rewrite !lookup_insert_eq.
    destruct (label_moves _ _ _) as [[[|l ls]|e| |] b]; mrun; try done.
    intros [= <- <-]. eexists. split; [done|]. destruct Hs' as [o Hs']. exists out.
    unfold with_draws, with_matches in *. cbn in *. congruence.
  - unfold choose_cccp, on_match_board, get_match. mrun. cbn [ch_matches with_draws sc].
    rewrite !lookup_insert_eq. mrun. rewrite Hl. cbn [ch_matches with_draws]. rewrite !lookup_insert_eq.
    destruct (label_moves _ _ _) as [[[|l ls]|e| |] b]; mrun; try done.
    intros [= <- <-]. eexists. split; [done|]. destruct Hs' as [o Hs']. exists out.
    unfold with_draws, with_matches in *. cbn in *. congruence.
Qed.
End fair_dice.

(** ** The dice *)

(** With fair dice a roll comes to an end, with as many columns as the match
    asks for, all different, in ascending order, and all of the board; the
    board, the players and whose turn it is are what they were. *)
Theorem roll_distinct rand s r m :
  fair rand -> ch_matches s !! r = Some m -> all_live s m ->
  (1 <= mo_columnCount (m_options m) <= 8)%Z ->
  exists fuel0 columns, StronglySorted Z.lt columns /\
    Z.of_nat (length columns) = mo_columnCount (m_options m) /\
    (forall c, c ∈ columns -> (0 <= c < 8)%Z) /\
    forall fuel, fuel0 <= fuel -> exists s', roll rand fuel r s = (Ret tt, s') /\
      ch_matches s' = <[r := set_columns columns m]> (ch_matches s).
Proof.
  intros Hfair Hm Hl Hcount.
  destruct (roll_returns rand Hfair s r (ch_draws s) m Hl) as (f0 & j & columns & _ & Hok & _ & Hrun);
    [unfold count; lia|].
  destruct Hok as (Hsort & Hrange & Hlen). exists f0, columns. split; [done|].
  split; [unfold count in Hlen; lia|]. split; [done|]. intros f Hf.
  destruct (Hrun f s Hf) as (s' & E & Hs').
  { destruct s. by apply at_match_start. }
  exists s'. split; [done|]. by destruct Hs' as (o & ->).
Qed.

(** ** The programs *)

(** When the program has the turn and some move is possible, each of the
    three kinds of program comes to an end with a move that [makeMove] will
    not reject, and it leaves the board as it found it. *)
Theorem chooseMove_legal rand s r m g :
  ch_matches s !! r = Some m -> match_ok m -> canMove m = true -> isReady m = true ->
  mo_class (m_options m) = AIMatch -> m_winnerColor m = None ->
  m_currentTurn m <> mo_hostColor (m_options m) -> m_guest m = Some g ->
  exists mv p s', chooseMove rand g r s = (Ret mv, s') /\ legal m Guest mv p /\
    check_move m Guest mv = Ret p /\ ch_matches s' = ch_matches s.
Proof.
  intros Hm Hok Hcan Hready Hclass Hwin Hturn Hg.
  destruct (program_may_move m) as (g' & Hg' & Hprog & Hmay); try done.
  rewrite Hg in Hg'. injection Hg' as <-.
  assert (H : twp (chooseMove rand g r) (fun mv s' => playing s r m s' /\ exists p, candidate m mv p)
    (fun _ _ => False) s).
  { eapply wp_chooseMove; [|done..|].
    - eapply at_match_playing. by apply at_match_start.
    - intros mv p s' Hs' Hp. eauto. }
  apply twp_run in H as (mv & s' & E & (d & o & ->) & p & Hp).
  assert (Hlegal : legal m Guest mv p) by by split.
  exists mv, p. eexists. split; [exact E|]. split; [done|]. split.
  - pose proof (check_move_spec m Guest mv Hok) as Hc.
    destruct (check_move m Guest mv) as [q|e| |]; [|by destruct Hc as [_ Hc]; destruct (Hc p)|done..].
    destruct Hc as [_ (Hs1 & Hq & _)], Hp as (Hs2 & Hp & _). f_equal.
    unfold stands in *. rewrite Hq in Hs1. rewrite Hp in Hs2. congruence.
  - cbn. by rewrite insert_id.
Qed.

(** ** Moves *)

(** The colour that has the turn after a move when no turns are skipped. *)
Definition next_color (m : chess_match) : Color :=
  match mo_class (m_options m) with NullMatch => m_currentTurn m | _ => otherColor (m_currentTurn m) end.
Definition next_match (m : chess_match) (mv : Move) (p : piece) : chess_match :=
  set_turn (next_color m) (move_result m mv p).

(** After the move the colour whose turn it is can move somewhere on the board. *)
Definition answerable (m : chess_match) (mv : Move) (p : piece) : Prop :=
  ~ takes_king m mv -> anyCanMove (next_match m mv p) = true.

(** So it is after the moves that the program may answer with. *)
Definition replies_answerable (m : chess_match) (mv : Move) (p : piece) : Prop :=
  mo_class (m_options m) = AIMatch -> forall columns mv' p',
    legal (set_columns columns (next_match m mv p)) Guest mv' p' ->
    answerable (set_columns columns (next_match m mv p)) mv' p'.

Section ends.
Context (rand : nat -> N) (Hfair : fair rand) (s0 : chess) (r : nat).

(** A computation ends from every state of the match [m] behind [d] draws. *)
Definition ends (op : nat -> M chess ()) (d : nat) (m : chess_match) : Prop :=
  exists f0, forall f s, f0 <= f -> at_match (with_draws d s0) r m s -> exists s', op f s = (Ret tt, s').

Lemma makeMove_ends d m who mv p :
  match_ok m -> all_live s0 m -> legal m who mv p ->
  (~ takes_king m mv -> ends (fun f => afterMove_with rand (makeMove rand f r) f r) d (move_result m mv p)) ->
  ends (fun f => makeMove rand f r who mv) d m.
Proof.
  intros Hok Hl Hlegal Hafter.
  assert (Hdec : exists f0, ~ takes_king m mv -> forall f s, f0 <= f ->
    at_match (with_draws d s0) r (move_result m mv p) s -> exists s', afterMove_with rand (makeMove rand f r) f r s = (Ret tt, s')).
  { assert (Hk : Decision (takes_king m mv)).
    { unfold takes_king. destruct (at_square (m_board m) (to mv)) as [k|]; [|right; by intros (k & [=] & _)].
      destruct (decide (p_type k = King)); [left; by exists k|right]. by intros (k' & [= <-] & ?). }
    destruct Hk as [Hk|Hk]; [by exists 0|]. destruct (Hafter Hk) as [f0 H]. by exists f0. }
  destruct Hdec as [f0 Hrun]. exists (S f0). intros [|f] s Hf Hs; [lia|]. cbn [makeMove].
  destruct (twp_run (makeMove_with (afterMove_with rand (makeMove rand f r) f r) r who mv)
              (fun _ _ => True) s) as ([] & s' & E & _); [|by exists s'].
  eapply (wp_makeMove_with (with_draws d s0)); [done|done|done|done|done|]. intros Hk s1 H1.
  destruct (Hrun Hk f s1) as (s2 & E); [lia|done|]. unfold wp_in. by rewrite E.
Qed.

(** The turn passes, to the host in a match against a program. *)
Lemma afterMove_passes d m mv p :
  (mo_class (m_options m) = NullMatch \/ mo_noSkip (m_options m) = true) ->
  (mo_class (m_options m) = AIMatch -> otherColor (m_currentTurn m) = mo_hostColor (m_options m)) ->
  all_live s0 m -> 1 <= count m <= 8 -> anyCanMove (next_match m mv p) = true ->
  ends (fun f => afterMove_with rand (makeMove rand f r) f r) d (move_result m mv p).
Proof.
  intros Hskip Hhost Hl Hcount Hany. unfold next_match, next_color in Hany.
  assert (Hnext : mo_class (m_options m) <> NullMatch -> exists f0 j columns, forall f s, f0 <= f ->
    at_match (with_draws d s0) r (move_result m mv p) s -> exists s', next_turn rand f r s = (Ret tt, s') /\
      at_match (with_draws (d + 2 * j) s0) r (set_columns columns (set_turn (otherColor (m_currentTurn m)) (move_result m mv p))) s').
  { intros Hc. destruct (next_turn_ends rand Hfair s0 r (move_result m mv p) d) as (f0 & j & columns & _ & H); try done.
    - by destruct Hskip.
    - by destruct (mo_class (m_options m)).
    - by exists f0, j, columns. }
  destruct (mo_class (m_options m)) eqn:Ec.
  - destruct Hnext as (f0 & j & columns & Hrun); [done|]. exists f0. intros f s Hf Hs.
    destruct (Hrun f s Hf Hs) as (s1 & E & _). exists s1. unfold afterMove_with, get_match. mrun.
    rewrite (at_match_lookup _ _ _ _ Hs). cbn [m_options move_result set_board set_captured]. by rewrite Ec.
  - destruct Hnext as (f0 & j & columns & Hrun); [done|]. exists f0. intros f s Hf Hs.
    destruct (Hrun f s Hf Hs) as (s1 & E & H1). exists s1. unfold afterMove_with, get_match. mrun.
    rewrite (at_match_lookup _ _ _ _ Hs). cbn [m_options move_result set_board set_captured]. rewrite Ec. mrun. rewrite E.
    rewrite (at_match_lookup _ _ _ _ H1). cbn [m_options m_currentTurn move_result set_board set_captured set_turn set_columns].
    by rewrite (Hhost eq_refl), bool_decide_true.
  - destruct (roll_until_moves rand Hfair s0 r (move_result m mv p) d) as (f0 & j & columns & _ & Hrun); [done|done|exact Hany|].
    exists f0. intros f s Hf Hs.
    destruct (twp_run (sendAll r (turnMessage (move_result m mv p)) ;; roll_until rand f r) (fun _ _ => True) s)
      as ([] & s' & E & _).
    { apply wp_bind. eapply wp_sendAll; [|exact Hs|]; [exact Hl|]. intros s1 H1.
      destruct (Hrun f s1 Hf H1) as (s2 & E & _). unfold wp_in. by rewrite E. }
    exists s'. unfold afterMove_with, get_match. mrun. rewrite (at_match_lookup _ _ _ _ Hs).
    cbn [m_options move_result set_board set_captured]. by rewrite Ec.
Qed.

(** The turn passes to the program, which moves. *)
Lemma afterMove_program d m who mv p :
  mo_class (m_options m) = AIMatch -> mo_noSkip (m_options m) = true -> match_ok m -> all_live s0 m -> 1 <= count m <= 8 ->
  legal m who mv p -> ~ takes_king m mv -> otherColor (m_currentTurn m) <> mo_hostColor (m_options m) ->
  anyCanMove (next_match m mv p) = true -> replies_answerable m mv p ->
  ends (fun f => afterMove_with rand (makeMove rand f r) f r) d (move_result m mv p).
Proof.
  intros Hc Hskip Hok Hl Hcount Hlegal Hking Hturn Hany Hreplies. unfold next_match, next_color in Hany. rewrite Hc in Hany.
  destruct (next_turn_ends rand Hfair s0 r (move_result m mv p) d) as (f0 & j & columns & Hrolled & Hrun); [done..|].
  set (m1 := set_columns columns (set_turn (otherColor (m_currentTurn m)) (move_result m mv p))).
  assert (Hply : ply who m m1).
  { apply (ply_intro who m mv p _ columns); [done|done| |done]. rewrite Hc.
    unfold turn_passes. cbn [m_options move_result set_board set_captured]. by rewrite Hskip. }
  destruct (ply_ok _ _ _ Hok Hply) as (Hok1 & Hopt & Hpeople & _ & _ & Hwin & Hready & Hcan & _ & _).
  pose proof Hlegal as [(Hready0 & Hwin0 & _) _].
  destruct (program_may_move m1 Hok1) as (g & Hg & Hprog & Hmay);
    [by rewrite Hopt|congruence|congruence|by rewrite Hopt|].
  destruct (chooseMove_ends rand s0 r g m1 (d + 2 * j)) as (mv' & p' & d' & Hcand & Hchoose); [done..|].
  assert (Hlegal' : legal m1 Guest mv' p') by by split.
  destruct (makeMove_ends d' m1 Guest mv' p') as [f1 Hmake]; [done|by unfold all_live; rewrite Hpeople|done| |].
  { intros Hk'. apply afterMove_passes.
    - right. by rewrite Hopt.
    - intros _. rewrite Hopt. cbn [m1 m_currentTurn set_columns set_turn].
      by destruct (m_currentTurn m), (mo_hostColor (m_options m)).
    - by unfold all_live; rewrite Hpeople.
    - unfold count. by rewrite Hopt.
    - assert (m1 = set_columns columns (next_match m mv p)) as Em by (unfold m1, next_match, next_color; by rewrite Hc).
      rewrite Em in *. by apply (Hreplies Hc). }
  exists (f0 `max` f1). intros f s Hf Hs. destruct (Hrun f s) as (s1 & E1 & H1); [lia|done|].
  destruct (Hchoose s1 H1) as (s2 & E2 & H2). destruct (Hmake f s2) as (s3 & E3); [lia|done|].
  exists (if m_over m then s1 else s3). unfold afterMove_with, get_match. mrun. rewrite (at_match_lookup _ _ _ _ Hs).
  cbn [m_options move_result set_board set_captured]. rewrite Hc. mrun. rewrite E1, (at_match_lookup _ _ _ _ H1).
  rewrite bool_decide_false by done. cbn [negb andb]. change (m_over (set_columns _ _)) with (m_over m).
  destruct (m_over m); [done|]. cbn [negb]. change (m_guest (set_columns _ _)) with (m_guest m1). rewrite Hg, E2. exact E3.
Qed.

Lemma legal_move_ends d m who mv p :
  match_ok m -> all_live s0 m -> 1 <= count m <= 8 ->
  (mo_class (m_options m) = NullMatch \/ mo_noSkip (m_options m) = true) ->
  legal m who mv p -> answerable m mv p -> replies_answerable m mv p ->
  ends (fun f => makeMove rand f r who mv) d m.
Proof.
  intros Hok Hl Hcount Hskip Hlegal Hans Hreplies. apply (makeMove_ends d m who mv p); [done..|]. intros Hk.
  specialize (Hans Hk). assert (mo_class (m_options m) = AIMatch \/ mo_class (m_options m) <> AIMatch) as [Hc|Hc]
    by (destruct (mo_class (m_options m)); auto); [|by apply afterMove_passes].
  destruct (decide (otherColor (m_currentTurn m) = mo_hostColor (m_options m))); [by apply afterMove_passes|].
  apply (afterMove_program d m who mv p); try done. destruct Hskip; [congruence|done].
Qed.
End ends.


(** C32: Between clients, in a match that skips no turns, a legal move with fair
    dice comes to an end as soon as the opponent's colour has a move anywhere
    on the board. *)
Theorem makeMove_returns rand s r m who mv p :
  fair rand -> ch_matches s !! r = Some m -> match_ok m -> all_live s m ->
  (1 <= mo_columnCount (m_options m) <= 8)%Z ->
  mo_class (m_options m) = HumanMatch -> mo_noSkip (m_options m) = true ->
  legal m who mv p ->
  anyCanMove (set_turn (otherColor (m_currentTurn m)) (move_result m mv p)) = true ->
  exists fuel0, forall fuel, fuel0 <= fuel -> exists s', makeMove rand fuel r who mv s = (Ret tt, s').
Proof.
  intros Hfair Hm Hok Hl Hcount Hclass Hskip Hlegal Hany.
  destruct (legal_move_ends rand Hfair s r (ch_draws s) m who mv p) as [f0 H]; try done.
  - unfold count. lia.
  - by right.
  - intros _. unfold next_match, next_color. by rewrite Hclass.
  - intros Hc. congruence.
  - exists f0. intros f Hf. apply H; [done|]. destruct s. by apply at_match_start.
Qed.

(** ** Examples *)

(** Dice that show each number for nine throws. *)
Definition example_rand (n : nat) : N := N.of_nat ((n / 9) mod 5).

Lemma example_rand_period n q : example_rand (n + 45 * q) = example_rand n.
Proof.
  unfold example_rand. f_equal. replace (n + 45 * q) with (n + (5 * q) * 9) by lia.
  rewrite Nat.div_add by lia. replace (n / 9 + 5 * q) with (n / 9 + q * 5) by lia.
  by rewrite Nat.Div0.mod_add.
Qed.

Lemma example_fair : fair example_rand.
Proof.
  intros n c Hc.
  assert (Hall : forallb (fun n => forallb (fun c => existsb (fun k =>
    (drawn example_rand (n + 2 * k) =? c)%Z) (seq 0 45)) rows) (seq 0 45) = true)
    by (vm_compute; reflexivity).
  rewrite forallb_forall in Hall. specialize (Hall (n mod 45)).
  rewrite forallb_forall in Hall.
  assert (Hn : In (n mod 45) (seq 0 45)) by (apply in_seq; pose proof (Nat.mod_upper_bound n 45); lia).
  apply Hall with (x := c) in Hn; [|apply list_elem_of_In, in_rows; lia].
  apply existsb_exists in Hn as (k & _ & Hk). exists k. apply Z.eqb_eq in Hk. rewrite <- Hk.
  unfold drawn. pose proof (Nat.div_mod n 45 ltac:(lia)) as Hdm.
  replace (n + 2 * k) with (n mod 45 + 2 * k + 45 * (n / 45)) by lia.
  replace (S (n mod 45 + 2 * k + 45 * (n / 45)))
    with (S (n mod 45 + 2 * k) + 45 * (n / 45)) by lia.
  by rewrite !example_rand_period.
Qed.

(** A match of two clients, and one of a client against a program. *)
Definition example_match : chess_match :=
  ChessMatch (MatchOptions HumanMatch (lit "m") false true White 3)
    (Some (MkPlayer White Host (HumanPlayer 1))) (Some (MkPlayer Black Guest (HumanPlayer 2)))
    White initial_board None [0; 1; 2]%Z true false [] [].
Definition program_match : chess_match :=
  ChessMatch (MatchOptions AIMatch (lit "p") false false Black 2)
    (Some (MkPlayer Black Host (HumanPlayer 1))) (Some (MkPlayer White Guest CCCPPlayer))
    White initial_board None [0; 4]%Z true false [] [].
Definition example_chess (m : chess_match) : chess :=
  Chess {[0 := m]} 1 {[mo_matchID (m_options m) := 0]} {[1%Z := 0; 2%Z := 0]} {[1%Z; 2%Z]} {[1%Z; 2%Z]}
    {[1%Z; 2%Z]} 0 [].
Definition example_pawn : piece := Piece Pawn White (Sq 6 0).
Definition example_step : Move := MkMove (Sq 6 0) (Sq 5 0).

Lemma initial_board_placed : placed initial_board.
Proof. apply placed_check. vm_compute. reflexivity. Qed.

Lemma example_match_ok : match_ok example_match.
Proof.
  split; [exact initial_board_placed|..]; cbn; try done; intros p [= <-]; (split; [done|]);
    [by intros []|by split].
Qed.

Lemma program_match_ok : match_ok program_match.
Proof.
  split; [exact initial_board_placed|..]; cbn; try done; intros p [= <-]; (split; [done|]);
    [by intros []|by split].
Qed.

Lemma example_live : all_live (example_chess example_match) example_match.
Proof. intros c Hc. refine (bool_decide_unpack _ _). apply elem_of_cons in Hc as [->|Hc]; [done|].
  apply list_elem_of_singleton in Hc as ->. done. Qed.

Lemma example_legal : legal example_match Host example_step example_pawn.
Proof.
  split; [split; [reflexivity|split; [done|split; [reflexivity|]]]|].
  - intros p id [= <-] [= <-]. reflexivity.
  - split; [vm_compute; reflexivity|]. split; [done|]. split; [done|].
    split; refine (bool_decide_unpack _ _); vm_compute; exact I.
Qed.

Lemma roll_distinct_witness :
  exists fuel0 columns, StronglySorted Z.lt columns /\ Z.of_nat (length columns) = 3%Z /\
    (forall c, c ∈ columns -> (0 <= c < 8)%Z) /\
    forall fuel, fuel0 <= fuel -> exists s', roll example_rand fuel 0 (example_chess example_match) = (Ret tt, s') /\
      ch_matches s' = <[0 := set_columns columns example_match]> (ch_matches (example_chess example_match)).
Proof.
  apply (roll_distinct example_rand (example_chess example_match) 0 example_match).
  - exact example_fair.
  - reflexivity.
  - exact example_live.
  - cbn. lia.
Defined.

Lemma chooseMove_legal_witness :
  exists mv p s', chooseMove example_rand (MkPlayer White Guest CCCPPlayer) 0 (example_chess program_match)
      = (Ret mv, s') /\ legal program_match Guest mv p /\
    check_move program_match Guest mv = Ret p /\ ch_matches s' = ch_matches (example_chess program_match).
Proof.
  apply (chooseMove_legal example_rand (example_chess program_match) 0 program_match).
  - reflexivity.
  - exact program_match_ok.
  - vm_compute. reflexivity.
  - reflexivity.
  - reflexivity.
  - reflexivity.
  - discriminate.
  - reflexivity.
Defined.


Lemma makeMove_returns_witness :
  exists fuel0, forall fuel, fuel0 <= fuel -> exists s',
    makeMove example_rand fuel 0 Host example_step (example_chess example_match) = (Ret tt, s').
Proof.
  apply (makeMove_returns _ _ _ example_match _ _ example_pawn).
  - exact example_fair.
  - reflexivity.
  - exact example_match_ok.
  - exact example_live.
  - cbn. lia.
  - reflexivity.
  - reflexivity.
  - exact example_legal.
  - vm_compute. reflexivity.
Defined.

(** The program's move, and a game of two moves, run. *)
Example program_moves : exists s,
  makeMove example_rand 30 0 Guest (MkMove (Sq 6 4) (Sq 4 4)) (example_chess program_match) = (Ret tt, s).
Proof. eexists. vm_compute. reflexivity. Qed.
