(* ===== verification/ProbChess.v ===== *)
(** * Probability chess: the plugin

    [src/plugins/probchess/ProbabilityChess.cpp]: the WebSocket messages that
    create, join, watch and leave matches and make moves, the connection and
    close handlers, and the tables of matches by name and by client. *)

From Stdlib Require Import ZArith Lia Ascii String.
From stdpp Require Import base tactics option list strings gmap.
From S2P Require Import Prelude Util Response Request PluginHost Client FS HttpServer ChessBoard ChessMatch.

Definition VALID_MATCH_CHARS : bytes :=
  lit "abcdefghijklmnopqrstuvwxyzABCDEFGHIJKLMNOPQRSTUVWXYZ0123456789_".

Definition color_of_word (word : bytes) : Color :=
  if bool_decide (word = lit "black") then Black else White.

Definition match_state (m : chess_match) : bytes :=
  lit ":Match " ++ mo_matchID (m_options m) ++ lit " "
  ++ (if isReady m then lit "closed" else lit "open").

(** The constructors of the kinds of matches; a program is the guest. *)
Definition make_match (type : bytes) (id : bytes) (hidden noskip : bool) (column_count : Z)
    (color : Color) : option chess_match :=
  let start (c : match_class) (guest : option player) (turn : Color) :=
    ChessMatch (MatchOptions c id hidden noskip color column_count) None guest turn
      (placePieces ∅).2 None [] false false [] [] in
  let program (c : player_class) := Some (MkPlayer (otherColor color) Guest c) in
  if bool_decide (type = lit "human") then Some (start HumanMatch None White)
  else if bool_decide (type = lit "random") then Some (start AIMatch (program RandomPlayer) White)
  else if bool_decide (type = lit "cccp") then Some (start AIMatch (program CCCPPlayer) White)
  else if bool_decide (type = lit "cccp2") then Some (start AIMatch (program CCCP2Player) White)
  else if bool_decide (type = lit "null") then Some (start NullMatch None color)
  else None.

Section plugin.
Variable rand : nat -> N.

(** What [createMatch] and [joinMatch] do when a match starts. *)
Definition start_match (fuel : nat) (r : nat) : M chess () :=
  modify_match r (set_started true) ;;
  m ← get_match r;
  (if negb (anyCanMove m) then
     whites ← lift (getPieces fuel (m_board m) White);
     match get_color m (if bool_decide (whites = []) then Black else White) with
     | Some winner => end_match r (Some winner)
     | None => undefined
     end
   else mret tt) ;;
  roll_until rand fuel r.

Definition createMatch (fuel : nat) (client : Z) (id : bytes) (column_count : Z) (color : Color)
    (hidden noskip : bool) (type : bytes) : M chess () :=
  if negb (forallb (fun c => bool_decide (c ∈ VALID_MATCH_CHARS)) id)
  then reply client (lit ":Error Invalid match ID.")
  else if ((column_count <? 1) || (8 <? column_count))%Z
  then reply client (lit ":Error Invalid column count.")
  else
  s ← get;
  if bool_decide (is_Some (ch_matchesByClient s !! client))
  then reply client (lit ":Error Already in a match.")
  else if bool_decide (is_Some (ch_matchesByID s !! id))
  then reply client (lit ":Error A match with that ID already exists.")
  else
  match make_match type id hidden noskip column_count color with
  | None => reply client (lit ":Error Invalid match type.")
  | Some m =>
    let r := ch_next s in
    modify (new_match m) ;;
    modify_match r (fun m => set_players (Some (MkPlayer color Host (HumanPlayer client)))
                                         (m_guest m) m) ;;
    modify (with_byID (insert id r)) ;;
    modify (with_byClient (insert client r)) ;;
    reply client (lit ":Joined " ++ id ++ lit " " ++ colorName color) ;;
    m ← get_match r;
    (if mo_hidden (m_options m) then mret tt else broadcast (match_state m)) ;;
    if isReady m then
      reply client (lit ":Start") ;;
      sendAll r (turnMessage m) ;;
      sendBoard r ;;
      start_match fuel r ;;
      m ← get_match r;
      if mo_hidden (m_options m) then mret tt else broadcast (match_state m)
    else sendBoard r
  end.

(** The parts of [joinMatch] before the client has its seat, and the seat; [m]
    is the match as the client found it. *)
Definition announce_start (client : Z) (r : nat) (m : chess_match) (as_spectator : bool)
    : M chess () :=
  if as_spectator then when (m_started m) (reply client (lit ":Start"))
  else when (negb (m_started m)) (sendAll r (lit ":Start")).

Definition take_seat (client : Z) (r : nat) (m : chess_match) (as_spectator : bool) : M chess () :=
  let hostColor := mo_hostColor (m_options m) in
  if as_spectator
  then modify_match r (fun m => set_spectators (m_spectators m ++ [client]) m)
  else if negb (bool_decide (is_Some (m_host m)))
  then modify_match r (fun m => set_players (Some (MkPlayer hostColor Host (HumanPlayer client)))
                                            (m_guest m) m)
  else if negb (bool_decide (is_Some (m_guest m)))
  then modify_match r (fun m => set_players (m_host m)
         (Some (MkPlayer (otherColor hostColor) Guest (HumanPlayer client))) m)
  else mret tt.

Definition joinMatch (fuel : nat) (client : Z) (id : bytes) (as_spectator : bool) : M chess () :=
  s ← get;
  if bool_decide (is_Some (ch_matchesByClient s !! client))
  then reply client (lit ":Error Already in a match.")
  else match ch_matchesByID s !! id with
  | None => reply client (lit ":Error No match with that ID exists.")
  | Some r =>
    m ← get_match r;
    let hostColor := mo_hostColor (m_options m) in
    if negb as_spectator && bool_decide (is_Some (m_host m)) && bool_decide (is_Some (m_guest m))
    then reply client (lit ":Error Match is full.")
    else
    modify (with_byClient (insert client r)) ;;
    reply client (lit ":Joined " ++ id ++ lit " " ++
                  (if as_spectator then lit "spectator"
                   else if negb (bool_decide (is_Some (m_host m))) then colorName hostColor
                   else colorName (otherColor hostColor))) ;;
    announce_start client r m as_spectator ;;
    take_seat client r m as_spectator ;;
    when (negb as_spectator) (reply client (lit ":Start")) ;;
    m ← get_match r;
    when (isReady m) (sendAll r (turnMessage m)) ;;
    sendBoard r ;;
    (if negb as_spectator && negb (m_started m) then start_match fuel r
     else
       reply client (columnMessage m) ;;
       for_each (m_captured m) (fun p => reply client (capturedMessage p))) ;;
    m ← get_match r;
    when (negb as_spectator && negb (mo_hidden (m_options m))) (broadcast (match_state m))
  end.

Definition leaveMatch (client : Z) : M chess () :=
  s ← get;
  match ch_matchesByClient s !! client with
  | None => mret tt
  | Some r => disconnect r client ;; modify (with_byClient (delete client))
  end.

Definition invalid_message (client : Z) : M chess () :=
  reply client (lit ":Error Invalid message.").

Definition word (words : list bytes) (i : nat) : bytes := default [] (words !! i).
Definition is_square_word (w : bytes) : bool :=
  (length w =? 2) && forallb (fun c => bool_decide (c ∈ lit "01234567")) w.
Definition square_of_word (w : bytes) : Square :=
  match w with
  | r :: c :: _ => Sq (schar r - 48) (schar c - 48)
  | _ => Sq 0 0
  end.
(** [words[2][0] - '0'] for a word of one character. *)
Definition column_count_of (w : bytes) : Z :=
  match w with c :: _ => (schar c - 48)%Z | [] => 0%Z end.

Definition valid_create (words : list bytes) : bool :=
  (length words =? 7) && negb (bool_decide (word words 1 = [])) && (length (word words 2) =? 1).
Definition create_from (fuel : nat) (client : Z) (words : list bytes) : M chess () :=
  createMatch fuel client (word words 1) (column_count_of (word words 2))
    (color_of_word (word words 3)) (bool_decide (word words 4 = lit "hidden"))
    (bool_decide (word words 5 = lit "noskip")) (word words 6).

Definition handle_move (fuel : nat) (client : Z) (words : list bytes) : M chess () :=
  if negb (length words =? 3) then invalid_message client
  else if negb (is_square_word (word words 1) && is_square_word (word words 2))
  then invalid_message client
  else
  s ← get;
  match ch_matchesByClient s !! client with
  | None => reply client (lit ":Error Not in a match.")
  | Some r =>
    catch (m ← get_match r;
           who ← lift (getPlayer m client);
           makeMove rand fuel r who
             (MkMove (square_of_word (word words 1)) (square_of_word (word words 2))))
      (fun e => match e with
                | ChessError what => Some (reply client (lit ":Error " ++ what))
                | _ => None
                end)
  end.

Definition get_matches (client : Z) : M chess () :=
  reply client (lit ":ClearMatches") ;;
  s ← get;
  for_each (map_to_list (ch_matchesByID s)) (fun ir =>
    m ← get_match ir.2;
    if mo_hidden (m_options m) then mret tt
    else reply client (lit ":Match " ++ ir.1 ++ lit " "
                       ++ (if isReady m then lit "closed" else lit "open"))).

Definition get_fen (client : Z) : M chess () :=
  s ← get;
  match ch_matchesByClient s !! client with
  | None => reply client (lit ":Error Not in a match.")
  | Some r => m ← get_match r;
              reply client (lit ":FEN " ++ toFEN (m_currentTurn m) (m_board m))
  end.

Definition dispatch_message (fuel : nat) (client : Z) (words : list bytes) : M chess () :=
  match words with
  | [] => undefined
  | verb :: _ =>
    if bool_decide (verb = lit "Create") then
      if negb (valid_create words) then invalid_message client else create_from fuel client words
    else if bool_decide (verb = lit "Join") then
      if negb ((length words =? 2) && negb (bool_decide (word words 1 = [])))
      then invalid_message client else joinMatch fuel client (word words 1) false
    else if bool_decide (verb = lit "Spectate") then
      if negb ((length words =? 2) && negb (bool_decide (word words 1 = [])))
      then invalid_message client else joinMatch fuel client (word words 1) true
    else if bool_decide (verb = lit "CreateOrJoin") then
      if negb (valid_create words) then invalid_message client
      else s ← get;
           if bool_decide (is_Some (ch_matchesByID s !! word words 1))
           then joinMatch fuel client (word words 1) false
           else create_from fuel client words
    else if bool_decide (verb = lit "Move") then handle_move fuel client words
    else if bool_decide (verb = lit "GetMatches") then get_matches client
    else if bool_decide (verb = lit "FEN") then get_fen client
    else if bool_decide (verb = lit "LeaveMatch") then leaveMatch client
    else reply client (lit ":Error Unknown message type")
  end.

Definition handleMessage (fuel : nat) (client : Z) (message : bytes) (not_disabled : bool)
    : M chess CancelableResult :=
  if negb not_disabled then mret CPass
  else match message with
  | ":"%char :: rest =>
    words ← lift (split rest (lit " ") true);
    dispatch_message fuel client words ;; mret CApprove
  | _ => invalid_message client ;; mret CApprove
  end.
End plugin.

Definition handleClose (client : Z) : M chess () :=
  modify (with_connections (fun l => l ∖ {[client]})) ;;
  s ← get;
  match ch_matchesByClient s !! client with
  | None => mret tt
  | Some r => disconnect r client ;; modify (with_byClient (delete client))
  end.

(** The connection handler registers the plugin's two other handlers with the
    HTTP server. *)
Section connection.
Context {J : Type}.
Variables messageHandler closeHandler connectionHandler : weak.

Definition handleConnect (client : Z) (not_disabled : bool)
    (s : WebSocketConnectionArgs * (chess * http_server J))
    : outcome CancelableResult * (WebSocketConnectionArgs * (chess * http_server J)) :=
  let '(args, (c, h)) := s in
  if negb not_disabled then (Ret CPass, s)
  else if bool_decide (lit "probchess" ∈ wa_protocols args) then
    (Ret CApprove,
     (MkConnectionArgs (wa_args args) (wa_protocols args) (lit "probchess"),
      (with_connections (fun l => {[client]} ∪ l) c,
       registerWebSocketCloseHandler client closeHandler
         (registerWebSocketMessageHandler client messageHandler h))))
  else (Ret CPass, s).

Definition chess_postinit (h : http_server J) : http_server J :=
  HttpServer (h_options h) (h_webRoot h) (h_getHandlers h) (h_postHandlers h)
    (h_webSocketConnectionHandlers h ++ [connectionHandler])
    (h_webSocketMessageHandlers h) (h_webSocketCloseHandlers h) (h_configs h).

(** The handlers of the plugin live until its object is destroyed, after
    [cleanup]: of its handlers only the one for connections goes. *)
Context {N : Type} {HH : @Handlers J N}.
Definition chess_cleanup (h : http_server J) : http_server J :=
  cleanWebSocketHandlers
    (HttpServer (h_options h) (h_webRoot h) (h_getHandlers h) (h_postHandlers h)
      (erase handler_live (h_webSocketConnectionHandlers h) (handler_live connectionHandler)).2
      (h_webSocketMessageHandlers h) (h_webSocketCloseHandlers h) (h_configs h)).
End connection.
