(* ===== verification/ChessTables.v ===== *)
(** * Probability chess: the tables of matches

    The plugin keeps two tables, of matches by name and of matches by client.
    They agree with each other and with the seats of the matches after every
    message and every closed connection, and no message a client can send makes
    the plugin send to a client that is gone. *)

From Stdlib Require Import ZArith Lia Ascii String.
From stdpp Require Import base tactics option list strings gmap sorting.
From S2P Require Import Prelude Util PluginHost HttpServer ChessBoard ChessMatch ChessRules ChessGame ProbChess.

(** ** The invariant *)

(** A match that the tables hold. *)
Record running (m : chess_match) : Prop := {
  run_ok : match_ok m;
  run_active : isActive m = true;
  run_over : m_over m = false;
  run_winner : m_winnerColor m = None;
  run_count : (1 <= mo_columnCount (m_options m) <= 8)%Z;
  run_started : m_started m = true -> canMove m = true /\ columns_ok (count m) (m_columns m);
  run_waiting : m_started m = false -> isReady m = false /\ anyCanMove m = true;
}.

Record chess_wf (s : chess) : Prop := {
  wf_id id r : ch_matchesByID s !! id = Some r ->
    exists m, ch_matches s !! r = Some m /\ mo_matchID (m_options m) = id /\ running m;
  wf_client c r : ch_matchesByClient s !! c = Some r ->
    exists m, ch_matches s !! r = Some m /\ c ∈ people m /\
      ch_matchesByID s !! mo_matchID (m_options m) = Some r;
  wf_people id r m c : ch_matchesByID s !! id = Some r -> ch_matches s !! r = Some m ->
    c ∈ people m -> ch_matchesByClient s !! c = Some r /\ c ∈ ch_live s;
  wf_next r m : ch_matches s !! r = Some m -> r < ch_next s;
}.

(** A state in which one match has changed, and with it the entries of the
    tables that belong to it.  [alive]: the match is still in the tables. *)
Record changed (s : chess) (r : nat) (m : chess_match) (alive : bool) (s' : chess) : Prop := {
  ch_m : ch_matches s' = <[r := m]> (ch_matches s);
  ch_n : ch_next s <= ch_next s' /\ r < ch_next s';
  ch_l : ch_live s' = ch_live s;
  ch_other id : id <> mo_matchID (m_options m) -> ch_matchesByID s' !! id = ch_matchesByID s !! id;
  ch_own : ch_matchesByID s' !! mo_matchID (m_options m) = if alive then Some r else None;
  ch_clientsof c : ch_matchesByClient s' !! c =
    if bool_decide (c ∈ if alive then people m else []) then Some r
    else if bool_decide (ch_matchesByClient s !! c = Some r) then None
    else ch_matchesByClient s !! c;
}.

(** The match [r], or a new one, may take that place in the tables. *)
Record owns (s : chess) (r : nat) (m : chess_match) : Prop := {
  own_id id : ch_matchesByID s !! id = Some r -> id = mo_matchID (m_options m);
  own_r r' : ch_matchesByID s !! mo_matchID (m_options m) = Some r' -> r' = r;
  own_people c : c ∈ people m ->
    (ch_matchesByClient s !! c = None \/ ch_matchesByClient s !! c = Some r) /\ c ∈ ch_live s;
}.

Lemma wf_changed s r m alive s' :
  chess_wf s -> owns s r m -> (alive = true -> running m) -> changed s r m alive s' -> chess_wf s'.
Proof.
  intros [Wi Wc Wp Wn] [Oi Or Op] Hrun [Cm [Cn1 Cn2] Cl Co Cw Cc].
  assert (Hold : forall id q, id <> mo_matchID (m_options m) -> ch_matchesByID s' !! id = Some q ->
    q <> r /\ ch_matchesByID s !! id = Some q).
  { intros id q Hne Hq. rewrite Co in Hq by done. split; [|done]. intros ->. by apply Hne, Oi. }
  split.
  - intros id q Hq. rewrite Cm. destruct (decide (id = mo_matchID (m_options m))) as [->|Hne].
    + rewrite Cw in Hq. destruct alive; [|done]. injection Hq as <-. exists m.
      rewrite lookup_insert_eq. split; [done|]. split; [done|]. by apply Hrun.
    + destruct (Hold id q Hne Hq) as [Hqr Hq']. rewrite lookup_insert_ne by done. by apply Wi.
  - intros c q Hq. rewrite Cc in Hq. case_bool_decide as Hin.
    + destruct alive; [|by apply not_elem_of_nil in Hin]. injection Hq as <-. exists m.
      rewrite Cm, lookup_insert_eq. done.
    + case_bool_decide as Hr; [done|]. destruct (Wc c q Hq) as (mq & Hmq & Hc & Hid).
      assert (Hne : r <> q) by congruence. exists mq. rewrite Cm, lookup_insert_ne by done.
      split; [done|]. split; [done|]. rewrite Co; [done|]. intros E. rewrite E in Hid.
      apply Or in Hid. done.
  - intros id q mq c Hq Hmq Hc. rewrite Cl. destruct (decide (id = mo_matchID (m_options m))) as [->|Hne].
    + rewrite Cw in Hq. destruct alive; [|done]. injection Hq as <-.
      rewrite Cm, lookup_insert_eq in Hmq. injection Hmq as <-.
      rewrite Cc, bool_decide_true by done. split; [done|]. by apply Op.
    + destruct (Hold id q Hne Hq) as [Hqr Hq']. rewrite Cm, lookup_insert_ne in Hmq by done.
      destruct (Wp id q mq c Hq' Hmq Hc) as [Hcq Hlive]. split; [|done].
      rewrite Cc. rewrite !bool_decide_false; [done|congruence|].
      destruct alive; [|apply not_elem_of_nil]. intros Hin. destruct (Op c Hin) as [[H|H] _]; congruence.
  - intros q mq. rewrite Cm. intros [[<- _]|[_ Hq]]%lookup_insert_Some; [done|].
    apply Wn in Hq. lia.
Qed.

(** ** The shapes of change *)

Section shapes.
Context (s : chess) (Hwf : chess_wf s) (r : nat) (m : chess_match).
Context (Hm : ch_matches s !! r = Some m) (Hid : ch_matchesByID s !! mo_matchID (m_options m) = Some r).

Lemma listed_running : running m.
Proof. destruct (wf_id s Hwf _ _ Hid) as (m' & Hm' & _ & Hrun). congruence. Qed.

Lemma listed_live : all_live s m.
Proof. intros c Hc. by eapply wf_people. Qed.

Lemma listed_clients c : ch_matchesByClient s !! c = Some r <-> c ∈ people m.
Proof.
  split.
  - intros Hc. destruct (wf_client s Hwf c r Hc) as (m' & Hm' & Hin & _). congruence.
  - intros Hc. by eapply wf_people.
Qed.

Lemma listed_next : r < ch_next s.
Proof. by eapply wf_next. Qed.

Lemma listed_owns m' :
  m_options m' = m_options m ->
  (forall c, c ∈ people m' -> (c ∈ people m \/ ch_matchesByClient s !! c = None) /\ c ∈ ch_live s) ->
  owns s r m'.
Proof.
  intros Ho Hp. split.
  - intros id Hi. destruct (wf_id s Hwf _ _ Hi) as (mi & Hmi & <- & _). rewrite Ho. congruence.
  - intros r' Hr'. rewrite Ho in Hr'. congruence.
  - intros c Hc. destruct (Hp c Hc) as [[H|H] Hl]; [|by auto]. split; [|done].
    right. by apply listed_clients.
Qed.

(** The tables after the match has changed and stayed. *)
Lemma tables_stay m' byClient s' :
  m_options m' = m_options m -> tables s r m' (ch_matchesByID s) byClient s' ->
  (forall c, byClient !! c = if bool_decide (c ∈ people m') then Some r
             else if bool_decide (c ∈ people m) then None else ch_matchesByClient s !! c) ->
  changed s r m' true s'.
Proof.
  intros Ho (d & o & ->) Hc. pose proof listed_next. split; cbn; try done.
  - by rewrite Ho.
  - intros c. rewrite Hc. case_bool_decide; [done|].
    by rewrite (bool_decide_ext _ _ (listed_clients c)).
Qed.

Lemma playing_wf m' s' :
  same_seats m m' -> running m' -> playing s r m' s' -> chess_wf s'.
Proof.
  intros Hs Hrun (d & o & ->). eapply (wf_changed s r m' true); [done| |done|].
  - apply listed_owns; [apply Hs|]. intros c Hc. rewrite (seats_people _ _ Hs) in Hc.
    split; [by left|by apply listed_live].
  - apply (tables_stay m' (ch_matchesByClient s)); [apply Hs|by eexists _, _|].
    intros c. rewrite (seats_people _ _ Hs). case_bool_decide as Hc; [by apply listed_clients|done].
Qed.

(** The tables after a match without the clients [gone] has ended, and these
    have left too. *)
Lemma ended_wf m' byClient s' :
  m_options m' = m_options m ->
  tables s r m' (delete (mo_matchID (m_options m)) (ch_matchesByID s)) byClient s' ->
  without (people m) (ch_matchesByClient s) byClient -> (forall c, c ∈ people m' -> c ∈ people m) ->
  chess_wf s'.
Proof.
  intros Ho (d & o & ->) Hc Hp. eapply (wf_changed s r m' false); [done| |done|].
  - apply listed_owns; [done|]. intros c Hin. apply Hp in Hin. split; [by left|by apply listed_live].
  - pose proof listed_next. split; cbn; try done.
    + intros id Hne. apply lookup_delete_ne. congruence.
    + rewrite Ho. apply lookup_delete_eq.
    + intros c. rewrite Hc, (bool_decide_false (c ∈ [])) by apply not_elem_of_nil.
      by rewrite (bool_decide_ext _ _ (listed_clients c)).
Qed.
End shapes.

(** ** Leaving *)

Definition unseat (id : Z) (m : chess_match) : chess_match :=
  set_players (reset_human id (m_host m)) (reset_human id (m_guest m))
    (set_spectators (List.filter (fun x => negb (x =? id)%Z) (m_spectators m)) m).

Lemma human_ids_reset c id p : c ∈ human_ids (reset_human id p) <-> c ∈ human_ids p /\ c <> id.
Proof.
  unfold reset_human, is_human, human_ids. destruct p as [p|]; [destruct (pl_class p) as [i| | |] eqn:E|];
    rewrite ?E; try (split; [by intros ?%not_elem_of_nil|by intros [?%not_elem_of_nil _]]).
  destruct (Z.eqb_spec i id) as [->|Hne].
  - rewrite list_elem_of_singleton. split; [by intros ?%not_elem_of_nil|tauto].
  - rewrite E, list_elem_of_singleton. split; [intros ->; done|tauto].
Qed.

Lemma people_unseat c id m : c ∈ people (unseat id m) <-> c ∈ people m /\ c <> id.
Proof.
  unfold people, unseat. cbn. rewrite !elem_of_app, !human_ids_reset, !list_elem_of_In, filter_In.
  rewrite negb_true_iff, Z.eqb_neq. tauto.
Qed.

Lemma reset_human_Some id p q : reset_human id p = Some q -> p = Some q.
Proof. unfold reset_human. by destruct (is_human id p). Qed.

Lemma unseat_running id m : running m -> isActive (unseat id m) = true -> running (unseat id m).
Proof.
  intros [[Hb Hh Hg Ha Hn] Hact Hover Hwin Hcount Hst Hwait] Hact'.
  split; [split|done|done|done|done|exact Hst|].
  - exact Hb.
  - intros p Hp%reset_human_Some. by apply Hh.
  - intros p Hp%reset_human_Some. by apply Hg.
  - intros Hc. destruct (Ha Hc) as [g Hg']. exists g. cbn. unfold reset_human, is_human.
    rewrite Hg'. destruct (Hg g Hg') as [_ Hp]. apply Hp in Hc. unfold is_program in Hc.
    by destruct (pl_class g).
  - exact Hn.
  - intros Hs. destruct (Hwait Hs) as [Hr Hany]. split; [|exact Hany].
    destruct (isReady (unseat id m)) eqn:E; [|done]. exfalso.
    assert (isReady m = true); [|congruence]. revert E. unfold isReady, unseat. cbn.
    assert (Hsome : forall p, bool_decide (is_Some (reset_human id p)) = true ->
                              bool_decide (is_Some p) = true).
    { intros p. rewrite !bool_decide_eq_true. intros [q Hq%reset_human_Some]. by rewrite Hq. }
    destruct (mo_class (m_options m)); [rewrite !andb_true_iff; intros []; split|..]; auto.
Qed.

(** [disconnect], and then the entry of the client goes. *)
Lemma wp_leave {D} s r c E :
  chess_wf s -> ch_matchesByClient s !! c = Some r ->
  wp_in D (disconnect r c ;; modify (with_byClient (delete c)))
    (fun _ s' => chess_wf s' /\ ch_matchesByClient s' !! c = None /\ ch_live s' = ch_live s) E s.
Proof.
  intros Hwf Hc. destruct (wf_client s Hwf c r Hc) as (m & Hm & Hin & Hid).
  pose proof (listed_running s Hwf r m Hm Hid) as Hrun. pose proof (listed_live s Hwf r m Hm Hid) as Hl.
  assert (Hl1 : all_live s (unseat c m)) by (intros x [Hx _]%people_unseat; by apply Hl).
  unfold disconnect. apply wp_bind, wp_bind. eapply wp_modify_match; [by apply at_match_start|].
  intros s1 H1. apply wp_bind. eapply wp_modify_match; [exact H1|]. intros s2 H2.
  change (at_match s r (unseat c m) s2) in H2. apply wp_bind. eapply wp_get_match; [exact H2|].
  assert (Hstay : isActive (unseat c m) = true -> forall s3, at_match s r (unseat c m) s3 ->
    wp_in D (modify (with_byClient (delete c)))
      (fun _ s' => chess_wf s' /\ ch_matchesByClient s' !! c = None /\ ch_live s' = ch_live s) E s3).
  { intros Hact s3 (o & ->). apply wp_modify. unfold with_byClient. cbn.
    split; [|split; [apply lookup_delete_eq|done]].
    eapply (wf_changed s r (unseat c m) true); [done| |intros _; by apply unseat_running|].
    - eapply listed_owns; [done|done|done|done|]. intros x Hx. split; [|by apply Hl1].
      apply people_unseat in Hx. tauto.
    - eapply (tables_stay s Hwf r m Hm Hid _ (delete c (ch_matchesByClient s))); [done|by eexists _, _|].
      intros x. destruct (decide (x = c)) as [->|Hx].
      + rewrite lookup_delete_eq, bool_decide_false by (rewrite people_unseat; tauto).
        by rewrite bool_decide_true.
      + rewrite lookup_delete_ne by done. destruct (decide (x ∈ people m)) as [Hp|Hp].
        * rewrite bool_decide_true by (by apply people_unseat). by apply (listed_clients s Hwf r m Hm Hid).
        * by rewrite !bool_decide_false by (rewrite ?people_unseat; tauto). }
  destruct (isActive (unseat c m)) eqn:Eact; cbn [negb].
  - destruct (mo_hidden (m_options (unseat c m))).
    + apply wp_ret. by apply Hstay.
    + eapply wp_broadcast; [exact H2|]. by apply Hstay.
  - eapply wp_end_match; [exact H2|exact Hl1|]. intros s3 (_ & byClient & (d & o & ->) & Hwo).
    apply wp_modify. unfold with_byClient. cbn. split; [|split; [apply lookup_delete_eq|done]].
    eapply (ended_wf s Hwf r m Hm Hid (set_over true (unseat c m)) (delete c byClient)); [done|by eexists _, _| |].
    + intros x. destruct (decide (x = c)) as [->|Hx].
      * rewrite lookup_delete_eq. by rewrite bool_decide_true.
      * rewrite lookup_delete_ne by done. rewrite Hwo. apply (f_equal (fun b : bool => if b then _ else _)).
        apply bool_decide_ext.
        change (people (set_over true (unseat c m))) with (people (unseat c m)).
        rewrite people_unseat. tauto.
    + by intros x [Hx _]%people_unseat.
Qed.

(** ** Starting a match *)

Lemma anyCanMove_columns m : anyCanMove m = true -> forall b, anyCanMove (set_started b m) = true.
Proof. done. Qed.

Section starting.
Context (rand : nat -> N) (s : chess) (r : nat).

(** A match that starts gets columns; the search for pieces of a colour, which
    does not return, is not reached. *)
Lemma wp_start_match fuel m (Q : () -> chess -> Prop) E st :
  at_match s r m st -> all_live s m -> anyCanMove m = true ->
  (forall columns s', playing s r (set_columns columns (set_started true m)) s' ->
     rolled (set_started true m) columns -> Q tt s') ->
  wp (start_match rand fuel r) Q E st.
Proof.
  intros Hm Hl Hany HQ. unfold start_match. apply wp_bind. eapply wp_modify_match; [done|].
  intros s1 H1. apply wp_bind. eapply wp_get_match; [exact H1|].
  change (anyCanMove (set_started true m)) with (anyCanMove m). rewrite Hany. cbn [negb].
  apply wp_bind, wp_ret. eapply wp_roll_until; [by eapply at_match_playing|exact Hl|exact HQ].
Qed.

Lemma wp_broadcast_playing {D} m message (Q : () -> chess -> Prop) E st :
  playing s r m st -> (forall s', playing s r m s' -> Q tt s') ->
  wp_in D (broadcast message) Q E st.
Proof.
  intros [d Hm] HQ. eapply wp_broadcast; [exact Hm|]. intros s' Hs'. apply HQ. by exists d.
Qed.
End starting.

Lemma running_started m columns :
  running m -> rolled (set_started true m) columns -> running (set_columns columns (set_started true m)).
Proof.
  intros [[Hb Hh Hg Ha Hn] Hact Hover Hwin Hcount Hst Hwait] [Hcols Hcan].
  split; [split|done|done|done|done| |]; cbn; try done.
Qed.

(** ** Joining *)

(** The match after a client has taken a seat or has come to watch. *)
Definition seated (client : Z) (as_spectator : bool) (m : chess_match) : chess_match :=
  let hostColor := mo_hostColor (m_options m) in
  if as_spectator then set_spectators (m_spectators m ++ [client]) m
  else if negb (bool_decide (is_Some (m_host m)))
  then set_players (Some (MkPlayer hostColor Host (HumanPlayer client))) (m_guest m) m
  else if negb (bool_decide (is_Some (m_guest m)))
  then set_players (m_host m) (Some (MkPlayer (otherColor hostColor) Guest (HumanPlayer client))) m
  else m.

Lemma people_seated client spec m c :
  spec = true \/ m_host m = None \/ m_guest m = None ->
  c ∈ people (seated client spec m) <-> c = client \/ c ∈ people m.
Proof.
  intros Hseat. unfold people, seated. destruct spec.
  - cbn. rewrite !elem_of_app, list_elem_of_singleton. tauto.
  - destruct (m_host m) as [h|] eqn:Eh.
    + rewrite bool_decide_true by done. cbn [negb]. destruct (m_guest m) as [g|] eqn:Eg; [|].
      * destruct Hseat as [|[|]]; done.
      * rewrite bool_decide_false by by intros []. cbn. rewrite ?elem_of_app, ?elem_of_cons, ?elem_of_app. tauto.
    + rewrite bool_decide_false by by intros []. cbn. rewrite ?elem_of_app, ?elem_of_cons, ?elem_of_app. tauto.
Qed.

Lemma seated_same client spec m :
  m_options (seated client spec m) = m_options m /\ m_over (seated client spec m) = m_over m /\
  m_winnerColor (seated client spec m) = m_winnerColor m /\
  m_started (seated client spec m) = m_started m /\ m_columns (seated client spec m) = m_columns m /\
  anyCanMove (seated client spec m) = anyCanMove m /\ canMove (seated client spec m) = canMove m.
Proof.
  unfold seated. destruct spec; [done|]. by destruct (negb _); [|destruct (negb _)].
Qed.

(** A seat may be taken when the match is not over; a match that waits for a
    player need not be ready after it. *)
Lemma seated_ok client spec m : match_ok m -> match_ok (seated client spec m).
Proof.
  intros Hok. pose proof Hok as [Hb Hh Hg Ha Hn]. unfold seated. destruct spec; [done|].
  destruct (m_host m) as [h|] eqn:Eh.
  - rewrite bool_decide_true by done. cbn [negb]. destruct (m_guest m) as [g|] eqn:Eg.
    + by rewrite bool_decide_true.
    + rewrite bool_decide_false by by intros []. cbn [negb]. split; cbn; try done.
      intros p [= <-]. split; [done|]. split; [done|]. intros Hc. by destruct (Ha Hc).
  - rewrite bool_decide_false by by intros []. cbn [negb]. split; cbn; try done.
    intros p [= <-]. split; [done|]. by intros [].
Qed.

Lemma seated_active client spec m : isActive m = true -> isActive (seated client spec m) = true.
Proof.
  unfold seated. destruct spec; [done|].
  destruct (m_host m) as [h|] eqn:Eh.
  - rewrite bool_decide_true by done. cbn [negb]. destruct (m_guest m) as [g|] eqn:Eg.
    + by rewrite bool_decide_true.
    + rewrite bool_decide_false by by intros []. cbn [negb]. unfold isActive. cbn. by rewrite Eh.
  - rewrite bool_decide_false by by intros []. cbn [negb]. unfold isActive. cbn.
    by destruct (mo_class (m_options m)).
Qed.

Lemma spectator_running client m : running m -> running (seated client true m).
Proof. intros [[] ? ? ? ? ? ?]. split; [split|..]; done. Qed.

(** What the messages keep: the tables agree, and nobody has gone. *)
Definition kept (s s' : chess) : Prop := chess_wf s' /\ ch_live s' = ch_live s.

Lemma wf_same s s' :
  ch_matches s' = ch_matches s -> ch_next s' = ch_next s -> ch_matchesByID s' = ch_matchesByID s ->
  ch_matchesByClient s' = ch_matchesByClient s -> ch_live s' = ch_live s -> chess_wf s -> chess_wf s'.
Proof.
  intros Hm Hn Hi Hc Hl [Wi Wc Wp Wn]. split; rewrite ?Hm, ?Hn, ?Hi, ?Hc, ?Hl; done.
Qed.

Lemma wp_reply_kept {D} client message s E :
  chess_wf s -> wp_in D (reply client message) (fun _ => kept s) E s.
Proof. intros Hwf. apply wp_modify. split; [by apply (wf_same s)|done]. Qed.

Lemma wp_if {D A} (b : bool) (m1 m2 : M chess A) Q E s :
  wp_in D m1 Q E s -> wp_in D m2 Q E s -> wp_in D (if b then m1 else m2) Q E s.
Proof. by destruct b. Qed.

(** The tables after a client has joined a match that goes on. *)
Lemma joined_wf s r m client spec m' s' :
  chess_wf s -> client ∈ ch_live s -> ch_matchesByClient s !! client = None ->
  ch_matches s !! r = Some m -> ch_matchesByID s !! mo_matchID (m_options m) = Some r ->
  spec = true \/ m_host m = None \/ m_guest m = None ->
  m_options m' = m_options m -> people m' = people (seated client spec m) -> running m' ->
  playing (with_byClient (insert client r) s) r m' s' -> kept s s'.
Proof.
  intros Hwf Hlive Hnew Hm Hid Hseat Ho Hp Hrun (d & o & ->). split; [|done].
  pose proof (people_seated client spec m) as Hps.
  eapply (wf_changed s r m' true); [done| |done|].
  - eapply listed_owns; [done|done|done|done|]. intros c Hc. rewrite Hp, Hps in Hc by done.
    destruct Hc as [->|Hc]; [by auto|]. split; [by left|]. by eapply listed_live.
  - eapply (tables_stay s Hwf r m Hm Hid m' (<[client := r]> (ch_matchesByClient s)));
      [done|by eexists _, _|].
    intros c. rewrite Hp. destruct (decide (c = client)) as [->|Hne].
    + rewrite lookup_insert_eq, bool_decide_true; [done|]. apply Hps; [done|by left].
    + rewrite lookup_insert_ne by done. destruct (decide (c ∈ people m)) as [Hc|Hc].
      * rewrite bool_decide_true by (apply Hps; [done|by right]).
        by apply (listed_clients s Hwf r m Hm Hid).
      * rewrite !bool_decide_false; [done|done|]. intros [H|H]%Hps; done.
Qed.

(** A client joins the listed match [m], which has room. *)
Section joining.
Context (rand : nat -> N) (s : chess) (r : nat) (m : chess_match) (client : Z) (spec : bool).
Context (Hwf : chess_wf s) (Hlive : client ∈ ch_live s) (Hnew : ch_matchesByClient s !! client = None).
Context (Hm : ch_matches s !! r = Some m)
  (Hid : ch_matchesByID s !! mo_matchID (m_options m) = Some r).
Context (Hseat : spec = true \/ m_host m = None \/ m_guest m = None).

Let s1 := with_byClient (insert client r) s.
Let mm := seated client spec m.

Lemma live_before : all_live s1 m.
Proof. exact (listed_live s Hwf r m Hm Hid). Qed.

Lemma live_seated : all_live s1 mm.
Proof. intros c Hc. apply people_seated in Hc as [->|Hc]; [done|by apply live_before|done]. Qed.

Lemma wp_announce_start (Q : () -> chess -> Prop) E t :
  at_match s1 r m t -> (forall t', at_match s1 r m t' -> Q tt t') ->
  wp (announce_start client r m spec) Q E t.
Proof.
  intros Ht HQ. unfold announce_start. apply wp_if; apply wp_when.
  - destruct (m_started m); [by eapply wp_reply|by apply HQ].
  - destruct (m_started m); cbn [negb]; [by apply HQ|].
    eapply wp_sendAll; [exact live_before|done|done].
Qed.

Lemma wp_take_seat (Q : () -> chess -> Prop) E t :
  at_match s1 r m t -> (forall t', at_match s1 r mm t' -> Q tt t') ->
  wp (take_seat client r m spec) Q E t.
Proof.
  intros Ht HQ. unfold mm, seated in HQ. unfold take_seat. destruct spec; [by eapply wp_modify_match|].
  destruct (negb _); [by eapply wp_modify_match|].
  destruct (negb _); [by eapply wp_modify_match|]. by apply wp_ret, HQ.
Qed.

Lemma seated_running : negb spec && negb (m_started mm) = false -> running mm.
Proof.
  intros Hst. pose proof (listed_running s Hwf r m Hm Hid) as Hrun.
  destruct (seated_same client spec m) as (So & Sover & Swin & Sst & Scol & Sany & Scan).
  split; [by apply seated_ok, Hrun|by apply seated_active, Hrun|by unfold mm; rewrite Sover; apply Hrun
    |by unfold mm; rewrite Swin; apply Hrun|by unfold mm; rewrite So; apply Hrun| |].
  - intros Hs. unfold mm, count in *. rewrite Scan, Scol, So. apply Hrun. congruence.
  - intros Hs. rewrite Hs, andb_true_r in Hst. apply negb_false_iff in Hst.
    unfold mm in *. rewrite Hst in *. apply (run_waiting m Hrun). exact Hs.
Qed.

Lemma wp_joined (m' : chess_match) t :
  playing s1 r m' t -> running m' -> m_options m' = m_options m -> people m' = people mm ->
  wp (m ← get_match r;
      when (negb spec && negb (mo_hidden (m_options m))) (broadcast (match_state m)))
    (fun _ => kept s) (fun _ _ => False) t.
Proof.
  intros [d Ht] Hr Ho Hp. apply wp_bind. eapply wp_get_match; [exact Ht|]. apply wp_when.
  assert (Hk : forall t', at_match (with_draws d s1) r m' t' -> kept s t').
  { intros t' Ht'. eapply (joined_wf s r m client spec m'); [done..|by exists d]. }
  destruct (_ && _); [by eapply wp_broadcast|by apply Hk].
Qed.

Lemma wp_join_start fuel (Q : () -> chess -> Prop) t :
  at_match s1 r mm t ->
  (forall m' t', playing s1 r m' t' -> running m' -> m_options m' = m_options m ->
                 people m' = people mm -> Q tt t') ->
  wp (if negb spec && negb (m_started mm) then start_match rand fuel r
      else reply client (columnMessage mm) ;;
           for_each (m_captured mm) (fun p => reply client (capturedMessage p))) Q (fun _ _ => False) t.
Proof.
  intros Ht HQ. destruct (seated_same client spec m) as (So & Sover & Swin & Sst & _ & Sany & _).
  pose proof (listed_running s Hwf r m Hm Hid) as Hrun.
  destruct (negb spec && negb (m_started mm)) eqn:Estart.
  - apply andb_true_iff in Estart as [Espec Est]. apply negb_true_iff in Est.
    unfold mm in Est. rewrite Sst in Est. destruct (run_waiting m Hrun Est) as [_ Hany].
    eapply wp_start_match; [exact Ht|exact live_seated|unfold mm; congruence|].
    intros columns t1 H1 [Hcols Hcan].
    pose proof (seated_ok client spec m (run_ok m Hrun)) as Hok.
    eapply HQ; [exact H1| |exact So|done].
    split; [split; apply Hok|exact (seated_active _ _ _ (run_active m Hrun))
      |unfold mm; cbn; rewrite Sover; apply Hrun|unfold mm; cbn; rewrite Swin; apply Hrun
      |unfold mm; cbn; rewrite So; apply Hrun|done|done].
  - apply wp_bind. eapply wp_reply; [exact Ht|]. intros t1 H1.
    eapply (wp_for_each_reply s1 r mm _ (fun p => (client, capturedMessage p))); [exact H1|].
    intros t2 H2. eapply HQ; [by eapply at_match_playing|by apply seated_running|exact So|done].
Qed.

End joining.

Lemma wp_joinMatch rand fuel client id spec s :
  chess_wf s -> client ∈ ch_live s ->
  wp (joinMatch rand fuel client id spec) (fun _ => kept s) (fun _ _ => False) s.
Proof.
  intros Hwf Hlive. unfold joinMatch. apply wp_bind, wp_get.
  destruct (ch_matchesByClient s !! client) as [r0|] eqn:Enew.
  { rewrite bool_decide_true by done. by apply wp_reply_kept. }
  rewrite bool_decide_false by by intros [].
  destruct (ch_matchesByID s !! id) as [r|] eqn:Eid; [|by apply wp_reply_kept].
  destruct (wf_id s Hwf _ _ Eid) as (m & Hm & <- & Hrun).
  apply wp_bind. eapply (wp_get_match s r m); [by apply at_match_start|].
  destruct (negb spec && bool_decide (is_Some (m_host m)) && bool_decide (is_Some (m_guest m))) eqn:Efull;
    [by apply wp_reply_kept|].
  assert (Hseat : spec = true \/ m_host m = None \/ m_guest m = None).
  { destruct spec; [by left|]. right. destruct (m_host m); [|by left]. destruct (m_guest m); [done|by right]. }
  set (s1 := with_byClient (insert client r) s). apply wp_bind, wp_modify. fold s1.
  pose proof (live_seated s r m client spec Hwf Hlive Hm Eid Hseat) as Hl. fold s1 in Hl.
  apply wp_bind. eapply (wp_reply s1 r m); [by apply at_match_start|]. intros t1 H1.
  apply wp_bind. eapply (wp_announce_start s r m client spec); [done..|]. intros t2 H2.
  apply wp_bind. eapply wp_take_seat; [exact Hseat|exact H2|]. fold s1. intros t3 H3.
  set (mm := seated client spec m) in *.
  assert (Hrest : forall t, at_match s1 r mm t -> wp
    (m ← get_match r;
     when (isReady m) (sendAll r (turnMessage m)) ;;
     sendBoard r ;;
     (if negb spec && negb (m_started m) then start_match rand fuel r
      else reply client (columnMessage m) ;;
           for_each (m_captured m) (fun p => reply client (capturedMessage p))) ;;
     m ← get_match r;
     when (negb spec && negb (mo_hidden (m_options m))) (broadcast (match_state m)))
    (fun _ => kept s) (fun _ _ => False) t).
  { intros t Ht. apply wp_bind. eapply wp_get_match; [exact Ht|]. apply wp_bind.
    assert (Hboard : forall t', at_match s1 r mm t' -> wp (sendBoard r ;;
      (if negb spec && negb (m_started mm) then start_match rand fuel r
       else reply client (columnMessage mm) ;;
            for_each (m_captured mm) (fun p => reply client (capturedMessage p))) ;;
      m ← get_match r;
      when (negb spec && negb (mo_hidden (m_options m))) (broadcast (match_state m)))
      (fun _ => kept s) (fun _ _ => False) t').
    { intros t' Ht'. apply wp_bind. eapply wp_sendBoard; [exact Hl|exact Ht'|]. intros t5 H5.
      apply wp_bind. eapply (wp_join_start rand s r m client spec); [done..|]. intros m' t6 H6 Hr Ho Hp.
      by eapply (wp_joined s r m client spec). }
    apply wp_when. destruct (isReady mm); [|by apply Hboard].
    eapply wp_sendAll; [exact Hl|exact Ht|exact Hboard]. }
  apply wp_bind, wp_when. destruct spec; cbn [negb] in *; [by apply Hrest|].
  eapply wp_reply; [exact H3|exact Hrest].
Qed.

(** ** Creating *)

(** The match as [createMatch] puts it into the tables. *)
Definition created (client : Z) (color : Color) (m : chess_match) : chess_match :=
  set_players (Some (MkPlayer color Host (HumanPlayer client))) (m_guest m) m.

Lemma initial_placed : placed initial_board.
Proof. apply placed_check. by vm_compute. Qed.

Lemma initial_moves m : m_board m = initial_board -> anyCanMove m = true.
Proof.
  intros Hb. unfold anyCanMove, can_move_from. rewrite Hb.
  destruct (m_currentTurn m); vm_compute; reflexivity.
Qed.

(** A new match of each type, with its host. *)
Lemma created_new c id hidden noskip column_count color client guest turn :
  (forall p, guest = Some p -> pl_role p = Guest /\ (is_program p <-> c = AIMatch)) ->
  (c = AIMatch -> is_Some guest) -> (c = NullMatch -> turn = color) -> human_ids guest = [] ->
  let m := ChessMatch (MatchOptions c id hidden noskip color column_count) None guest turn
             initial_board None [] false false [] [] in
  let m1 := created client color m in
  match_ok m1 /\ isActive m1 = true /\ anyCanMove m1 = true /\ people m1 = [client].
Proof.
  intros Hg Ha Hn Hh m m1. split; [split|split; [|split]].
  - exact initial_placed.
  - intros p [= <-]. split; [done|]. by intros [].
  - exact Hg.
  - exact Ha.
  - exact Hn.
  - unfold isActive. cbn [m1 created m set_players m_options mo_class m_host]. by destruct c.
  - by apply initial_moves.
  - unfold people. cbn [m1 created m set_players m_host m_guest m_spectators human_ids pl_class].
    by rewrite Hh.
Qed.

Lemma make_match_new type id hidden noskip column_count color client m :
  make_match type id hidden noskip column_count color = Some m ->
  let m1 := created client color m in
  mo_matchID (m_options m1) = id /\ mo_columnCount (m_options m1) = column_count /\
  m_over m1 = false /\ m_winnerColor m1 = None /\ m_started m1 = false /\
  match_ok m1 /\ isActive m1 = true /\ anyCanMove m1 = true /\ people m1 = [client].
Proof.
  intros Hmk. unfold make_match in Hmk. fold initial_board in Hmk.
  repeat (case_bool_decide; [injection Hmk as <-|]); try done;
    (do 5 (split; [reflexivity|])); apply created_new; try done;
    try (by intros p [= <-]); by eexists.
Qed.

Section creating.
Context (s : chess) (Hwf : chess_wf s) (client : Z) (Hlive : client ∈ ch_live s).
Context (Hnew : ch_matchesByClient s !! client = None).
Context (id : bytes) (Hid : ch_matchesByID s !! id = None).

Definition listed (m : chess_match) : chess :=
  with_byClient (insert client (ch_next s))
    (with_byID (insert id (ch_next s)) (new_match m s)).

Lemma created_wf m m' s' :
  mo_matchID (m_options m) = id -> people m = [client] ->
  m_options m' = m_options m -> people m' = people m -> running m' ->
  playing (listed m) (ch_next s) m' s' -> kept s s'.
Proof.
  intros Hi Hp Ho Hp' Hrun (d & o & ->). split; [|done].
  assert (Hfresh : ch_matches s !! ch_next s = None).
  { destruct (ch_matches s !! ch_next s) as [mo|] eqn:E; [|done]. apply (wf_next s Hwf) in E. lia. }
  eapply (wf_changed s (ch_next s) m' true); [done| |done|].
  - split.
    + intros i Hi'. destruct (wf_id s Hwf _ _ Hi') as (mo & Hmo & _). congruence.
    + intros r' Hr'. rewrite Ho, Hi in Hr'. congruence.
    + intros c Hc. rewrite Hp', Hp in Hc. apply list_elem_of_singleton in Hc as ->. auto.
  - split; cbn.
    + by rewrite insert_insert_eq.
    + lia.
    + done.
    + intros i Hne. apply lookup_insert_ne. congruence.
    + rewrite Ho, Hi. apply lookup_insert_eq.
    + intros c. rewrite Hp', Hp. destruct (decide (c = client)) as [->|Hne].
      * rewrite lookup_insert_eq, bool_decide_true; [done|left].
      * rewrite lookup_insert_ne by done. rewrite bool_decide_false by by intros ?%list_elem_of_singleton.
        rewrite bool_decide_false; [done|]. intros Hc.
        destruct (wf_client s Hwf c _ Hc) as (mo & Hmo & _). congruence.
Qed.

Lemma listed_at m : at_match (listed m) (ch_next s) m (listed m).
Proof. apply at_match_start. apply lookup_insert_eq. Qed.

Lemma listed_all_live m : people m = [client] -> all_live (listed m) m.
Proof. intros Hp c Hc. rewrite Hp in Hc. by apply list_elem_of_singleton in Hc as ->. Qed.
End creating.

Lemma wp_createMatch rand fuel client id column_count color hidden noskip type s :
  chess_wf s -> client ∈ ch_live s ->
  wp (createMatch rand fuel client id column_count color hidden noskip type)
    (fun _ => kept s) (fun _ _ => False) s.
Proof.
  intros Hwf Hlive. unfold createMatch.
  apply wp_if; [by apply wp_reply_kept|].
  destruct ((column_count <? 1) || (8 <? column_count))%Z eqn:Ecount; [by apply wp_reply_kept|].
  apply orb_false_iff in Ecount as [Hc1%Z.ltb_ge Hc2%Z.ltb_ge].
  apply wp_bind, wp_get. case_bool_decide as Enew; [by apply wp_reply_kept|].
  apply eq_None_not_Some in Enew. case_bool_decide as Eid; [by apply wp_reply_kept|].
  apply eq_None_not_Some in Eid.
  destruct (make_match _ _ _ _ _ _) as [m0|] eqn:Emk; [|by apply wp_reply_kept].
  destruct (make_match_new _ _ _ _ _ _ client m0 Emk)
    as (Hi & Hcount & Hover & Hwin & Hst & Hok & Hact & Hany & Hp).
  set (m := created client color m0) in *. set (r := ch_next s).
  apply wp_bind, wp_modify, wp_bind.
  eapply (wp_modify_match (new_match m0 s) r m0); [apply at_match_start; apply lookup_insert_eq|].
  intros t (o & ->). apply wp_bind, wp_modify, wp_bind, wp_modify.
  set (s1 := listed s client id m).
  assert (H0 : at_match s1 r m (with_byClient (insert client r) (with_byID (insert id r)
    (Chess (<[r := m]> (ch_matches (new_match m0 s))) (ch_next (new_match m0 s))
      (ch_matchesByID (new_match m0 s)) (ch_matchesByClient (new_match m0 s))
      (ch_connections (new_match m0 s)) (ch_clients (new_match m0 s)) (ch_live (new_match m0 s))
      (ch_draws (new_match m0 s)) o)))).
  { exists o. unfold s1, listed, with_byClient, with_byID, new_match. cbn. by rewrite !insert_insert_eq. }
  pose proof (listed_all_live s client Hlive id m Hp) as Hl. fold s1 in Hl.
  assert (Hwait : isReady m = false -> running m).
  { intros Hr. split; [done|done|done|done|by rewrite Hcount|congruence|done]. }
  assert (Hk : forall m' t, playing s1 r m' t -> running m' -> m_options m' = m_options m ->
    people m' = people m -> kept s t).
  { intros m' t Ht Hr Ho' Hp'. by eapply (created_wf s Hwf client Hlive Enew id Eid m m'). }
  apply wp_bind. eapply wp_reply; [exact H0|]. intros t1 H1.
  apply wp_bind. eapply wp_get_match; [exact H1|].
  apply wp_bind.
  assert (Hrest : forall t, at_match s1 r m t -> wp
    (if isReady m then
      reply client (lit ":Start") ;; sendAll r (turnMessage m) ;; sendBoard r ;;
      start_match rand fuel r ;;
      m ← get_match r;
      if mo_hidden (m_options m) then mret tt else broadcast (match_state m)
    else sendBoard r) (fun _ => kept s) (fun _ _ => False) t).
  { intros t Ht. destruct (isReady m) eqn:Er.
    - apply wp_bind. eapply wp_reply; [exact Ht|]. intros t2 H2.
      apply wp_bind. eapply wp_sendAll; [exact Hl|exact H2|]. intros t3 H3.
      apply wp_bind. eapply wp_sendBoard; [exact Hl|exact H3|]. intros t4 H4.
      apply wp_bind. eapply wp_start_match; [exact H4|exact Hl|exact Hany|].
      intros columns t5 [d H5] [Hcols Hcan]. apply wp_bind. eapply wp_get_match; [exact H5|].
      assert (Hr : running (set_columns columns (set_started true m))).
      { split; [split; apply Hok|done|done|done|by change (1 <= mo_columnCount (m_options m) <= 8)%Z; rewrite Hcount|done|done]. }
      assert (Hk' : forall t, at_match (with_draws d s1) r (set_columns columns (set_started true m)) t ->
        kept s t) by (intros t6 H6; eapply Hk; [by exists d|done|done|done]).
      apply wp_if; [by apply wp_ret, Hk'|]. by eapply wp_broadcast.
    - eapply wp_sendBoard; [exact Hl|exact Ht|]. intros t2 H2.
      eapply Hk; [by eapply at_match_playing|by apply Hwait|done|done]. }
  apply wp_if; [by apply wp_ret, Hrest|]. eapply wp_broadcast; [exact H1|exact Hrest].
Qed.

(** ** Moving *)

Lemma round_running m who m' : running m -> round who m m' -> same_seats m m' /\ running m'.
Proof.
  intros Hrun (m1 & Hp & Hrtc & _).
  destruct (plies_seats _ _ _ _ (run_ok m Hrun) Hp Hrtc) as (Hok & Hs & Hcan & Hcols).
  split; [done|]. destruct Hs as [So Sp Sov Sst Sw Sr Sa]. split; [done|..].
  - rewrite Sa. apply Hrun.
  - rewrite Sov. apply Hrun.
  - rewrite Sw. apply Hrun.
  - rewrite So. apply Hrun.
  - intros _. unfold count. by rewrite So.
  - rewrite Sst. intros Hst. destruct (run_waiting m Hrun Hst) as [Hr _].
    destruct Hp as [mv p turn columns [[Hready _] _] _ _ _]. congruence.
Qed.

(** A client that only watches. *)
Definition only_watches (s : chess) (client : Z) : Prop :=
  exists r m, ch_matchesByClient s !! client = Some r /\ ch_matches s !! r = Some m /\
    is_human client (m_host m) = false /\ is_human client (m_guest m) = false.

Definition not_a_player : exn := RuntimeError (lit "Couldn't find player for connection").

(** What may leave the handler: only a spectator's move. *)
Definition watching_throws (s : chess) (client : Z) (e : exn) (s' : chess) : Prop :=
  s' = s /\ e = not_a_player /\ only_watches s client.

Lemma wp_handle_move rand fuel client words s :
  chess_wf s ->
  wp (handle_move rand fuel client words) (fun _ => kept s) (watching_throws s client) s.
Proof.
  intros Hwf. unfold handle_move.
  apply wp_if; [by apply wp_reply_kept|]. apply wp_if; [by apply wp_reply_kept|].
  apply wp_bind, wp_get. destruct (ch_matchesByClient s !! client) as [r|] eqn:Ec; [|by apply wp_reply_kept].
  destruct (wf_client s Hwf _ _ Ec) as (m & Hm & Hin & Hid).
  pose proof (listed_running s Hwf r m Hm Hid) as Hrun. pose proof (listed_live s Hwf r m Hm Hid) as Hl.
  apply wp_catch, wp_bind. eapply (wp_get_match s r m); [by apply at_match_start|].
  apply wp_bind. unfold getPlayer.
  set (mv := MkMove _ _).
  assert (Hmove : forall who, wp (makeMove rand fuel r who mv) (fun _ => kept s)
    (fun e s' => match (match e with
                        | ChessError what => Some (reply client (lit ":Error " ++ what))
                        | _ => None
                        end) with
                 | Some k => wp k (fun _ => kept s) (watching_throws s client) s'
                 | None => watching_throws s client e s'
                 end) s).
  { intros who. eapply wp_mono; [apply (makeMove_spec rand fuel s r m); [done|apply Hrun|done|apply Hrun]| |].
    - intros [] s' (m' & [[Hp Hround]|[(_ & byClient & Ht & Hw) Hround]]).
      + destruct (round_running m who m' Hrun Hround) as [Hs Hrun'].
        split; [by eapply (playing_wf s Hwf r m)|]. by destruct Hp as (d & o & ->).
      + destruct (last_round_people who m m' (run_ok m Hrun) Hround) as [Ho Hpe].
        rewrite Ho in Ht. rewrite Hpe in Hw. split; [|by destruct Ht as (d & o & ->)].
        eapply (ended_wf s Hwf r m Hm Hid m'); [done|done|done|]. intros c Hc. by rewrite <- Hpe.
    - intros e s' (-> & [what ->] & _). by apply wp_reply_kept. }
  destruct (is_human client (m_host m)) eqn:Eh; [by apply wp_lift, Hmove|].
  destruct (is_human client (m_guest m)) eqn:Eg; [by apply wp_lift, Hmove|].
  change (watching_throws s client not_a_player s). split; [done|]. split; [done|]. by exists r, m.
Qed.

(** ** Reading *)

(** Only messages have been sent. *)
Definition only_sent (s s' : chess) : Prop :=
  exists out, s' = Chess (ch_matches s) (ch_next s) (ch_matchesByID s) (ch_matchesByClient s)
    (ch_connections s) (ch_clients s) (ch_live s) (ch_draws s) out.

Lemma only_sent_kept s s' : chess_wf s -> only_sent s s' -> kept s s'.
Proof. intros Hwf (o & ->). split; [by apply (wf_same s)|done]. Qed.

Lemma wp_reply_sent {D} client message s s' E :
  only_sent s s' -> wp_in D (reply client message) (fun _ => only_sent s) E s'.
Proof. intros (o & ->). apply wp_modify. by exists (o ++ [(client, message)]). Qed.

Lemma wp_get_matches {D} client s E :
  chess_wf s -> wp_in D (get_matches client) (fun _ => kept s) E s.
Proof.
  intros Hwf. unfold get_matches. apply wp_bind.
  eapply wp_mono; [apply (wp_reply_sent client _ s s E); by exists (ch_out s); destruct s| |done].
  intros [] s1 H1. apply wp_bind, wp_get.
  eapply wp_mono; [apply (wp_for_each _ _ (only_sent s) E s1 H1)| |done].
  - intros [id r] s2 Hin H2. apply elem_of_map_to_list in Hin.
    destruct H1 as (o1 & ->), H2 as (o2 & ->).
    destruct (wf_id s Hwf id r Hin) as (m & Hm & _). unfold get_match.
    apply wp_bind, wp_bind, wp_get. cbn [snd ch_matches]. rewrite Hm. apply wp_ret.
    apply wp_if; [apply wp_ret; by exists o2|]. apply wp_reply_sent. by exists o2.
  - intros [] s2 H2. by apply only_sent_kept.
Qed.

Lemma wp_get_fen {D} client s E :
  chess_wf s -> wp_in D (get_fen client) (fun _ => kept s) E s.
Proof.
  intros Hwf. unfold get_fen. apply wp_bind, wp_get.
  destruct (ch_matchesByClient s !! client) as [r|] eqn:Ec; [|by apply wp_reply_kept].
  destruct (wf_client s Hwf _ _ Ec) as (m & Hm & _).
  apply wp_bind. eapply (wp_get_match s r m); [by apply at_match_start|]. by apply wp_reply_kept.
Qed.

Lemma wp_leaveMatch {D} client s E :
  chess_wf s -> wp_in D (leaveMatch client) (fun _ => kept s) E s.
Proof.
  intros Hwf. unfold leaveMatch. apply wp_bind, wp_get.
  destruct (ch_matchesByClient s !! client) as [r|] eqn:Ec; [|by apply wp_ret].
  eapply wp_mono; [by apply wp_leave| |done]. by intros [] s' (H1 & _ & H2).
Qed.

(** ** Messages *)

(** Both branches of the conditionals at the head of the goal. *)
Ltac wp_ifs :=
  match goal with |- wp_in _ (if _ then _ else _) _ _ _ => apply wp_if end.

Lemma wp_dispatch_message rand fuel client words s :
  chess_wf s -> client ∈ ch_live s -> words <> [] ->
  wp (dispatch_message rand fuel client words) (fun _ => kept s) (watching_throws s client) s.
Proof.
  intros Hwf Hl Hw. unfold dispatch_message, create_from, invalid_message.
  destruct words as [|verb rest]; [done|]. set (words := verb :: rest) in *.
  assert (Hcreate : forall i n c h k t, wp (createMatch rand fuel client i n c h k t) (fun _ => kept s)
    (watching_throws s client) s) by (intros; eapply wp_mono; [by apply wp_createMatch|done|done]).
  assert (Hjoin : forall i b, wp (joinMatch rand fuel client i b) (fun _ => kept s)
    (watching_throws s client) s) by (intros; eapply wp_mono; [by apply wp_joinMatch|done|done]).
  repeat wp_ifs; try (by apply wp_reply_kept); try apply Hcreate; try apply Hjoin.
  - apply wp_bind, wp_get. wp_ifs; [apply Hjoin|apply Hcreate].
  - by apply wp_handle_move.
  - by apply wp_get_matches.
  - by apply wp_get_fen.
  - by apply wp_leaveMatch.
Qed.

Lemma split_words rest : exists words, split rest (lit " ") true = Ret words /\ (words = [] -> rest = []).
Proof.
  destruct (decide (rest = [])) as [->|Hne]; [by exists []|].
  destruct (split_total rest (lit " ")) as (p & ps & _ & Hs); [done|done|]. rewrite Hs. by eexists.
Qed.

Lemma handleMessage_spec rand fuel client message not_disabled s :
  chess_wf s -> client ∈ ch_live s -> message <> lit ":" ->
  wp (handleMessage rand fuel client message not_disabled) (fun _ => kept s)
    (watching_throws s client) s.
Proof.
  intros Hwf Hl Hmsg. unfold handleMessage. apply wp_if; [by apply wp_ret|].
  assert (Hinvalid : wp (invalid_message client ;; mret CApprove) (fun _ => kept s)
                        (watching_throws s client) s).
  { apply wp_bind. eapply wp_mono; [by apply wp_reply_kept|by intros|done]. }
  destruct message as [|c rest]; [exact Hinvalid|].
  destruct (decide (c = ":"%char)) as [->|Hne].
  - destruct (split_words rest) as (words & Hs & Hw). apply wp_bind. rewrite Hs. apply wp_lift, wp_bind.
    eapply wp_mono; [apply wp_dispatch_message; [done|done|]| |done].
    + intros ->. apply Hmsg. by rewrite Hw.
    + intros []. by intros.
  - destruct c as [[] [] [] [] [] [] [] []]; try exact Hinvalid. done.
Qed.

Lemma handleClose_spec {D} client s E :
  chess_wf s ->
  wp_in D (handleClose client)
    (fun _ s' => chess_wf s' /\ ch_matchesByClient s' !! client = None /\ ch_live s' = ch_live s) E s.
Proof.
  intros Hwf. unfold handleClose. apply wp_bind, wp_modify, wp_bind, wp_get.
  set (s1 := with_connections _ s). assert (Hwf1 : chess_wf s1) by by apply (wf_same s).
  change (ch_live s) with (ch_live s1).
  destruct (ch_matchesByClient s1 !! client) as [r|] eqn:Ec; [|by apply wp_ret].
  by apply wp_leave.
Qed.

(** ** The plugin as a state machine *)

Definition set_live (live : gset Z) (s : chess) : chess :=
  Chess (ch_matches s) (ch_next s) (ch_matchesByID s) (ch_matchesByClient s) (ch_connections s)
    (ch_clients s) live (ch_draws s) (ch_out s).

Definition no_chess : chess := Chess ∅ 0 ∅ ∅ ∅ ∅ ∅ 0 [].

(** A client connects and chooses the protocol; a connected client sends a
    message, which the handler may leave with an exception; or a client's
    connection is closed, after which the network server forgets it. *)
Inductive chess_step (rand : nat -> N) : chess -> chess -> Prop :=
| step_connect client s :
    chess_step rand s (with_connections (fun l => {[client]} ∪ l) (set_live ({[client]} ∪ ch_live s) s))
| step_message fuel client message not_disabled result s s' :
    client ∈ ch_live s -> message <> lit ":" ->
    handleMessage rand fuel client message not_disabled s = (Ret result, s') ->
    chess_step rand s s'
| step_exception fuel client message not_disabled e s s' :
    client ∈ ch_live s -> message <> lit ":" ->
    handleMessage rand fuel client message not_disabled s = (Throw e, s') ->
    chess_step rand s s'
| step_close client s s' :
    handleClose client s = (Ret tt, s') ->
    chess_step rand s (set_live (ch_live s' ∖ {[client]}) s').

Lemma wf_no_chess : chess_wf no_chess.
Proof. by split. Qed.

Lemma wf_live_grows s client : chess_wf s -> chess_wf (set_live ({[client]} ∪ ch_live s) s).
Proof.
  intros [Wi Wc Wp Wn]. split; [done|done| |done]. intros id r m c H1 H2 H3.
  destruct (Wp id r m c H1 H2 H3). split; [done|].
  apply elem_of_union. by right.
Qed.

Lemma wf_live_shrinks s client :
  chess_wf s -> ch_matchesByClient s !! client = None -> chess_wf (set_live (ch_live s ∖ {[client]}) s).
Proof.
  intros [Wi Wc Wp Wn] Hnone. split; [done|done| |done]. intros id r m c H1 H2 H3.
  destruct (Wp id r m c H1 H2 H3) as [Hc Hl]. split; [done|]. cbn.
  apply elem_of_difference. split; [done|]. rewrite elem_of_singleton. intros ->. congruence.
Qed.

(** C13: In every state the plugin can reach, its tables agree: each name leads to
    a match of that name that is not over and whose board, seats and columns are
    in order; a client's entry leads to a listed match the client plays or
    watches; everyone in a listed match has that entry and is connected. *)
Theorem tables_agree rand s : rtc (chess_step rand) no_chess s -> chess_wf s.
Proof.
  intros H. remember no_chess as s0 eqn:E. assert (H0 : chess_wf s0) by (subst; apply wf_no_chess).
  clear E. induction H as [|s1 s2 s3 H12 _ IH]; [done|]. apply IH. clear IH.
  destruct H12 as [client s|fuel client message b result s s' Hl Hm E|fuel client message b e s s' Hl Hm E
    |client s s' E].
  - apply (wf_same (set_live ({[client]} ∪ ch_live s) s)); [done..|]. by apply wf_live_grows.
  - pose proof (handleMessage_spec rand fuel client message b s H0 Hl Hm) as Hs.
    unfold wp_in in Hs. rewrite E in Hs. apply Hs.
  - pose proof (handleMessage_spec rand fuel client message b s H0 Hl Hm) as Hs.
    unfold wp_in in Hs. rewrite E in Hs. by destruct Hs as [-> _].
  - pose proof (@handleClose_spec False client s (fun _ _ => False) H0) as Hs.
    unfold wp_in in Hs. rewrite E in Hs. destruct Hs as (Hwf & Hnone & _).
    by apply wf_live_shrinks.
Qed.

(** C31: A message of a connected client keeps the tables in agreement, never runs
    into undefined behaviour, and never fails to reach somebody; the one exception
    that can leave the handler is that of a spectator who tries to move, and then
    nothing has changed. *)
Theorem handleMessage_safe rand fuel client message not_disabled s :
  chess_wf s -> client ∈ ch_live s -> message <> lit ":" ->
  wp (handleMessage rand fuel client message not_disabled)
    (fun _ s' => chess_wf s' /\ ch_live s' = ch_live s)
    (fun e s' => s' = s /\ e = not_a_player /\ only_watches s client) s.
Proof. apply handleMessage_spec. Qed.

(** When a connection is closed the handler returns, the tables agree, and the
    client is in none of them and in no listed match. *)
Theorem handleClose_forgets client s :
  chess_wf s -> exists s', handleClose client s = (Ret tt, s') /\ chess_wf s' /\
    ch_matchesByClient s' !! client = None /\
    forall id r m, ch_matchesByID s' !! id = Some r -> ch_matches s' !! r = Some m ->
      client ∉ people m.
Proof.
  intros Hwf. pose proof (@handleClose_spec False client s (fun _ _ => False) Hwf) as Hs.
  apply twp_run in Hs as ([] & s' & E & Hwf' & Hnone & _).
  exists s'. split; [done|]. split; [done|]. split; [done|]. intros id r m Hid Hm Hin.
  destruct (wf_people s' Hwf' id r m client Hid Hm Hin). congruence.
Qed.

(** The message that is a colon alone makes the handler read the first of no
    words; a spectator who sends a move makes it throw. *)
Theorem handleMessage_unguarded rand fuel client s :
  handleMessage rand fuel client (lit ":") true s = (Undef, s) /\
  (forall r m, ch_matchesByClient s !! client = Some r -> ch_matches s !! r = Some m ->
   is_human client (m_host m) = false -> is_human client (m_guest m) = false ->
   handleMessage rand fuel client (lit ":Move 60 50") true s = (Throw not_a_player, s)).
Proof.
  split; [reflexivity|]. intros r m Hc Hm Hh Hg. unfold handleMessage. cbn [negb].
  change (lit ":Move 60 50") with (":"%char :: lit "Move 60 50"). cbv iota.
  assert (E : split (lit "Move 60 50") (lit " ") true = Ret [lit "Move"; lit "60"; lit "50"])
    by (vm_compute; reflexivity).
  mrun. rewrite E. unfold dispatch_message.
  repeat match goal with |- context [bool_decide (lit "Move" = ?w)] =>
    first [rewrite (bool_decide_false (lit "Move" = w)) by discriminate
          |rewrite (bool_decide_true (lit "Move" = w)) by reflexivity] end.
  unfold handle_move, get_match, getPlayer. mrun. cbn [length Nat.eqb negb word].
  change (is_square_word (word [lit "Move"; lit "60"; lit "50"] 1) &&
          is_square_word (word [lit "Move"; lit "60"; lit "50"] 2)) with true. cbn [negb].
  rewrite Hc, Hm, Hh, Hg. reflexivity.
Qed.

(** ** Examples *)

(** A client has connected, and creates a match. *)
Definition connected_chess : chess :=
  with_connections (fun l => {[1%Z]} ∪ l) (set_live ({[1%Z]} ∪ ch_live no_chess) no_chess).
Definition create_message : bytes := lit ":Create m 3 white public noskip human".
Definition created_chess : chess :=
  (handleMessage example_rand 5 1 create_message true connected_chess).2.

Lemma connected_wf : chess_wf connected_chess.
Proof.
  apply (wf_same (set_live ({[1%Z]} ∪ ch_live no_chess) no_chess)); [done..|].
  apply wf_live_grows, wf_no_chess.
Qed.

Lemma connected_live : 1%Z ∈ ch_live connected_chess.
Proof. refine (bool_decide_unpack _ _). vm_compute. exact I. Qed.

Lemma create_runs :
  handleMessage example_rand 5 1 create_message true connected_chess = (Ret CApprove, created_chess).
Proof. vm_compute. reflexivity. Qed.

Lemma created_chess_wf : chess_wf created_chess.
Proof.
  pose proof (handleMessage_spec example_rand 5 1 create_message true _ connected_wf connected_live
                ltac:(discriminate)) as H.
  unfold wp_in in H. rewrite create_runs in H. apply H.
Qed.

Lemma tables_agree_witness :
  rtc (chess_step example_rand) no_chess created_chess /\
  ch_matchesByID created_chess !! lit "m" = Some 0 /\ chess_wf created_chess.
Proof.
  assert (H : rtc (chess_step example_rand) no_chess created_chess).
  { eapply rtc_l; [apply (step_connect _ 1%Z)|]. eapply rtc_l; [|apply rtc_refl].
    eapply step_message; [exact connected_live| |exact create_runs]. discriminate. }
  split; [exact H|]. split; [vm_compute; reflexivity|]. exact (tables_agree _ _ H).
Defined.

Lemma handleMessage_safe_witness :
  wp (handleMessage example_rand 5 1 create_message true)
    (fun _ s' => chess_wf s' /\ ch_live s' = ch_live connected_chess)
    (fun e s' => s' = connected_chess /\ e = not_a_player /\ only_watches connected_chess 1)
    connected_chess.
Proof.
  apply handleMessage_safe; [exact connected_wf|exact connected_live|]. discriminate.
Defined.

Lemma handleClose_forgets_witness :
  exists s', handleClose 1 created_chess = (Ret tt, s') /\ chess_wf s' /\
    ch_matchesByClient s' !! 1%Z = None /\
    forall id r m, ch_matchesByID s' !! id = Some r -> ch_matches s' !! r = Some m -> 1%Z ∉ people m.
Proof. apply handleClose_forgets. exact created_chess_wf. Defined.

Definition watched_match : chess_match := set_spectators [3%Z] example_match.
Definition watched_chess : chess :=
  Chess {[0 := watched_match]} 1 {[lit "m" := 0]} {[1%Z := 0; 2%Z := 0; 3%Z := 0]} ∅ ∅
    {[1%Z; 2%Z; 3%Z]} 0 [].

Lemma handleMessage_unguarded_witness :
  handleMessage example_rand 5 3 (lit ":Move 60 50") true watched_chess
  = (Throw not_a_player, watched_chess).
Proof.
  destruct (handleMessage_unguarded example_rand 5 3 watched_chess) as [_ H].
  apply (H 0 watched_match); reflexivity.
Defined.
